(* ===== verification/_CoqProject ===== *)
-Q . S2P
Prelude.v
GoText.v
GoFmt.v
GoJson.v
GoStrings.v
ApiTypes.v
SecretUtil.v
CryptoFixture.v
SecretUtilSpec.v
GoTime.v
GoParse.v
GoFlag.v
Token.v
GoPath.v
Provider.v
ProviderFixture.v
ProviderSpec.v
ControllerEnv.v
Conditions.v
StateHash.v
Reconciler.v
TokenFixture.v
TokenSpec.v
TokenConcurrent.v
TokenPreempted.v
ControllerFixture.v
ReconcilerSteps.v
ReconcilerSpec.v
Convergence.v
System.v
Polling.v
WorkQueue.v
Version.v
Metrics.v
Scheme.v
Main.v
