(* ===== verification/Prelude.v ===== *)
(** * Secrets Store Sync Controller: a verification development

    The controller (Go, under src/) keeps Kubernetes Secrets in step with an
    external secret store.  A SecretSync object names a SecretProviderClass, a
    service account and the files to copy; [Reconcile] asks a provider plugin for
    the files over gRPC, with a token of the service account, builds the data of
    the Secret, compares a hash of everything with the one in the status, and
    applies the Secret and writes the status.

    ** Conventions

    - A Go function that can fail returns a [result] or an [option error]; one
      that has effects is a [GoM S A]: a function of the state it can reach, that
      ends in a value or a panic.  [wp] states what holds of both.
    - Code outside src/ is a type class of operations, with a second class for
      the documented behaviour that is relied on; every property that has such
      hypotheses has a witness with a concrete instance (the Fixture files).
    - Go maps that are shared are references into a heap; nil and empty are
      different.  Go strings are byte strings.  [time.Duration] is [int64] with
      wrap-around; a [time.Time] is an unbounded number of nanoseconds.
    - Logging has no model; nor has the text of a panic beyond its message.

    ** Files

    - Prelude (this file): errors, results, the monad, [wp], its tactics and the
      hint database [go_wp] of operations that are unfolded when met.
    - GoText, GoFmt, GoJson, GoStrings, GoPath, GoTime, GoParse, GoFlag: the parts
      of the Go standard library the code uses: [%q], [%#v] of strings, FormatInt,
      hex, JSON of maps and bytes, Join, Split, TrimSpace, Contains, filepath.Join,
      durations; ParseBool, ParseInt, ParseDuration and package flag.  ParseDuration
      runs on the length of its text as fuel, each part of it takes a byte
      ([duration_loop_enough]).  Injectivity of every composed text goes through one theory of
      prefix codes in GoText.
    - ApiTypes: api/v1alpha1/secretsync_types.go and zz_generated.deepcopy.go.
      DeepCopy gives equal contents, shares nothing, changes nothing.
    - SecretUtil, SecretUtilSpec (instances: CryptoFixture):
      pkg/util/secretutil/secret.go.  [BuildKubeSecretData] exactly; what is
      extracted from PEM bundles; idempotence; the key that is lost.  The loops
      over PEM blocks run on the length of the text as fuel, each block is
      shorter by [PemLaws], and totality is proved.
    - Token, TokenSpec (TokenFixture): pkg/token/token_manager.go.  Cache keys
      identify requests; each call refines an abstract cache step
      ([token_step]); tokens never cross requests in any reachable manager; the
      refresh rule as arithmetic; clean-up; one token per audience.
      [SecretProviderServiceAccountTokenAttrs] and all that calls it are written
      and proved against the interface [TokenGetter], whose one method is
      [GetServiceAccountToken], with its laws.  TokenConcurrent: the calls split at
      the lock of the cache and interleaved with each other and with the clean-up
      goroutine; run one after the other the pieces are the call.  TokenPreempted:
      the implementation of [TokenGetter] that all properties of the controller
      are about: wherever a call does not hold the lock, any number of clean-ups
      may run and time may pass; the plain method is the other implementation.
    - Provider, ProviderSpec (ProviderFixture): pkg/provider/provider_client.go.
      [Get] is split where it takes and drops its lock and interleaved with other
      calls, clean-ups and the goroutine of [HealthCheck] ([sys_step]); what [Get]
      returns for every answer of the file system ([searched]); sockets stay in
      their folders; mount responses are read as specified; the leaked connection;
      the contexts and deferred cancels of [HealthCheck], which is a state with a
      stack of deferred calls.
    - ControllerEnv: the state of a reconcile, the Kubernetes client, the
      interface [AllClientBuilder] (implemented by the builder in
      ControllerFixture).  Every request to the API server and the provider is
      recorded in the state, with its answer.
    - Conditions: internal/controller/conditions.go.
    - StateHash: [computeCurrentStateHash]; equal hashes mean equal states, or the
      passwords and salts of these two states collide under PBKDF2.
    - Reconciler: the rest of internal/controller/secretsync_controller.go but
      the triggers.  ReconcilerSteps: the abstract outcomes
      ([reconcile_outcome]) and the refinement lemma [wp_Reconcile].
      ReconcilerSpec: the properties that follow (what is patched, when the hash
      is recorded, retries, settling, parameters) and the two cases where the
      status stays wrong.  The code patches for another hash or a failed condition;
      the comment of [SyncHash] (secretsync_types.go, lines 131 to 135) names a
      third reason, a rotation that is due by [LastSuccessfulSyncTime], which the
      code never looks at: the theorems state what the code does.  ControllerFixture: a cluster to run it in.
    - Convergence: sequences of runs; in a period without changes that starts
      without a reported failure ([startable]) only the first writes.
    - System: the controller over its whole life: runs one after the other,
      token clean-ups, restarts, crashes at any point of a run, while everything
      outside does as it likes ([running]).  What a status claims was done
      before; a Secret only gets data that was asked for with its own class and
      service account.
    - Polling: event predicates, the polling goroutine as a state machine,
      [SetupWithManager].
    - WorkQueue: a process as a whole ([ctl_step]): informer events and polls fill
      controller-runtime's work queue, a worker takes keys from it and runs
      [Reconcile], failures go back, the process may restart.  The queue is an
      interface ([WorkQueue], with laws that allow client-go's queue and one that
      keeps one entry per key).  No change of a SecretSync and no poll is
      lost, the queue empties, and then all is in sync; a deleted object is
      retried for ever.  Every such process is one of System.
    - Version: pkg/version/version.go.  Metrics: pkg/metrics.  Scheme:
      api/v1alpha1/groupversion_info.go and [init] of cmd/main.go.  Main:
      cmd/main.go, from the arguments of the process to its exit code: reading the
      flags, and what the Helm chart's give; the plan of requests to the libraries,
      and the deferred clean-up of the provider connections.

    ** Idealisations

    The clock does not go back, although the wall clock it is compared with can be
    set back ([ClockLaws]).  The server returns a status as it was sent, with its
    times not cut to seconds ([stored_as]).  An informer changes its cache and
    delivers the event in one moment ([informs]).  Deep copies share no map of a
    spec; slices and the maps of ObjectMeta are values or left out (ApiTypes).
    "Closed" is said of registered connections; the one a race drops is not
    ([Get_race]).

    ** Not modelled

    The set-up of the logger, what the flags of zap and controller-runtime do, and
    the usage text of package flag; the tickers and contexts of the background
    goroutines (their bodies, and what their selects choose, are steps).  One
    [Reconcile] runs at a time, as controller-runtime does by default; between two
    runs anything outside may change, and while one runs the clean-up of the token
    cache, events and polls go on.  hack/tools holds no code. *)

From stdpp Require Export base tactics strings pretty gmap list sorting.

Declare Scope go_scope.
Delimit Scope go_scope with go.

(** ** Go's [error] values *)

(** An [error] is its message ([errors.New], [fmt.Errorf]) or a message that
    wraps another error ([fmt.Errorf] with [%w]); messages are stored already
    formatted. *)
Inductive error : Type :=
| errors_New (msg : string)
| errorf_w (msg : string) (wrapped : error).

#[export] Instance error_eq_dec : EqDecision error.
Proof. solve_decision. Defined.

(** The method [Error()]. *)
Definition Error (e : error) : string :=
  match e with errors_New m => m | errorf_w m _ => m end.

(** [errors.Is(e, target)]: [target] occurs in the chain of wrapped errors. *)
Fixpoint errors_Is (e target : error) : bool :=
  bool_decide (e = target) ||
  match e with errorf_w _ w => errors_Is w target | errors_New _ => false end.

Lemma errors_Is_refl e : errors_Is e e = true.
Proof. destruct e; cbn [errors_Is]; by rewrite bool_decide_true. Qed.
Lemma errors_Is_wrap m e : errors_Is (errorf_w m e) e = true.
Proof. cbn [errors_Is]. by rewrite errors_Is_refl, orb_true_r. Qed.

(** The pair [(T, error)] of a Go function that returns a value or an error. *)
Inductive result (A : Type) : Type :=
| Ok (a : A)
| Err (e : error).
Arguments Ok {_} _.
Arguments Err {_} _.

Definition is_Ok {A} (r : result A) : bool := match r with Ok _ => true | Err _ => false end.

(** ** A state monad with Go panics

    The state is what the goroutine can reach (heap, caches, the outside
    world); a panic ends the call and keeps the effects made so far. *)
Inductive outcome (A : Type) : Type :=
| Val (a : A)
| Panic (msg : string).
Arguments Val {_} _.
Arguments Panic {_} _.

Definition GoM (S A : Type) : Type := S → outcome A * S.

#[export] Instance GoM_ret S : MRet (GoM S) := λ A a s, (Val a, s).
#[export] Instance GoM_bind S : MBind (GoM S) := λ A B f m s,
  match m s with
  | (Val a, s') => f a s'
  | (Panic p, s') => (Panic p, s')
  end.

Definition panic {S A} (msg : string) : GoM S A := λ s, (Panic msg, s).
Definition gets {S A} (f : S → A) : GoM S A := λ s, (Val (f s), s).
Definition modify {S} (f : S → S) : GoM S unit := λ s, (Val tt, f s).
(** An operation of the outside world or of another component, as a function
    of the whole state. *)
Definition act {S A} (f : S → A * S) : GoM S A := λ s, let '(a, s') := f s in (Val a, s').

(** A computed outcome. *)
Definition outcome_of {S A} (o : outcome A) : GoM S A := λ s, (o, s).

(** Weakest precondition of a computation: what holds of the outcome and of
    the state it leaves. *)
Definition wp {S A} (m : GoM S A) (Q : outcome A → S → Prop) (s : S) : Prop :=
  Q (m s).1 (m s).2.

Section wp.
Context {S : Type}.

Lemma wp_ret {A} (a : A) Q (s : S) : Q (Val a) s → wp (mret a) Q s.
Proof. done. Qed.

Lemma wp_panic {A} (p : string) (Q : outcome A → S → Prop) (s : S) : Q (Panic p) s → wp (panic p) Q s.
Proof. done. Qed.
Lemma wp_outcome_of {A} (o : outcome A) (Q : outcome A → S → Prop) (s : S) : Q o s → wp (outcome_of o) Q s.
Proof. done. Qed.
Lemma wp_gets {A} (f : S → A) Q (s : S) : Q (Val (f s)) s → wp (gets f) Q s.
Proof. done. Qed.
Lemma wp_modify (f : S → S) Q (s : S) : Q (Val tt) (f s) → wp (modify f) Q s.
Proof. done. Qed.
Lemma wp_act {A} (f : S → A * S) Q (s : S) : Q (Val (f s).1) (f s).2 → wp (act f) Q s.
Proof. unfold wp, act. by destruct (f s). Qed.

Lemma wp_bind {A B} (m : GoM S A) (f : A → GoM S B) Q (s : S) :
  wp m (λ o s', match o with Val a => wp (f a) Q s' | Panic p => Q (Panic p) s' end) s →
  wp (m ≫= f) Q s.
Proof. unfold wp, mbind, GoM_bind. destruct (m s) as [[a|p] s']; done. Qed.

Lemma wp_mono {A} (m : GoM S A) (Q1 Q2 : outcome A → S → Prop) (s : S) :
  wp m Q1 s → (∀ o s', Q1 o s' → Q2 o s') → wp m Q2 s.
Proof. unfold wp. eauto. Qed.

Lemma wp_conj {A} (m : GoM S A) (Q1 Q2 : outcome A → S → Prop) (s : S) :
  wp m Q1 s → wp m Q2 s → wp m (λ o s', Q1 o s' ∧ Q2 o s') s.
Proof. by split. Qed.

Lemma wp_run {A} (m : GoM S A) (Q : outcome A → S → Prop) (s : S) : wp m Q s → let '(o, s') := m s in Q o s'.
Proof. unfold wp. by destruct (m s). Qed.

Lemma bind_val {A B} (m : GoM S A) (f : A → GoM S B) (s s' : S) a :
  m s = (Val a, s') → (m ≫= f) s = f a s'.
Proof. intros H. unfold mbind, GoM_bind. by rewrite H. Qed.

Lemma bind_panic {A B} (m : GoM S A) (f : A → GoM S B) (s s' : S) p :
  m s = (Panic p, s') → (m ≫= f) s = (Panic p, s').
Proof. intros H. unfold mbind, GoM_bind. by rewrite H. Qed.
End wp.

(** Lemmas for the operations of a component are added here; their
    conclusions are [wp (operation ..) Q s] for any [Q]. *)
Create HintDb go_wp discriminated.

(** One step of a computation, by the syntax of its head. *)
Ltac wp_step :=
  lazymatch goal with
  | |- wp (mret _) _ _ => apply wp_ret
  | |- wp (panic _) _ _ => apply wp_panic
  | |- wp (outcome_of _) _ _ => apply wp_outcome_of
  | |- wp (gets _) _ _ => apply wp_gets
  | |- wp (modify _) _ _ => apply wp_modify
  | |- wp (act _) _ _ => apply wp_act
  | |- wp (_ ≫= _) _ _ => apply wp_bind
  | |- wp _ _ _ => progress (autounfold with go_wp)
  end; cbv beta iota.
Ltac wp_steps := repeat wp_step.

(** A statement on the outcome and final state of a run, as a [wp]. *)
Ltac run_wp := lazymatch goal with
  | |- match ?c ?s with (o, s') => @?P o s' end => apply (wp_run c P s); cbv beta
  end.

(** Where an element of two lists in a row is. *)
Lemma app_split_elem {A} (l1 l2 before after : list A) x :
  l1 ++ l2 = before ++ x :: after →
  (∃ l, l1 = before ++ x :: l ∧ after = l ++ l2) ∨ ∃ l, before = l1 ++ l ∧ l2 = l ++ x :: after.
Proof.
  intros [(l & -> & E)|(l & -> & ->)]%app_eq_inv; [|by right; exists l].
  destruct l as [|y l]; simplify_list_eq; [right; exists []|left; exists l]; by rewrite ?app_nil_r.
Qed.

(** A closed decidable statement, by computation. *)
Ltac by_deciding := refine (proj1 (bool_decide_eq_true _) _); vm_compute; reflexivity.
