(* ===== verification/GoText.v ===== *)
(** * Text functions of the Go standard library the controller uses

    Go strings are byte strings; they are Rocq [string]s, one [ascii] per
    byte.  The file holds the functions of [strings], [strconv],
    [unicode/utf8], [encoding/hex] that the code under src/ calls, and a small
    theory of prefix codes, which is how the injectivity of every composed
    text (cache keys, JSON, hash inputs) is proved. *)

From Stdlib Require Import Ascii.
From stdpp Require Import strings pretty list.
From S2P Require Import Prelude.

(** ** Strings *)

Lemma sapp_nil_l s : EmptyString +:+ s = s.
Proof. done. Qed.
Lemma sapp_cons a s t : String a s +:+ t = String a (s +:+ t).
Proof. done. Qed.
Lemma sapp_nil_r s : s +:+ EmptyString = s.
Proof. induction s as [|a s IH]; [done|]. by rewrite sapp_cons, IH. Qed.
Lemma sapp_assoc s t u : (s +:+ t) +:+ u = s +:+ (t +:+ u).
Proof. induction s as [|a s IH]; [done|]. by rewrite !sapp_cons, IH. Qed.
Lemma slength_app s t : String.length (s +:+ t) = String.length s + String.length t.
Proof. induction s as [|a s IH]; [done|]. rewrite sapp_cons. simpl. by rewrite IH. Qed.

#[export] Hint Rewrite sapp_nil_l sapp_nil_r sapp_cons sapp_assoc : go_text.
Ltac str_norm := autorewrite with go_text.

Definition byte_of (a : ascii) : N := N_of_ascii a.
Lemma byte_of_inj a b : byte_of a = byte_of b → a = b.
Proof. intros E. rewrite <- (ascii_N_embedding a), <- (ascii_N_embedding b). by f_equal. Qed.
Lemma byte_of_bound a : (byte_of a < 256)%N.
Proof. apply N_ascii_bounded. Qed.

(** Every byte of the string satisfies [p]. *)
Fixpoint all_chars (p : ascii → bool) (s : string) : bool :=
  match s with EmptyString => true | String a s => p a && all_chars p s end.

Lemma all_chars_app p s t : all_chars p (s +:+ t) = all_chars p s && all_chars p t.
Proof. induction s as [|a s IH]; [done|]. rewrite sapp_cons. simpl. by rewrite IH, andb_assoc. Qed.
Lemma all_chars_impl (p q : ascii → bool) s :
  (∀ a, p a = true → q a = true) → all_chars p s = true → all_chars q s = true.
Proof. intros H. induction s; simpl; [done|]. rewrite !andb_true_iff. naive_solver. Qed.

(** A check of all 256 bytes, by computation. *)
Definition all_bytes : list ascii := map ascii_of_nat (seq 0 256).
Lemma elem_of_all_bytes a : a ∈ all_bytes.
Proof.
  apply list_elem_of_fmap. exists (nat_of_ascii a). split.
  - by rewrite ascii_nat_embedding.
  - apply elem_of_seq. pose proof (nat_ascii_bounded a). lia.
Qed.
Lemma all_bytes_forallb (f : ascii → bool) : forallb f all_bytes = true → ∀ a, f a = true.
Proof.
  intros H a. eapply forallb_forall in H; [done|].
  apply list_elem_of_In, elem_of_all_bytes.
Qed.
Lemma all_bytes_forallb2 (f : ascii → ascii → bool) :
  forallb (λ a, forallb (f a) all_bytes) all_bytes = true → ∀ a b, f a b = true.
Proof. intros H a b. revert b. apply all_bytes_forallb. by apply (all_bytes_forallb _ H). Qed.

(** One string is a prefix of the other. *)
Definition comparable (s t : string) : bool := String.prefix s t || String.prefix t s.
Lemma prefix_app s t u : s +:+ t = u → String.prefix s u = true.
Proof.
  revert u. induction s as [|a s IH]; intros u <-; [by destruct t|].
  rewrite sapp_cons. simpl. destruct (ascii_dec a a); [|done]. eauto.
Qed.
Lemma sapp_comparable s t r u : s +:+ r = t +:+ u → comparable s t = true.
Proof.
  unfold comparable. revert t. induction s as [|a s IH]; intros [|b t]; try done.
  rewrite !sapp_cons. intros [= <- E%IH]. simpl. by destruct (ascii_dec a a).
Qed.

(** ** Prefix codes

    [enc] is a prefix code on [P]: what it writes can be read back from the
    front of a longer text, in one way. *)
Definition prefix_code {A} (P : A → Prop) (enc : A → string) : Prop :=
  ∀ a b r s, P a → P b → enc a +:+ r = enc b +:+ s → a = b ∧ r = s.

Section prefix_code.
Lemma prefix_code_inj {A} (P : A → Prop) enc a b :
  prefix_code P enc → P a → P b → enc a = enc b → a = b.
Proof.
  intros H ?? E. destruct (H a b EmptyString EmptyString) as [??]; [done..|by rewrite E|done].
Qed.

Lemma prefix_code_impl {A} (P Q : A → Prop) enc :
  (∀ a, Q a → P a) → prefix_code P enc → prefix_code Q enc.
Proof. intros HPQ H a b r s ??. apply H; auto. Qed.

Lemma prefix_code_lit {A} (P : A → Prop) enc lit :
  prefix_code P enc → prefix_code P (λ a, lit +:+ enc a).
Proof. intros H a b r s ??. rewrite !sapp_assoc. intros E%(inj _). by apply H. Qed.

Lemma prefix_code_lit_r {A} (P : A → Prop) enc lit :
  prefix_code P enc → prefix_code P (λ a, enc a +:+ lit).
Proof.
  intros H a b r s ??. rewrite !sapp_assoc. intros [-> E]%H; [|done..].
  by apply (inj _) in E.
Qed.

Lemma prefix_code_pair {A B} (P : A → Prop) (Q : B → Prop) f g :
  prefix_code P f → prefix_code Q g →
  prefix_code (λ x, P x.1 ∧ Q x.2) (λ x, f x.1 +:+ g x.2).
Proof.
  intros HP HQ [a b] [a' b'] r s [??] [??]. simpl in *. rewrite !sapp_assoc.
  intros [-> [-> ->]%HQ]%HP; done.
Qed.

Lemma prefix_code_comap {A B} (P : A → Prop) (enc : A → string) (f : B → A) :
  (∀ x y, P (f x) → P (f y) → f x = f y → x = y) →
  prefix_code P enc → prefix_code (λ x, P (f x)) (λ x, enc (f x)).
Proof.
  intros Hinj H a b r s Pa Pb E. destruct (H _ _ _ _ Pa Pb E) as [E' ->]. eauto.
Qed.

(** A text of bytes that satisfy [p], ended by a byte that does not. *)
Lemma delimited p d s t r u :
  p d = false → all_chars p s = true → all_chars p t = true →
  s +:+ String d r = t +:+ String d u → s = t ∧ r = u.
Proof.
  intros Hd. revert t. induction s as [|a s IH]; intros [|b t]; simpl;
    rewrite ?andb_true_iff; str_norm.
  - intros _ _ [=]. done.
  - intros _ [??] [= <- _]. congruence.
  - intros [??] _ [= <- _]. congruence.
  - intros [??] [??] [= <- E]. destruct (IH t) as [-> ->]; done.
Qed.

Lemma prefix_code_delim {A} (P : A → Prop) enc p d :
  (∀ a b, P a → P b → enc a = enc b → a = b) →
  (∀ a, P a → all_chars p (enc a) = true) →
  p d = false →
  prefix_code P (λ a, enc a +:+ String d EmptyString).
Proof.
  intros Hinj Hp Hd a b r s Pa Pb. str_norm.
  intros [E ->]%(delimited p); [|auto..]. eauto.
Qed.

(** The concatenation of the codes of a list, and a closing byte no code
    starts with. *)
Definition concat_enc {A} (enc : A → string) : list A → string :=
  foldr (λ a acc, enc a +:+ acc) EmptyString.

Definition starts_with (d : ascii) (s : string) : bool :=
  match s with String a _ => bool_decide (a = d) | EmptyString => true end.

Lemma starts_with_app d s r u : starts_with d s = false → s +:+ r ≠ String d u.
Proof.
  destruct s as [|a s]; simpl; [done|]. rewrite bool_decide_eq_false.
  intros Hn. rewrite sapp_cons. intros [=]; done.
Qed.

Lemma prefix_code_concat {A} (P : A → Prop) enc d :
  prefix_code P enc →
  (∀ a, P a → starts_with d (enc a) = false) →
  prefix_code (Forall P) (λ l, concat_enc enc l +:+ String d EmptyString).
Proof.
  intros H Hd l1. induction l1 as [|a l1 IH]; intros [|b l2] r s HP1 HP2;
    simpl; str_norm.
  - by intros [=].
  - apply Forall_cons in HP2 as [Pb _]. intros E. symmetry in E.
    by apply starts_with_app in E; [|auto].
  - apply Forall_cons in HP1 as [Pa _]. intros E.
    by apply starts_with_app in E; [|auto].
  - apply Forall_cons in HP1 as [Pa ?]. apply Forall_cons in HP2 as [Pb ?].
    intros [-> E]%H; [|done..].
    destruct (IH l2 r s) as [-> ->]; [done..| |done].
    by str_norm.
Qed.
End prefix_code.

(** ** [strings.Join] *)
Fixpoint Join (elems : list string) (sep : string) : string :=
  match elems with
  | [] => EmptyString
  | [s] => s
  | s :: rest => s +:+ sep +:+ Join rest sep
  end.

Lemma Join_cons s rest sep :
  Join (s :: rest) sep = s +:+ concat_enc (λ e, sep +:+ e) rest.
Proof.
  revert s. induction rest as [|t rest IH]; intros s; [by simpl; rewrite sapp_nil_r|].
  change (Join (s :: t :: rest) sep) with (s +:+ sep +:+ Join (t :: rest) sep).
  rewrite IH. simpl. by rewrite !sapp_assoc.
Qed.

(** A bracketed, separated list of codes is a prefix code. *)
Lemma prefix_code_join {A} (P : A → Prop) enc sep0 sep d :
  prefix_code P enc →
  (∀ a, P a → starts_with d (enc a) = false) →
  sep0 ≠ d →
  prefix_code (Forall P) (λ l, Join (map enc l) (String sep0 sep) +:+ String d EmptyString).
Proof.
  intros H Hd Hs l1 l2 r s HP1 HP2.
  assert (prefix_code (Forall P)
    (λ l, concat_enc (λ a, String sep0 sep +:+ enc a) l +:+ String d EmptyString)) as HC.
  { apply prefix_code_concat; [by apply prefix_code_lit|].
    intros a Pa. simpl. by apply bool_decide_eq_false. }
  assert (∀ l, concat_enc (λ e, String sep0 sep +:+ e) (map enc l) =
               concat_enc (λ a, String sep0 sep +:+ enc a) l) as Hmap.
  { induction l; simpl; congruence. }
  destruct l1 as [|a l1], l2 as [|b l2]; cbn [map];
    rewrite ?Join_cons, ?Hmap; simpl; str_norm.
  - by intros [=].
  - apply Forall_cons in HP2 as [Pb _]. intros E. symmetry in E.
    by apply starts_with_app in E; [|auto].
  - apply Forall_cons in HP1 as [Pa _]. intros E. by apply starts_with_app in E; [|auto].
  - apply Forall_cons in HP1 as [Pa ?]. apply Forall_cons in HP2 as [Pb ?].
    intros [-> E]%H; [|done..].
    destruct (HC l1 l2 r s) as [-> ->]; [done..| |done].
    by str_norm.
Qed.
