(* ===== verification/GoFmt.v ===== *)
(** * Formatting and UTF-8: [strconv], [unicode/utf8], [encoding/hex]

    [runes] splits a byte string the way [utf8.DecodeRuneInString] does,
    invalid bytes included.  [Quote] is [strconv.Quote] ([%q], and [%#v] of a
    string); [FormatInt] is base-10 [strconv.FormatInt]/[strconv.Itoa]. *)

From Stdlib Require Import Ascii ZifyBool.
From stdpp Require Import strings pretty list.
From S2P Require Import Prelude GoText.

(** ** [unicode/utf8] *)

(** What one call of [DecodeRuneInString] takes off a string: a rune of one to
    four bytes, or one byte that starts no valid encoding ([RuneError] of
    width 1). *)
Inductive rune : Type :=
| R1 (a : ascii)
| R2 (a b : ascii)
| R3 (a b c : ascii)
| R4 (a b c d : ascii)
| RBad (a : ascii).

#[export] Instance rune_eq_dec : EqDecision rune.
Proof. solve_decision. Defined.

Definition in_range (lo hi x : N) : bool := (lo <=? x)%N && (x <=? hi)%N.

Definition is_cont (b : ascii) : bool := in_range 0x80 0xBF (byte_of b).
Definition lead1 (a : ascii) : bool := (byte_of a <? 0x80)%N.
Definition lead2 (a b : ascii) : bool := in_range 0xC2 0xDF (byte_of a) && is_cont b.
(** The first byte of a three-byte rune and the accept range it gives the
    second byte: no overlong forms, no surrogates. *)
Definition lead3 (a b : ascii) : bool :=
  let x := byte_of a in let y := byte_of b in
  ((x =? 0xE0)%N && in_range 0xA0 0xBF y)
  || ((in_range 0xE1 0xEC x || in_range 0xEE 0xEF x) && in_range 0x80 0xBF y)
  || ((x =? 0xED)%N && in_range 0x80 0x9F y).
(** The same for four bytes: nothing above U+10FFFF. *)
Definition lead4 (a b : ascii) : bool :=
  let x := byte_of a in let y := byte_of b in
  ((x =? 0xF0)%N && in_range 0x90 0xBF y)
  || (in_range 0xF1 0xF3 x && in_range 0x80 0xBF y)
  || ((x =? 0xF4)%N && in_range 0x80 0x8F y).

Definition is3 (a b c : ascii) : bool := lead3 a b && is_cont c.
Definition is4 (a b c d : ascii) : bool := lead4 a b && is_cont c && is_cont d.

Fixpoint runes (s : string) : list rune :=
  match s with
  | EmptyString => []
  | String a s1 =>
    if lead1 a then R1 a :: runes s1 else
    match s1 with
    | EmptyString => RBad a :: runes s1
    | String b s2 =>
      if lead2 a b then R2 a b :: runes s2 else
      match s2 with
      | EmptyString => RBad a :: runes s1
      | String c s3 =>
        if is3 a b c then R3 a b c :: runes s3 else
        match s3 with
        | EmptyString => RBad a :: runes s1
        | String d s4 =>
          if is4 a b c d then R4 a b c d :: runes s4 else RBad a :: runes s1
        end
      end
    end
  end.

Definition rune_bytes (r : rune) : string :=
  match r with
  | R1 a | RBad a => String a EmptyString
  | R2 a b => String a (String b EmptyString)
  | R3 a b c => String a (String b (String c EmptyString))
  | R4 a b c d => String a (String b (String c (String d EmptyString)))
  end.

(** The code point: payload bits of the lead byte, six bits per
    continuation byte; [U+FFFD] for an invalid byte. *)
Definition rune_value (r : rune) : N :=
  match r with
  | R1 a => byte_of a
  | R2 a b => (byte_of a - 0xC0) * 64 + (byte_of b - 0x80)
  | R3 a b c => (byte_of a - 0xE0) * 4096 + (byte_of b - 0x80) * 64 + (byte_of c - 0x80)
  | R4 a b c d => (byte_of a - 0xF0) * 262144 + (byte_of b - 0x80) * 4096
                  + (byte_of c - 0x80) * 64 + (byte_of d - 0x80)
  | RBad _ => 0xFFFD
  end%N.

(** What [runes] produces. *)
Definition rune_wf (r : rune) : bool :=
  match r with
  | R1 a => lead1 a
  | R2 a b => lead2 a b
  | R3 a b c => is3 a b c
  | R4 a b c d => is4 a b c d
  | RBad a => negb (lead1 a)
  end.
Definition rune_ok (r : rune) : bool :=
  match r with RBad _ => false | _ => rune_wf r end.

(** [utf8.ValidString]. *)
Definition ValidString (s : string) : bool := forallb rune_ok (runes s).

(** Induction along [runes]: the tail of the string after one rune. *)
Lemma runes_ind (P : string → list rune → Prop) :
  P EmptyString [] →
  (∀ r s, rune_wf r = true → P s (runes s) → P (rune_bytes r +:+ s) (r :: runes s)) →
  ∀ s, P s (runes s).
Proof.
  intros H0 HS s. remember (String.length s) as n eqn:Hn.
  assert (String.length s ≤ n) as Hle by lia. clear Hn. revert s Hle.
  induction n as [|n IH]; intros [|a s1] Hle; simpl in Hle; try lia; try exact H0.
  assert (∀ r s, rune_wf r = true → String.length s ≤ n →
    P (rune_bytes r +:+ s) (r :: runes s)) as HS' by auto.
  clear HS. cbn [runes]. destruct (lead1 a) eqn:E1; [by apply (HS' (R1 a)); [|lia]|].
  assert (negb (lead1 a) = true) as HB by by rewrite E1.
  destruct s1 as [|b s2]; [by apply (HS' (RBad a)); [|lia]|]. simpl in Hle.
  destruct (lead2 a b) eqn:E2; [by apply (HS' (R2 a b)); [|lia]|].
  destruct s2 as [|c s3]; [by apply (HS' (RBad a)); [|simpl; lia]|]. simpl in Hle.
  destruct (is3 a b c) eqn:E3; [by apply (HS' (R3 a b c)); [|lia]|].
  destruct s3 as [|d s4]; [by apply (HS' (RBad a)); [|simpl; lia]|]. simpl in Hle.
  destruct (is4 a b c d) eqn:E4; [by apply (HS' (R4 a b c d)); [|lia]|].
  by apply (HS' (RBad a)); [|simpl; lia].
Qed.

Lemma runes_bytes s : concat_enc rune_bytes (runes s) = s.
Proof.
  apply (runes_ind (λ s l, concat_enc rune_bytes l = s)); [done|].
  intros r s' _ IH. simpl. by rewrite IH.
Qed.
Lemma runes_wf s : Forall (λ r, rune_wf r = true) (runes s).
Proof. apply (runes_ind (λ _ l, Forall (λ r, rune_wf r = true) l)); [constructor|]. intros. by constructor. Qed.
Lemma runes_inj s t : runes s = runes t → s = t.
Proof. intros E. rewrite <- (runes_bytes s), <- (runes_bytes t). by rewrite E. Qed.

Lemma runes_ascii s : all_chars lead1 s = true → runes s = R1 <$> String.list_ascii_of_string s.
Proof.
  induction s as [|a s IH]; [done|]. cbn [all_chars runes].
  intros [Ha Hs]%andb_true_iff. rewrite Ha. simpl. f_equal. auto.
Qed.
Lemma ValidString_ascii s : all_chars lead1 s = true → ValidString s = true.
Proof.
  intros H. unfold ValidString. rewrite (runes_ascii s H).
  induction s as [|a s IH]; [done|]. simpl in *. apply andb_true_iff in H as [-> Hs]. auto.
Qed.

(** Unfolds the byte classes to boolean arithmetic, which [lia] decides. *)
Ltac byte_arith :=
  cbv zeta delta [is3 is4 lead4 lead3 lead2 lead1 is_cont in_range] in *; cbv beta in *; lia.

(** A rune's first byte, as a number. *)
Definition rune_lead (r : rune) : N :=
  match r with R1 a | RBad a | R2 a _ | R3 a _ _ | R4 a _ _ _ => byte_of a end.

Lemma rune_lead_range r :
  rune_wf r = true →
  match r with
  | R1 _ => rune_lead r < 0x80
  | R2 _ _ => 0xC2 ≤ rune_lead r ≤ 0xDF
  | R3 _ _ _ => 0xE0 ≤ rune_lead r ≤ 0xEF
  | R4 _ _ _ _ => 0xF0 ≤ rune_lead r ≤ 0xF4
  | RBad _ => 0x80 ≤ rune_lead r
  end%N.
Proof. destruct r; cbn [rune_wf rune_lead]; intros H; byte_arith. Qed.

(** Valid runes are a prefix code. *)
Lemma rune_bytes_code : prefix_code (λ r, rune_ok r = true) rune_bytes.
Proof.
  intros x y r s Hx Hy E.
  assert (rune_wf x = true ∧ rune_wf y = true) as [Wx Wy] by (destruct x, y; done).
  pose proof (rune_lead_range x Wx) as Lx. pose proof (rune_lead_range y Wy) as Ly.
  destruct x, y; simpl in Hx, Hy; try discriminate; cbn [rune_lead rune_bytes] in *;
    autorewrite with go_text in E; simplify_eq; try done; lia.
Qed.

(** Valid runes with the same value are the same rune. *)
Lemma rune_payload r :
  rune_ok r = true →
  match r with
  | R1 _ | RBad _ => True
  | R2 a b => 0xC0 ≤ byte_of a ∧ 0x80 ≤ byte_of b ≤ 0xBF
  | R3 a b c => 0xE0 ≤ byte_of a ∧ 0x80 ≤ byte_of b ≤ 0xBF ∧ 0x80 ≤ byte_of c ≤ 0xBF
  | R4 a b c d => 0xF0 ≤ byte_of a ∧ 0x80 ≤ byte_of b ≤ 0xBF ∧ 0x80 ≤ byte_of c ≤ 0xBF ∧
                  0x80 ≤ byte_of d ≤ 0xBF
  end%N.
Proof. destruct r; cbn [rune_ok rune_wf]; intros H; try done; byte_arith. Qed.

Lemma rune_value_range r :
  rune_ok r = true →
  match r with
  | R1 _ => rune_value r < 0x80
  | R2 _ _ => 0x80 ≤ rune_value r < 0x800
  | R3 _ _ _ => 0x800 ≤ rune_value r < 0x10000
  | R4 _ _ _ _ => 0x10000 ≤ rune_value r < 0x110000
  | RBad _ => False
  end%N.
Proof. destruct r; cbn [rune_ok rune_wf rune_value]; intros H; try done; byte_arith. Qed.

Lemma rune_value_inj r1 r2 :
  rune_ok r1 = true → rune_ok r2 = true → rune_value r1 = rune_value r2 → r1 = r2.
Proof.
  intros H1 H2. pose proof (rune_value_range _ H1) as V1. pose proof (rune_value_range _ H2) as V2.
  apply rune_payload in H1, H2.
  destruct r1, r2; try done; intros E; try (rewrite E in V1; lia); clear V1 V2;
    cbn [rune_value] in E; f_equal; apply byte_of_inj; lia.
Qed.

(** ** Hexadecimal *)

(** The digit [n], [n < 16], of ["0123456789abcdef"]. *)
Definition lowerhex (n : N) : ascii := default "0"%char (String.get (N.to_nat n) "0123456789abcdef").

Lemma lowerhex_inj m n : (m < 16)%N → (n < 16)%N → lowerhex m = lowerhex n → m = n.
Proof.
  intros Hm Hn E.
  assert (∀ i j : nat, i < 16 → j < 16 → lowerhex (N.of_nat i) = lowerhex (N.of_nat j) → i = j) as H.
  { intros i j Hi Hj. do 16 (destruct i as [|i]; [do 16 (destruct j as [|j]; [done|]); lia|]). lia. }
  rewrite <- (N2Nat.id m), <- (N2Nat.id n) in *. f_equal. apply H; lia || done.
Qed.

(** [k] hexadecimal digits of [v], most significant first. *)
Fixpoint hexn (k : nat) (v : N) : string :=
  match k with
  | O => EmptyString
  | S k => hexn k (v / 16) +:+ String (lowerhex (v mod 16)) EmptyString
  end.

Lemma hexn_code k : prefix_code (λ v, v < 16 ^ N.of_nat k)%N (hexn k).
Proof.
  induction k as [|k IH]; intros v w r s Hv Hw.
  - simpl in *. str_norm. intros ->. split; [lia|done].
  - cbn [hexn]. str_norm. rewrite Nat2N.inj_succ, N.pow_succ_r' in Hv, Hw.
    intros [E1 E2]%IH; [|apply N.Div0.div_lt_upper_bound; lia..].
    injection E2 as E2 ->. apply lowerhex_inj in E2; [|by apply N.mod_lt..].
    split; [|done]. rewrite (N.div_mod v 16), (N.div_mod w 16) by done. congruence.
Qed.

(** [hex.EncodeToString]. *)
Fixpoint EncodeToString (s : string) : string :=
  match s with
  | EmptyString => EmptyString
  | String a s => hexn 2 (byte_of a) +:+ EncodeToString s
  end.

Lemma EncodeToString_inj s t : EncodeToString s = EncodeToString t → s = t.
Proof.
  revert t. induction s as [|a s IH]; intros [|b t]; try done.
  intros E. apply (hexn_code 2) in E as [->%byte_of_inj ->%IH]; [done|..];
    apply byte_of_bound.
Qed.
Lemma EncodeToString_length s : String.length (EncodeToString s) = 2 * String.length s.
Proof. induction s as [|a s IH]; [done|]. cbn [EncodeToString hexn]. rewrite !slength_app, IH. simpl. lia. Qed.

(** ** [strconv.FormatInt] in base 10 *)

Definition FormatInt (z : Z) : string := pretty z.
Definition Itoa (n : nat) : string := FormatInt (Z.of_nat n).

Definition is_num (a : ascii) : bool := bool_decide (a = "-"%char) || in_range 0x30 0x39 (byte_of a).

Lemma pretty_N_go_num x s : all_chars is_num s = true → all_chars is_num (pretty_N_go x s) = true.
Proof.
  revert s. induction (N.lt_wf_0 x) as [x _ IH]; intros s Hs.
  destruct (decide (0 < x)%N) as [Hx|Hx].
  - rewrite pretty_N_go_step by done. apply IH; [by apply N.div_lt|].
    simpl. rewrite Hs, andb_true_r.
    unfold pretty_N_char. by repeat case_match.
  - assert (x = 0)%N as -> by lia. by rewrite pretty_N_go_0.
Qed.
Lemma FormatInt_num z : all_chars is_num (FormatInt z) = true.
Proof.
  assert (∀ x : N, all_chars is_num (pretty x) = true) as HN.
  { intros x. unfold pretty, pretty_N. case_decide; [done|]. by apply pretty_N_go_num. }
  destruct z as [|p|p]; [done|apply (HN (Npos p))|].
  change (FormatInt (Z.neg p)) with ("-" +:+ pretty (Npos p)).
  rewrite all_chars_app, HN. done.
Qed.
Lemma FormatInt_inj x y : FormatInt x = FormatInt y → x = y.
Proof. apply (inj pretty). Qed.

Lemma FormatInt_code d : is_num d = false → prefix_code (λ _, True) (λ z, FormatInt z +:+ String d EmptyString).
Proof. intros Hd. apply (prefix_code_delim _ _ is_num); auto using FormatInt_inj, FormatInt_num. Qed.
Lemma Itoa_code d : is_num d = false → prefix_code (λ _, True) (λ n, Itoa n +:+ String d EmptyString).
Proof.
  intros Hd. apply (prefix_code_delim _ _ is_num); [|intros; apply FormatInt_num|done].
  intros a b _ _ E%FormatInt_inj. lia.
Qed.

(** ** [strconv.Quote]: [%q], and [%#v] of a string *)

Definition dquote : ascii := "034"%char.
Definition backslash : ascii := "092"%char.

(** What [Quote] writes for one byte: an ASCII rune, or an invalid byte. *)
Definition quote_byte (a : ascii) : string :=
  if bool_decide (a = dquote) || bool_decide (a = backslash) then String backslash (String a EmptyString)
  else if in_range 0x20 0x7E (byte_of a) then String a EmptyString
  else match byte_of a with
  | 7 => "\a" | 8 => "\b" | 12 => "\f" | 10 => "\n" | 13 => "\r" | 9 => "\t" | 11 => "\v"
  | _ => "\x" +:+ hexn 2 (byte_of a)
  end%N.

Section Quote.
(** [strconv.IsPrint] above Latin-1, a table of the Go release. *)
Context (IsPrint_table : N → bool).

Definition IsPrint (v : N) : bool :=
  if (v <=? 0xFF)%N then in_range 0x20 0x7E v || (in_range 0xA1 0xFF v && negb (v =? 0xAD)%N)
  else IsPrint_table v.

Definition quote_rune (r : rune) : string :=
  match r with
  | R1 a | RBad a => quote_byte a
  | _ => let v := rune_value r in
    if IsPrint v then rune_bytes r
    else if (v <? 0x10000)%N then "\u" +:+ hexn 4 v
    else "\U" +:+ hexn 8 v
  end.

Definition Quote (s : string) : string :=
  String dquote (concat_enc quote_rune (runes s) +:+ String dquote EmptyString).
End Quote.

(** The finite facts about [quote_byte], by computation over all bytes. *)
Lemma quote_byte_comparable a b : comparable (quote_byte a) (quote_byte b) = true → a = b.
Proof.
  assert (negb (comparable (quote_byte a) (quote_byte b)) || bool_decide (a = b) = true) as H.
  { revert a b. apply all_bytes_forallb2. vm_compute. reflexivity. }
  intros E. rewrite E in H. by apply bool_decide_eq_true in H.
Qed.
Lemma quote_byte_first a :
  negb (comparable (quote_byte a) "\u") && negb (comparable (quote_byte a) "\U") &&
  negb (starts_with dquote (quote_byte a)) && all_chars lead1 (quote_byte a) = true.
Proof. revert a. apply all_bytes_forallb. vm_compute. reflexivity. Qed.

(** A valid rune of two or more bytes. *)
Definition is_wide (r : rune) : bool := match r with R1 _ | RBad _ => false | _ => rune_wf r end.

Lemma wide_head r s t a : is_wide r = true → lead1 a = true → rune_bytes r +:+ s ≠ String a t.
Proof.
  intros W Ha E. assert (rune_wf r = true) as Wf by (by destruct r).
  apply rune_lead_range in Wf.
  destruct r; try done; cbn [rune_bytes rune_lead] in *; autorewrite with go_text in E;
    injection E as -> E; unfold lead1 in Ha; lia.
Qed.

Lemma quote_byte_cons a : ∃ b t, quote_byte a = String b t ∧ lead1 b = true ∧ b ≠ dquote.
Proof.
  pose proof (quote_byte_first a) as H. rewrite !andb_true_iff, !negb_true_iff in H.
  destruct H as [[_ H1] H2]. destruct (quote_byte a) as [|b t]; [done|].
  simpl in *. apply bool_decide_eq_false in H1. apply andb_true_iff in H2 as [H2 _]. eauto.
Qed.

Section Quote_code.
Context (IsPrint_table : N → bool).
Local Notation quote_rune := (quote_rune IsPrint_table).
Local Notation Quote := (Quote IsPrint_table).

(** The three forms of a wide rune. *)
Lemma quote_wide r :
  is_wide r = true →
  quote_rune r = rune_bytes r ∨
  (rune_value r < 0x10000 ∧ quote_rune r = "\u" +:+ hexn 4 (rune_value r))%N ∨
  (rune_value r < 0x100000000 ∧ quote_rune r = "\U" +:+ hexn 8 (rune_value r))%N.
Proof.
  intros W. assert (rune_value r < 0x110000)%N as Hv.
  { assert (rune_ok r = true) as K by (by destruct r). apply rune_value_range in K. destruct r; lia. }
  assert (quote_rune r = if IsPrint IsPrint_table (rune_value r) then rune_bytes r
    else if (rune_value r <? 0x10000)%N then "\u" +:+ hexn 4 (rune_value r)
    else "\U" +:+ hexn 8 (rune_value r)) as -> by (by destruct r).
  destruct (IsPrint _ _); [by left|right].
  destruct (N.ltb_spec (rune_value r) 0x10000); [left|right]; split; done || lia.
Qed.

Lemma quote_byte_wide a r s t : is_wide r = true → quote_byte a +:+ s ≠ quote_rune r +:+ t.
Proof.
  intros W E. pose proof (quote_byte_first a) as H. rewrite !andb_true_iff, !negb_true_iff in H.
  destruct H as [[[H1 H2] _] _]. destruct (quote_wide r W) as [Hq|[[_ Hq]|[_ Hq]]]; rewrite Hq in E.
  - destruct (quote_byte_cons a) as (b & t' & Hb & H3 & _). rewrite Hb, sapp_cons in E.
    symmetry in E. by apply wide_head in E.
  - rewrite sapp_assoc in E. apply sapp_comparable in E. congruence.
  - rewrite sapp_assoc in E. apply sapp_comparable in E. congruence.
Qed.

Lemma quote_wide_wide r1 r2 s t :
  is_wide r1 = true → is_wide r2 = true →
  quote_rune r1 +:+ s = quote_rune r2 +:+ t → r1 = r2 ∧ s = t.
Proof.
  intros W1 W2.
  assert (rune_ok r1 = true ∧ rune_ok r2 = true) as [K1 K2] by (destruct r1, r2; done).
  assert (∀ r s u, is_wide r = true → rune_bytes r +:+ s ≠ String backslash u) as Hb.
  { intros. by apply wide_head. }
  destruct (quote_wide r1 W1) as [->|[[V1 ->]|[V1 ->]]],
    (quote_wide r2 W2) as [->|[[V2 ->]|[V2 ->]]]; rewrite ?sapp_assoc.
  1: by apply rune_bytes_code.
  1,2: by intros ?%Hb.
  1,4: by intros ?%eq_sym%Hb.
  2,3: by intros [=].
  all: intros E%(inj _); apply hexn_code in E as [E ->]; [|simpl; lia..];
    by apply rune_value_inj in E.
Qed.

Lemma quote_rune_code : prefix_code (λ r, rune_wf r = true) quote_rune.
Proof.
  intros x y r s Wx Wy.
  assert (∀ r, rune_wf r = true →
    (∃ a, (r = R1 a ∧ lead1 a = true ∨ r = RBad a ∧ lead1 a = false) ∧ quote_rune r = quote_byte a)
    ∨ is_wide r = true) as Hcase.
  { intros [a|a b|a b c|a b c d|a] W; [left; exists a; by auto|by right..|].
    left. exists a. apply negb_true_iff in W. by auto. }
  destruct (Hcase x Wx) as [(a & Ha & Ea)|Hx], (Hcase y Wy) as [(b & Hb & Eb)|Hy].
  - rewrite Ea, Eb. intros E.
    assert (a = b) as <- by (by eapply quote_byte_comparable, sapp_comparable).
    apply (inj _) in E as ->. split; [|done]. naive_solver congruence.
  - rewrite Ea. intros E. by apply quote_byte_wide in E.
  - rewrite Eb. intros E. symmetry in E. by apply quote_byte_wide in E.
  - by apply quote_wide_wide.
Qed.

Lemma quote_rune_start r : rune_wf r = true → starts_with dquote (quote_rune r) = false.
Proof.
  intros W. destruct r as [a|a b|a b c|a b c d|a] eqn:Hr.
  1,5: cbn; destruct (quote_byte_cons a) as (x & t & -> & _ & Hn);
    simpl; by apply bool_decide_eq_false.
  all: rewrite <- Hr in *; assert (is_wide r = true) as Hw by (by subst);
    destruct (quote_wide r Hw) as [->|[[_ ->]|[_ ->]]]; try done;
    destruct (rune_bytes r) as [|x t] eqn:Hx; [by subst|]; simpl;
    apply bool_decide_eq_false; intros ->;
    by apply (wide_head r EmptyString t dquote); [..|rewrite sapp_nil_r].
Qed.

(** [strconv.Quote] is a prefix code on all byte strings. *)
Lemma Quote_code : prefix_code (λ _, True) Quote.
Proof.
  assert (prefix_code (λ s, Forall (λ r, rune_wf r = true) (runes s))
    (λ s, concat_enc quote_rune (runes s) +:+ String dquote EmptyString)) as H.
  { apply (prefix_code_comap _ (λ l, concat_enc quote_rune l +:+ String dquote EmptyString) runes).
    - intros x y _ _. apply runes_inj.
    - apply prefix_code_concat; [apply quote_rune_code|apply quote_rune_start]. }
  intros a b r s _ _. unfold GoFmt.Quote. rewrite !sapp_cons. intros [= E].
  apply H; [apply runes_wf..|done].
Qed.
End Quote_code.
