(* ===== verification/GoJson.v ===== *)
(** * [encoding/json]: the values the controller marshals

    Strings (escaped as [json.Marshal] does, HTML escaping on), [[]byte]
    values (base64), and maps with string keys (entries in the byte order of
    the keys).  Each encoding is a prefix code on valid UTF-8, hence
    injective; on invalid UTF-8 it is not ([json_string_invalid]). *)

From Stdlib Require Import Ascii ZifyBool ZifyN.
From stdpp Require Import strings pretty list gmap sorting.
From S2P Require Import Prelude GoText GoFmt.

#[local] Ltac Zify.zify_post_hook ::= Z.div_mod_to_equations.

(** ** Strings *)

Definition html_char (a : ascii) : bool :=
  bool_decide (a = "<"%char) || bool_decide (a = ">"%char) || bool_decide (a = "&"%char).

(** What [appendString] writes for one ASCII byte. *)
Definition json_byte (a : ascii) : string :=
  if bool_decide (a = dquote) || bool_decide (a = backslash) then String backslash (String a EmptyString)
  else if in_range 0x20 0x7F (byte_of a) && negb (html_char a) then String a EmptyString
  else match byte_of a with
  | 8 => "\b" | 12 => "\f" | 10 => "\n" | 13 => "\r" | 9 => "\t"
  | _ => "\u00" +:+ hexn 2 (byte_of a)
  end%N.

(** Invalid bytes become U+FFFD; U+2028 and U+2029 are escaped; other runes
    are copied. *)
Definition json_rune (r : rune) : string :=
  match r with
  | R1 a => json_byte a
  | RBad _ => "\ufffd"
  | _ => if (rune_value r =? 0x2028)%N || (rune_value r =? 0x2029)%N
         then "\u202" +:+ String (lowerhex (rune_value r mod 16)) EmptyString
         else rune_bytes r
  end.

Definition json_string (s : string) : string :=
  String dquote (concat_enc json_rune (runes s) +:+ String dquote EmptyString).

(** Two different byte strings that are not valid UTF-8, one encoding. *)
Lemma json_string_invalid :
  json_string (String "128"%char EmptyString) = json_string (String "129"%char EmptyString).
Proof. vm_compute. reflexivity. Qed.

Lemma json_byte_comparable a b :
  lead1 a = true → lead1 b = true → comparable (json_byte a) (json_byte b) = true → a = b.
Proof.
  assert (negb (lead1 a) || negb (lead1 b) || negb (comparable (json_byte a) (json_byte b))
          || bool_decide (a = b) = true) as H.
  { revert a b. apply all_bytes_forallb2. vm_compute. reflexivity. }
  intros Ha Hb E. rewrite Ha, Hb, E in H. by apply bool_decide_eq_true in H.
Qed.
Lemma json_byte_first a :
  lead1 a = true →
  negb (comparable (json_byte a) "\u202") && negb (starts_with dquote (json_byte a))
  && all_chars lead1 (json_byte a) = true.
Proof.
  intros Ha.
  assert (negb (lead1 a) || (negb (comparable (json_byte a) "\u202")
    && negb (starts_with dquote (json_byte a)) && all_chars lead1 (json_byte a)) = true) as H.
  { clear Ha. revert a. apply all_bytes_forallb. vm_compute. reflexivity. }
  by rewrite Ha in H.
Qed.

Lemma json_wide r :
  is_wide r = true →
  json_rune r = rune_bytes r ∨
  ((rune_value r = 0x2028 ∨ rune_value r = 0x2029)%N ∧
   json_rune r = "\u202" +:+ String (lowerhex (rune_value r mod 16)) EmptyString).
Proof.
  intros W.
  assert (json_rune r = if (rune_value r =? 0x2028)%N || (rune_value r =? 0x2029)%N
         then "\u202" +:+ String (lowerhex (rune_value r mod 16)) EmptyString
         else rune_bytes r) as -> by (by destruct r).
  destruct (_ || _) eqn:E; [right; split; [lia|done]|by left].
Qed.

Lemma json_byte_cons a : lead1 a = true → ∃ b t, json_byte a = String b t ∧ lead1 b = true ∧ b ≠ dquote.
Proof.
  intros Ha. pose proof (json_byte_first a Ha) as H. rewrite !andb_true_iff, !negb_true_iff in H.
  destruct H as [[_ H1] H2]. destruct (json_byte a) as [|b t]; [done|].
  simpl in *. apply bool_decide_eq_false in H1. apply andb_true_iff in H2 as [H2 _]. eauto.
Qed.

Lemma json_byte_wide a r s t :
  lead1 a = true → is_wide r = true → json_byte a +:+ s ≠ json_rune r +:+ t.
Proof.
  intros Ha W E. destruct (json_wide r W) as [Hq|[_ Hq]]; rewrite Hq in E.
  - destruct (json_byte_cons a Ha) as (b & t' & Hb & H3 & _). rewrite Hb, sapp_cons in E.
    symmetry in E. by apply wide_head in E.
  - pose proof (json_byte_first a Ha) as H. rewrite sapp_assoc in E. apply sapp_comparable in E.
    by rewrite E in H.
Qed.

Lemma json_wide_wide r1 r2 s t :
  is_wide r1 = true → is_wide r2 = true →
  json_rune r1 +:+ s = json_rune r2 +:+ t → r1 = r2 ∧ s = t.
Proof.
  intros W1 W2.
  assert (rune_ok r1 = true ∧ rune_ok r2 = true) as [K1 K2] by (destruct r1, r2; done).
  destruct (json_wide r1 W1) as [->|[V1 ->]], (json_wide r2 W2) as [->|[V2 ->]].
  - by apply rune_bytes_code.
  - rewrite sapp_assoc. intros E. exfalso. by eapply (wide_head r1), E.
  - rewrite sapp_assoc. intros E. symmetry in E. exfalso. by eapply (wide_head r2), E.
  - rewrite !sapp_assoc. intros E%(inj _). rewrite !sapp_cons, !sapp_nil_l in E. injection E as E ->.
    apply lowerhex_inj in E; [|by apply N.mod_lt..].
    split; [|done]. apply rune_value_inj; [done..|].
    destruct V1 as [V1|V1], V2 as [V2|V2]; rewrite V1, V2 in E |- *; done.
Qed.

Lemma json_rune_code : prefix_code (λ r, rune_ok r = true) json_rune.
Proof.
  intros x y r s Wx Wy.
  assert (∀ r, rune_ok r = true → (∃ a, r = R1 a ∧ lead1 a = true) ∨ is_wide r = true) as Hcase.
  { intros [] W; naive_solver. }
  destruct (Hcase x Wx) as [(a & -> & Ha)|Hx], (Hcase y Wy) as [(b & -> & Hb)|Hy].
  - cbn [json_rune]. intros E.
    assert (a = b) as <- by (by apply json_byte_comparable; [..|eapply sapp_comparable]).
    by apply (inj _) in E as ->.
  - intros E. by apply (json_byte_wide a) in E.
  - intros E. symmetry in E. by apply (json_byte_wide b) in E.
  - by apply json_wide_wide.
Qed.

Lemma json_rune_start r : rune_ok r = true → starts_with dquote (json_rune r) = false.
Proof.
  intros K. destruct (is_wide r) eqn:Hw.
  - destruct (json_wide r Hw) as [->|[_ ->]]; [|done].
    destruct (rune_bytes r) as [|x t] eqn:Hx; [by destruct r|]. simpl.
    apply bool_decide_eq_false. intros ->.
    by apply (wide_head r EmptyString t dquote); [..|rewrite sapp_nil_r].
  - destruct r as [a|a b|a b c|a b c d|a]; simpl in K, Hw; try congruence.
    cbn. destruct (json_byte_cons a K) as (x & t & -> & _ & Hn). simpl. by apply bool_decide_eq_false.
Qed.

(** JSON strings are a prefix code on valid UTF-8. *)
Lemma json_string_code : prefix_code (λ s, ValidString s = true) json_string.
Proof.
  assert (prefix_code (λ s, Forall (λ r, rune_ok r = true) (runes s))
    (λ s, concat_enc json_rune (runes s) +:+ String dquote EmptyString)) as H.
  { apply (prefix_code_comap _ (λ l, concat_enc json_rune l +:+ String dquote EmptyString) runes).
    - intros x y _ _. apply runes_inj.
    - apply prefix_code_concat; [apply json_rune_code|apply json_rune_start]. }
  intros a b r s Ha Hb. unfold json_string. rewrite !sapp_cons. intros [= E].
  assert (∀ x, ValidString x = true → Forall (λ r, rune_ok r = true) (runes x)) as HV.
  { intros x Hx. unfold ValidString in Hx. rewrite forallb_forall in Hx.
    apply Forall_forall. intros y Hy. by apply Hx, list_elem_of_In. }
  apply H; auto.
Qed.

(** ** [[]byte] values: base64, standard alphabet, padded *)

Definition b64_digit (n : N) : ascii :=
  default "A"%char
    (String.get (N.to_nat n) "ABCDEFGHIJKLMNOPQRSTUVWXYZabcdefghijklmnopqrstuvwxyz0123456789+/").

Fixpoint b64 (s : string) : string :=
  match s with
  | EmptyString => EmptyString
  | String a EmptyString =>
    let x := byte_of a in
    String (b64_digit (x / 4)) (String (b64_digit (x mod 4 * 16)) "==")
  | String a (String b EmptyString) =>
    let x := byte_of a in let y := byte_of b in
    String (b64_digit (x / 4)) (String (b64_digit (x mod 4 * 16 + y / 16))
      (String (b64_digit (y mod 16 * 4)) "="))
  | String a (String b (String c s)) =>
    let x := byte_of a in let y := byte_of b in let z := byte_of c in
    String (b64_digit (x / 4)) (String (b64_digit (x mod 4 * 16 + y / 16))
      (String (b64_digit (y mod 16 * 4 + z / 64)) (String (b64_digit (z mod 64)) (b64 s))))
  end%N.

Example b64_ex : (b64 "foo", b64 "fo", b64 "foobar!") = ("Zm9v", "Zm8=", "Zm9vYmFyIQ==").
Proof. vm_compute. reflexivity. Qed.

Definition b64_char (a : ascii) : bool := bool_decide (a = "="%char) || bool_decide (a ∈ map (λ n, b64_digit (N.of_nat n)) (seq 0 64)).

Lemma b64_digit_inj m n : (m < 64)%N → (n < 64)%N → b64_digit m = b64_digit n → m = n.
Proof.
  intros Hm Hn E.
  assert (forallb (λ i, forallb (λ j, negb (bool_decide (b64_digit (N.of_nat i) = b64_digit (N.of_nat j)))
    || bool_decide (i = j)) (seq 0 64)) (seq 0 64) = true) as H by (vm_compute; reflexivity).
  rewrite forallb_forall in H. specialize (H (N.to_nat m)).
  rewrite forallb_forall in H. specialize (H ltac:(apply in_seq; lia) (N.to_nat n) ltac:(apply in_seq; lia)).
  rewrite !N2Nat.id, E in H. rewrite bool_decide_true in H by done. simpl in H.
  apply bool_decide_eq_true in H. lia.
Qed.
Lemma b64_digit_char n : (n < 64)%N → b64_char (b64_digit n) = true.
Proof.
  intros H. apply orb_true_iff. right. apply bool_decide_eq_true, list_elem_of_fmap.
  exists (N.to_nat n). rewrite N2Nat.id. split; [done|]. apply elem_of_seq. lia.
Qed.
Lemma b64_digit_not_pad n : (n < 64)%N → b64_digit n ≠ "="%char.
Proof.
  intros H. assert (forallb (λ i, negb (bool_decide (b64_digit (N.of_nat i) = "="%char))) (seq 0 64) = true) as K
    by (vm_compute; reflexivity).
  rewrite forallb_forall in K. specialize (K (N.to_nat n) ltac:(apply in_seq; lia)).
  rewrite N2Nat.id in K. by apply negb_true_iff, bool_decide_eq_false in K.
Qed.

(** Induction three bytes at a time. *)
Lemma string_ind3 (P : string → Prop) :
  P EmptyString → (∀ a, P (String a EmptyString)) → (∀ a b, P (String a (String b EmptyString))) →
  (∀ a b c s, P s → P (String a (String b (String c s)))) → ∀ s, P s.
Proof.
  intros H0 H1 H2 H3. fix IH 1. intros [|a [|b [|c s]]]; [done|done|done|]. apply H3, IH.
Qed.

(** The digits of the groups are in range. *)
Ltac byte_lia :=
  repeat match goal with
  | a : ascii |- _ => lazymatch goal with
    | _ : (byte_of a < 256)%N |- _ => fail
    | _ => pose proof (byte_of_bound a) end
  end; lia.

Lemma b64_chars s : all_chars b64_char (b64 s) = true.
Proof.
  induction s as [|a|a b|a b c s IH] using string_ind3; [done|..]; cbn [b64 all_chars];
    rewrite ?andb_true_iff; repeat split; try done; apply b64_digit_char; byte_lia.
Qed.

(** Three bytes are determined by their four digits. *)
Lemma b64_group x y z x' y' z' :
  (x < 256 → y < 256 → z < 256 → x' < 256 → y' < 256 → z' < 256 →
   x / 4 = x' / 4 → x mod 4 * 16 + y / 16 = x' mod 4 * 16 + y' / 16 →
   y mod 16 * 4 + z / 64 = y' mod 16 * 4 + z' / 64 → z mod 64 = z' mod 64 →
   x = x' ∧ y = y' ∧ z = z')%N.
Proof.
  intros Hx Hy Hz Hx' Hy' Hz' E1 E2 E3 E4.
  assert (∀ k m q m' q', q < k → q' < k → m * k + q = m' * k + q' → m = m' ∧ q = q')%N as D.
  { clear. intros k m q m' q' Hq Hq' E. rewrite (N.mul_comm m), (N.mul_comm m') in E.
    by apply N.div_mod_unique in E. }
  assert (∀ k m n, 0 < k → n < k * m → n / k < m)%N as B.
  { clear. intros. apply N.Div0.div_lt_upper_bound; lia. }
  apply D in E2 as [E2 F2]; [|apply B; done..]. apply D in E3 as [E3 F3]; [|apply B; done..].
  rewrite (N.div_mod x 4), (N.div_mod x' 4), (N.div_mod y 16), (N.div_mod y' 16),
    (N.div_mod z 64), (N.div_mod z' 64) by done.
  by rewrite E1, E2, E3, E4, F2, F3.
Qed.

Lemma b64_inj s t : b64 s = b64 t → s = t.
Proof.
  assert (∀ n, (n < 64)%N → "="%char ≠ b64_digit n) as Hpad.
  { intros n Hn E. by eapply b64_digit_not_pad. }
  revert t. induction s as [|a|a b|a b c s IH] using string_ind3;
    intros t; induction t as [|a'|a' b'|a' b' c' t _] using string_ind3; cbn [b64]; try done; intros E;
    injection E; clear E; intros;
    try (exfalso; eapply b64_digit_not_pad; [|eassumption]; byte_lia).
  all: try (exfalso; eapply Hpad; [|eassumption]; byte_lia).
  all: repeat match goal with
       | H : b64_digit _ = b64_digit _ |- _ => apply b64_digit_inj in H; [|byte_lia..]
       end.
  - destruct (b64_group (byte_of a) 0 0 (byte_of a') 0 0) as [->%byte_of_inj _];
      auto using byte_of_bound; lia.
  - destruct (b64_group (byte_of a) (byte_of b) 0 (byte_of a') (byte_of b') 0)
      as (->%byte_of_inj & ->%byte_of_inj & _); auto using byte_of_bound; lia.
  - destruct (b64_group (byte_of a) (byte_of b) (byte_of c) (byte_of a') (byte_of b') (byte_of c'))
      as (->%byte_of_inj & ->%byte_of_inj & ->%byte_of_inj); auto using byte_of_bound.
    f_equal; f_equal; f_equal; auto.
Qed.

(** A [[]byte]; [None] is the nil slice, which is written [null]. *)
Definition json_bytes (v : option string) : string :=
  match v with
  | None => "null"
  | Some s => String dquote (b64 s +:+ String dquote EmptyString)
  end.

Lemma json_bytes_code : prefix_code (λ _, True) json_bytes.
Proof.
  intros [s|] [t|] r u _ _; cbn [json_bytes]; str_norm; try done.
  - intros [= E]. apply (delimited b64_char) in E as [->%b64_inj ->]; auto using b64_chars.
  - by intros [= ->].
Qed.

(** Numbers ([os.FileMode] is a [uint32] with no marshaller of its own). *)
Definition json_int (z : Z) : string := FormatInt z.

(** ** Maps with string keys

    [None] is the nil map.  Entries are written in the byte order of the
    keys, which makes the text a function of the map. *)
Section json_map.
Context {V : Type} (enc : V → string).

Definition key_le (p q : string * V) : Prop := String.le p.1 q.1.
#[export] Instance key_le_dec : RelDecision key_le.
Proof. intros p q. unfold key_le. apply _. Defined.
#[export] Instance key_le_total : Total key_le.
Proof. intros p q. apply (total String.le). Qed.
#[export] Instance key_le_trans : Transitive key_le.
Proof. intros p q r. unfold key_le. apply (transitivity (R := String.le)). Qed.

Definition json_entry (p : string * V) : string := json_string p.1 +:+ String ":" (enc p.2).
Definition json_entries (m : gmap string V) : list (string * V) := merge_sort key_le (map_to_list m).

Definition json_map (m : option (gmap string V)) : string :=
  match m with
  | None => "null"
  | Some m => String "{" (Join (map json_entry (json_entries m)) "," +:+ "}")
  end.

Lemma json_entries_map m : list_to_map (json_entries m) = m.
Proof.
  unfold json_entries. rewrite (list_to_map_proper _ (map_to_list m)).
  - apply list_to_map_to_list.
  - rewrite (merge_sort_Permutation key_le). apply NoDup_fst_map_to_list.
  - apply (merge_sort_Permutation key_le).
Qed.
Lemma json_entries_elem m k v : (k, v) ∈ json_entries m ↔ m !! k = Some v.
Proof. unfold json_entries. by rewrite (merge_sort_Permutation key_le), elem_of_map_to_list. Qed.
Lemma json_entries_sorted m : StronglySorted key_le (json_entries m).
Proof. apply StronglySorted_merge_sort; apply _. Qed.

Context (P : V → Prop) (enc_code : prefix_code P enc).

(** The keys are valid UTF-8 and the values are in the domain of [enc]. *)
Definition json_ok (m : gmap string V) : Prop :=
  map_Forall (λ k v, ValidString k = true ∧ P v) m.

Lemma json_entry_code : prefix_code (λ p, ValidString p.1 = true ∧ P p.2) json_entry.
Proof.
  apply (prefix_code_pair (λ s, ValidString s = true) P json_string (λ v, String ":" (enc v))).
  - apply json_string_code.
  - by apply (prefix_code_lit P enc ":").
Qed.

Lemma json_map_code :
  prefix_code (λ m, match m with Some m => json_ok m | None => True end) json_map.
Proof.
  assert (∀ m, json_ok m → Forall (λ p, ValidString p.1 = true ∧ P p.2) (json_entries m)) as HF.
  { intros m Hm. apply Forall_forall. intros [k v] Hkv%json_entries_elem. by apply (Hm k). }
  assert (prefix_code json_ok (λ m, Join (map json_entry (json_entries m)) "," +:+ "}")) as H.
  { intros m1 m2 r s H1 H2 E.
    apply (prefix_code_join (λ p, ValidString p.1 = true ∧ P p.2) json_entry) in E as [E ->];
      [|apply json_entry_code|done|done|by apply HF..].
    split; [|done]. by rewrite <- (json_entries_map m1), <- (json_entries_map m2), E. }
  intros [m1|] [m2|] r s H1 H2; cbn [json_map];
    rewrite ?sapp_cons, ?sapp_nil_l; try done.
  - intros [= E]. by apply H in E as [-> ->].
  - by intros [= ->].
Qed.
End json_map.

(** [json.Marshal] of a [map[string]string] and of a [map[string][]byte]. *)
Definition json_string_map : option (gmap string string) → string := json_map json_string.
Definition json_bytes_map : option (gmap string (option string)) → string := json_map json_bytes.

Example json_bytes_map_ex :
  json_bytes_map (Some {[ "b" := Some "foo"; "a" := None ]})
  = "{" +:+ json_string "a" +:+ ":null," +:+ json_string "b" +:+ ":" +:+ json_string "Zm9v" +:+ "}".
Proof. vm_compute. reflexivity. Qed.
