(* ===== verification/GoStrings.v ===== *)
(** * [strings]: trimming, searching, splitting

    [TrimSpace] works on bytes but knows the UTF-8 encodings of all the runes
    of [unicode.IsSpace]; a leading (trailing) rune is white space exactly
    when one of these encodings is a prefix (suffix) of the bytes. *)

From Stdlib Require Import Ascii.
From stdpp Require Import strings list.
From S2P Require Import Prelude GoText GoFmt.

(** ** [strings.TrimSpace] *)

(** Tab, line feed, vertical tab, form feed, carriage return, space. *)
Definition ws1 (a : ascii) : bool := in_range 0x09 0x0D (byte_of a) || (byte_of a =? 0x20)%N.
(** U+0085, U+00A0. *)
Definition ws2 (a b : ascii) : bool :=
  (byte_of a =? 0xC2)%N && ((byte_of b =? 0x85)%N || (byte_of b =? 0xA0)%N).
(** U+1680, U+2000..U+200A, U+2028, U+2029, U+202F, U+205F, U+3000. *)
Definition ws3 (a b c : ascii) : bool :=
  let x := byte_of a in let y := byte_of b in let z := byte_of c in
  ((x =? 0xE1) && (y =? 0x9A) && (z =? 0x80))%N
  || ((x =? 0xE2)%N && (y =? 0x80)%N &&
      (in_range 0x80 0x8A z || (z =? 0xA8)%N || (z =? 0xA9)%N || (z =? 0xAF)%N))
  || ((x =? 0xE2) && (y =? 0x81) && (z =? 0x9F))%N
  || ((x =? 0xE3) && (y =? 0x80) && (z =? 0x80))%N.

Fixpoint TrimLeft (s : string) : string :=
  match s with
  | EmptyString => s
  | String a s1 =>
    if ws1 a then TrimLeft s1 else
    match s1 with
    | EmptyString => s
    | String b s2 =>
      if ws2 a b then TrimLeft s2 else
      match s2 with
      | EmptyString => s
      | String c s3 => if ws3 a b c then TrimLeft s3 else s
      end
    end
  end.

(** The same from the end, on the reversed string. *)
Fixpoint TrimLeft_rev (s : string) : string :=
  match s with
  | EmptyString => s
  | String a s1 =>
    if ws1 a then TrimLeft_rev s1 else
    match s1 with
    | EmptyString => s
    | String b s2 =>
      if ws2 b a then TrimLeft_rev s2 else
      match s2 with
      | EmptyString => s
      | String c s3 => if ws3 c b a then TrimLeft_rev s3 else s
      end
    end
  end.

Definition TrimRight (s : string) : string := String.rev (TrimLeft_rev (String.rev s)).
Definition TrimSpace (s : string) : string := TrimRight (TrimLeft s).

Example TrimSpace_ex : TrimSpace "  foo bar    " = "foo bar".
Proof. vm_compute. reflexivity. Qed.
(** U+00A0 and U+2003 are white space, U+200B is not. *)
Example TrimSpace_unicode :
  TrimSpace (String "194" (String "160" ("x" +:+ String "226" (String "128" (String "131" EmptyString)))))%char = "x"
  ∧ TrimSpace (String "226" (String "128" (String "139" "x")))%char ≠ "x".
Proof. split; vm_compute; [reflexivity|discriminate]. Qed.

Lemma rev_app_app s t : String.rev_app s t = String.rev s +:+ t.
Proof.
  unfold String.rev. revert t. induction s as [|a s IH]; intros t; [done|]. cbn [String.rev_app].
  rewrite IH, (IH (String a EmptyString)). by str_norm.
Qed.
Lemma srev_cons a s : String.rev (String a s) = String.rev s +:+ String a EmptyString.
Proof. unfold String.rev at 1. cbn [String.rev_app]. apply rev_app_app. Qed.
Lemma srev_app s t : String.rev (s +:+ t) = String.rev t +:+ String.rev s.
Proof.
  induction s as [|a s IH]; [by rewrite sapp_nil_l; change (String.rev EmptyString) with EmptyString; rewrite sapp_nil_r|].
  rewrite sapp_cons, !srev_cons, IH. by str_norm.
Qed.
Lemma srev_involutive s : String.rev (String.rev s) = s.
Proof. induction s as [|a s IH]; [done|]. rewrite srev_cons, srev_app, IH. by str_norm. Qed.
Lemma all_chars_rev p s : all_chars p (String.rev s) = all_chars p s.
Proof.
  induction s as [|a s IH]; [done|]. rewrite srev_cons, all_chars_app, IH. simpl.
  by rewrite andb_true_r, andb_comm.
Qed.

(** Printable ASCII without space is never trimmed. *)
Definition graphic (a : ascii) : bool := in_range 0x21 0x7E (byte_of a).

Lemma graphic_no_ws a : graphic a = true →
  ws1 a = false ∧ (∀ b, ws2 a b = false) ∧ (∀ b, ws2 b a = false) ∧
  (∀ b c, ws3 a b c = false) ∧ (∀ b c, ws3 c b a = false).
Proof.
  intros H. unfold graphic, ws1, ws2, ws3, in_range in *. cbv zeta.
  repeat split; intros; apply not_true_iff_false; rewrite ?orb_true_iff, ?andb_true_iff, ?N.leb_le, ?N.eqb_eq in *; lia.
Qed.

Lemma TrimLeft_graphic a s : graphic a = true → TrimLeft (String a s) = String a s.
Proof.
  intros (H1 & H2 & _ & H3 & _)%graphic_no_ws. cbn [TrimLeft]. rewrite H1.
  destruct s as [|b [|c s]]; [done| |]; by rewrite ?H2, ?H3.
Qed.
Lemma TrimLeft_rev_graphic a s : graphic a = true → TrimLeft_rev (String a s) = String a s.
Proof.
  intros (H1 & _ & H2 & _ & H3)%graphic_no_ws. cbn [TrimLeft_rev]. rewrite H1.
  destruct s as [|b [|c s]]; [done| |]; by rewrite ?H2, ?H3.
Qed.

Lemma TrimSpace_graphic s : all_chars graphic s = true → TrimSpace s = s.
Proof.
  intros H. unfold TrimSpace, TrimRight.
  assert (TrimLeft s = s) as ->.
  { destruct s as [|a s]; [done|]. simpl in H. apply andb_true_iff in H as [??]. by apply TrimLeft_graphic. }
  rewrite <- all_chars_rev in H. rewrite <- (srev_involutive s) at 2. f_equal.
  destruct (String.rev s) as [|a t]; [done|]. simpl in H. apply andb_true_iff in H as [??].
  by apply TrimLeft_rev_graphic.
Qed.

(** ** [strings.Contains] *)
Fixpoint Contains (s sub : string) : bool :=
  String.prefix sub s || match s with EmptyString => false | String _ s => Contains s sub end.

Lemma prefix_spec s t : String.prefix s t = true ↔ ∃ r, t = s +:+ r.
Proof.
  split; [|intros [r ->]; by eapply prefix_app].
  revert t. induction s as [|a s IH]; intros t; [by exists t|].
  destruct t as [|b t]; simpl; [done|]. destruct (ascii_dec a b) as [<-|]; [|done].
  intros [r ->]%IH. by exists r.
Qed.

Lemma Contains_spec s sub : Contains s sub = true ↔ ∃ l r, s = l +:+ sub +:+ r.
Proof.
  induction s as [|a s IH]; cbn [Contains]; rewrite orb_true_iff, prefix_spec.
  - split.
    + intros [[r E]|]; [|done]. exists EmptyString, r. by rewrite sapp_nil_l.
    + intros ([|] & r & E); [left; eauto|done].
  - rewrite IH. split.
    + intros [[r ->]|(l & r & ->)]; [by exists EmptyString, r|by exists (String a l), r].
    + intros ([|b l] & r & E); [left; eauto|]. rewrite sapp_cons in E. injection E as <- ->. eauto.
Qed.

(** A text that contains a text that contains [sub]. *)
Lemma Contains_trans s t sub : Contains s t = true → Contains t sub = true → Contains s sub = true.
Proof.
  rewrite !Contains_spec. intros (l & r & ->) (l' & r' & ->). exists (l +:+ l'), (r' +:+ r). by str_norm.
Qed.

(** ** [strings.Split] with a one-byte separator *)
Fixpoint Split (s : string) (sep : ascii) : list string :=
  match s with
  | EmptyString => [EmptyString]
  | String a s =>
    if bool_decide (a = sep) then EmptyString :: Split s sep
    else match Split s sep with [] => [String a EmptyString] | h :: t => String a h :: t end
  end.

Lemma Split_cons s sep : ∃ h t, Split s sep = h :: t.
Proof. destruct s as [|a s]; simpl; [eauto|]. case_bool_decide; [eauto|]. destruct (Split s sep); eauto. Qed.

Lemma Split_Join s sep : Join (Split s sep) (String sep EmptyString) = s.
Proof.
  induction s as [|a s IH]; [done|]. simpl. destruct (Split_cons s sep) as (h & t & E).
  rewrite E in IH |- *. case_bool_decide as Ha; rewrite Join_cons in IH |- *.
  - subst a. rewrite sapp_nil_l. cbn [concat_enc foldr]. str_norm. by rewrite <- IH.
  - rewrite sapp_cons. by f_equal.
Qed.

Lemma Split_no_sep s sep : Forall (λ p, all_chars (λ a, negb (bool_decide (a = sep))) p = true) (Split s sep).
Proof.
  induction s as [|a s IH]; [by repeat constructor|]. simpl. case_bool_decide as Ha; [by constructor|].
  destruct (Split_cons s sep) as (h & t & E). rewrite E in IH |- *. inversion IH; subst.
  constructor; [|done]. simpl. by rewrite bool_decide_false.
Qed.

(** Splitting where the first separator is. *)
Definition no_char (sep : ascii) : string → bool := all_chars (λ a, negb (bool_decide (a = sep))).
Lemma Split_plain p sep : no_char sep p = true → Split p sep = [p].
Proof.
  induction p as [|a p IH]; [done|]. simpl. intros [Ha%negb_true_iff Hp]%andb_true_iff. by rewrite Ha, IH.
Qed.
Lemma Split_first p r sep : no_char sep p = true → Split (p +:+ String sep r) sep = p :: Split r sep.
Proof.
  induction p as [|a p IH]; [simpl; by rewrite bool_decide_true|].
  simpl. intros [Ha%negb_true_iff Hp]%andb_true_iff. rewrite Ha. by rewrite (IH Hp).
Qed.
