(* ===== verification/ApiTypes.v ===== *)
(** * api/v1alpha1: the SecretSync types, their maps in a heap, [DeepCopy]

    Go maps are references.  The labels and annotations of an object are
    therefore [mapref]s into a heap of string maps, and copying an object
    without copying its maps shares them.  The record types take the type of
    their map fields as a parameter: [mapref] for an object in memory,
    [option smap] for what the API server stores ([None]: no map).

    Slices and [*metav1.Time] fields are values: no code under src/ writes
    through a second reference to one of them. *)

From stdpp Require Import strings gmap list.
From S2P Require Import Prelude.

(** ** Maps in a heap *)

Notation smap := (gmap string string).
Notation loc := positive.
Notation heap := (gmap loc smap).
(** [None] is the nil map. *)
Notation mapref := (option loc).

Definition read_map (h : heap) (r : mapref) : option smap := r ≫= (h !!.).

(** A reference that points at a map. *)
Definition ref_ok (h : heap) (r : mapref) : Prop := match r with None => True | Some l => is_Some (h !! l) end.

(** Writes each pair of [src] to [dst]: the loop [for k, v := range src], and
    [maps.Copy(dst, src)]. *)
Definition range_copy (src dst : smap) : smap :=
  foldr (λ kv acc, <[ kv.1 := kv.2 ]> acc) dst (map_to_list src).

Lemma range_copy_union src dst : range_copy src dst = src ∪ dst.
Proof.
  unfold range_copy. induction src as [|k v m Hk IH] using map_ind.
  - by rewrite map_to_list_empty, (left_id_L ∅ (∪)).
  - assert (∀ l l' : list (string * string), NoDup l.*1 → l ≡ₚ l' →
      foldr (λ kv acc, <[ kv.1 := kv.2 ]> acc) dst l = foldr (λ kv acc, <[ kv.1 := kv.2 ]> acc) dst l') as HP.
    { intros l l' Hnd Hp. revert Hnd. induction Hp as [|x l l' ? IHp|x y l|l1 l2 l3 Hp1 IH1 Hp2 IH2]; simpl.
      - done.
      - intros [_ ?]%NoDup_cons. by rewrite IHp.
      - intros [Hxy _]%NoDup_cons. apply insert_insert_ne. set_solver.
      - intros Hnd. rewrite IH1 by done. apply IH2. by rewrite <- Hp1. }
    rewrite (HP _ ((k, v) :: map_to_list m)).
    + simpl. by rewrite IH, insert_union_l.
    + apply NoDup_fst_map_to_list.
    + by apply map_to_list_insert.
Qed.

(** [make(map[string]string)] holding [m]: a location not in use. *)
Definition alloc (m : smap) : GoM heap loc := λ h,
  let l := fresh (dom h) in (Val l, <[ l := m ]> h).

(** The cell at [l]; the references the program holds are always allocated. *)
Definition load (l : loc) : GoM heap smap := λ h, (Val (default ∅ (h !! l)), h).

(** [m[k] = v]; assignment to an entry of a nil map panics. *)
Definition map_assign (r : mapref) (k v : string) : GoM heap unit :=
  match r with
  | None => panic "assignment to entry in nil map"
  | Some l => λ h, (Val tt, alter <[ k := v ]> l h)
  end.

(** [maps.Clone]: a nil map is cloned to a nil map. *)
Definition maps_Clone (r : mapref) : GoM heap mapref :=
  match r with
  | None => mret None
  | Some l => m ← load l; l' ← alloc m; mret (Some l')
  end.

(** [maps.Copy(dst, src)] with [src] already read; ranging over nil does
    nothing, writing to nil panics. *)
Definition maps_Copy (dst : mapref) (src : option smap) : GoM heap unit :=
  match src with
  | None => mret tt
  | Some m =>
    if bool_decide (m = ∅) then mret tt else
    match dst with
    | None => panic "assignment to entry in nil map"
    | Some l => λ h, (Val tt, alter (range_copy m) l h)
    end
  end.

(** ** The objects *)

Record TypeMeta := { tm_Kind : string; tm_APIVersion : string }.

(** The fields of [metav1.ObjectMeta] the code reads or the API server
    changes on an update. *)
Record ObjectMeta := {
  om_Name : string;
  om_Namespace : string;
  om_UID : string;
  om_Generation : Z;
  om_ResourceVersion : string;
}.

(** [metav1.Condition]; times are nanoseconds since the epoch. *)
Record Condition := {
  cond_Type : string;
  cond_Status : string;
  cond_Reason : string;
  cond_Message : string;
  cond_LastTransitionTime : Z;
}.

Record SecretObjectData := { sod_SourcePath : string; sod_TargetKey : string }.

Record SecretObject (M : Type) := {
  so_Type : string;
  so_Data : list SecretObjectData;
  so_Labels : M;
  so_Annotations : M;
}.
Arguments so_Type {_} _. Arguments so_Data {_} _.
Arguments so_Labels {_} _. Arguments so_Annotations {_} _.

Record SecretSyncSpec (M : Type) := {
  sss_SecretSyncControllerName : string;
  sss_SecretProviderClassName : string;
  sss_ServiceAccountName : string;
  sss_SecretObject : SecretObject M;
  sss_ForceSynchronization : string;
}.
Arguments sss_SecretSyncControllerName {_} _. Arguments sss_SecretProviderClassName {_} _.
Arguments sss_ServiceAccountName {_} _. Arguments sss_SecretObject {_} _.
Arguments sss_ForceSynchronization {_} _.

(** [Conditions = None] is the nil slice. *)
Record SecretSyncStatus := {
  st_SyncHash : string;
  st_LastSuccessfulSyncTime : option Z;
  st_Conditions : option (list Condition);
}.

Record SecretSync (M : Type) := {
  ss_TypeMeta : TypeMeta;
  ss_ObjectMeta : ObjectMeta;
  ss_Spec : SecretSyncSpec M;
  ss_Status : SecretSyncStatus;
}.
Arguments ss_TypeMeta {_} _. Arguments ss_ObjectMeta {_} _.
Arguments ss_Spec {_} _. Arguments ss_Status {_} _.

Record SecretSyncList (M : Type) := { ssl_TypeMeta : TypeMeta; ssl_Items : list (SecretSync M) }.
Arguments ssl_TypeMeta {_} _. Arguments ssl_Items {_} _.

(** The fields of the driver's [SecretProviderClass] the controller reads. *)
Record SecretProviderClass (M : Type) := {
  spc_UID : string;
  spc_Generation : Z;
  spc_Provider : string;
  spc_Parameters : M;
}.
Arguments spc_UID {_} _. Arguments spc_Generation {_} _.
Arguments spc_Provider {_} _. Arguments spc_Parameters {_} _.

#[export] Instance TypeMeta_eq_dec : EqDecision TypeMeta. Proof. solve_decision. Defined.
#[export] Instance ObjectMeta_eq_dec : EqDecision ObjectMeta. Proof. solve_decision. Defined.
#[export] Instance Condition_eq_dec : EqDecision Condition. Proof. solve_decision. Defined.
#[export] Instance SecretObjectData_eq_dec : EqDecision SecretObjectData. Proof. solve_decision. Defined.
#[export] Instance SecretObject_eq_dec `{EqDecision M} : EqDecision (SecretObject M). Proof. solve_decision. Defined.
#[export] Instance SecretSyncSpec_eq_dec `{EqDecision M} : EqDecision (SecretSyncSpec M). Proof. solve_decision. Defined.
#[export] Instance SecretSyncStatus_eq_dec : EqDecision SecretSyncStatus. Proof. solve_decision. Defined.
#[export] Instance SecretSync_eq_dec `{EqDecision M} : EqDecision (SecretSync M). Proof. solve_decision. Defined.

(** Applying a function to the map fields. *)
Definition so_map {M N} (f : M → N) (o : SecretObject M) : SecretObject N :=
  {| so_Type := so_Type o; so_Data := so_Data o;
     so_Labels := f (so_Labels o); so_Annotations := f (so_Annotations o) |}.
Definition sss_map {M N} (f : M → N) (s : SecretSyncSpec M) : SecretSyncSpec N :=
  {| sss_SecretSyncControllerName := sss_SecretSyncControllerName s;
     sss_SecretProviderClassName := sss_SecretProviderClassName s;
     sss_ServiceAccountName := sss_ServiceAccountName s;
     sss_SecretObject := so_map f (sss_SecretObject s);
     sss_ForceSynchronization := sss_ForceSynchronization s |}.
Definition ss_map {M N} (f : M → N) (s : SecretSync M) : SecretSync N :=
  {| ss_TypeMeta := ss_TypeMeta s; ss_ObjectMeta := ss_ObjectMeta s;
     ss_Spec := sss_map f (ss_Spec s); ss_Status := ss_Status s |}.

Definition so_refs {M} (o : SecretObject M) : list M := [so_Labels o; so_Annotations o].
Definition ss_refs {M} (s : SecretSync M) : list M := so_refs (sss_SecretObject (ss_Spec s)).

(** The object as it is serialised: its maps read from the heap. *)
Definition read_ss (h : heap) : SecretSync mapref → SecretSync (option smap) := ss_map (read_map h).

(** ** [DeepCopy] (zz_generated.deepcopy.go) *)

(** The [if in.M != nil { make; for key, val := range }] block. *)
Definition DeepCopy_map (r : mapref) : GoM heap mapref :=
  match r with
  | None => mret None
  | Some l => m ← load l; l' ← alloc (range_copy m ∅); mret (Some l')
  end.

Definition SecretObject_DeepCopyInto (o : SecretObject mapref) : GoM heap (SecretObject mapref) :=
  labels ← DeepCopy_map (so_Labels o);
  annotations ← DeepCopy_map (so_Annotations o);
  mret {| so_Type := so_Type o; so_Data := so_Data o;
          so_Labels := labels; so_Annotations := annotations |}.

Definition SecretSyncSpec_DeepCopyInto (s : SecretSyncSpec mapref) : GoM heap (SecretSyncSpec mapref) :=
  o ← SecretObject_DeepCopyInto (sss_SecretObject s);
  mret {| sss_SecretSyncControllerName := sss_SecretSyncControllerName s;
          sss_SecretProviderClassName := sss_SecretProviderClassName s;
          sss_ServiceAccountName := sss_ServiceAccountName s;
          sss_SecretObject := o;
          sss_ForceSynchronization := sss_ForceSynchronization s |}.

(** The time and the conditions are values here, their copies are equal. *)
Definition SecretSyncStatus_DeepCopyInto (s : SecretSyncStatus) : SecretSyncStatus :=
  {| st_SyncHash := st_SyncHash s;
     st_LastSuccessfulSyncTime := match st_LastSuccessfulSyncTime s with Some t => Some t | None => None end;
     st_Conditions := match st_Conditions s with Some l => Some l | None => None end |}.

Definition SecretSync_DeepCopyInto (s : SecretSync mapref) : GoM heap (SecretSync mapref) :=
  spec ← SecretSyncSpec_DeepCopyInto (ss_Spec s);
  mret {| ss_TypeMeta := ss_TypeMeta s; ss_ObjectMeta := ss_ObjectMeta s;
          ss_Spec := spec; ss_Status := SecretSyncStatus_DeepCopyInto (ss_Status s) |}.

Fixpoint items_DeepCopy (l : list (SecretSync mapref)) : GoM heap (list (SecretSync mapref)) :=
  match l with
  | [] => mret []
  | s :: l => c ← SecretSync_DeepCopyInto s; cs ← items_DeepCopy l; mret (c :: cs)
  end.

Definition SecretSyncList_DeepCopyInto (l : SecretSyncList mapref) : GoM heap (SecretSyncList mapref) :=
  items ← items_DeepCopy (ssl_Items l);
  mret {| ssl_TypeMeta := ssl_TypeMeta l; ssl_Items := items |}.

Definition SecretObjectData_DeepCopyInto (d : SecretObjectData) : SecretObjectData :=
  {| sod_SourcePath := sod_SourcePath d; sod_TargetKey := sod_TargetKey d |}.

(** The methods [DeepCopy() *T]: nil is copied to nil, otherwise [DeepCopyInto]
    fills a new object. *)
Definition DeepCopy_ptr {A} (DeepCopyInto : A → GoM heap A) (in_ : option A) : GoM heap (option A) :=
  match in_ with
  | None => mret None
  | Some x => out ← DeepCopyInto x; mret (Some out)
  end.
Definition SecretObject_DeepCopy : option (SecretObject mapref) → GoM heap (option (SecretObject mapref)) :=
  DeepCopy_ptr SecretObject_DeepCopyInto.
Definition SecretObjectData_DeepCopy : option SecretObjectData → GoM heap (option SecretObjectData) :=
  DeepCopy_ptr (λ d, mret (SecretObjectData_DeepCopyInto d)).
Definition SecretSync_DeepCopy : option (SecretSync mapref) → GoM heap (option (SecretSync mapref)) :=
  DeepCopy_ptr SecretSync_DeepCopyInto.
Definition SecretSyncList_DeepCopy : option (SecretSyncList mapref) → GoM heap (option (SecretSyncList mapref)) :=
  DeepCopy_ptr SecretSyncList_DeepCopyInto.
Definition SecretSyncSpec_DeepCopy : option (SecretSyncSpec mapref) → GoM heap (option (SecretSyncSpec mapref)) :=
  DeepCopy_ptr SecretSyncSpec_DeepCopyInto.
Definition SecretSyncStatus_DeepCopy : option SecretSyncStatus → GoM heap (option SecretSyncStatus) :=
  DeepCopy_ptr (λ s, mret (SecretSyncStatus_DeepCopyInto s)).

(** The values of [runtime.Object] that [DeepCopyObject] gives; [None] is the nil
    interface, not a nil pointer in one. *)
Inductive runtime_Object :=
| ObjSecretSync (ss : SecretSync mapref)
| ObjSecretSyncList (l : SecretSyncList mapref).

Definition SecretSync_DeepCopyObject (in_ : option (SecretSync mapref)) : GoM heap (option runtime_Object) :=
  c ← SecretSync_DeepCopy in_;
  match c with Some c => mret (Some (ObjSecretSync c)) | None => mret None end.
Definition SecretSyncList_DeepCopyObject (in_ : option (SecretSyncList mapref)) : GoM heap (option runtime_Object) :=
  c ← SecretSyncList_DeepCopy in_;
  match c with Some c => mret (Some (ObjSecretSyncList c)) | None => mret None end.

(** Two objects that share their labels. *)
Definition shared_labels (name : string) : SecretSync mapref := {|
  ss_TypeMeta := {| tm_Kind := "SecretSync"; tm_APIVersion := "v1" |};
  ss_ObjectMeta := {| om_Name := name; om_Namespace := "ns"; om_UID := "u"; om_Generation := 1; om_ResourceVersion := "1" |};
  ss_Spec := {| sss_SecretSyncControllerName := EmptyString; sss_SecretProviderClassName := "spc";
    sss_ServiceAccountName := "sa"; sss_ForceSynchronization := EmptyString;
    sss_SecretObject := {| so_Type := "Opaque"; so_Data := []; so_Labels := Some 1%positive; so_Annotations := None |} |};
  ss_Status := {| st_SyncHash := EmptyString; st_LastSuccessfulSyncTime := None; st_Conditions := None |} |}.

(** ** What copying promises *)

(** A reference no object of the heap [h] holds. *)
Definition ref_new (h : heap) (r : mapref) : Prop := match r with None => True | Some l => h !! l = None end.

(** [rs'] are fresh, pairwise different references of [h'] with the contents
    that [rs] have in [h], and no map of [h] has changed. *)
Record copied (h h' : heap) (rs rs' : list mapref) : Prop := {
  copied_frame : h ⊆ h';
  copied_read : read_map h' <$> rs' = read_map h <$> rs;
  copied_ok : Forall (ref_ok h') rs';
  copied_new : Forall (ref_new h) rs';
  copied_nodup : NoDup (omap id rs');
}.

Lemma read_map_frame h h' r : h ⊆ h' → ref_ok h r → read_map h' r = read_map h r.
Proof.
  destruct r as [l|]; [|done]. intros Hs [m Hm]. unfold read_map. simpl.
  rewrite Hm. by apply (lookup_weaken h).
Qed.
Lemma ref_ok_frame h h' r : h ⊆ h' → ref_ok h r → ref_ok h' r.
Proof. destruct r as [l|]; [|done]. intros Hs [m Hm]. exists m. by apply (lookup_weaken h). Qed.
Lemma ref_new_frame h h' r : h ⊆ h' → ref_new h' r → ref_new h r.
Proof. destruct r as [l|]; [|done]. intros Hs Hn. by apply (lookup_weaken_None h h'). Qed.

Lemma alloc_spec m h : ∃ l, alloc m h = (Val l, <[ l := m ]> h) ∧ h !! l = None.
Proof.
  exists (fresh (dom h)). split; [done|]. apply not_elem_of_dom, is_fresh.
Qed.

Lemma DeepCopy_map_spec h r :
  ref_ok h r → ∃ r' h', DeepCopy_map r h = (Val r', h') ∧ copied h h' [r] [r'].
Proof.
  destruct r as [l|]; simpl.
  - intros [m Hm]. destruct (alloc_spec (range_copy m ∅) h) as (l' & Ha & Hl').
    exists (Some l'), (<[ l' := m ]> h).
    assert (range_copy m ∅ = m) as Hrc by by rewrite range_copy_union, (right_id_L ∅ (∪)).
    rewrite Hrc in Ha. split.
    + assert (load l h = (Val m, h)) as Hl by (unfold load; by rewrite Hm).
      cbn [DeepCopy_map]. rewrite (bind_val _ _ _ _ _ Hl), Hrc. by rewrite (bind_val _ _ _ _ _ Ha).
    + split.
      * by apply insert_subseteq.
      * unfold read_map. simpl. by rewrite lookup_insert_eq, Hm.
      * repeat constructor. simpl. rewrite lookup_insert_eq. eauto.
      * by repeat constructor.
      * simpl. apply NoDup_singleton.
  - intros _. exists None, h. split; [done|]. split; repeat constructor; done.
Qed.

(** Copies made one after the other. *)
Lemma copied_app h h1 h2 rs1 rs1' rs2 rs2' :
  Forall (ref_ok h) rs2 →
  copied h h1 rs1 rs1' → copied h1 h2 rs2 rs2' → copied h h2 (rs1 ++ rs2) (rs1' ++ rs2').
Proof.
  intros Hok [F1 R1 O1 N1 D1] [F2 R2 O2 N2 D2].
  split.
  - by transitivity h1.
  - rewrite !fmap_app. f_equal.
    + rewrite <- R1. apply list_fmap_ext. intros i r Hr. apply read_map_frame; [done|].
      rewrite Forall_lookup in O1. eauto.
    + rewrite R2. apply list_fmap_ext. intros i r Hr. apply read_map_frame; [done|].
      rewrite Forall_lookup in Hok. eauto.
  - apply Forall_app. split; [|done]. apply (Forall_impl (ref_ok h1)); [done|]. intros r. by apply ref_ok_frame.
  - apply Forall_app. split; [done|]. apply (Forall_impl (ref_new h1)); [done|]. intros r. by apply ref_new_frame.
  - rewrite omap_app. apply NoDup_app. split_and!; [done| |done].
    intros l Hl1 Hl2. apply list_elem_of_omap in Hl1 as ([?|] & Hr1 & [= ->]).
    apply list_elem_of_omap in Hl2 as ([?|] & Hr2 & [= ->]).
    rewrite Forall_forall in O1, N2. destruct (O1 _ Hr1) as [m Hm]. specialize (N2 _ Hr2).
    simpl in N2. congruence.
Qed.

Lemma SecretObject_DeepCopyInto_spec h o :
  Forall (ref_ok h) (so_refs o) →
  ∃ o' h', SecretObject_DeepCopyInto o h = (Val o', h') ∧
    so_map (read_map h') o' = so_map (read_map h) o ∧ copied h h' (so_refs o) (so_refs o').
Proof.
  intros [HL [HA _]%Forall_cons]%Forall_cons.
  destruct (DeepCopy_map_spec h _ HL) as (rl & h1 & E1 & C1).
  assert (ref_ok h1 (so_Annotations o)) as HA1 by (eapply ref_ok_frame; [apply C1|done]).
  destruct (DeepCopy_map_spec h1 _ HA1) as (ra & h2 & E2 & C2).
  eexists _, h2. split; [|split].
  - unfold SecretObject_DeepCopyInto. by rewrite (bind_val _ _ _ _ _ E1), (bind_val _ _ _ _ _ E2).
  - pose proof (copied_app _ _ _ _ _ _ _ (Forall_cons_2 _ _ _ HA (Forall_nil_2 _)) C1 C2) as [_ R _ _ _].
    simpl in R. injection R as Rl Ra. unfold so_map. simpl. by rewrite Rl, Ra.
  - apply (copied_app _ _ _ [_] [_] [_] [_] (Forall_cons_2 _ _ _ HA (Forall_nil_2 _)) C1 C2).
Qed.

Lemma SecretSync_DeepCopyInto_spec h s :
  Forall (ref_ok h) (ss_refs s) →
  ∃ s' h', SecretSync_DeepCopyInto s h = (Val s', h') ∧
    read_ss h' s' = read_ss h s ∧ copied h h' (ss_refs s) (ss_refs s').
Proof.
  intros Hok. destruct (SecretObject_DeepCopyInto_spec h _ Hok) as (o' & h' & E & R & C).
  eexists _, h'. split.
  { unfold SecretSync_DeepCopyInto, SecretSyncSpec_DeepCopyInto, mbind, GoM_bind. by rewrite E. }
  split; [|exact C].
  unfold read_ss, ss_map, sss_map. simpl. rewrite R. by destruct s as [? ? [] [? [] []]].
Qed.

Lemma read_ss_frame h h' s : h ⊆ h' → Forall (ref_ok h) (ss_refs s) → read_ss h' s = read_ss h s.
Proof.
  intros Hs [HL [HA _]%Forall_cons]%Forall_cons. unfold read_ss, ss_map, sss_map, so_map.
  by rewrite (read_map_frame h h' _ Hs HL), (read_map_frame h h' _ Hs HA).
Qed.

(** C36: [DeepCopyObject], with the [DeepCopy] and [DeepCopyInto] methods it
    calls: a list is copied with every item, and a single object likewise; same
    contents, no map of a spec (labels and annotations of the Secret) shared with
    the original or between two items, no map of the caller changed; nil gives the
    nil interface.  Data, conditions and the time are values here, and the maps of
    ObjectMeta are not part of the model. *)
Theorem SecretSyncList_DeepCopy_correct h (l : SecretSyncList mapref) :
  Forall (ref_ok h) (ssl_Items l ≫= ss_refs) →
  (∃ l' h', SecretSyncList_DeepCopyObject (Some l) h = (Val (Some (ObjSecretSyncList l')), h') ∧
    ssl_TypeMeta l' = ssl_TypeMeta l ∧
    read_ss h' <$> ssl_Items l' = read_ss h <$> ssl_Items l ∧
    copied h h' (ssl_Items l ≫= ss_refs) (ssl_Items l' ≫= ss_refs)) ∧
  (∀ s, s ∈ ssl_Items l → ∃ s' h', SecretSync_DeepCopyObject (Some s) h = (Val (Some (ObjSecretSync s')), h') ∧
    read_ss h' s' = read_ss h s ∧ copied h h' (ss_refs s) (ss_refs s')) ∧
  SecretSyncList_DeepCopyObject None h = (Val None, h) ∧ SecretSync_DeepCopyObject None h = (Val None, h).
Proof.
  intros Hok. split_and!; [|intros s Hs|done..].
  2: { destruct (SecretSync_DeepCopyInto_spec h s) as (s' & h' & E & R & C).
    - apply Forall_forall. intros r Hr. rewrite Forall_forall in Hok. apply Hok, list_elem_of_bind. by exists s.
    - exists s', h'. split; [|done]. unfold SecretSync_DeepCopyObject, SecretSync_DeepCopy, DeepCopy_ptr, mbind, GoM_bind.
      by rewrite E. }
  destruct l as [tm items]. simpl in *.
  assert (∃ cs h', items_DeepCopy items h = (Val cs, h') ∧
    read_ss h' <$> cs = read_ss h <$> items ∧
    copied h h' (items ≫= ss_refs) (cs ≫= ss_refs)) as (cs & h' & E & R & C).
  { revert h Hok. induction items as [|s items IH]; intros h Hok.
    - exists [], h. split_and!; [done|done|]. split; simpl; done || constructor.
    - rewrite bind_cons in Hok. apply Forall_app in Hok as [Hs Hi].
      destruct (SecretSync_DeepCopyInto_spec h s Hs) as (c & h1 & E1 & R1 & C1).
      destruct (IH h1) as (cs & h2 & E2 & R2 & C2).
      { apply (Forall_impl (ref_ok h)); [done|]. intros r. apply ref_ok_frame, C1. }
      exists (c :: cs), h2. split_and!.
      + cbn [items_DeepCopy]. by rewrite (bind_val _ _ _ _ _ E1), (bind_val _ _ _ _ _ E2).
      + rewrite !fmap_cons. f_equal.
        * rewrite <- R1. apply read_ss_frame; [apply C2|apply C1].
        * rewrite R2. apply list_fmap_ext. intros i x Hx. apply read_ss_frame; [apply C1|].
          apply Forall_forall. intros r Hr. rewrite Forall_forall in Hi. apply Hi.
          apply list_elem_of_bind. exists x. split; [done|]. by eapply list_elem_of_lookup_2.
      + rewrite !bind_cons. by eapply copied_app. }
  exists {| ssl_TypeMeta := tm; ssl_Items := cs |}, h'. split_and!; try done.
  unfold SecretSyncList_DeepCopyObject, SecretSyncList_DeepCopy, DeepCopy_ptr, SecretSyncList_DeepCopyInto, mbind, GoM_bind.
  cbn. by rewrite E.
Qed.

Lemma SecretSyncList_DeepCopy_witness :
  let h : heap := {[ 1%positive := {[ "app" := "web" ]} ]} in
  let l := {| ssl_TypeMeta := {| tm_Kind := "SecretSyncList"; tm_APIVersion := "v1" |};
              ssl_Items := [shared_labels "a"; shared_labels "b"] |} in
  ∃ l' h', SecretSyncList_DeepCopyObject (Some l) h = (Val (Some (ObjSecretSyncList l')), h') ∧
    ssl_TypeMeta l' = ssl_TypeMeta l ∧
    read_ss h' <$> ssl_Items l' = read_ss h <$> ssl_Items l ∧
    copied h h' (ssl_Items l ≫= ss_refs) (ssl_Items l' ≫= ss_refs).
Proof.
  intros h l. refine (proj1 (SecretSyncList_DeepCopy_correct h l _)).
  assert (ref_ok h (Some 1%positive)) by (exists {[ "app" := "web" ]}; reflexivity).
  repeat constructor; assumption.
Defined.
