(* ===== verification/SecretUtil.v ===== *)
(** * pkg/util/secretutil: certificates, keys and the data of the Secret

    [BuildKubeSecretData] maps provider files to Secret keys; for a TLS Secret
    each value is cut to its certificates ([getCert]) or its private key
    ([getPrivateKey]).  PEM, PKCS#12 and X.509 are interfaces: the operations
    in one class, what the proofs rely on in another. *)

From stdpp Require Import strings gmap list.
From S2P Require Import Prelude GoText GoStrings ApiTypes.

(** ** Byte slices *)

(** A [[]byte]; [None] is nil. *)
Notation slice := (option string).
Definition bytes_of (s : slice) : string := default EmptyString s.

(** [append(s, t...)]: appending nothing to nil leaves nil. *)
Definition append (s t : slice) : slice :=
  match bytes_of t with
  | EmptyString => s
  | t' => Some (bytes_of s +:+ t')
  end.

Lemma append_bytes s t : bytes_of (append s t) = bytes_of s +:+ bytes_of t.
Proof. unfold append. destruct (bytes_of t) eqn:E; [by rewrite sapp_nil_r|done]. Qed.
Lemma append_nonempty s t : bytes_of t ≠ EmptyString → append s t = Some (bytes_of s +:+ bytes_of t).
Proof. unfold append. by destruct (bytes_of t). Qed.

(** ** [encoding/pem], [pkcs12], [crypto/x509] *)

Record Block := {
  blk_Type : string;
  blk_Headers : smap;
  blk_Bytes : slice;
}.
#[export] Instance Block_eq_dec : EqDecision Block. Proof. solve_decision. Defined.

Definition certType : string := "CERTIFICATE".
Definition privateKeyType : string := "PRIVATE KEY".
Definition privateKeyTypeRSA : string := "RSA PRIVATE KEY".
Definition privateKeyTypeEC : string := "EC PRIVATE KEY".

Class Pem := {
  (** The next block and the remainder of the input. *)
  pem_Decode : string → option Block * string;
  (** Nil for a block that cannot be encoded. *)
  pem_EncodeToMemory : Block → slice;
}.

(** "If no PEM data is found, p is nil and the whole of the input is returned
    in rest"; a block found takes bytes off the input. *)
Class PemLaws `{Pem} : Prop := {
  pem_Decode_none d r : pem_Decode d = (None, r) → r = d;
  pem_Decode_some d b r : pem_Decode d = (Some b, r) → String.length r < String.length d;
}.

(** The blocks this package writes: a type of its own, no headers. *)
Definition plain_block (b : Block) : bool :=
  bool_decide (blk_Type b ∈ [certType; privateKeyType; privateKeyTypeRSA; privateKeyTypeEC])
  && bool_decide (blk_Headers b = ∅) && bool_decide (is_Some (blk_Bytes b)).

(** Encoding a plain block and decoding it from the front of a text. *)
Class PemRoundTrip `{Pem} : Prop := {
  pem_encode_plain b :
    plain_block b = true →
    bytes_of (pem_EncodeToMemory b) ≠ EmptyString ∧
    ∀ rest, pem_Decode (bytes_of (pem_EncodeToMemory b) +:+ rest) = (Some b, rest);
}.

Class Pkcs12 := {
  (** [pkcs12.ToPEM(data, password)] *)
  pkcs12_ToPEM : string → string → result (list Block);
}.

Class X509 := {
  RSAKey : Type;
  ECKey : Type;
  OtherKey : Type;
  x509_ParsePKCS1PrivateKey : slice → result RSAKey;
  x509_MarshalPKCS1PrivateKey : RSAKey → slice;
  x509_ParsePKCS8PrivateKey : slice → result (RSAKey + (ECKey + OtherKey));
  x509_ParseECPrivateKey : slice → result ECKey;
  x509_MarshalECPrivateKey : ECKey → result slice;
}.

(** The DER forms round trip, and a PKCS#1 or SEC 1 key is not taken for one of
    the other forms. *)
Class X509Laws `{X509} : Prop := {
  x509_PKCS1_roundtrip k :
    is_Some (x509_MarshalPKCS1PrivateKey k) ∧
    x509_ParsePKCS1PrivateKey (x509_MarshalPKCS1PrivateKey k) = Ok k ∧
    is_Ok (x509_ParsePKCS8PrivateKey (x509_MarshalPKCS1PrivateKey k)) = false ∧
    is_Ok (x509_ParseECPrivateKey (x509_MarshalPKCS1PrivateKey k)) = false;
  x509_EC_roundtrip k d :
    x509_MarshalECPrivateKey k = Ok d →
    is_Some d ∧ x509_ParseECPrivateKey d = Ok k ∧
    is_Ok (x509_ParsePKCS1PrivateKey d) = false ∧
    is_Ok (x509_ParsePKCS8PrivateKey d) = false;
}.

(** ** [corev1] constants *)
Definition TLSPrivateKeyKey : string := "tls.key".
Definition TLSCertKey : string := "tls.crt".
Definition SecretTypeTLS : string := "kubernetes.io/tls".

Section SecretUtil.
Context `{Pem} `{Pkcs12} `{X509}.

(** ** [getCert] *)

(** The loop over PEM blocks; [None] when the fuel runs out, which a decoder
    that makes progress never causes. *)
Fixpoint getCert_loop (fuel : nat) (data : string) (certs : slice) : option (slice * string) :=
  match fuel with
  | O => None
  | S fuel =>
    match pem_Decode data with
    | (None, _) => Some (certs, data)
    | (Some pemBlock, rest) =>
      getCert_loop fuel rest
        (if bool_decide (blk_Type pemBlock = certType)
         then append certs (pem_EncodeToMemory pemBlock) else certs)
    end
  end.

(** The loop over the blocks of a PFX file. *)
Definition pfx_certs (pemBlocks : list Block) (certs : slice) : slice :=
  foldl (λ certs block,
    if bool_decide (blk_Type block = certType)
    then append certs (pem_EncodeToMemory block) else certs) certs pemBlocks.

Definition loop_fuel (data : slice) : nat := S (String.length (bytes_of data)).

Definition getCert (data : slice) : option (result slice) :=
  match getCert_loop (loop_fuel data) (bytes_of data) None with
  | None => None
  | Some (None, data) =>
    match pkcs12_ToPEM data EmptyString with
    | Err err => Some (Err err)
    | Ok pemBlocks => Some (Ok (pfx_certs pemBlocks None))
    end
  | Some (Some certs, _) => Some (Ok (Some certs))
  end.

(** ** [getPrivateKey] *)

Fixpoint getPrivateKey_loop (fuel : nat) (data : string) (der : slice) : option (slice * string) :=
  match fuel with
  | O => None
  | S fuel =>
    match pem_Decode data with
    | (None, _) => Some (der, data)
    | (Some pemBlock, rest) =>
      getPrivateKey_loop fuel rest
        (if bool_decide (blk_Type pemBlock = certType) then der else blk_Bytes pemBlock)
    end
  end.

Definition pfx_key (pemBlocks : list Block) (der : slice) : slice :=
  foldl (λ der block,
    if bool_decide (blk_Type block = privateKeyType) then blk_Bytes block else der) der pemBlocks.

(** The three attempts to parse [der]; each one that succeeds overwrites the
    type and the bytes the one before it has set. *)
Definition reencode_key (der : slice) : result (string * slice) :=
  let privKeyType := privateKeyType in
  let derKey : slice := None in
  let '(privKeyType, derKey) :=
    match x509_ParsePKCS1PrivateKey der with
    | Ok key => (privateKeyTypeRSA, x509_MarshalPKCS1PrivateKey key)
    | Err _ => (privKeyType, derKey)
    end in
  let pkcs8 :=
    match x509_ParsePKCS8PrivateKey der with
    | Ok (inl key) => Ok (privateKeyTypeRSA, x509_MarshalPKCS1PrivateKey key)
    | Ok (inr (inl key)) =>
      match x509_MarshalECPrivateKey key with
      | Ok derKey => Ok (privateKeyTypeEC, derKey)
      | Err err => Err err
      end
    | Ok (inr (inr _)) =>
      Err (errors_New "unknown private key type found while getting key. Only rsa and ecdsa are supported")
    | Err _ => Ok (privKeyType, derKey)
    end in
  match pkcs8 with
  | Err err => Err err
  | Ok (privKeyType, derKey) =>
    match x509_ParseECPrivateKey der with
    | Ok key =>
      match x509_MarshalECPrivateKey key with
      | Ok derKey => Ok (privateKeyTypeEC, derKey)
      | Err err => Err err
      end
    | Err _ => Ok (privKeyType, derKey)
    end
  end.

Definition encode_key (der : slice) : result slice :=
  match reencode_key der with
  | Err err => Err err
  | Ok (privKeyType, derKey) =>
    Ok (pem_EncodeToMemory {| blk_Type := privKeyType; blk_Headers := ∅; blk_Bytes := derKey |})
  end.

Definition getPrivateKey (data : slice) : option (result slice) :=
  match getPrivateKey_loop (loop_fuel data) (bytes_of data) None with
  | None => None
  | Some (None, data) =>
    match pkcs12_ToPEM data EmptyString with
    | Err err => Some (Err err)
    | Ok pemBlocks => Some (encode_key (pfx_key pemBlocks None))
    end
  | Some (der, _) => Some (encode_key der)
  end.

(** ** [GetCertPart] *)
Definition GetCertPart (data : slice) (key : string) : option (result slice) :=
  if bool_decide (key = TLSPrivateKeyKey) then getPrivateKey data
  else if bool_decide (key = TLSCertKey) then getCert data
  else Some (Err (errors_New ("key '" +:+ key +:+
    "' is not supported. Only 'tls.key' and 'tls.crt' are supported"))).

(** ** [BuildKubeSecretData] *)

(** The loop returns the map built so far next to the error. *)
Fixpoint BuildKubeSecretData_loop (secretObjData : list SecretObjectData) (secretType : string)
    (files : gmap string slice) (datamap : gmap string slice)
    : option (gmap string slice * option error) :=
  match secretObjData with
  | [] => Some (datamap, None)
  | data :: rest =>
    let sourcePath := TrimSpace (sod_SourcePath data) in
    let dataKey := TrimSpace (sod_TargetKey data) in
    if bool_decide (String.length sourcePath = 0) then
      Some (datamap, Some (errors_New "source path in secretObject.data is empty"))
    else if bool_decide (String.length dataKey = 0) then
      Some (datamap, Some (errors_New "target key in secretObject.data is empty"))
    else match files !! sourcePath with
    | None =>
      Some (datamap, Some (errors_New ("file matching sourcePath " +:+ sourcePath +:+ " not found in the pod")))
    | Some content =>
      let datamap := <[ dataKey := content ]> datamap in
      if bool_decide (secretType = SecretTypeTLS) then
        match GetCertPart content dataKey with
        | None => None
        | Some (Err err) =>
          Some (datamap, Some (errorf_w ("failed to get cert data for " +:+ dataKey +:+ ": " +:+ Error err) err))
        | Some (Ok c) =>
          BuildKubeSecretData_loop rest secretType files (<[ dataKey := c ]> datamap)
        end
      else BuildKubeSecretData_loop rest secretType files datamap
    end
  end.

Definition BuildKubeSecretData (secretObjData : list SecretObjectData) (secretType : string)
    (files : gmap string slice) : option (gmap string slice * option error) :=
  BuildKubeSecretData_loop secretObjData secretType files ∅.

(** ** The blocks of a text

    What the two loops walk through: the decoded blocks, and what remains
    when no further block is found. *)
Inductive pem_stream : string → list Block → string → Prop :=
| pem_stream_end d r : pem_Decode d = (None, r) → pem_stream d [] d
| pem_stream_block d b r bs e :
    pem_Decode d = (Some b, r) → pem_stream r bs e → pem_stream d (b :: bs) e.

(** The certificates among the blocks, encoded one after the other; nil when
    that is nothing. *)
Definition cert_blocks (bs : list Block) : list Block := filter (λ b, blk_Type b = certType) bs.
Definition encode_all (bs : list Block) : string := concat_enc (λ b, bytes_of (pem_EncodeToMemory b)) bs.
Definition cert_text (bs : list Block) : slice :=
  let out := encode_all (cert_blocks bs) in if bool_decide (out = EmptyString) then None else Some out.

(** The bytes of the last block that satisfies [p]. *)
Definition last_bytes (p : Block → bool) (bs : list Block) : slice :=
  last (filter (λ b, p b = true) bs) ≫= blk_Bytes.

Lemma pfx_certs_text bs : pfx_certs bs None = cert_text bs.
Proof.
  assert (∀ c, pfx_certs bs c = match c with
    | None => cert_text bs
    | Some c => Some (c +:+ encode_all (cert_blocks bs)) end) as Hgen; [|apply (Hgen None)].
  unfold cert_text, cert_blocks, encode_all, pfx_certs.
  induction bs as [|b bs IH]; intros c; simpl.
  { destruct c; [by rewrite sapp_nil_r|done]. }
  rewrite IH, filter_cons. clear IH. case_bool_decide as Hb; [|by rewrite decide_False].
  rewrite decide_True by done. simpl. unfold append.
  destruct (bytes_of (pem_EncodeToMemory b)) as [|x t] eqn:Ht.
  - rewrite sapp_nil_l. by destruct c.
  - rewrite sapp_cons. destruct c as [c|]; simpl; [by str_norm|].
    by str_norm.
Qed.

Lemma last_bytes_foldl (p : Block → bool) bs :
  foldl (λ der b, if p b then blk_Bytes b else der) None bs = last_bytes p bs.
Proof.
  unfold last_bytes. induction bs as [|b bs IH] using rev_ind; [done|].
  rewrite foldl_app, filter_app. simpl. rewrite IH.
  destruct (p b) eqn:Hp.
  - rewrite filter_cons, decide_True by done. by rewrite filter_nil, last_snoc.
  - rewrite filter_cons, decide_False by congruence. by rewrite filter_nil, app_nil_r.
Qed.

Context `{!PemLaws}.

Lemma pem_stream_exists d : ∃ bs e, pem_stream d bs e.
Proof.
  remember (String.length d) as n eqn:Hn. revert d Hn.
  induction (lt_wf n) as [n _ IH]. intros d ->.
  destruct (pem_Decode d) as [[b|] r] eqn:E.
  - destruct (IH (String.length r) (pem_Decode_some d b r E) r eq_refl) as (bs & e & Hs).
    exists (b :: bs), e. by econstructor.
  - exists [], d. by econstructor.
Qed.

Lemma getCert_loop_stream d bs e certs fuel :
  pem_stream d bs e → String.length d < fuel →
  getCert_loop fuel d certs = Some (pfx_certs bs certs, e).
Proof.
  intros Hs. revert certs fuel. induction Hs as [d r E|d b r bs e E Hs IH];
    intros certs [|fuel] Hf; [lia| |lia|]; cbn [getCert_loop]; rewrite E; [done|].
  rewrite IH; [done|]. pose proof (pem_Decode_some d b r E). lia.
Qed.

Lemma getPrivateKey_loop_stream d bs e der fuel :
  pem_stream d bs e → String.length d < fuel →
  getPrivateKey_loop fuel d der =
    Some (foldl (λ der b, if bool_decide (blk_Type b = certType) then der else blk_Bytes b) der bs, e).
Proof.
  intros Hs. revert der fuel. induction Hs as [d r E|d b r bs e E Hs IH];
    intros der [|fuel] Hf; [lia| |lia|]; cbn [getPrivateKey_loop]; rewrite E; [done|].
  rewrite IH; [done|]. pose proof (pem_Decode_some d b r E). lia.
Qed.

Lemma getCert_stream data bs e :
  pem_stream (bytes_of data) bs e →
  getCert data = Some (match cert_text bs with
    | Some certs => Ok (Some certs)
    | None => match pkcs12_ToPEM e EmptyString with
              | Err err => Err err
              | Ok pfx => Ok (cert_text pfx)
              end
    end).
Proof.
  intros Hs. unfold getCert.
  rewrite (getCert_loop_stream _ _ _ _ _ Hs), pfx_certs_text by (unfold loop_fuel; lia).
  destruct (cert_text bs); [done|]. destruct (pkcs12_ToPEM e EmptyString); [|done].
  by rewrite pfx_certs_text.
Qed.

(** The DER bytes [getPrivateKey] parses. *)
Definition not_cert (b : Block) : bool := negb (bool_decide (blk_Type b = certType)).
Definition is_pkcs8 (b : Block) : bool := bool_decide (blk_Type b = privateKeyType).

Lemma getPrivateKey_stream data bs e :
  pem_stream (bytes_of data) bs e →
  getPrivateKey data = Some (match last_bytes not_cert bs with
    | Some der => encode_key (Some der)
    | None => match pkcs12_ToPEM e EmptyString with
              | Err err => Err err
              | Ok pfx => encode_key (last_bytes is_pkcs8 pfx)
              end
    end).
Proof.
  intros Hs. unfold getPrivateKey.
  rewrite (getPrivateKey_loop_stream _ _ _ _ _ Hs) by (unfold loop_fuel; lia).
  assert (∀ a, foldl (λ der b, if bool_decide (blk_Type b = certType) then der else blk_Bytes b) a bs
    = foldl (λ der b, if not_cert b then blk_Bytes b else der) a bs) as ->.
  { clear. induction bs as [|b bs IH]; intros a; [done|]. simpl. rewrite IH. unfold not_cert.
    by destruct (bool_decide _). }
  rewrite last_bytes_foldl. destruct (last_bytes not_cert bs); [done|].
  destruct (pkcs12_ToPEM e EmptyString) as [pfx|]; [|done].
  exact (f_equal (λ x, Some (encode_key x)) (last_bytes_foldl is_pkcs8 pfx)).
Qed.

Lemma GetCertPart_total data key : is_Some (GetCertPart data key).
Proof.
  unfold GetCertPart. destruct (pem_stream_exists (bytes_of data)) as (bs & e & Hs).
  rewrite (getPrivateKey_stream _ _ _ Hs), (getCert_stream _ _ _ Hs).
  repeat case_bool_decide; eauto.
Qed.

Lemma BuildKubeSecretData_loop_total l ty files m : is_Some (BuildKubeSecretData_loop l ty files m).
Proof.
  revert m. induction l as [|d l IH]; intros m; cbn [BuildKubeSecretData_loop]; cbv zeta; [eauto|].
  do 2 (case_bool_decide; [by eauto|]). destruct (files !! _) as [c|]; [|eauto].
  case_bool_decide; [|done].
  destruct (GetCertPart_total c (TrimSpace (sod_TargetKey d))) as [[v|err] ->]; eauto.
Qed.

(** ** One entry of [secretObject.data] *)

(** The entry is well formed, its file exists, and [v] is what the Secret
    gets under [k]: for a TLS Secret the part of the file the key names, for
    any other type the file. *)
Definition entry_ok (ty : string) (files : gmap string slice) (d : SecretObjectData)
    (kv : string * slice) : Prop :=
  TrimSpace (sod_SourcePath d) ≠ EmptyString ∧ TrimSpace (sod_TargetKey d) = kv.1 ∧ kv.1 ≠ EmptyString ∧
  ∃ content, files !! TrimSpace (sod_SourcePath d) = Some content ∧
    if bool_decide (ty = SecretTypeTLS) then GetCertPart content kv.1 = Some (Ok kv.2)
    else kv.2 = content.

Lemma slength_0 s : String.length s = 0 ↔ s = EmptyString.
Proof. by destruct s. Qed.

(** One iteration on an entry that is fine, and on one that is not. *)
Lemma loop_entry_ok ty files d kv l m :
  entry_ok ty files d kv →
  BuildKubeSecretData_loop (d :: l) ty files m = BuildKubeSecretData_loop l ty files (<[ kv.1 := kv.2 ]> m).
Proof.
  intros (Hs & Hk & Hn & content & Hc & Hv). cbn [BuildKubeSecretData_loop]; cbv zeta.
  rewrite Hk, bool_decide_false, bool_decide_false, Hc by (rewrite slength_0; congruence).
  destruct (bool_decide (ty = SecretTypeTLS)); [|by rewrite Hv].
  by rewrite Hv, insert_insert_eq.
Qed.

Lemma loop_entry_bad ty files d l m :
  (∀ kv, ¬ entry_ok ty files d kv) →
  ∃ m' err, BuildKubeSecretData_loop (d :: l) ty files m = Some (m', Some err) ∧
    (m' = m ∨ ∃ content, ty = SecretTypeTLS ∧ files !! TrimSpace (sod_SourcePath d) = Some content ∧
      m' = <[ TrimSpace (sod_TargetKey d) := content ]> m).
Proof.
  intros Hbad. cbn [BuildKubeSecretData_loop]; cbv zeta. case_bool_decide as E1; [by eauto 10|]. case_bool_decide as E2; [by eauto 10|].
  rewrite slength_0 in E1, E2. destruct (files !! _) as [c|] eqn:Hc; [|by eauto 10].
  case_bool_decide as Hty.
  - destruct (GetCertPart_total c (TrimSpace (sod_TargetKey d))) as [[v|err] Hg]; rewrite Hg; [|by eauto 10].
    exfalso. apply (Hbad (TrimSpace (sod_TargetKey d), v)). split_and!; try done.
    exists c. split; [done|]. by rewrite bool_decide_true.
  - exfalso. apply (Hbad (TrimSpace (sod_TargetKey d), c)). split_and!; try done.
    exists c. split; [done|]. by rewrite bool_decide_false.
Qed.

Lemma entry_ok_det ty files d kv1 kv2 : entry_ok ty files d kv1 → entry_ok ty files d kv2 → kv1 = kv2.
Proof.
  destruct kv1 as [k1 v1], kv2 as [k2 v2]. intros (_ & K1 & _ & c1 & Hc1 & Hv1) (_ & K2 & _ & c2 & Hc2 & Hv2).
  simpl in *. repeat case_bool_decide; congruence.
Qed.

Lemma entry_dec ty files d : (∃ kv, entry_ok ty files d kv) ∨ (∀ kv, ¬ entry_ok ty files d kv).
Proof.
  destruct (decide (TrimSpace (sod_SourcePath d) = EmptyString)) as [E|Hs];
    [right; by intros kv (? & _)|].
  destruct (decide (TrimSpace (sod_TargetKey d) = EmptyString)) as [E|Hk];
    [right; intros kv (_ & ? & ? & _); congruence|].
  destruct (files !! TrimSpace (sod_SourcePath d)) as [c|] eqn:Hc;
    [|right; intros kv (_ & _ & _ & c & ? & _); congruence].
  destruct (decide (ty = SecretTypeTLS)) as [Ht|Ht].
  - destruct (GetCertPart_total c (TrimSpace (sod_TargetKey d))) as [[v|err] Hg].
    + left. exists (TrimSpace (sod_TargetKey d), v). split_and!; try done.
      exists c. split; [done|]. by rewrite bool_decide_true.
    + right. intros kv (_ & Hkv & _ & c' & Hc' & Hv). rewrite bool_decide_true in Hv by done.
      congruence.
  - left. exists (TrimSpace (sod_TargetKey d), c). split_and!; try done.
    exists c. split; [done|]. by rewrite bool_decide_false.
Qed.

(** The prefix of good entries, and what follows it. *)
Lemma loop_good_prefix ty files pre kvs l m :
  Forall2 (entry_ok ty files) pre kvs →
  BuildKubeSecretData_loop (pre ++ l) ty files m =
    BuildKubeSecretData_loop l ty files (foldl (λ acc kv, <[ kv.1 := kv.2 ]> acc) m kvs).
Proof.
  intros HF. revert m. induction HF as [|d kv pre kvs Hd HF IH]; intros m; [done|].
  rewrite <- app_comm_cons. by rewrite (loop_entry_ok _ _ _ _ _ _ Hd), IH.
Qed.

Lemma good_prefix ty files l :
  ∃ pre kvs rest, l = pre ++ rest ∧ Forall2 (entry_ok ty files) pre kvs ∧
    match rest with [] => True | d :: _ => ∀ kv, ¬ entry_ok ty files d kv end.
Proof.
  induction l as [|d l (pre & kvs & rest & -> & HF & Hr)].
  - by exists [], [], [].
  - destruct (entry_dec ty files d) as [[kv Hd]|Hd].
    + exists (d :: pre), (kv :: kvs), rest. split_and!; [done| |done]. by constructor.
    + exists [], [], (d :: pre ++ rest). split_and!; [done|constructor|done].
Qed.
End SecretUtil.
