(* ===== verification/CryptoFixture.v ===== *)
(** * Concrete instances of the PEM, PKCS#12 and X.509 interfaces

    Small functions that satisfy the laws of SecretUtil.v, for the witnesses:
    a block is a tag byte for its type and its bytes, each after a ["1"],
    closed by a ["0"]; a key is a tag byte for its DER form and its value. *)

From Stdlib Require Import Ascii.
From stdpp Require Import strings gmap list.
From S2P Require Import Prelude GoText ApiTypes SecretUtil.

Definition tags : list (string * ascii) :=
  [(certType, "C"%char); (privateKeyType, "P"%char); (privateKeyTypeRSA, "R"%char); (privateKeyTypeEC, "E"%char)].

Definition tag_of (t : string) : option ascii :=
  snd <$> find (λ p, bool_decide (p.1 = t)) tags.
Definition type_of_tag (a : ascii) : option string :=
  fst <$> find (λ p, bool_decide (p.2 = a)) tags.

Fixpoint enc_body (s : string) : string :=
  match s with
  | EmptyString => "0"
  | String a s => String "1" (String a (enc_body s))
  end.
Fixpoint dec_body (s : string) : option (string * string) :=
  match s with
  | String "0" r => Some (EmptyString, r)
  | String "1" (String a r) =>
    match dec_body r with Some (b, r') => Some (String a b, r') | None => None end
  | _ => None
  end.

Lemma dec_enc_body s r : dec_body (enc_body s +:+ r) = Some (s, r).
Proof. induction s as [|a s IH]; [done|]. cbn [enc_body]. str_norm. cbn [dec_body]. by rewrite IH. Qed.

(** Two bytes at a time. *)
Lemma string_ind2 (P : string → Prop) :
  P EmptyString → (∀ a, P (String a EmptyString)) → (∀ a b s, P s → P (String a (String b s))) → ∀ s, P s.
Proof. intros H0 H1 H2. fix IH 1. intros [|a [|b s]]; [done|done|]. apply H2, IH. Qed.

Lemma dec_body_shorter s b r : dec_body s = Some (b, r) → String.length r < String.length s.
Proof.
  revert b r. induction s as [|a|a c s IH] using string_ind2; intros b r; [done|..]; cbn [dec_body];
    repeat (case_match; try done); intros; simplify_eq/=; try lia.
  eapply Nat.lt_trans; [by eapply IH|lia].
Qed.

Definition toy_Decode (d : string) : option Block * string :=
  match d with
  | EmptyString => (None, d)
  | String a d' =>
    match type_of_tag a, dec_body d' with
    | Some t, Some (b, r) => (Some {| blk_Type := t; blk_Headers := ∅; blk_Bytes := Some b |}, r)
    | _, _ => (None, d)
    end
  end.

Definition toy_EncodeToMemory (b : Block) : slice :=
  match tag_of (blk_Type b) with
  | Some a => if bool_decide (blk_Headers b = ∅) then Some (String a (enc_body (bytes_of (blk_Bytes b)))) else None
  | None => None
  end.

#[export] Instance toy_Pem : Pem := {| pem_Decode := toy_Decode; pem_EncodeToMemory := toy_EncodeToMemory |}.

#[export] Instance toy_PemLaws : PemLaws.
Proof.
  split; cbn [pem_Decode toy_Pem]; unfold toy_Decode; intros [|a d]; try naive_solver.
  - repeat case_match; naive_solver.
  - intros b r. repeat case_match; intros; simplify_eq. simpl.
    eapply Nat.lt_trans; [by eapply dec_body_shorter|lia].
Qed.

#[export] Instance toy_PemRoundTrip : PemRoundTrip.
Proof.
  split. intros [t hs [bs|]]; unfold plain_block; simpl; rewrite !andb_true_iff, !bool_decide_eq_true;
    [|by intros [_ ?]].
  intros [[Ht ->] _]. unfold toy_EncodeToMemory. simpl.
  rewrite !elem_of_cons, elem_of_nil in Ht.
  assert (∃ a, tag_of t = Some a ∧ type_of_tag a = Some t) as (a & Hat & Hta).
  { destruct Ht as [->|[->|[->|[->|[]]]]];
      [exists "C"%char|exists "P"%char|exists "R"%char|exists "E"%char]; split; vm_compute; reflexivity. }
  rewrite Hat, bool_decide_true by done. split; [done|]. intros rest. simpl.
  rewrite sapp_cons. cbn [toy_Decode]. by rewrite Hta, dec_enc_body.
Qed.

(** PFX files: none is readable. *)
#[export] Instance toy_Pkcs12 : Pkcs12 := {|
  pkcs12_ToPEM := λ data _, Err (errors_New "pkcs12: error reading P12 data")
|}.

Definition tagged (tag : ascii) (d : slice) : result string :=
  match d with
  | Some (String a k) => if bool_decide (a = tag) then Ok k else Err (errors_New "x509: failed to parse")
  | _ => Err (errors_New "x509: failed to parse")
  end.

(** ["1"]: PKCS#1, ["s"]: SEC 1, ["8r"], ["8e"], ["8x"]: PKCS#8 of an RSA, EC
    and other key. *)
#[export] Instance toy_X509 : X509 := {|
  RSAKey := string; ECKey := string; OtherKey := unit;
  x509_ParsePKCS1PrivateKey := tagged "1"%char;
  x509_MarshalPKCS1PrivateKey k := Some (String "1" k);
  x509_ParsePKCS8PrivateKey d :=
    match tagged "8"%char d with
    | Ok (String "r" k) => Ok (inl k)
    | Ok (String "e" k) => Ok (inr (inl k))
    | Ok _ => Ok (inr (inr tt))
    | Err e => Err e
    end;
  x509_ParseECPrivateKey := tagged "s"%char;
  x509_MarshalECPrivateKey k := Ok (Some (String "s" k));
|}.

#[export] Instance toy_X509Laws : X509Laws.
Proof. split; simpl; [intros k|intros k d [= <-]]; repeat split; eauto. Qed.

(** A bundle: a certificate, a key, a certificate. *)
Definition cert_a : Block := {| blk_Type := certType; blk_Headers := ∅; blk_Bytes := Some "aa" |}.
Definition cert_b : Block := {| blk_Type := certType; blk_Headers := ∅; blk_Bytes := Some "b" |}.
Definition key_block (t der : string) : Block := {| blk_Type := t; blk_Headers := ∅; blk_Bytes := Some der |}.
Definition bundle_blocks : list Block := [cert_a; key_block privateKeyType "8rk"; cert_b].
Definition bundle : string := encode_all bundle_blocks.
