(* ===== verification/SecretUtilSpec.v ===== *)
(** * Properties of pkg/util/secretutil

    What the certificate and key extraction returns for every input, how it
    behaves on a PEM bundle, and what [BuildKubeSecretData] puts in the
    Secret.  The interfaces are those of SecretUtil.v; the witnesses use the
    instances of CryptoFixture.v. *)

From stdpp Require Import strings gmap list.
From S2P Require Import Prelude GoText GoStrings ApiTypes SecretUtil CryptoFixture.

Section helpers.
Context `{Pem, !PemLaws}.

Lemma pem_stream_det d bs e bs' e' : pem_stream d bs e → pem_stream d bs' e' → bs' = bs ∧ e' = e.
Proof.
  intros Hs. revert bs' e'. induction Hs as [d r E|d b r bs e E Hs IH]; intros bs' e' Hs'.
  - inversion Hs' as [|? b' r' ? ? E']; subst; [done|congruence].
  - inversion Hs' as [? r' E'|? b' r' ? ? E' Hs'']; subst; [congruence|].
    rewrite E in E'. injection E' as <- <-. by destruct (IH _ _ Hs'') as [-> ->].
Qed.

(** A bundle of plain blocks is decoded back into its blocks. *)
Lemma encode_all_stream `{!PemRoundTrip} bs :
  Forall (λ b, plain_block b = true) bs → pem_stream (encode_all bs) bs EmptyString.
Proof.
  induction 1 as [|b bs Hb HF IH].
  - destruct (pem_Decode EmptyString) as [[b|] r] eqn:E.
    + apply pem_Decode_some in E. simpl in E. lia.
    + by econstructor.
  - destruct (pem_encode_plain b Hb) as [_ Hd]. by eapply pem_stream_block; [apply Hd|].
Qed.

Lemma encode_all_nonempty `{!PemRoundTrip} bs :
  Forall (λ b, plain_block b = true) bs → bs ≠ [] → encode_all bs ≠ EmptyString.
Proof.
  intros HF Hne. destruct HF as [|b bs Hb HF]; [done|]. destruct (pem_encode_plain b Hb) as [Hn _].
  simpl. destruct (bytes_of (pem_EncodeToMemory b)); done.
Qed.

Lemma cert_blocks_idem bs : cert_blocks (cert_blocks bs) = cert_blocks bs.
Proof.
  unfold cert_blocks. induction bs as [|b bs IH]; [done|]. rewrite filter_cons.
  case_decide; [|done]. rewrite filter_cons, decide_True by done. by rewrite IH.
Qed.
Lemma cert_blocks_plain bs :
  Forall (λ b, plain_block b = true) bs → Forall (λ b, plain_block b = true) (cert_blocks bs).
Proof. rewrite !Forall_forall. intros HF b Hb. apply HF. by apply list_elem_of_filter in Hb as [_ ?]. Qed.

Lemma getCert_bundle `{!PemRoundTrip, Pkcs12} bs :
  Forall (λ b, plain_block b = true) bs → cert_blocks bs ≠ [] →
  getCert (Some (encode_all bs)) = Some (Ok (Some (encode_all (cert_blocks bs)))).
Proof.
  intros HF Hne. rewrite (getCert_stream (Some (encode_all bs)) bs EmptyString) by by apply encode_all_stream.
  unfold cert_text. rewrite bool_decide_false; [done|]. by apply encode_all_nonempty; [apply cert_blocks_plain|].
Qed.

Lemma foldl_insert_map {V} (kvs : list (string * V)) :
  foldl (λ acc kv, <[ kv.1 := kv.2 ]> acc) (∅ : gmap string V) kvs = list_to_map (reverse kvs).
Proof.
  induction kvs as [|[k v] kvs IH] using rev_ind; [done|].
  by rewrite foldl_app, reverse_snoc, IH.
Qed.
End helpers.

Section keys.
Context `{Pem, X509, !X509Laws}.

(** A recognised key is re-encoded to a form that re-encodes to itself. *)
Lemma reencode_key_stable der t d :
  reencode_key der = Ok (t, d) → t ≠ privateKeyType →
  (t = privateKeyTypeRSA ∨ t = privateKeyTypeEC) ∧ is_Some d ∧ reencode_key d = Ok (t, d).
Proof.
  assert (∀ k, is_Some (x509_MarshalPKCS1PrivateKey k) ∧
    reencode_key (x509_MarshalPKCS1PrivateKey k) = Ok (privateKeyTypeRSA, x509_MarshalPKCS1PrivateKey k)) as HR.
  { intros k. destruct (x509_PKCS1_roundtrip k) as (Hs & E1 & E2 & E3). split; [done|].
    unfold reencode_key. rewrite E1. destruct (x509_ParsePKCS8PrivateKey _); [done|].
    by destruct (x509_ParseECPrivateKey _). }
  assert (∀ k d, x509_MarshalECPrivateKey k = Ok d → is_Some d ∧ reencode_key d = Ok (privateKeyTypeEC, d)) as HE.
  { intros k d' Hk. destruct (x509_EC_roundtrip k d' Hk) as (Hs & E1 & E2 & E3). split; [done|].
    unfold reencode_key. destruct (x509_ParsePKCS1PrivateKey d'); [done|].
    destruct (x509_ParsePKCS8PrivateKey d'); [done|]. by rewrite E1, Hk. }
  unfold reencode_key at 1. intros E Ht.
  repeat (case_match; simplify_eq; try done); naive_solver.
Qed.
End keys.

(** C33: [getCert] on every input.  The input is, uniquely, a sequence of PEM
    blocks and a rest.  If one of the blocks is a certificate that encodes,
    the result is the encodings of the certificate blocks in order and
    nothing else; otherwise the rest goes to the PFX reader, whose error is
    returned, or whose certificate blocks are encoded in the same way. *)
Theorem getCert_correct `{Pem, !PemLaws, Pkcs12} (data : slice) :
  ∃ bs e, pem_stream (bytes_of data) bs e ∧
    (∀ bs' e', pem_stream (bytes_of data) bs' e' → bs' = bs ∧ e' = e) ∧
    getCert data = Some
      (if bool_decide (encode_all (cert_blocks bs) = EmptyString) then
         match pkcs12_ToPEM e EmptyString with
         | Err err => Err err
         | Ok pfx => Ok (cert_text pfx)
         end
       else Ok (Some (encode_all (cert_blocks bs)))).
Proof.
  destruct (pem_stream_exists (bytes_of data)) as (bs & e & Hs). exists bs, e. split_and!; [done| |].
  - intros bs' e'. by apply pem_stream_det.
  - rewrite (getCert_stream _ _ _ Hs). unfold cert_text. by case_bool_decide.
Qed.

Lemma getCert_correct_witness :
  PemLaws ∧
  (∃ bs e, pem_stream bundle bs e ∧
    (∀ bs' e', pem_stream bundle bs' e' → bs' = bs ∧ e' = e) ∧
    getCert (Some bundle) = Some
      (if bool_decide (encode_all (cert_blocks bs) = EmptyString) then
         match pkcs12_ToPEM e EmptyString with
         | Err err => Err err
         | Ok pfx => Ok (cert_text pfx)
         end
       else Ok (Some (encode_all (cert_blocks bs))))) ∧
  getCert (Some bundle) = Some (Ok (Some "C1a1a0C1b0")).
Proof.
  split; [apply _|]. split; [exact (getCert_correct (Some bundle))|]. vm_compute. reflexivity.
Defined.

(** On a PEM bundle (blocks of the types the package knows, no headers)
    with at least one certificate, [getCert] returns exactly the
    certificates, and extracting again changes nothing. *)
Theorem getCert_idempotent `{Pem, !PemLaws, !PemRoundTrip, Pkcs12} (bs : list Block) :
  Forall (λ b, plain_block b = true) bs → cert_blocks bs ≠ [] →
  let out := encode_all (cert_blocks bs) in
  getCert (Some (encode_all bs)) = Some (Ok (Some out)) ∧ getCert (Some out) = Some (Ok (Some out)).
Proof.
  intros HF Hne. cbv zeta. split; [by apply getCert_bundle|].
  rewrite getCert_bundle; [by rewrite cert_blocks_idem|by apply cert_blocks_plain|by rewrite cert_blocks_idem].
Qed.

Lemma getCert_idempotent_witness :
  (let out := encode_all (cert_blocks bundle_blocks) in
   getCert (Some (encode_all bundle_blocks)) = Some (Ok (Some out)) ∧ getCert (Some out) = Some (Ok (Some out)))
  ∧ encode_all (cert_blocks bundle_blocks) = "C1a1a0C1b0".
Proof.
  split; [|vm_compute; reflexivity].
  apply (getCert_idempotent bundle_blocks); [repeat constructor|vm_compute; discriminate].
Defined.

(** C34: [getPrivateKey] normalises keys.  If the key it finds in the input
    parses as an RSA or EC key, the output is one block of that type, and
    running [getPrivateKey] on the output gives the output again. *)
Theorem getPrivateKey_idempotent
    `{Pem, !PemLaws, !PemRoundTrip, Pkcs12, X509, !X509Laws} (data : slice) bs e der t d :
  pem_stream (bytes_of data) bs e → last_bytes not_cert bs = Some der →
  reencode_key (Some der) = Ok (t, d) → t ≠ privateKeyType →
  let out := pem_EncodeToMemory {| blk_Type := t; blk_Headers := ∅; blk_Bytes := d |} in
  (t = privateKeyTypeRSA ∨ t = privateKeyTypeEC) ∧
  getPrivateKey data = Some (Ok out) ∧ getPrivateKey out = Some (Ok out).
Proof.
  intros Hs Hl Hr Ht. destruct (reencode_key_stable _ _ _ Hr Ht) as (Ht' & [d' ->] & Hr'). cbv zeta.
  set (b := {| blk_Type := t; blk_Headers := ∅; blk_Bytes := Some d' |}).
  assert (plain_block b = true) as Hb.
  { unfold plain_block. rewrite !andb_true_iff, !bool_decide_eq_true. simpl.
    split_and!; [destruct Ht' as [->| ->]; set_solver|done|eauto]. }
  assert (last_bytes not_cert [b] = Some d') as Hl'.
  { unfold last_bytes. rewrite filter_cons, decide_True; [done|].
    unfold not_cert. simpl. destruct Ht' as [->| ->]; done. }
  split_and!; [done| |].
  - rewrite (getPrivateKey_stream _ _ _ Hs), Hl. unfold encode_key. by rewrite Hr.
  - rewrite (getPrivateKey_stream _ [b] EmptyString).
    + rewrite Hl'. unfold encode_key. by rewrite Hr'.
    + assert (bytes_of (pem_EncodeToMemory b) = encode_all [b]) as ->
        by (simpl; by rewrite sapp_nil_r).
      apply encode_all_stream. by repeat constructor.
Qed.

Lemma getPrivateKey_idempotent_witness :
  (let out := pem_EncodeToMemory (key_block privateKeyTypeRSA "1k") in
   (privateKeyTypeRSA = privateKeyTypeRSA ∨ privateKeyTypeRSA = privateKeyTypeEC) ∧
   getPrivateKey (Some bundle) = Some (Ok out) ∧ getPrivateKey out = Some (Ok out))
  ∧ pem_EncodeToMemory (key_block privateKeyTypeRSA "1k") = Some "R111k0".
Proof.
  split; [|vm_compute; reflexivity].
  apply (getPrivateKey_idempotent (Some bundle) bundle_blocks EmptyString "8rk" privateKeyTypeRSA (Some "1k")).
  - apply encode_all_stream. repeat constructor.
  - vm_compute. reflexivity.
  - vm_compute. reflexivity.
  - discriminate.
Defined.

(** C35: key bytes that no parser accepts are not reported: [getPrivateKey]
    returns, with no error, a block of type "PRIVATE KEY" without bytes. *)
Theorem getPrivateKey_unparseable `{Pem, !PemLaws, Pkcs12, X509} (data : slice) bs e der :
  pem_stream (bytes_of data) bs e → last_bytes not_cert bs = Some der →
  is_Ok (x509_ParsePKCS1PrivateKey (Some der)) = false →
  is_Ok (x509_ParsePKCS8PrivateKey (Some der)) = false →
  is_Ok (x509_ParseECPrivateKey (Some der)) = false →
  getPrivateKey data =
    Some (Ok (pem_EncodeToMemory {| blk_Type := privateKeyType; blk_Headers := ∅; blk_Bytes := None |})).
Proof.
  intros Hs Hl E1 E2 E3. rewrite (getPrivateKey_stream _ _ _ Hs), Hl. unfold encode_key, reencode_key.
  by destruct (x509_ParsePKCS1PrivateKey _), (x509_ParsePKCS8PrivateKey _), (x509_ParseECPrivateKey _).
Qed.

(** An EC key followed by its parameters: the parameters are taken for the
    key. *)
Lemma getPrivateKey_unparseable_witness :
  getPrivateKey (Some (encode_all [key_block privateKeyTypeEC "sk"; key_block privateKeyType "params"]))
    = Some (Ok (pem_EncodeToMemory {| blk_Type := privateKeyType; blk_Headers := ∅; blk_Bytes := None |}))
  ∧ pem_EncodeToMemory {| blk_Type := privateKeyType; blk_Headers := ∅; blk_Bytes := None |} = Some "P0".
Proof.
  split; [|vm_compute; reflexivity].
  apply (getPrivateKey_unparseable _ [key_block privateKeyTypeEC "sk"; key_block privateKeyType "params"]
    EmptyString "params"); [|vm_compute; reflexivity..].
  apply encode_all_stream. repeat constructor.
Defined.

(** C30: [BuildKubeSecretData] succeeds exactly when every entry is well
    formed, and then the Secret holds, under each trimmed target key, what
    [entry_ok] says for the last entry with that key, and nothing else. *)
Theorem BuildKubeSecretData_correct `{Pem, Pkcs12, X509, !PemLaws} l ty files m :
  BuildKubeSecretData l ty files = Some (m, None) ↔
  ∃ kvs, Forall2 (entry_ok ty files) l kvs ∧ m = list_to_map (reverse kvs).
Proof.
  unfold BuildKubeSecretData. split.
  - intros E. destruct (good_prefix ty files l) as (pre & kvs & rest & -> & HF & Hr).
    rewrite (loop_good_prefix _ _ _ _ _ _ HF) in E. destruct rest as [|d rest].
    + exists kvs. rewrite app_nil_r. split; [done|]. simpl in E. injection E as <-. apply foldl_insert_map.
    + destruct (loop_entry_bad ty files d rest (foldl (λ acc kv, <[ kv.1 := kv.2 ]> acc) ∅ kvs) Hr)
        as (m' & err & E' & _). congruence.
  - intros (kvs & HF & ->). rewrite <- (app_nil_r l), (loop_good_prefix _ _ _ _ _ _ HF). simpl.
    by rewrite foldl_insert_map.
Qed.

Lemma BuildKubeSecretData_correct_witness :
  PemLaws ∧
  (BuildKubeSecretData [{| sod_SourcePath := "foo     "; sod_TargetKey := "   bar" |}] "Opaque"
     {[ "foo" := Some "test" ]} = Some ({[ "bar" := Some "test" ]}, None) ↔
   ∃ kvs, Forall2 (entry_ok "Opaque" {[ "foo" := Some "test" ]})
     [{| sod_SourcePath := "foo     "; sod_TargetKey := "   bar" |}] kvs ∧
     {[ "bar" := Some "test" ]} = (list_to_map (reverse kvs) : gmap string slice)) ∧
  BuildKubeSecretData [{| sod_SourcePath := "foo     "; sod_TargetKey := "   bar" |}] "Opaque"
     {[ "foo" := Some "test" ]} = Some ({[ "bar" := Some "test" ]}, None).
Proof.
  split; [apply _|]. split; [|vm_compute; reflexivity].
  exact (BuildKubeSecretData_correct _ "Opaque" {[ "foo" := Some "test" ]} {[ "bar" := Some "test" ]}).
Defined.

(** C32: otherwise [BuildKubeSecretData] always returns, with an error: the
    entries before the first one that is not fine are in the map it returns
    next to it; a TLS entry whose part cannot be extracted has left its whole
    file there, any other has left nothing. *)
Theorem BuildKubeSecretData_error `{Pem, Pkcs12, X509, !PemLaws} l ty files :
  (¬ ∃ kvs, Forall2 (entry_ok ty files) l kvs) →
  ∃ pre d post kvs m err,
    l = pre ++ d :: post ∧ Forall2 (entry_ok ty files) pre kvs ∧ (∀ kv, ¬ entry_ok ty files d kv) ∧
    BuildKubeSecretData l ty files = Some (m, Some err) ∧
    (m = list_to_map (reverse kvs) ∨
     ∃ content, ty = SecretTypeTLS ∧ files !! TrimSpace (sod_SourcePath d) = Some content ∧
       m = <[ TrimSpace (sod_TargetKey d) := content ]> (list_to_map (reverse kvs))).
Proof.
  intros Hn. destruct (good_prefix ty files l) as (pre & kvs & [|d post] & -> & HF & Hr).
  - destruct Hn. exists kvs. by rewrite app_nil_r.
  - unfold BuildKubeSecretData. rewrite (loop_good_prefix _ _ _ _ _ _ HF), foldl_insert_map.
    destruct (loop_entry_bad ty files d post (list_to_map (reverse kvs)) Hr) as (m & err & E & Hm).
    exists pre, d, post, kvs, m, err. split_and!; done.
Qed.

Lemma BuildKubeSecretData_error_witness :
  ∃ pre d post kvs m err,
    [{| sod_SourcePath := "foo"; sod_TargetKey := "bar" |}] = pre ++ d :: post ∧
    Forall2 (entry_ok "Opaque" ∅) pre kvs ∧ (∀ kv, ¬ entry_ok "Opaque" ∅ d kv) ∧
    BuildKubeSecretData [{| sod_SourcePath := "foo"; sod_TargetKey := "bar" |}] "Opaque" ∅
      = Some (m, Some err) ∧
    (m = list_to_map (reverse kvs) ∨
     ∃ content, "Opaque" = SecretTypeTLS ∧
       (∅ : gmap string slice) !! TrimSpace (sod_SourcePath d) = Some content ∧
       m = <[ TrimSpace (sod_TargetKey d) := content ]> (list_to_map (reverse kvs))).
Proof.
  apply BuildKubeSecretData_error. intros (kvs & HF). inversion HF as [|? kv ? ? Hd]; subst.
  destruct Hd as (_ & _ & _ & c & Hc & _). by rewrite lookup_empty in Hc.
Defined.

(** C31: the data of a TLS Secret only has the keys "tls.crt" and "tls.key",
    each with the part of that name of a provider file, never the file
    itself. *)
Theorem BuildKubeSecretData_tls `{Pem, Pkcs12, X509, !PemLaws} l files m k v :
  BuildKubeSecretData l SecretTypeTLS files = Some (m, None) → m !! k = Some v →
  ∃ d content, d ∈ l ∧ files !! TrimSpace (sod_SourcePath d) = Some content ∧
    (k = TLSCertKey ∧ getCert content = Some (Ok v) ∨
     k = TLSPrivateKeyKey ∧ getPrivateKey content = Some (Ok v)).
Proof.
  intros E Hk.
  assert (∃ kvs, Forall2 (entry_ok SecretTypeTLS files) l kvs ∧ (k, v) ∈ kvs) as (kvs & HF & Hin).
  { unfold BuildKubeSecretData in E.
    destruct (good_prefix SecretTypeTLS files l) as (pre & kvs & rest & -> & HF & Hr).
    rewrite (loop_good_prefix _ _ _ _ _ _ HF) in E. destruct rest as [|d rest].
    - exists kvs. rewrite app_nil_r. split; [done|]. simpl in E. injection E as <-.
      rewrite foldl_insert_map in Hk. apply elem_of_list_to_map_2 in Hk. by rewrite elem_of_reverse in Hk.
    - destruct (loop_entry_bad SecretTypeTLS files d rest (foldl (λ acc kv, <[ kv.1 := kv.2 ]> acc) ∅ kvs) Hr)
        as (m' & err & E' & _). congruence. }
  apply list_elem_of_lookup in Hin as [i Hi]. destruct (Forall2_lookup_r _ _ _ _ _ HF Hi) as (d & Hd & He).
  destruct He as (_ & _ & _ & content & Hc & Hg). rewrite bool_decide_true in Hg by done.
  exists d, content. split_and!; [by eapply list_elem_of_lookup_2|done|].
  unfold GetCertPart in Hg. cbn [fst snd] in Hg.
  repeat case_bool_decide; [by right|by left|done].
Qed.

Lemma BuildKubeSecretData_tls_witness :
  ∃ d content, d ∈ [{| sod_SourcePath := "f"; sod_TargetKey := "tls.crt" |}] ∧
    ({[ "f" := Some bundle ]} : gmap string slice) !! TrimSpace (sod_SourcePath d) = Some content ∧
    ("tls.crt" = TLSCertKey ∧ getCert content = Some (Ok (Some "C1a1a0C1b0")) ∨
     "tls.crt" = TLSPrivateKeyKey ∧ getPrivateKey content = Some (Ok (Some "C1a1a0C1b0"))).
Proof.
  apply (BuildKubeSecretData_tls [{| sod_SourcePath := "f"; sod_TargetKey := "tls.crt" |}]
    {[ "f" := Some bundle ]} {[ "tls.crt" := Some "C1a1a0C1b0" ]}); vm_compute; reflexivity.
Defined.
