(* ===== verification/GoTime.v ===== *)
(** * [int64], [time.Duration], [time.Time] and the clock

    A [Duration] is an [int64] number of nanoseconds: its products and
    differences wrap.  A [Time] is a number of nanoseconds since the epoch; it
    does not wrap ([time.Time] covers years far beyond any date a server
    sends). *)

From stdpp Require Import numbers.
From S2P Require Import Prelude.

Open Scope Z_scope.

(** Two's complement wrap-around to 64 bits. *)
Definition int64 (z : Z) : Z := (z + 2 ^ 63) mod 2 ^ 64 - 2 ^ 63.
Definition in_int64 (z : Z) : Prop := - 2 ^ 63 ≤ z < 2 ^ 63.

Lemma int64_id z : in_int64 z → int64 z = z.
Proof. unfold in_int64, int64. intros H. rewrite Z.mod_small; lia. Qed.
Lemma int64_range z : in_int64 (int64 z).
Proof. unfold in_int64, int64. pose proof (Z.mod_pos_bound (z + 2 ^ 63) (2 ^ 64)). lia. Qed.

(** [x * y], [x - y] and [x / y] of [int64]; Go's division truncates. *)
Definition mul64 (x y : Z) : Z := int64 (x * y).
Definition sub64 (x y : Z) : Z := int64 (x - y).
Definition div64 (x y : Z) : Z := int64 (Z.quot x y).

Definition Second : Z := 1000000000.
Definition Minute : Z := 60 * Second.
Definition Hour : Z := 60 * Minute.

(** [t.Add(d)] and [t.After(u)]. *)
Definition time_Add (t d : Z) : Z := t + d.
Definition time_After (t u : Z) : bool := u <? t.

(** A clock the program reads; reading it may move the world on. *)
Class Clock (W : Type) := Now : W → Z * W.

(** Time does not go back: a reading lies between the instants before and
    after it.  Go's [time.Now] guarantees this for its monotonic reading; a
    comparison with a date from a server uses the wall clock, which an
    administrator can set back: what is proved with these laws holds as long as
    nobody does. *)
Class ClockLaws (W : Type) `{Clock W} := {
  instant : W → Z;
  Now_between w : instant w ≤ (Now w).1 ≤ instant (Now w).2;
}.
