(* ===== verification/GoParse.v ===== *)
(** * Reading numbers and durations: [strconv] and [time] of Go

    [strconv.ParseBool], [strconv.ParseInt] in base 0 with 64 bits, and
    [time.ParseDuration], as the flags of the program use them; the numbers
    that are written in base 10 are read back. *)

From Stdlib Require Import Ascii SpecFloat.
From stdpp Require Import strings pretty numbers list.
From S2P Require Import Prelude GoText GoFmt GoTime.

Open Scope Z_scope.

(** ** [strconv.ParseBool] *)

Definition ParseBool (str : string) : option bool :=
  if bool_decide (str ∈ ["1"; "t"; "T"; "true"; "TRUE"; "True"]) then Some true
  else if bool_decide (str ∈ ["0"; "f"; "F"; "false"; "FALSE"; "False"]) then Some false
  else None.

(** ** [strconv.ParseInt] *)

(** [strconv.ErrSyntax] and [strconv.ErrRange], as the [flag] package shows
    them. *)
Definition errParse : error := errors_New "parse error".
Definition errRange : error := errors_New "value out of range".

Definition zbyte (c : ascii) : Z := Z.of_N (byte_of c).
Definition is_digit (c : ascii) : bool := in_range 0x30 0x39 (byte_of c).
Definition digit (c : ascii) : Z := zbyte c - 48.
(** [c | ('x' - 'X')]. *)
Definition lower (c : ascii) : Z := Z.lor (zbyte c) 32.
Definition is_lower (c : ascii) (x : ascii) : bool := lower c =? zbyte x.

(** The value of a digit in a base up to 36. *)
Definition digit36 (c : ascii) : option Z :=
  if is_digit c then Some (digit c)
  else if (zbyte "a" <=? lower c) && (lower c <=? zbyte "z") then Some (lower c - zbyte "a" + 10)
  else None.

(** The loop of [ParseUint] in base 0, for 64 bits: the number, and whether an
    underscore was seen. *)
Definition max_uint64 : Z := 2 ^ 64 - 1.
Fixpoint ParseUint_loop (base : Z) (s : string) (n : Z) (underscores : bool) : result (Z * bool) :=
  match s with
  | EmptyString => Ok (n, underscores)
  | String c s =>
    if bool_decide (c = "_"%char) then ParseUint_loop base s n true else
    match digit36 c with
    | None => Err errParse
    | Some d =>
      if base <=? d then Err errParse
      else if max_uint64 / base + 1 <=? n then Err errRange
      else if max_uint64 <? n * base + d then Err errRange
      else ParseUint_loop base s (n * base + d) underscores
    end
  end.

(** What the bytes up to here end in: nothing yet, a digit (or the prefix of the
    base), an underscore, something else. *)
Inductive seen := SeenNothing | SeenDigit | SeenUnderscore | SeenOther.
Fixpoint underscores_ok (hex : bool) (s : string) (i : seen) : bool :=
  match s with
  | EmptyString => match i with SeenUnderscore => false | _ => true end
  | String c s =>
    if is_digit c || (hex && (zbyte "a" <=? lower c) && (lower c <=? zbyte "f")) then underscores_ok hex s SeenDigit
    else if bool_decide (c = "_"%char) then
      match i with SeenDigit => underscores_ok hex s SeenUnderscore | _ => false end
    else match i with SeenUnderscore => false | _ => underscores_ok hex s SeenOther end
  end.
Definition underscoreOK (s : string) : bool :=
  let s := match s with
           | String c s' => if bool_decide (c = "-"%char) || bool_decide (c = "+"%char) then s' else s
           | EmptyString => s
           end in
  match s with
  | String z (String c s') =>
    if bool_decide (z = "0"%char) && (is_lower c "b" || is_lower c "o" || is_lower c "x")
    then underscores_ok (is_lower c "x") s' SeenDigit
    else underscores_ok false s SeenNothing
  | _ => underscores_ok false s SeenNothing
  end.

(** The base of a number and the text after its prefix. *)
Definition base_of (s : string) : Z * string :=
  match s with
  | String z s1 =>
    if bool_decide (z = "0"%char) then
      match s1 with
      | String c (String _ _ as s2) =>
        if is_lower c "b" then (2, s2) else if is_lower c "o" then (8, s2) else if is_lower c "x" then (16, s2)
        else (8, s1)
      | _ => (8, s1)
      end
    else (10, s)
  | EmptyString => (10, s)
  end.
Definition ParseUint (s : string) : result Z :=
  match s with
  | EmptyString => Err errParse
  | _ =>
    let '(base, digits) := base_of s in
    match ParseUint_loop base digits 0 false with
    | Err err => Err err
    | Ok (n, underscores) => if underscores && negb (underscoreOK s) then Err errParse else Ok n
    end
  end.

Definition ParseInt (s : string) : result Z :=
  let '(neg, digits) :=
    match s with
    | String c s' =>
      if bool_decide (c = "+"%char) then (false, s') else if bool_decide (c = "-"%char) then (true, s') else (false, s)
    | EmptyString => (false, s)
    end in
  match ParseUint digits with
  | Err err => Err err
  | Ok un =>
    if negb neg && (2 ^ 63 <=? un) then Err errRange
    else if neg && (2 ^ 63 <? un) then Err errRange
    else Ok (if neg then int64 (- un) else un)
  end.

(** ** [time.ParseDuration] *)

(** The leading digits; [None] when they do not fit in 63 bits. *)
Fixpoint leadingInt (s : string) (x : Z) : option (Z * string) :=
  match s with
  | String c s' =>
    if is_digit c then
      if 2 ^ 63 / 10 <? x then None else
      let x := x * 10 + digit c in
      if 2 ^ 63 <? x then None else leadingInt s' x
    else Some (x, s)
  | EmptyString => Some (x, s)
  end.

(** The digits after the point, those beyond 63 bits dropped, and how many were
    taken: the fraction is [x / 10 ^ k]. *)
Fixpoint leadingFraction (s : string) (x : Z) (k : Z) (overflow : bool) : Z * Z * string :=
  match s with
  | String c s' =>
    if is_digit c then
      let y := x * 10 + digit c in
      if overflow || ((2 ^ 63 - 1) / 10 <? x) || (2 ^ 63 <? y) then leadingFraction s' x k true
      else leadingFraction s' y (k + 1) false
    else (x, k, s)
  | EmptyString => (x, k, s)
  end.

(** [uint64(float64(f) * (float64(unit) / scale))], with [scale] 10 to the [k],
    which is exact for [k] up to 19. *)
Definition float64 (n : Z) : spec_float := binary_normalize 53 1024 n 0 false.
Definition uint64_of (f : spec_float) : Z :=
  match f with S754_finite false m e => if 0 <=? e then Z.shiftl (Zpos m) e else Z.shiftr (Zpos m) (- e) | _ => 0 end.
Definition fraction (f unit k : Z) : Z :=
  uint64_of (SFmul 53 1024 (float64 f) (SFdiv 53 1024 (float64 unit) (float64 (10 ^ k)))).

(** The bytes up to the next digit or point. *)
Fixpoint unit_text (s : string) : string * string :=
  match s with
  | String c s' =>
    if is_digit c || bool_decide (c = "."%char) then (EmptyString, s)
    else let '(u, r) := unit_text s' in (String c u, r)
  | EmptyString => (EmptyString, s)
  end.

(** [unitMap]; micro is U+00B5 or U+03BC. *)
Definition unitMap : list (string * Z) :=
  [("ns", 1); ("us", 1000); (String "194"%char (String "181"%char "s"), 1000);
   (String "206"%char (String "188"%char "s"), 1000); ("ms", 1000000); ("s", Second); ("m", Minute); ("h", Hour)].
Fixpoint unit_named (u : string) (l : list (string * Z)) : option Z :=
  match l with [] => None | (n, v) :: l => if bool_decide (u = n) then Some v else unit_named u l end.

(** The part of a number after its integer: its fraction and the rest, or nothing
    when there is no digit at all. *)
Definition after_int (pre : bool) (s : string) : option (Z * Z * string) :=
  match s with
  | String c s' =>
    if bool_decide (c = "."%char) then
      let '(f, k, r) := leadingFraction s' 0 0 false in
      if pre || negb (bool_decide (r = s')) then Some (f, k, r) else None
    else if pre then Some (0, 0, s) else None
  | EmptyString => if pre then Some (0, 0, s) else None
  end.

(** One number with its unit, in nanoseconds, and the rest. *)
Definition duration_part (s : string) : option (Z * string) :=
  match leadingInt s 0 with
  | None => None
  | Some (v, s1) =>
    match after_int (negb (bool_decide (s1 = s))) s1 with
    | None => None
    | Some (f, k, s2) =>
      let '(u, s3) := unit_text s2 in
      match unit_named u unitMap with
      | None => None
      | Some unit =>
        if 2 ^ 63 / unit <? v then None else
        let v := v * unit in
        if (0 <? f) && (2 ^ 63 <? v + fraction f unit k) then None
        else Some (v + (if 0 <? f then fraction f unit k else 0), s3)
      end
    end
  end.

(** The loop; each part takes at least one byte of the text. *)
Fixpoint duration_loop (fuel : nat) (s : string) (d : Z) : option Z :=
  match s, fuel with
  | EmptyString, _ => Some d
  | _, O => None
  | _, S fuel =>
    match duration_part s with
    | None => None
    | Some (v, s) => if 2 ^ 63 <? d + v then None else duration_loop fuel s (d + v)
    end
  end.

Definition ParseDuration (s : string) : option Z :=
  let '(neg, s) :=
    match s with
    | String c s' =>
      if bool_decide (c = "+"%char) then (false, s') else if bool_decide (c = "-"%char) then (true, s') else (false, s)
    | EmptyString => (false, s)
    end in
  if bool_decide (s = "0") then Some 0
  else if bool_decide (s = EmptyString) then None
  else match duration_loop (String.length s) s 0 with
       | None => None
       | Some d => if neg then Some (int64 (- d)) else if 2 ^ 63 - 1 <? d then None else Some d
       end.

Example ParseDuration_hours : ParseDuration "12h" = Some (12 * Hour).
Proof. vm_compute. reflexivity. Qed.
Example ParseDuration_parts : ParseDuration "-1h15m30.918s" = Some (- (75 * Minute + 30918000000)).
Proof. vm_compute. reflexivity. Qed.
Example ParseDuration_fraction :
  ParseDuration "1.5h" = Some (90 * Minute) ∧ ParseDuration "0.3333333333333333333h" = Some (20 * Minute) ∧
  ParseDuration "0.830103483285477580700h" = Some (49 * Minute + 48372539827).
Proof. vm_compute. repeat split; reflexivity. Qed.
Example ParseDuration_bad : ParseDuration "12" = None ∧ ParseDuration "1d" = None ∧ ParseDuration "." = None ∧ ParseDuration "9223372036854775808ns" = None.
Proof. vm_compute. repeat split; reflexivity. Qed.
Example ParseInt_bases : ParseInt "0x40_0000" = Ok (4 * 1024 * 1024) ∧ ParseInt "-017" = Ok (-15) ∧ ParseInt "4_" = Err errParse.
Proof. vm_compute. repeat split; reflexivity. Qed.

(** ** The fuel of [ParseDuration] is enough *)

Local Open Scope nat_scope.

Lemma leadingInt_rest s x v r : leadingInt s x = Some (v, r) → String.length r ≤ String.length s.
Proof.
  revert x. induction s as [|c s IH]; intros x; cbn [leadingInt]; [by intros [= _ <-]|].
  destruct (is_digit c); [|by intros [= _ <-]]. do 2 (case_match; [done|]). intros ?%IH. cbn. lia.
Qed.
Lemma leadingFraction_rest s x k o f k' r : leadingFraction s x k o = (f, k', r) → String.length r ≤ String.length s.
Proof.
  revert x k o. induction s as [|c s IH]; intros x k o; cbn [leadingFraction]; [by intros [= _ _ <-]|].
  destruct (is_digit c); [|by intros [= _ _ <-]]. case_match; intros ?%IH; cbn; lia.
Qed.
Lemma after_int_rest pre s f k r : after_int pre s = Some (f, k, r) → String.length r ≤ String.length s.
Proof.
  unfold after_int. destruct s as [|c s]; [by destruct pre; intros [= _ _ <-]|].
  case_bool_decide; [|by destruct pre; intros [= _ _ <-]].
  destruct (leadingFraction s 0 0 false) as [[f' k'] r'] eqn:E. apply leadingFraction_rest in E.
  case_match; [|done]. intros [= _ _ <-]. cbn. lia.
Qed.
Lemma unit_text_rest s u r : unit_text s = (u, r) → String.length u + String.length r = String.length s.
Proof.
  revert u r. induction s as [|c s IH]; intros u r; cbn [unit_text]; [by intros [= <- <-]|].
  case_match; [by intros [= <- <-]|]. destruct (unit_text s) as [u' r'] eqn:E. intros [= <- <-].
  specialize (IH _ _ eq_refl). cbn. lia.
Qed.
Lemma unit_named_empty : unit_named EmptyString unitMap = None.
Proof. done. Qed.

Lemma duration_part_shorter s v r : duration_part s = Some (v, r) → String.length r < String.length s.
Proof.
  unfold duration_part. destruct (leadingInt s 0) as [[n s1]|] eqn:E1; [|done].
  destruct (after_int _ s1) as [[[f k] s2]|] eqn:E2; [|done].
  destruct (unit_text s2) as [u s3] eqn:E3. destruct (unit_named u unitMap) as [unit|] eqn:E4; [|done].
  do 2 (case_match; [done|]). intros [= _ <-].
  apply leadingInt_rest in E1. apply after_int_rest in E2. apply unit_text_rest in E3.
  destruct u; [by rewrite unit_named_empty in E4|]. cbn in E3. lia.
Qed.

Lemma duration_loop_enough n m s d :
  String.length s ≤ n → String.length s ≤ m → duration_loop n s d = duration_loop m s d.
Proof.
  revert m s d. induction n as [|n IH]; intros m s d Hn Hm; (destruct s as [|c s]; [by destruct m|]); [cbn in Hn; lia|].
  destruct m as [|m]; [cbn in Hm; lia|]. cbn [duration_loop].
  destruct (duration_part (String c s)) as [[v r]|] eqn:E; [|done]. apply duration_part_shorter in E.
  case_match; [done|]. apply IH; cbn in *; lia.
Qed.

Local Close Scope nat_scope.

(** ** What is written in base 10 is read back *)

Lemma pretty_digit d : (d < 10)%N →
  is_digit (pretty_N_char d) = true ∧ digit (pretty_N_char d) = Z.of_N d ∧
  digit36 (pretty_N_char d) = Some (Z.of_N d) ∧ pretty_N_char d ≠ "_"%char ∧
  ((0 < d)%N → pretty_N_char d ≠ "0"%char) ∧ pretty_N_char d ≠ "-"%char ∧ pretty_N_char d ≠ "+"%char.
Proof.
  intros Hd. assert (d ∈ [0; 1; 2; 3; 4; 5; 6; 7; 8; 9]%N) as Hin by (rewrite !elem_of_cons; lia).
  rewrite !elem_of_cons in Hin. repeat destruct Hin as [->|Hin]; try by vm_compute.
  by apply not_elem_of_nil in Hin.
Qed.

(** A loop that takes one digit after the other reads the number. *)
Lemma read_digits {A} (read : string → N → A) (bound : N) :
  (∀ n t, (0 < n ≤ bound)%N → read (String (pretty_N_char (n mod 10)) t) (n / 10)%N = read t n) →
  ∀ n t, (n ≤ bound)%N → read (pretty_N_go n t) 0%N = read t n.
Proof.
  intros Hread n. induction (N.lt_wf_0 n) as [n _ IH]; intros t Hn.
  destruct (decide (0 < n)%N) as [Hp|Hp].
  - rewrite pretty_N_go_step by done. rewrite IH; [by apply Hread| |].
    + by apply N.div_lt.
    + etransitivity; [|exact Hn]. apply N.Div0.div_le_upper_bound. lia.
  - assert (n = 0%N) as -> by lia. by rewrite pretty_N_go_0.
Qed.

Lemma split_digit n : Z.of_N (n / 10) * 10 + Z.of_N (n mod 10) = Z.of_N n.
Proof. pose proof (N.div_mod n 10 ltac:(done)). lia. Qed.

Lemma leadingInt_digits n t : (Z.of_N n ≤ 2 ^ 63) → leadingInt (pretty_N_go n t) 0 = leadingInt t (Z.of_N n).
Proof.
  intros Hn. apply (read_digits (λ s n, leadingInt s (Z.of_N n)) (2 ^ 63)); [|lia].
  intros m u [_ Hm]. destruct (pretty_digit (m mod 10)) as (Hd & Ed & _); [by apply N.mod_lt|].
  cbn [leadingInt]. rewrite Hd, Ed, split_digit.
  assert (Z.of_N (m / 10) ≤ 2 ^ 63 / 10) by (rewrite N2Z.inj_div; apply Z.div_le_mono; lia).
  do 2 (let E := fresh in case_match eqn:E; [apply Z.ltb_lt in E; lia|]). done.
Qed.
Lemma ParseUint_digits n t : (Z.of_N n ≤ max_uint64) →
  ParseUint_loop 10 (pretty_N_go n t) 0 false = ParseUint_loop 10 t (Z.of_N n) false.
Proof.
  intros Hn. apply (read_digits (λ s n, ParseUint_loop 10 s (Z.of_N n) false) (2 ^ 64 - 1)); [|unfold max_uint64 in Hn; lia].
  intros m u [_ Hm]. pose proof (N.mod_lt m 10 ltac:(done)).
  destruct (pretty_digit (m mod 10)) as (_ & _ & Ed & Hu & _); [done|].
  cbn [ParseUint_loop]. rewrite bool_decide_false, Ed, split_digit by done.
  assert (Z.of_N (m / 10) ≤ max_uint64 / 10) by (rewrite N2Z.inj_div; apply Z.div_le_mono; unfold max_uint64; lia).
  repeat (let E := fresh in case_match eqn:E; [apply Z.leb_le in E || apply Z.ltb_lt in E; unfold max_uint64 in *; lia|]). done.
Qed.

(** The digits of a positive number start with one that is not 0. *)
Lemma digits_start n t : (0 < n)%N → ∃ d r, pretty_N_go n t = String (pretty_N_char d) r ∧ (0 < d < 10)%N.
Proof.
  revert t. induction (N.lt_wf_0 n) as [n _ IH]; intros t Hn. rewrite pretty_N_go_step by done.
  destruct (N.eq_0_gt_0_cases (n / 10)) as [E|Hq]; [|apply IH; [by apply N.div_lt|done]].
  rewrite E, pretty_N_go_0. eexists _, _. split; [done|].
  pose proof (N.div_mod n 10 ltac:(done)). pose proof (N.mod_lt n 10 ltac:(done)). lia.
Qed.

Lemma pretty_positive p : pretty (N.pos p) = pretty_N_go (N.pos p) EmptyString.
Proof. done. Qed.

Lemma ParseUint_pretty p : Z.pos p ≤ max_uint64 → ParseUint (pretty_N_go (N.pos p) EmptyString) = Ok (Z.pos p).
Proof.
  intros Hp. pose proof (ParseUint_digits (N.pos p) EmptyString Hp) as E.
  destruct (digits_start (N.pos p) EmptyString) as (d & r & Es & Hd0 & Hd); [done|]. rewrite Es in *.
  destruct (pretty_digit d Hd) as (_ & _ & _ & _ & H0 & _). unfold ParseUint, base_of.
  rewrite bool_decide_false by auto. rewrite E. done.
Qed.

(** The sign of a text that starts with a digit. *)
Lemma digits_unsigned {A} p t (plus minus : string → A) (other : A) :
  match pretty_N_go (N.pos p) t with
  | String c s' => if bool_decide (c = "+"%char) then plus s' else if bool_decide (c = "-"%char) then minus s' else other
  | EmptyString => other
  end = other.
Proof.
  destruct (digits_start (N.pos p) t) as (d & r & -> & _ & Hd); [done|].
  destruct (pretty_digit d Hd) as (_ & _ & _ & _ & _ & ? & ?). by rewrite !bool_decide_false.
Qed.

Lemma ParseInt_FormatInt z : in_int64 z → ParseInt (FormatInt z) = Ok z.
Proof.
  unfold in_int64. intros Hz. destruct z as [|p|p]; [done| |].
  - change (FormatInt (Z.pos p)) with (pretty_N_go (N.pos p) EmptyString). unfold ParseInt. rewrite digits_unsigned.
    rewrite ParseUint_pretty by (unfold max_uint64; lia). cbn [negb andb].
    case_match eqn:E; [apply Z.leb_le in E; lia|done].
  - change (FormatInt (Z.neg p)) with (String "-" (pretty_N_go (N.pos p) EmptyString)). unfold ParseInt.
    rewrite (bool_decide_false (_ = "+"%char)), bool_decide_true by done.
    rewrite ParseUint_pretty by (unfold max_uint64; lia). cbn [negb andb].
    case_match eqn:E; [apply Z.ltb_lt in E; lia|]. f_equal. by rewrite int64_id.
Qed.

(** A number before any of the units. *)
Lemma pretty_N_go_app n t : pretty_N_go n EmptyString +:+ t = pretty_N_go n t.
Proof.
  assert (∀ n s t, pretty_N_go n s +:+ t = pretty_N_go n (s +:+ t)) as H by
  (clear; intros n; induction (N.lt_wf_0 n) as [n _ IH]; intros s t;
   destruct (decide (0 < n)%N); [|by assert (n = 0%N) as -> by lia; rewrite !pretty_N_go_0];
   rewrite !(pretty_N_go_step n) by done; by rewrite IH by (by apply N.div_lt)).
  apply H.
Qed.

Lemma unit_shape u unit : unit_named u unitMap = Some unit →
  0 < unit ∧ unit_text u = (u, EmptyString) ∧ (∀ x, leadingInt u x = Some (x, u)) ∧ after_int true u = Some (0, 0, u) ∧
  (∀ d r, (d < 10)%N → u ≠ String (pretty_N_char d) r) ∧ ParseDuration ("0" +:+ u) = Some 0.
Proof.
  assert (∀ c r, is_digit c = false → ∀ d r', (d < 10)%N → String c r ≠ String (pretty_N_char d) r') as Hne.
  { intros c r Hc d r' Hd [= -> ->]. destruct (pretty_digit d Hd) as (? & _). congruence. }
  intros Hu. cbn [unit_named unitMap] in Hu. repeat (case_bool_decide; [subst; injection Hu as <-; clear -Hne|]); try done.
  all: split_and!; [by vm_compute|by vm_compute|by intros x|by vm_compute|by apply Hne|by vm_compute].
Qed.

Lemma duration_loop_unit p u unit :
  unit_named u unitMap = Some unit → Z.pos p * unit ≤ 2 ^ 63 →
  let s := pretty_N_go (N.pos p) u in duration_loop (String.length s) s 0 = Some (Z.pos p * unit).
Proof.
  intros Hu Hp s. destruct (unit_shape u unit Hu) as (Hpos & Hut & Hl & Ha & Hne & _).
  assert (duration_part s = Some (Z.pos p * unit, EmptyString)) as E.
  { unfold duration_part, s. rewrite leadingInt_digits by (cbn; nia). cbn [Z.of_N]. rewrite Hl.
    destruct (digits_start (N.pos p) u) as (d & r & -> & _ & Hd); [done|].
    rewrite bool_decide_false by (by apply Hne). cbn [negb]. rewrite Ha, Hut, Hu.
    case_match eqn:Hc; [apply Z.ltb_lt in Hc; assert (Z.pos p ≤ 2 ^ 63 / unit) by (apply Z.div_le_lower_bound; lia); lia|].
    cbn [andb Z.ltb Z.compare]. by rewrite Z.add_0_r. }
  destruct s as [|c r] eqn:Es; [done|]. cbn [String.length duration_loop]. rewrite E.
  case_match eqn:Hc; [apply Z.ltb_lt in Hc; lia|]. by destruct (String.length r).
Qed.

Lemma ParseDuration_unit n u unit :
  unit_named u unitMap = Some unit → in_int64 (n * unit) → ParseDuration (FormatInt n +:+ u) = Some (n * unit).
Proof.
  intros Hu. destruct (unit_shape u unit Hu) as (Hpos & _ & _ & _ & Hne & H0). unfold in_int64. intros Hn.
  assert (∀ p, pretty_N_go (N.pos p) u ≠ "0" ∧ pretty_N_go (N.pos p) u ≠ EmptyString) as Hs.
  { intros p. destruct (digits_start (N.pos p) u) as (d & r & -> & ? & Hd); [done|].
    destruct (pretty_digit d Hd) as (_ & _ & _ & _ & Hc & _). split; [|done]. intros [= E _]. by apply Hc. }
  destruct n as [|p|p]; [exact H0| |]; destruct (Hs p) as [Hs0 Hse].
  - change (FormatInt (Z.pos p)) with (pretty_N_go (N.pos p) EmptyString). rewrite pretty_N_go_app.
    unfold ParseDuration. rewrite digits_unsigned, !bool_decide_false by done.
    rewrite (duration_loop_unit p u unit Hu) by lia. case_match eqn:Hc; [apply Z.ltb_lt in Hc; lia|done].
  - change (FormatInt (Z.neg p) +:+ u) with (String "-" (pretty_N_go (N.pos p) EmptyString +:+ u)). rewrite pretty_N_go_app.
    unfold ParseDuration. rewrite (bool_decide_false (_ = "+"%char)), bool_decide_true, !bool_decide_false by done.
    rewrite (duration_loop_unit p u unit Hu) by lia. f_equal. rewrite int64_id by (unfold in_int64; lia). lia.
Qed.
