(* ===== verification/GoFlag.v ===== *)
(** * Package [flag] of Go: reading the command line

    [Parse] takes the flags from the front of the arguments, sets the variable
    each stands for, and stops at the first argument that is no flag, or at an
    error.  The settings of any list of flags, written in any of the forms the
    package knows, are made in order. *)

From Stdlib Require Import Ascii.
From stdpp Require Import strings list.
From S2P Require Import Prelude GoText GoFmt GoParse.

(** ** The flags that are defined *)

(** [flag.Value] for the variables in [S]: whether it is a [boolFlag], and
    [Set]. *)
Record Flag (S : Type) := {
  IsBoolFlag : bool;
  Flag_Set : string → S → result S;
}.
Arguments IsBoolFlag {_} _. Arguments Flag_Set {_} _ _ _.

Section vars.
Context {S : Type}.

(** [flag.String], [flag.Bool], [flag.Int], [flag.Duration], with the setter of
    the variable. *)
Definition StringVar (set : string → S → S) : Flag S :=
  {| IsBoolFlag := false; Flag_Set := λ v s, Ok (set v s) |}.
Definition BoolVar (set : bool → S → S) : Flag S :=
  {| IsBoolFlag := true; Flag_Set := λ v s, match ParseBool v with Some b => Ok (set b s) | None => Err errParse end |}.
Definition IntVar (set : Z → S → S) : Flag S :=
  {| IsBoolFlag := false; Flag_Set := λ v s, match ParseInt v with Ok n => Ok (set n s) | Err err => Err err end |}.
Definition DurationVar (set : Z → S → S) : Flag S :=
  {| IsBoolFlag := false; Flag_Set := λ v s, match ParseDuration v with Some d => Ok (set d s) | None => Err errParse end |}.

(** ** One argument *)

Inductive flag_arg :=
| NoFlag
| Terminator
| BadSyntax
| FlagNamed (name : string) (value : option string).

Definition dash : ascii := "-"%char.
Definition equals : ascii := "="%char.

(** The name up to the first [=], and the value after it; the first byte of the
    name is not looked at. *)
Fixpoint cut_equals (s : string) : string * option string :=
  match s with
  | EmptyString => (EmptyString, None)
  | String c s =>
    if bool_decide (c = equals) then (EmptyString, Some s)
    else let '(n, v) := cut_equals s in (String c n, v)
  end.
Definition flag_name (s : string) : flag_arg :=
  match s with
  | EmptyString => BadSyntax
  | String c s =>
    if bool_decide (c = dash) || bool_decide (c = equals) then BadSyntax
    else let '(n, v) := cut_equals s in FlagNamed (String c n) v
  end.
Definition classify (arg : string) : flag_arg :=
  match arg with
  | String c (String c2 rest as s) =>
    if negb (bool_decide (c = dash)) then NoFlag
    else if bool_decide (c2 = dash) then
      match rest with EmptyString => Terminator | _ => flag_name rest end
    else flag_name s
  | _ => NoFlag
  end.

(** ** [Parse] *)

Inductive parsed :=
| Parsed (s : S) (rest : list string)
| ErrHelp
| ParseError (err : error).

Context (IsPrint_table : N → bool) (formal : string → option (Flag S)).

Fixpoint Parse (arguments : list string) (s : S) : parsed :=
  match arguments with
  | [] => Parsed s []
  | arg :: args =>
    match classify arg with
    | NoFlag => Parsed s arguments
    | Terminator => Parsed s args
    | BadSyntax => ParseError (errors_New ("bad flag syntax: " +:+ arg))
    | FlagNamed name value =>
      match formal name with
      | None =>
        if bool_decide (name = "help") || bool_decide (name = "h") then ErrHelp
        else ParseError (errors_New ("flag provided but not defined: -" +:+ name))
      | Some f =>
        if IsBoolFlag f then
          match Flag_Set f (default "true" value) s, value with
          | Ok s, _ => Parse args s
          | Err err, Some v => ParseError (errors_New
              ("invalid boolean value " +:+ Quote IsPrint_table v +:+ " for -" +:+ name +:+ ": " +:+ Error err))
          | Err err, None => ParseError (errors_New ("invalid boolean flag " +:+ name +:+ ": " +:+ Error err))
          end
        else
          match value, args with
          | Some v, _ =>
            match Flag_Set f v s with
            | Ok s => Parse args s
            | Err err => ParseError (errors_New
                ("invalid value " +:+ Quote IsPrint_table v +:+ " for flag -" +:+ name +:+ ": " +:+ Error err))
            end
          | None, v :: args =>
            match Flag_Set f v s with
            | Ok s => Parse args s
            | Err err => ParseError (errors_New
                ("invalid value " +:+ Quote IsPrint_table v +:+ " for flag -" +:+ name +:+ ": " +:+ Error err))
            end
          | None, [] => ParseError (errors_New ("flag needs an argument: -" +:+ name))
          end
      end
    end
  end.

(** ** Settings and how they are written *)

(** [-name=value], [-name value] and [-name], with one dash or two. *)
Inductive form := WithEquals | Separate | Bare.
Record setting := { se_name : string; se_value : string; se_dashes : bool; se_form : form }.

Definition dashes (two : bool) : string := if two then "--" else "-".
Definition written (t : setting) : list string :=
  match se_form t with
  | WithEquals => [dashes (se_dashes t) +:+ se_name t +:+ String equals (se_value t)]
  | Separate => [dashes (se_dashes t) +:+ se_name t; se_value t]
  | Bare => [dashes (se_dashes t) +:+ se_name t]
  end.

(** A name that can be given. *)
Definition name_ok (name : string) : bool :=
  match name with
  | EmptyString => false
  | String c s => negb (bool_decide (c = dash)) && negb (bool_decide (c = equals)) && all_chars (λ c, negb (bool_decide (c = equals))) s
  end.
(** The flag takes the form: a boolean flag never takes the next argument, and
    only it can be given without a value, for true. *)
Definition form_ok (f : Flag S) (t : setting) : Prop :=
  match se_form t with
  | WithEquals => True
  | Separate => IsBoolFlag f = false
  | Bare => IsBoolFlag f = true ∧ se_value t = "true"
  end.

(** The settings take the variables from [s] to [s']. *)
Inductive settings : list setting → S → S → Prop :=
| settings_nil s : settings [] s s
| settings_cons t l f s s1 s2 :
    name_ok (se_name t) = true → formal (se_name t) = Some f → form_ok f t → Flag_Set f (se_value t) s = Ok s1 →
    settings l s1 s2 → settings (t :: l) s s2.

Lemma cut_equals_none s : all_chars (λ c, negb (bool_decide (c = equals))) s = true → cut_equals s = (s, None).
Proof.
  induction s as [|c s IH]; [done|]. cbn [all_chars cut_equals]. intros [Hc%negb_true_iff Hs]%andb_true_iff. by rewrite Hc, IH.
Qed.
Lemma cut_equals_some s v :
  all_chars (λ c, negb (bool_decide (c = equals))) s = true → cut_equals (s +:+ String equals v) = (s, Some v).
Proof.
  induction s as [|c s IH]; [done|]. rewrite sapp_cons. cbn [all_chars cut_equals].
  intros [Hc%negb_true_iff Hs]%andb_true_iff. by rewrite Hc, IH.
Qed.

(** An argument with a name, with and without a value. *)
Lemma classify_name two name (value : option string) :
  name_ok name = true →
  classify (dashes two +:+ name +:+ match value with Some v => String equals v | None => EmptyString end) = FlagNamed name value.
Proof.
  destruct name as [|c s]; [done|]. cbn [name_ok].
  intros [[Hd%negb_true_iff He%negb_true_iff]%andb_true_iff Hs]%andb_true_iff.
  assert (flag_name (String c s +:+ match value with Some v => String equals v | None => EmptyString end) = FlagNamed (String c s) value) as E.
  { rewrite sapp_cons. cbn [flag_name]. rewrite Hd, He. cbn [orb].
    destruct value as [v|]; [by rewrite cut_equals_some|rewrite sapp_nil_r; by rewrite cut_equals_none]. }
  rewrite <- E, sapp_cons. destruct two; [done|]. cbn [dashes]. rewrite sapp_cons, sapp_nil_l. cbn [classify]. by rewrite Hd.
Qed.

(** However they are written, the settings are made in order, and the rest of
    the arguments is read after them. *)
Lemma Parse_settings l s s' tail : settings l s s' → Parse ((l ≫= written) ++ tail) s = Parse tail s'.
Proof.
  induction 1 as [s|t l f s s1 s2 Hn Hf Hform Hset _ IH]; [done|].
  rewrite bind_cons, <- app_assoc, <- IH. set (rest := (l ≫= written) ++ tail).
  pose proof (classify_name (se_dashes t) (se_name t) (Some (se_value t)) Hn) as Ev.
  pose proof (classify_name (se_dashes t) (se_name t) None Hn) as En. cbn in En. rewrite sapp_nil_r in En.
  unfold written, form_ok in *. destruct (se_form t); cbn [app Parse]; rewrite ?Ev, ?En, Hf.
  - cbn [default]. unfold default. cbn. rewrite Hset. by destruct (IsBoolFlag f).
  - rewrite Hform. by rewrite Hset.
  - destruct Hform as [-> Ht]. cbn. rewrite <- Ht. by rewrite Hset.
Qed.
(** A flag that nothing defines. *)
Lemma Parse_undefined two name args s :
  name_ok name = true → name ∉ ["help"; "h"] → formal name = None →
  Parse ((dashes two +:+ name) :: args) s = ParseError (errors_New ("flag provided but not defined: -" +:+ name)).
Proof.
  intros Hn Hh Hf. pose proof (classify_name two name None Hn) as E. cbn in E. rewrite sapp_nil_r in E.
  cbn [Parse]. rewrite E, Hf, !not_elem_of_cons in *. destruct Hh as (? & ? & _). by rewrite !bool_decide_false.
Qed.
End vars.
Arguments parsed : clear implicits.
