(* ===== verification/Token.v ===== *)
(** * pkg/token: the service account token cache

    [Manager] caches the [TokenRequest]s of the API server under a key built
    from the request ([keyFunc]); [GetServiceAccountToken] serves from the
    cache, refreshes, or falls back to an old token; [cleanup] drops expired
    tokens; [SecretProviderServiceAccountTokenAttrs] collects one token per
    audience and marshals them.  The API server, discovery, the clock and the
    jitter are an interface, and so is the manager to its clients
    ([TokenGetter]). *)

From stdpp Require Import strings pretty gmap list.
From S2P Require Import Prelude GoText GoFmt GoJson GoTime.

Open Scope Z_scope.

(** ** The request types of authentication/v1 *)

Record BoundObjectReference := {
  ref_Kind : string;
  ref_APIVersion : string;
  ref_Name : string;
  ref_UID : string;
}.
Definition zero_ref : BoundObjectReference :=
  {| ref_Kind := EmptyString; ref_APIVersion := EmptyString; ref_Name := EmptyString; ref_UID := EmptyString |}.

(** [None] is a nil slice, a nil pointer. *)
Record TokenRequestSpec := {
  trs_Audiences : option (list string);
  trs_ExpirationSeconds : option Z;
  trs_BoundObjectRef : option BoundObjectReference;
}.
Record TokenRequestStatus := {
  trst_Token : string;
  trst_ExpirationTimestamp : Z;
}.
Record TokenRequest := {
  tr_Spec : TokenRequestSpec;
  tr_Status : TokenRequestStatus;
}.

#[export] Instance BoundObjectReference_eq_dec : EqDecision BoundObjectReference. Proof. solve_decision. Defined.
#[export] Instance TokenRequestSpec_eq_dec : EqDecision TokenRequestSpec. Proof. solve_decision. Defined.
#[export] Instance TokenRequestStatus_eq_dec : EqDecision TokenRequestStatus. Proof. solve_decision. Defined.
#[export] Instance TokenRequest_eq_dec : EqDecision TokenRequest. Proof. solve_decision. Defined.

Definition maxTTL : Z := 24 * Hour.
Definition gcPeriod : Z := Minute.
Definition maxJitter : Z := 10 * Second.

(** ** [keyFunc] *)

Section keyFunc.
Context (IsPrint_table : N → bool).
Local Notation Quote := (Quote IsPrint_table).

(** [%#v] of a [[]string]. *)
Definition go_strings (l : option (list string)) : string :=
  match l with
  | None => "[]string(nil)"
  | Some l => "[]string{" +:+ Join (map Quote l) ", " +:+ "}"
  end.

(** [%#v] of a [BoundObjectReference]. *)
Definition go_ref (r : BoundObjectReference) : string :=
  "v1.BoundObjectReference{Kind:" +:+ Quote (ref_Kind r) +:+
  ", APIVersion:" +:+ Quote (ref_APIVersion r) +:+
  ", Name:" +:+ Quote (ref_Name r) +:+
  ", UID:" +:+ Quote (ref_UID r) +:+ "}".

(** What the key is made of: nil expiration seconds count as 0, a nil
    reference as the zero reference. *)
Definition key_exp (s : TokenRequestSpec) : Z := default 0 (trs_ExpirationSeconds s).
Definition key_ref (s : TokenRequestSpec) : BoundObjectReference := default zero_ref (trs_BoundObjectRef s).

Definition keyFunc (name namespace : string) (tr : TokenRequest) : string :=
  let exp := key_exp (tr_Spec tr) in
  let ref := key_ref (tr_Spec tr) in
  Quote name +:+ "/" +:+ Quote namespace +:+ "/" +:+ go_strings (trs_Audiences (tr_Spec tr)) +:+ "/" +:+
    FormatInt exp +:+ "/" +:+ go_ref ref.
End keyFunc.

(** ** The manager *)

(** What the manager reaches outside the process. [te_jitter] is the whole
    seconds of [rand.Float64() * maxJitter.Seconds()]. *)
Class TokenEnv (W : Type) := {
  te_CreateToken : string → string → TokenRequest → W → result TokenRequest * W;
  te_ServerResources : string → W → result (list string) * W;
  te_IsNotFound : error → bool;
  te_clock :: Clock W;
  te_jitter : W → Z * W;
}.

(** [rand.Float64()] is in [0, 1). *)
Class TokenEnvLaws (W : Type) `{TokenEnv W} := {
  te_clock_laws :: ClockLaws W;
  te_jitter_range w : 0 ≤ (te_jitter w).1 < 10;
  te_jitter_instant w : instant w ≤ instant (te_jitter w).2;
  te_CreateToken_instant ns n tr w : instant w ≤ instant (te_CreateToken ns n tr w).2;
  te_ServerResources_instant g w : instant w ≤ instant (te_ServerResources g w).2;
}.

(** [m_client] is false for a manager built with a nil clientset;
    [m_once]/[m_supported] are the state of the [sync.Once] in [NewManager]. *)
Record Manager := {
  m_cache : gmap string TokenRequest;
  m_client : bool;
  m_once : bool;
  m_supported : bool;
}.

Definition NewManager (client : bool) : Manager :=
  {| m_cache := ∅; m_client := client; m_once := false; m_supported := false |}.

Section Manager.
Context (IsPrint_table : N → bool).
Context {W : Type} `{TokenEnv W}.
Local Notation keyFunc := (keyFunc IsPrint_table).

Local Notation TM := (GoM (Manager * W)).

Definition outside {A} (f : W → A * W) : TM A :=
  λ s, let '(a, w') := f s.2 in (Val a, (s.1, w')).
Definition set_cache (c : gmap string TokenRequest) : TM unit :=
  modify (λ s, ({| m_cache := c; m_client := m_client s.1; m_once := m_once s.1;
                   m_supported := m_supported s.1 |}, s.2)).
Definition set_once (supported : bool) : TM unit :=
  modify (λ s, ({| m_cache := m_cache s.1; m_client := m_client s.1; m_once := true;
                   m_supported := supported |}, s.2)).

(** The closure [tokenRequestsSupported] of [NewManager]: discovery is asked
    once, and an error counts as "not supported" from then on. *)
Definition tokenRequestsSupported : TM bool :=
  m ← gets fst;
  if m_once m then mret (m_supported m) else
  r ← outside (te_ServerResources "v1");
  match r with
  | Err _ => _ ← set_once false; mret false
  | Ok resources =>
    let supported := bool_decide ("serviceaccounts/token" ∈ resources) in
    _ ← set_once supported; mret supported
  end.

(** The closure [getToken] of [NewManager]. *)
Definition getToken (name namespace : string) (tr : TokenRequest) : TM (result TokenRequest) :=
  m ← gets fst;
  if negb (m_client m) then
    mret (Err (errors_New "cannot use TokenManager when kubelet is in standalone mode"))
  else
  r ← outside (te_CreateToken namespace name tr);
  match r with
  | Ok tokenRequest => mret (Ok tokenRequest)
  | Err err =>
    if te_IsNotFound (W:=W) err then
      supported ← tokenRequestsSupported;
      if (supported : bool) then mret (Err err)
      else mret (Err (errors_New "the API server does not have TokenRequest endpoints enabled"))
    else mret (Err err)
  end.

Definition get (key : string) : TM (option TokenRequest) := gets (λ s, m_cache s.1 !! key).
Definition set (key : string) (tr : TokenRequest) : TM unit :=
  c ← gets (λ s, m_cache s.1); set_cache (<[ key := tr ]> c).

Definition expired_at (now : Z) (t : TokenRequest) : bool :=
  time_After now (trst_ExpirationTimestamp (tr_Status t)).
Definition expired (t : TokenRequest) : TM bool :=
  now ← outside Now; mret (expired_at now t).

(** The two tests of [requiresRefresh] at an instant, with the jitter in
    seconds. *)
Definition requiresRefresh_at (now jitter_s expirationSeconds exp : Z) : bool :=
  let iat := time_Add exp (mul64 (mul64 (-1) expirationSeconds) Second) in
  let jitter := mul64 jitter_s Second in
  if time_After now (time_Add iat (sub64 maxTTL jitter)) then true else
  if time_After now (time_Add exp
       (sub64 (mul64 (mul64 (-1) (div64 (mul64 expirationSeconds 20) 100)) Second) jitter)) then true
  else false.

Definition requiresRefresh (tr : TokenRequest) : TM bool :=
  match trs_ExpirationSeconds (tr_Spec tr) with
  | None => mret false
  | Some expirationSeconds =>
    now ← outside Now;
    jitter_s ← outside te_jitter;
    mret (requiresRefresh_at now jitter_s expirationSeconds (trst_ExpirationTimestamp (tr_Status tr)))
  end.

Definition GetServiceAccountToken (namespace name : string) (tr : TokenRequest) : TM (result TokenRequest) :=
  let key := keyFunc name namespace tr in
  ctr ← get key;
  hit ← match ctr with
        | None => mret false
        | Some ctr => refresh ← requiresRefresh ctr; mret (negb refresh)
        end;
  match ctr, hit with
  | Some ctr, true => mret (Ok ctr)
  | _, _ =>
    r ← getToken name namespace tr;
    match r with
    | Err err =>
      match ctr with
      | None => mret (Err (errorf_w ("failed to fetch token: " +:+ Error err) err))
      | Some ctr =>
        e ← expired ctr;
        if (e : bool) then
          mret (Err (errorf_w ("token " +:+ key +:+ " expired and refresh failed: " +:+ Error err) err))
        else mret (Ok ctr)
      end
    | Ok tr => _ ← set key tr; mret (Ok tr)
    end
  end.

(** [cleanup]: each entry is tested with its own reading of the clock. *)
Fixpoint cleanup_entries (entries : list (string * TokenRequest)) : TM unit :=
  match entries with
  | [] => mret tt
  | (k, tr) :: rest =>
    e ← expired tr;
    _ ← (if (e : bool) then c ← gets (λ s, m_cache s.1); set_cache (delete k c) else mret tt);
    cleanup_entries rest
  end.
Definition cleanup : TM unit :=
  c ← gets (λ s, m_cache s.1);
  cleanup_entries (map_to_list c).
End Manager.

(** ** The cache as its clients see it *)

(** The method of the manager that the rest of the program calls.  What it does
    depends on what else runs: here nothing; in TokenConcurrent the clean-up
    goroutine gets its turns while a call does not hold the lock. *)
Class TokenGetter (W : Type) := {
  tg_GetServiceAccountToken :
    (N → bool) → string → string → TokenRequest → GoM (Manager * W) (result TokenRequest);
}.
#[export] Instance undisturbed {W : Type} `{TokenEnv W} : TokenGetter W | 100 :=
  {| tg_GetServiceAccountToken := λ IsPrint_table, GetServiceAccountToken IsPrint_table |}.

(** ** [SecretProviderServiceAccountTokenAttrs] *)

Section attrs.
Context (IsPrint_table : N → bool).
Context {W : Type} `{TokenGetter W}.
Local Notation TM := (GoM (Manager * W)).

(** [metav1.Time]'s JSON form. *)
Context (Time_MarshalJSON : Z → string).

(** The JSON of a [TokenRequestStatus]. *)
Definition json_status (st : TokenRequestStatus) : string :=
  "{" +:+ json_string "token" +:+ ":" +:+ json_string (trst_Token st) +:+ "," +:+
  json_string "expirationTimestamp" +:+ ":" +:+ Time_MarshalJSON (trst_ExpirationTimestamp st) +:+ "}".

Definition tokensKey : string := "csi.storage.k8s.io/serviceAccount.tokens".
Definition tokenExpirationSeconds : Z := 600.

(** The request for one audience. *)
Definition aud_request (aud : string) : TokenRequest := {|
  tr_Spec := {| trs_Audiences := Some [aud]; trs_ExpirationSeconds := Some tokenExpirationSeconds;
                trs_BoundObjectRef := None |};
  tr_Status := {| trst_Token := EmptyString; trst_ExpirationTimestamp := 0 |} |}.

Fixpoint collect_tokens (namespace serviceAccountName : string) (audiences : list string)
    (outputs : gmap string TokenRequestStatus) : TM (result (gmap string TokenRequestStatus)) :=
  match audiences with
  | [] => mret (Ok outputs)
  | aud :: rest =>
    r ← tg_GetServiceAccountToken IsPrint_table namespace serviceAccountName (aud_request aud);
    match r with
    | Err err => mret (Err err)
    | Ok tr => collect_tokens namespace serviceAccountName rest (<[ aud := tr_Status tr ]> outputs)
    end
  end.

(** The nil map for no audience. *)
Definition SecretProviderServiceAccountTokenAttrs (namespace serviceAccountName : string)
    (audiences : list string) : TM (result (option (gmap string string))) :=
  match audiences with
  | [] => mret (Ok None)
  | _ =>
    r ← collect_tokens namespace serviceAccountName audiences ∅;
    match r with
    | Err err => mret (Err err)
    | Ok outputs => mret (Ok (Some {[ tokensKey := json_map json_status (Some outputs) ]}))
    end
  end.
End attrs.

#[export] Hint Unfold get set set_cache set_once : go_wp.
