(* ===== verification/GoPath.v ===== *)
(** * [path/filepath]: [Clean] and [Join] on Unix

    [Clean] works on the components between slashes: empty ones and ["."] are
    dropped, [".."] removes the component before it. *)

From Stdlib Require Import Ascii.
From stdpp Require Import strings list.
From S2P Require Import Prelude GoText GoStrings.

Definition slash : ascii := "/"%char.
Definition dot : string := ".".
Definition dotdot : string := "..".

(** One component; [out] holds the components kept so far, last first. *)
Definition Clean_step (rooted : bool) (out : list string) (c : string) : list string :=
  if bool_decide (c = EmptyString) || bool_decide (c = dot) then out else
  if bool_decide (c = dotdot) then
    match out with
    | [] => if rooted then [] else [dotdot]
    | h :: t => if bool_decide (h = dotdot) then dotdot :: out else t
    end
  else c :: out.

Definition is_rooted (path : string) : bool :=
  match path with String a _ => bool_decide (a = slash) | EmptyString => false end.
Definition Clean_stack (path : string) : list string :=
  foldl (Clean_step (is_rooted path)) [] (Split path slash).

Definition Clean (path : string) : string :=
  if bool_decide (path = EmptyString) then dot else
  let body := Join (reverse (Clean_stack path)) (String slash EmptyString) in
  if is_rooted path then String slash body else
  if bool_decide (body = EmptyString) then dot else body.

(** [filepath.Join]: leading empty elements are ignored. *)
Fixpoint filepath_Join (elems : list string) : string :=
  match elems with
  | [] => EmptyString
  | e :: rest =>
    if bool_decide (e = EmptyString) then filepath_Join rest
    else Clean (Join (e :: rest) (String slash EmptyString))
  end.

Example Clean_examples :
  map Clean ["/provider"; "/provider/"; "//a/./b/../c"; "/.."; "a/../.."; EmptyString; "a//b"] =
  ["/provider"; "/provider"; "/a/c"; "/"; ".."; "."; "a/b"].
Proof. vm_compute. reflexivity. Qed.

(** ** A plain file name in a directory *)

(** A component that [Clean] keeps as it is. *)
Definition plain_name (s : string) : bool :=
  all_chars (λ a, negb (bool_decide (a = slash))) s &&
  negb (bool_decide (s = EmptyString) || bool_decide (s = dot) || bool_decide (s = dotdot)).

Lemma Split_none s sep : all_chars (λ a, negb (bool_decide (a = sep))) s = true → Split s sep = [s].
Proof.
  induction s as [|a s IH]; [done|]. cbn [all_chars Split]. rewrite andb_true_iff. intros [Ha Hs].
  apply negb_true_iff in Ha. by rewrite Ha, IH.
Qed.

Lemma Split_app s t sep : Split (s +:+ String sep t) sep = Split s sep ++ Split t sep.
Proof.
  induction s as [|a s IH]; cbn [Split].
  - rewrite sapp_nil_l. cbn [Split]. by rewrite bool_decide_true.
  - rewrite sapp_cons. cbn [Split]. rewrite IH. case_bool_decide; [done|].
    by destruct (Split_cons s sep) as (h & t' & ->).
Qed.

Lemma Join_snoc l s sep : l ≠ [] → Join (l ++ [s]) sep = Join l sep +:+ sep +:+ s.
Proof.
  destruct l as [|a l]; [done|]. intros _. cbn [app]. rewrite !Join_cons, sapp_assoc. f_equal.
  unfold concat_enc. induction l as [|b l IH]; simpl; [by str_norm|]. by rewrite IH, !sapp_assoc.
Qed.

Lemma Clean_step_plain rooted out s : plain_name s = true → Clean_step rooted out s = s :: out.
Proof.
  unfold plain_name, Clean_step. rewrite andb_true_iff. intros [_ H].
  apply negb_true_iff in H. apply orb_false_iff in H as [H1 H2]. by rewrite H1, H2.
Qed.

Lemma is_rooted_app d s : is_rooted d = true → is_rooted (d +:+ s) = true.
Proof. by destruct d as [|a d]. Qed.

(** The components [Clean] keeps are not empty. *)
Lemma Clean_stack_nonempty path : Forall (λ c, c ≠ EmptyString) (Clean_stack path).
Proof.
  unfold Clean_stack. generalize (is_rooted path). intros rooted.
  assert (∀ l out, Forall (λ c, c ≠ EmptyString) out →
    Forall (λ c, c ≠ EmptyString) (foldl (Clean_step rooted) out l)) as H; [|by apply H].
  induction l as [|c l IH]; intros out Hout; [done|]. apply IH. unfold Clean_step.
  case_bool_decide; simpl; [done|]. case_bool_decide; simpl; [done|].
  case_bool_decide; [|by constructor]. destruct out as [|h t]; [by destruct rooted; repeat constructor|].
  apply Forall_cons in Hout as [??]. case_bool_decide; [|done]. repeat constructor; done.
Qed.

Lemma filepath_Join_plain d s :
  is_rooted d = true → plain_name s = true →
  filepath_Join [d; s] = (if bool_decide (Clean d = "/") then "/" else Clean d +:+ "/") +:+ s.
Proof.
  intros Hd Hs. assert (d ≠ EmptyString) as Hne by by intros ->.
  assert (Split s slash = [s]) as HS.
  { apply Split_none. unfold plain_name in Hs. by apply andb_true_iff in Hs as [? _]. }
  cbn [filepath_Join Join]. rewrite bool_decide_false by done.
  change (String slash EmptyString +:+ s) with (String slash s). unfold Clean at 1.
  rewrite bool_decide_false by (by destruct d).
  unfold Clean_stack. rewrite (is_rooted_app d _ Hd), Split_app, HS, foldl_app. cbn [foldl].
  rewrite Clean_step_plain by done. rewrite reverse_cons.
  unfold Clean. rewrite (bool_decide_false (d = _)), Hd by done.
  unfold Clean_stack. rewrite Hd. pose proof (Clean_stack_nonempty d) as Hall. unfold Clean_stack in Hall.
  rewrite Hd in Hall. destruct (foldl (Clean_step true) [] (Split d slash)) as [|c l] eqn:El.
  - by rewrite bool_decide_true.
  - rewrite bool_decide_false.
    + rewrite Join_snoc; [by str_norm|]. rewrite reverse_cons. by destruct (reverse l).
    + apply Forall_cons in Hall as [Hc _]. rewrite reverse_cons. intros [= E].
      destruct (reverse l) as [|x r]; simpl in E; [done|].
      destruct c as [|a c]; [done|].
      assert (String.length (Join ((x :: r) ++ [String a c]) (String slash EmptyString)) = 0) as HL by (simpl in *; by rewrite E).
      rewrite Join_snoc, !slength_app in HL by done. simpl in HL. lia.
Qed.

(** [Clean] never gives the empty path, so neither does joining to a name. *)
Lemma Clean_not_empty path : Clean path ≠ EmptyString.
Proof.
  unfold Clean. case_bool_decide; [done|]. cbn zeta. destruct (is_rooted path); [done|].
  by case_bool_decide.
Qed.
Lemma filepath_Join_not_empty d s : s ≠ EmptyString → filepath_Join [d; s] ≠ EmptyString.
Proof.
  intros Hs. cbn [filepath_Join]. case_bool_decide; [|apply Clean_not_empty].
  rewrite bool_decide_false by done. apply Clean_not_empty.
Qed.
