(* ===== verification/Provider.v ===== *)
(** * pkg/provider: the provider clients

    [PluginClientBuilder] keeps one gRPC client and connection per provider.
    [Get] runs in three phases that other goroutines can interleave with: the
    lookup under the read lock, opening a connection without a lock, and
    publishing it under the write lock.  [Cleanup] closes everything.
    [MountContent] and [Version] wrap the RPCs.  gRPC and the file system are
    interfaces. *)

From Stdlib Require Import Ascii.
From stdpp Require Import strings gmap list.
From S2P Require Import Prelude GoText GoFmt GoJson GoStrings GoPath GoTime SecretUtil.

Local Open Scope nat_scope.

(** ** The outside world *)

(** The options of the connections: the limit on received messages, no transport
    security, the retry policy. *)
Inductive DialOption :=
| MaxCallRecvMsgSize (bytes : Z)
| InsecureTransportCredentials
| DefaultServiceConfig (json : string).

(** [os_Stat] answers [None] when there is a file. *)
Class Grpc (W Conn Client : Type) := {
  grpc_NewClient : string → list DialOption → W → result Conn * W;
  Conn_Close : Conn → W → option error * W;
  NewCSIDriverProviderClient : Conn → Client;
  os_Stat : string → W → option error * W;
  os_Lstat : string → W → option error * W;
  IsRuntimeWindows : bool;
}.

(** The messages of the provider protocol; [None] is a nil pointer or slice. *)
Record ObjectVersion := { ov_Id : string; ov_Version : string }.
Record File := { f_Path : string; f_Contents : slice }.
Record MountRequest := {
  mreq_Attributes : string;
  mreq_Secrets : string;
  mreq_Permission : string;
  mreq_CurrentObjectVersion : list ObjectVersion;
  mreq_TargetPath : string;
}.
Record MountResponse := {
  mresp_ErrorCode : option string;
  mresp_ObjectVersion : option (list (option ObjectVersion));
  mresp_Files : list (option File);
}.
Record VersionRequest := { vreq_Version : string }.

Class CSIDriverProvider (W Client : Type) := {
  csi_Mount : Client → MountRequest → W → result (option MountResponse) * W;
  csi_Version : Client → VersionRequest → W → result string * W;
}.

(** ** Plugin names *)

(** [^[a-zA-Z0-9_-]{0,30}$]; without the flag [m], [$] is the end of the text. *)
Definition plugin_char (a : ascii) : bool :=
  let b := byte_of a in
  in_range 97 122 b || in_range 65 90 b || in_range 48 57 b || bool_decide (a = "_"%char) || bool_decide (a = "-"%char).
Definition pluginNameRe (s : string) : bool := (String.length s <=? 30) && all_chars plugin_char s.

Definition errInvalidProvider : error := errors_New "invalid provider".
Definition errProviderNotFound : error := errors_New "provider not found".
Definition errMissingObjectVersions : error := errors_New "missing object versions".

(** ** The builder *)

(** The retry policy of all connections, as it is in the source: tabs and line
    feeds included. *)
Definition config_lines : list string := [
  EmptyString;
  "{";
  "	'methodConfig': [";
  "		{";
  "			'name': [{'service': 'v1alpha1.CSIDriverProvider'}],";
  "			'waitForReady': true,";
  "			'retryPolicy': {";
  "				'MaxAttempts': 3,";
  "				'InitialBackoff': '1s',";
  "				'MaxBackoff': '10s',";
  "				'BackoffMultiplier': 1.1,";
  "				'RetryableStatusCodes': [ 'UNAVAILABLE' ]";
  "			}";
  "		}";
  "	]";
  "}";
  EmptyString ].
(** The text with its double quotes, which are written as single ones above. *)
Fixpoint double_quotes (s : string) : string :=
  match s with
  | EmptyString => EmptyString
  | String a s => String (if bool_decide (a = "'"%char) then dquote else a) (double_quotes s)
  end.
Definition ServiceConfig : string := double_quotes (Join config_lines (String "010"%char EmptyString)).

(** ** The call of [HealthCheck]

    The contexts it has made, in that order, each known by its position: its
    timeout and whether its cancel function has been called.  The cancel
    functions deferred to the return of the method, the last deferred first. *)
Record child_context := { cc_timeout : Z; cc_cancelled : bool }.
Record health := { hc_contexts : list child_context; hc_defers : list nat; hc_returned : bool }.
Definition HealthCheck_start : health := {| hc_contexts := []; hc_defers := []; hc_returned := false |}.

(** [context.WithTimeout(ctx, timeout)]: the context and its cancel function. *)
Definition WithTimeout (timeout : Z) (h : health) : nat * health :=
  (length (hc_contexts h),
   {| hc_contexts := hc_contexts h ++ [{| cc_timeout := timeout; cc_cancelled := false |}];
      hc_defers := hc_defers h; hc_returned := hc_returned h |}).
(** [cancel()]. *)
Definition cancel_context (contexts : list child_context) (c : nat) : list child_context :=
  alter (λ ctx, {| cc_timeout := cc_timeout ctx; cc_cancelled := true |}) c contexts.
(** [defer cancel()]. *)
Definition defer_cancel (cancel : nat) (h : health) : health :=
  {| hc_contexts := hc_contexts h; hc_defers := cancel :: hc_defers h; hc_returned := hc_returned h |}.
(** [return]: the deferred calls run, the last deferred first. *)
Definition health_return (h : health) : health :=
  {| hc_contexts := foldl cancel_context (hc_contexts h) (hc_defers h); hc_defers := []; hc_returned := true |}.

Section builder.
Context (IsPrint_table : N → bool).
Context {W Conn Client : Type} `{Grpc W Conn Client}.
Local Notation Quote := (Quote IsPrint_table).

Record PluginClientBuilder := {
  pcb_clients : gmap string Client;
  pcb_conns : gmap string Conn;
  pcb_socketPaths : list string;
  pcb_opts : list DialOption;
}.

Definition NewPluginClientBuilder (paths : list string) (opts : list DialOption) : PluginClientBuilder :=
  {| pcb_clients := ∅; pcb_conns := ∅; pcb_socketPaths := paths;
     pcb_opts := opts ++ [InsecureTransportCredentials; DefaultServiceConfig ServiceConfig] |}.

Definition set_clients (clients : gmap string Client) (conns : gmap string Conn)
    (p : PluginClientBuilder) : PluginClientBuilder :=
  {| pcb_clients := clients; pcb_conns := conns; pcb_socketPaths := pcb_socketPaths p; pcb_opts := pcb_opts p |}.

Local Notation PM := (GoM (PluginClientBuilder * W)).
Definition world {A} (f : W → A * W) : PM A := act (λ s, let '(a, w) := f s.2 in (a, (s.1, w))).

(** The read-locked lookup. *)
Definition Get_lookup (provider : string) : PM (option Client) := gets (λ s, pcb_clients s.1 !! provider).

(** The loop over the socket paths; the empty string when none has the socket. *)
Fixpoint find_socket (paths : list string) (provider : string) : PM string :=
  match paths with
  | [] => mret EmptyString
  | k :: rest =>
    let tryPath := filepath_Join [k; provider +:+ ".sock"] in
    err ← world (os_Stat tryPath);
    match err with
    | None => mret tryPath
    | Some _ =>
      if IsRuntimeWindows then
        err ← world (os_Lstat tryPath);
        match err with
        | None => mret tryPath
        | Some _ => find_socket rest provider
        end
      else find_socket rest provider
    end
  end.

(** Validating the name, finding the socket, opening the connection: without
    the lock. *)
Definition Get_open (provider : string) : PM (result Conn) :=
  if negb (pluginNameRe provider) then
    mret (Err (errorf_w (Error errInvalidProvider +:+ ": provider " +:+ Quote provider) errInvalidProvider))
  else
  paths ← gets (λ s, pcb_socketPaths s.1);
  socketPath ← find_socket paths provider;
  if bool_decide (socketPath = EmptyString) then
    mret (Err (errorf_w (Error errProviderNotFound +:+ ": provider " +:+ Quote provider) errProviderNotFound))
  else opts ← gets (λ s, pcb_opts s.1); world (grpc_NewClient ("unix://" +:+ socketPath) opts).

(** Publishing the connection under the write lock, unless another goroutine
    has published one. *)
Definition Get_publish (provider : string) (conn : Conn) : PM Client :=
  let out := NewCSIDriverProviderClient conn in
  r ← gets (λ s, pcb_clients s.1 !! provider);
  match r with
  | Some r => mret r
  | None =>
    _ ← modify (λ s, (set_clients (<[ provider := out ]> (pcb_clients s.1))
                                  (<[ provider := conn ]> (pcb_conns s.1)) s.1, s.2));
    mret out
  end.

Definition Get (provider : string) : PM (result Client) :=
  out ← Get_lookup provider;
  match out with
  | Some out => mret (Ok out)
  | None =>
    conn ← Get_open provider;
    match conn with
    | Err err => mret (Err err)
    | Ok conn => out ← Get_publish provider conn; mret (Ok out)
    end
  end.

(** Closing the connections; an error is logged. *)
Fixpoint close_all (conns : list (string * Conn)) : PM unit :=
  match conns with
  | [] => mret tt
  | (_, c) :: rest => _ ← world (Conn_Close c); close_all rest
  end.
Definition Cleanup : PM unit :=
  conns ← gets (λ s, pcb_conns s.1);
  _ ← close_all (map_to_list conns);
  modify (λ s, (set_clients ∅ ∅ s.1, s.2)).

(** ** The RPCs *)

Context `{CSIDriverProvider W Client}.

Definition Version (client : Client) : PM (result string) := world (csi_Version client {| vreq_Version := "v1alpha1" |}).

(** One tick of [HealthCheck], under the read lock: each client is asked under a
    context of its own, whose cancel function is deferred; an unhealthy provider
    is logged. *)
Fixpoint check_clients (clients : list (string * Client)) (h : health) : PM health :=
  match clients with
  | [] => mret h
  | (_, client) :: rest =>
    let '(cancel, h) := WithTimeout (5 * Second)%Z h in
    let h := defer_cancel cancel h in
    _ ← Version client;
    check_clients rest h
  end.
Definition HealthCheck_tick (h : health) : PM health :=
  clients ← gets (λ s, map_to_list (pcb_clients s.1));
  check_clients clients h.

(** The goroutine of [HealthCheck]: what its select chooses. *)
Inductive health_event := HealthTick | HealthDone.
Definition HealthCheck_step (e : health_event) (h : health) : PM health :=
  if hc_returned h then mret h else
  match e with
  | HealthTick => HealthCheck_tick h
  | HealthDone => mret (health_return h)
  end.
End builder.
Arguments PluginClientBuilder : clear implicits.
#[export] Hint Unfold Get_lookup Get_publish : go_wp.

Section MountContent.
Context {W Client : Type} `{CSIDriverProvider W Client}.

(** [json.Marshal(os.FileMode(int(0644)))]. *)
Definition permissionJSON : string := json_int 420.

(** [m[v.Id] = v.Version]; a nil element is dereferenced. *)
Fixpoint object_versions (ov : list (option ObjectVersion)) (m : gmap string string) : outcome (gmap string string) :=
  match ov with
  | [] => Val m
  | None :: _ => Panic "invalid memory address or nil pointer dereference"
  | Some v :: rest => object_versions rest (<[ ov_Id v := ov_Version v ]> m)
  end.

(** [files[f.GetPath()] = f.GetContents()]; the getters of a nil element give
    zero values. *)
Fixpoint mounted_files (fs : list (option File)) (m : gmap string slice) : gmap string slice :=
  match fs with
  | [] => m
  | f :: rest =>
    let p := match f with Some f => f_Path f | None => EmptyString end in
    let c := match f with Some f => f_Contents f | None => None end in
    mounted_files rest (<[ p := c ]> m)
  end.

(** The request for a set of known versions; Go ranges over the map in an
    unspecified order, here in the order of [map_to_list]. *)
Definition mount_request (attributes secrets : string) (oldObjectVersions : gmap string string) : MountRequest := {|
  mreq_Attributes := attributes;
  mreq_Secrets := secrets;
  mreq_Permission := permissionJSON;
  mreq_CurrentObjectVersion := (λ kv, {| ov_Id := kv.1; ov_Version := kv.2 |}) <$> map_to_list oldObjectVersions;
  mreq_TargetPath := "/mnt/secrets-store";
|}.

Definition provider_error_code (resp : option MountResponse) : option string :=
  match resp with
  | Some r => match mresp_ErrorCode r with
              | Some code => if bool_decide (code = EmptyString) then None else Some code
              | None => None
              end
  | None => None
  end.

(** Interpreting the response. *)
Definition mount_response (resp : option MountResponse) :
    outcome (result (gmap string string * gmap string slice)) :=
  match provider_error_code resp with
  | Some code => Val (Err (errors_New ("mount request failed with provider error code " +:+ code)))
  | None =>
    match resp ≫= mresp_ObjectVersion with
    | None => Val (Err errMissingObjectVersions)
    | Some ov =>
      match object_versions ov ∅ with
      | Panic p => Panic p
      | Val objectVersions =>
        Val (Ok (objectVersions, mounted_files (default [] (mresp_Files <$> resp)) ∅))
      end
    end
  end.

Definition MountContent (client : Client) (attributes secrets : string)
    (oldObjectVersions : gmap string string) : GoM W (result (gmap string string * gmap string slice)) :=
  resp ← act (csi_Mount client (mount_request attributes secrets oldObjectVersions));
  match resp with
  | Err err => mret (Err err)
  | Ok resp => outcome_of (mount_response resp)
  end.
End MountContent.

(** ** [isMaxRecvMsgSizeError] *)

Definition ResourceExhausted : N := 8.

(** [status.Code] of grpc is a parameter. *)
Definition isMaxRecvMsgSizeError (status_Code : error → N) (err : error) : bool :=
  if negb (status_Code err =? ResourceExhausted)%N then false else
  if Contains (Error err) "grpc: received message larger than max length allowed on current machine" then false else
  if negb (Contains (Error err) "grpc: received message larger than max") then false else
  true.
