(* ===== verification/ProviderFixture.v ===== *)
(** * A concrete gRPC library and provider for the provider properties

    The world lists the files that exist, the targets dialled and the
    connections closed; a connection is its index among the dialled ones, a
    client is its connection.  The provider of ["azure"] answers with two
    files, one of them twice. *)

From stdpp Require Import strings gmap list.
From S2P Require Import Prelude Provider.

Record pworld := { pw_files : list string; pw_dialed : list string; pw_closed : list nat }.

Definition fixture_stat (path : string) (w : pworld) : option error * pworld :=
  (if bool_decide (path ∈ pw_files w) then None else Some (errors_New "no such file"), w).

#[export] Instance fixture_grpc : Grpc pworld nat nat := {
  grpc_NewClient := λ target _ w,
    (Ok (length (pw_dialed w)),
     {| pw_files := pw_files w; pw_dialed := pw_dialed w ++ [target]; pw_closed := pw_closed w |});
  Conn_Close := λ c w,
    (None, {| pw_files := pw_files w; pw_dialed := pw_dialed w; pw_closed := pw_closed w ++ [c] |});
  NewCSIDriverProviderClient := λ c, c;
  os_Stat := fixture_stat;
  os_Lstat := fixture_stat;
  IsRuntimeWindows := false;
}.

Definition fixture_response : MountResponse := {|
  mresp_ErrorCode := None;
  mresp_ObjectVersion := Some [Some {| ov_Id := "secret/password"; ov_Version := "v1" |};
                               Some {| ov_Id := "secret/password"; ov_Version := "v2" |}];
  mresp_Files := [Some {| f_Path := "password"; f_Contents := Some "old" |};
                  Some {| f_Path := "user"; f_Contents := Some "me" |};
                  Some {| f_Path := "password"; f_Contents := Some "new" |}] |}.

#[export] Instance fixture_provider : CSIDriverProvider pworld nat := {
  csi_Mount := λ _ _ w, (Ok (Some fixture_response), w);
  csi_Version := λ _ _ w, (Ok "v0.1", w);
}.

Definition provider_start : PluginClientBuilder nat nat * pworld :=
  (NewPluginClientBuilder ["/provider"; "/etc/providers"] [],
   {| pw_files := ["/etc/providers/azure.sock"; "/provider/vault.sock"]; pw_dialed := []; pw_closed := [] |}).
