(* ===== verification/ProviderSpec.v ===== *)
(** * Properties of pkg/provider

    What [Get] returns and registers; that it only opens sockets in the
    configured folders; the builder under concurrent [Get]s and [Cleanup]s, as
    a step relation; [Cleanup]; the interpretation of a mount response. *)

From Stdlib Require Import Ascii.
From stdpp Require Import strings gmap list.
From S2P Require Import Prelude GoText GoFmt GoJson GoStrings GoPath GoTime SecretUtil Provider ProviderFixture.

Local Open Scope nat_scope.

(** ** Names and sockets *)

Lemma plugin_char_no_slash a : plugin_char a = true → negb (bool_decide (a = slash)) = true ∧ a ≠ "."%char.
Proof.
  assert (∀ a, negb (plugin_char a) || (negb (bool_decide (a = slash)) && negb (bool_decide (a = "."%char))) = true) as H.
  { apply all_bytes_forallb. vm_compute. reflexivity. }
  intros Ha. specialize (H a). rewrite Ha in H. apply andb_true_iff in H as [? H]. split; [done|].
  by apply negb_true_iff, bool_decide_eq_false in H.
Qed.

Lemma pluginName_plain s : pluginNameRe s = true → plain_name (s +:+ ".sock") = true.
Proof.
  unfold pluginNameRe, plain_name. rewrite andb_true_iff. intros [_ Hs].
  rewrite all_chars_app. apply andb_true_iff. split.
  - apply andb_true_iff. split; [|done]. revert Hs. apply all_chars_impl. intros a. apply plugin_char_no_slash.
  - destruct s as [|a s]; [done|]. cbn [all_chars] in Hs. apply andb_true_iff in Hs as [[_ Ha]%plugin_char_no_slash _].
    rewrite sapp_cons. unfold dot, dotdot. repeat (rewrite bool_decide_false by (intros [=]; done)). done.
Qed.

(** The socket of a provider in a folder. *)
Definition socket_in (dir provider : string) : string :=
  (if bool_decide (Clean dir = "/") then "/" else Clean dir +:+ "/") +:+ provider +:+ ".sock".

Section Get.
Context (IsPrint_table : N → bool).
Context {W Conn Client : Type} `{Grpc W Conn Client}.
Local Notation state := (PluginClientBuilder Conn Client * W)%type.
Local Notation Get := (Get IsPrint_table).
Local Notation Get_open := (Get_open IsPrint_table).

Lemma wp_world {A} (f : W → A * W) Q (s : state) : Q (Val (f s.2).1) (s.1, (f s.2).2) → wp (world f) Q s.
Proof. unfold wp, world, act. by destruct (f s.2). Qed.

(** Whether the file system says that there is a socket: [os.Stat] finds it, or,
    on Windows, [os.Lstat] does. *)
Inductive stat_says (sock : string) (w : W) : bool → W → Prop :=
| stat_found w1 : os_Stat sock w = (None, w1) → stat_says sock w true w1
| lstat_found e w1 w2 : os_Stat sock w = (Some e, w1) → IsRuntimeWindows = true →
    os_Lstat sock w1 = (None, w2) → stat_says sock w true w2
| lstat_missed e e' w1 w2 : os_Stat sock w = (Some e, w1) → IsRuntimeWindows = true →
    os_Lstat sock w1 = (Some e', w2) → stat_says sock w false w2
| stat_missed e w1 : os_Stat sock w = (Some e, w1) → IsRuntimeWindows = false → stat_says sock w false w1.

(** Folders searched in turn: the socket of the first folder that has it, none
    when every folder was asked and none has it. *)
Inductive searched (provider : string) : list string → W → option string → W → Prop :=
| searched_none w : searched provider [] w None w
| searched_hit d paths w w1 : let sock := filepath_Join [d; provider +:+ ".sock"] in
    stat_says sock w true w1 → searched provider (d :: paths) w (Some sock) w1
| searched_miss d paths w w1 found w2 : stat_says (filepath_Join [d; provider +:+ ".sock"]) w false w1 →
    searched provider paths w1 found w2 → searched provider (d :: paths) w found w2.

Lemma wp_find_socket paths provider Q (s : state) :
  (∀ found w, searched provider paths s.2 found w → Q (Val (default EmptyString found)) (s.1, w)) →
  wp (find_socket paths provider) Q s.
Proof.
  revert s. induction paths as [|d paths IH]; intros [b w] HQ; cbn [find_socket].
  { wp_steps. apply (HQ None). constructor. }
  set (sock := filepath_Join [d; provider +:+ ".sock"]).
  assert (∀ w1, stat_says sock w true w1 → Q (Val sock) (b, w1)) as Hhit.
  { intros w1 Hw. apply (HQ (Some sock)). by constructor. }
  assert (∀ w1, stat_says sock w false w1 → wp (find_socket paths provider) Q (b, w1)) as Hrest.
  { intros w1 Hw. apply IH. intros found w2 Hf. apply HQ. by eapply searched_miss. }
  wp_step. apply wp_world. cbn [fst snd]. destruct (os_Stat sock w) as [[e|] w1] eqn:ES; cbn [fst snd].
  - destruct IsRuntimeWindows eqn:EW; [|by apply Hrest; eapply stat_missed].
    wp_step. apply wp_world. cbn [fst snd]. destruct (os_Lstat sock w1) as [[e'|] w2] eqn:EL; cbn [fst snd].
    + by eapply Hrest, lstat_missed.
    + wp_steps. by eapply Hhit, lstat_found.
  - wp_steps. by apply Hhit, stat_found.
Qed.

(** What is kept by file queries is kept by the search; what it finds is the
    socket of one of the folders. *)
Lemma stat_says_keeps (P : W → Prop) sock w b w' :
  (∀ path w, P w → P (os_Stat path w).2) → (∀ path w, P w → P (os_Lstat path w).2) →
  stat_says sock w b w' → P w → P w'.
Proof.
  intros HS HL Ha Hw. specialize (HS sock w Hw).
  destruct Ha as [w1 E|e w1 w2 E _ E'|e e' w1 w2 E _ E'|e w1 E _]; rewrite E in HS; try done;
    specialize (HL sock w1 HS); by rewrite E' in HL.
Qed.
Lemma searched_keeps (P : W → Prop) provider paths w found w' :
  (∀ path w, P w → P (os_Stat path w).2) → (∀ path w, P w → P (os_Lstat path w).2) →
  searched provider paths w found w' → P w → P w'.
Proof.
  intros HS HL. induction 1 as [|d paths w w1 sock Ha|d paths w w1 found w2 Ha _ IH]; intros Hw; [done|..].
  - by apply (stat_says_keeps P _ _ _ _ HS HL Ha).
  - by apply IH, (stat_says_keeps P _ _ _ _ HS HL Ha).
Qed.
Lemma searched_socket provider paths w found w' sock :
  searched provider paths w found w' → found = Some sock →
  ∃ d, d ∈ paths ∧ sock = filepath_Join [d; provider +:+ ".sock"].
Proof.
  induction 1 as [|d paths w w1 sock' Ha|d paths w w1 found w2 Ha _ IH]; intros E; [done|..].
  - injection E as <-. exists d. split; [by left|done].
  - destruct (IH E) as (d' & ? & ?). exists d'. split; [by right|done].
Qed.

(** How opening a connection ends: the name is invalid and nothing is asked; the
    folders have no such socket; or the answer of [grpc.NewClient] for the socket
    that is found. *)
Definition invalid_provider (provider : string) : error :=
  errorf_w (Error errInvalidProvider +:+ ": provider " +:+ Quote IsPrint_table provider) errInvalidProvider.
Definition provider_not_found (provider : string) : error :=
  errorf_w (Error errProviderNotFound +:+ ": provider " +:+ Quote IsPrint_table provider) errProviderNotFound.
Definition opened (b : PluginClientBuilder Conn Client) (w : W) (provider : string) (r : result Conn) (w' : W) : Prop :=
  if pluginNameRe provider then
    ∃ found w1, searched provider (pcb_socketPaths b) w found w1 ∧
    match found with
    | None => r = Err (provider_not_found provider) ∧ w' = w1
    | Some sock => grpc_NewClient ("unix://" +:+ sock) (pcb_opts b) w1 = (r, w')
    end
  else r = Err (invalid_provider provider) ∧ w' = w.

Lemma wp_Get_open provider Q (s : state) :
  (∀ r w, opened s.1 s.2 provider r w → Q (Val r) (s.1, w)) →
  wp (Get_open provider) Q s.
Proof.
  unfold opened, Provider.Get_open. intros HQ. destruct (pluginNameRe provider) eqn:Hn; cbn [negb].
  - wp_steps. apply wp_find_socket. intros [sock|] w Hf; cbn [default].
    + rewrite bool_decide_false.
      * wp_steps. apply wp_world, HQ. exists (Some sock), w. split; [done|]. apply surjective_pairing.
      * destruct (searched_socket _ _ _ _ _ sock Hf eq_refl) as (d & _ & ->). apply filepath_Join_not_empty.
        by destruct provider.
    + rewrite bool_decide_true by done. wp_steps. apply HQ. by exists None, w.
  - wp_steps. destruct s as [b w]. by apply (HQ _ w).
Qed.

(** What one undisturbed [Get] returns and registers. *)
Definition got (provider : string) (s : state) (o : outcome (result Client)) (s' : state) : Prop :=
  match pcb_clients s.1 !! provider with
  | Some c => o = Val (Ok c) ∧ s' = s
  | None => ∃ r, opened s.1 s.2 provider r s'.2 ∧
    match r with
    | Err e => o = Val (Err e) ∧ s'.1 = s.1
    | Ok conn =>
      let c := NewCSIDriverProviderClient conn in
      o = Val (Ok c) ∧
      s'.1 = set_clients (<[ provider := c ]> (pcb_clients s.1)) (<[ provider := conn ]> (pcb_conns s.1)) s.1
    end
  end.

Lemma Get_got provider (s : state) : wp (Get provider) (got provider s) s.
Proof.
  unfold Provider.Get, got. wp_steps.
  destruct (pcb_clients s.1 !! provider) as [c|] eqn:Hc; wp_steps; [done|].
  apply wp_Get_open. intros [conn|e] w Ho; wp_steps.
  - cbn [fst]. rewrite Hc. wp_steps. exists (Ok conn). done.
  - exists (Err e). done.
Qed.
End Get.

(** ** Concurrent calls

    Goroutines that call [Get] advance phase by phase, interleaved with each
    other, with [Cleanup], with health checks and with whatever changes the
    world.  A returned call remembers how many [Cleanup]s had happened. *)

Section system.
Context (IsPrint_table : N → bool).
Context {W Conn Client : Type} `{Grpc W Conn Client} `{CSIDriverProvider W Client}.
Local Notation state := (PluginClientBuilder Conn Client * W)%type.

Inductive phase :=
| Called
| Missed
| Opened (conn : Conn)
| Returned (r : result Client) (epoch : nat).

(** One phase of [Get], in the [epoch]th period between clean-ups. *)
Definition run_phase (epoch : nat) (provider : string) (ph : phase) : GoM state phase :=
  match ph with
  | Called =>
    out ← Get_lookup provider;
    mret (match out with Some c => Returned (Ok c) epoch | None => Missed end)
  | Missed =>
    conn ← Get_open IsPrint_table provider;
    mret (match conn with Err err => Returned (Err err) epoch | Ok conn => Opened conn end)
  | Opened conn => out ← Get_publish provider conn; mret (Returned (Ok out) epoch)
  | Returned r e => mret (Returned r e)
  end.

Record system := { sy_state : state; sy_calls : gmap nat (string * phase); sy_epoch : nat; sy_health : health }.

Inductive action :=
| act_call (t : nat) (provider : string)
| act_run (t : nat)
| act_cleanup
| act_health (e : health_event)
| act_world (w : W).

(** A panic would stop the process; there is none in these operations. *)
Definition settle {A} (os : outcome A * state) (k : A → state → system) : option system :=
  match os with (Val a, s) => Some (k a s) | (Panic _, _) => None end.

Definition sys_step (a : action) (s : system) : option system :=
  match a with
  | act_call t provider =>
    match sy_calls s !! t with
    | Some _ => None
    | None => Some {| sy_state := sy_state s; sy_calls := <[ t := (provider, Called) ]> (sy_calls s); sy_epoch := sy_epoch s; sy_health := sy_health s |}
    end
  | act_run t =>
    '(provider, ph) ← sy_calls s !! t;
    settle (run_phase (sy_epoch s) provider ph (sy_state s)) (λ ph' st,
      {| sy_state := st; sy_calls := <[ t := (provider, ph') ]> (sy_calls s); sy_epoch := sy_epoch s; sy_health := sy_health s |})
  | act_cleanup =>
    settle (Cleanup (sy_state s)) (λ _ st, {| sy_state := st; sy_calls := sy_calls s; sy_epoch := S (sy_epoch s); sy_health := sy_health s |})
  | act_health e =>
    settle (HealthCheck_step e (sy_health s) (sy_state s)) (λ h st,
      {| sy_state := st; sy_calls := sy_calls s; sy_epoch := sy_epoch s; sy_health := h |})
  | act_world w => Some {| sy_state := ((sy_state s).1, w); sy_calls := sy_calls s; sy_epoch := sy_epoch s; sy_health := sy_health s |}
  end.

Inductive sys_reachable : system → Prop :=
| sys_new paths opts w : sys_reachable {| sy_state := (NewPluginClientBuilder paths opts, w); sy_calls := ∅; sy_epoch := 0; sy_health := HealthCheck_start |}
| sys_next a s s' : sys_reachable s → sys_step a s = Some s' → sys_reachable s'.

Fixpoint sys_run (l : list action) (s : system) : option system :=
  match l with [] => Some s | a :: l => s' ← sys_step a s; sys_run l s' end.

(** [Get] is its three phases one after the other. *)
Lemma Get_phases provider (s : state) :
  Get IsPrint_table provider s =
  (ph ← run_phase 0 provider Called; ph ← run_phase 0 provider ph; ph ← run_phase 0 provider ph;
   match ph with Returned r _ => mret r | _ => panic "not returned" end) s.
Proof.
  unfold Get, run_phase, mbind, GoM_bind, mret, GoM_ret.
  destruct (Get_lookup provider s) as [[[c|]|p] s1]; try done.
  destruct (Get_open IsPrint_table provider s1) as [[[conn|e]|p] s2]; try done.
  by destruct (Get_publish provider conn s2) as [[c|p] s3].
Qed.

(** *** The invariant *)

Definition phase_ok (clients : gmap string Client) (epoch : nat) (call : string * phase) : Prop :=
  match call.2 with
  | Opened _ => pluginNameRe call.1 = true
  | Returned (Ok c) e => e ≤ epoch ∧ (e = epoch → clients !! call.1 = Some c)
  | _ => True
  end.

Record sys_inv (s : system) : Prop := {
  inv_conns p : pcb_clients (sy_state s).1 !! p = NewCSIDriverProviderClient <$> pcb_conns (sy_state s).1 !! p;
  inv_names p : is_Some (pcb_clients (sy_state s).1 !! p) → pluginNameRe p = true;
  inv_calls : map_Forall (λ _ call, phase_ok (pcb_clients (sy_state s).1) (sy_epoch s) call) (sy_calls s);
}.

(** Registered clients stay while no [Cleanup] happens. *)
Lemma phase_ok_mono clients clients' epoch call :
  clients ⊆ clients' → phase_ok clients epoch call → phase_ok clients' epoch call.
Proof.
  intros Hs. destruct call as [p [| |conn|[c|e] ep]]; simpl; try done.
  intros [? Hc]. split; [done|]. intros E. eapply lookup_weaken; [by apply Hc|done].
Qed.
Lemma phase_ok_cleanup clients clients' epoch call :
  phase_ok clients epoch call → phase_ok clients' (S epoch) call.
Proof. destruct call as [p [| |conn|[c|e] ep]]; simpl; try done. intros [? _]. split; lia. Qed.

(** What a phase does to the builder, whatever the world answers. *)
Definition phase_step (epoch : nat) (p : string) (ph : phase) (b : PluginClientBuilder Conn Client)
    (ph' : phase) (b' : PluginClientBuilder Conn Client) : Prop :=
  match ph with
  | Called => b' = b ∧
      ph' = match pcb_clients b !! p with Some c => Returned (Ok c) epoch | None => Missed end
  | Missed => b' = b ∧
      match ph' with Returned (Err _) e => e = epoch | Opened _ => pluginNameRe p = true | _ => False end
  | Opened conn =>
      match pcb_clients b !! p with
      | Some c => b' = b ∧ ph' = Returned (Ok c) epoch
      | None => let c := NewCSIDriverProviderClient conn in
          ph' = Returned (Ok c) epoch ∧
          b' = set_clients (<[ p := c ]> (pcb_clients b)) (<[ p := conn ]> (pcb_conns b)) b
      end
  | Returned r e => b' = b ∧ ph' = ph
  end.

Lemma run_phase_spec epoch p ph (s : state) :
  wp (run_phase epoch p ph) (λ o s', ∃ ph', o = Val ph' ∧ phase_step epoch p ph s.1 ph' s'.1) s.
Proof.
  destruct ph as [| |conn|r e]; cbn [run_phase phase_step].
  - wp_steps. by eexists.
  - wp_step. apply (wp_Get_open IsPrint_table). intros r w Ho. wp_steps.
    eexists. split; [done|]. split; [done|]. unfold opened in Ho.
    destruct (pluginNameRe p); [by destruct r|by destruct Ho as [-> _]].
  - wp_steps. destruct (pcb_clients s.1 !! p); wp_steps; by eexists.
  - wp_steps. by eexists.
Qed.

Lemma close_all_eq l (s : state) :
  close_all l s = (Val tt, (s.1, foldl (λ w kc, (Conn_Close kc.2 w).2) s.2 l)).
Proof.
  revert s. induction l as [|[k c] l IH]; intros [b w]; [done|]. cbn [close_all foldl].
  unfold mbind, GoM_bind, world, act. simpl. destruct (Conn_Close c w) as [e w']. by rewrite IH.
Qed.

(** [Cleanup] closes every registered connection once and forgets all. *)
Lemma Cleanup_eq (s : state) :
  Cleanup s = (Val tt, (set_clients ∅ ∅ s.1,
                        foldl (λ w kc, (Conn_Close kc.2 w).2) s.2 (map_to_list (pcb_conns s.1)))).
Proof.
  unfold Cleanup. cbn. unfold mbind, GoM_bind. cbn. by rewrite close_all_eq.
Qed.

(** *** Health checks *)

(** The call of [HealthCheck] after [n] checks of a client. *)
Definition health_after (n : nat) (returned : bool) : health := {|
  hc_contexts := replicate n {| cc_timeout := (5 * Second)%Z; cc_cancelled := returned |};
  hc_defers := if returned then [] else reverse (seq 0 n);
  hc_returned := returned |}.

Lemma check_clients_spec l n (s : state) :
  ∃ w, check_clients l (health_after n false) s = (Val (health_after (n + length l) false), (s.1, w)).
Proof.
  revert n s. induction l as [|[k c] l IH]; intros n [b w]; cbn [check_clients].
  { exists w. by rewrite Nat.add_0_r. }
  assert (WithTimeout (5 * Second) (health_after n false) = (n, (WithTimeout (5 * Second) (health_after n false)).2)) as ->.
  { unfold WithTimeout. cbn [hc_contexts health_after]. by rewrite length_replicate. }
  assert (defer_cancel n (WithTimeout (5 * Second) (health_after n false)).2 = health_after (S n) false) as ->.
  { unfold health_after. rewrite replicate_S_end, seq_S, reverse_snoc. unfold WithTimeout, defer_cancel.
    done. }
  unfold Version, mbind, GoM_bind, world, act. simpl. destruct (csi_Version c _ w) as [r w'].
  rewrite <- Nat.add_succ_comm. apply (IH (S n) (b, w')).
Qed.

(** Deferred cancels run on return: they cancel the contexts they name. *)
Lemma cancel_all l ids i :
  foldl cancel_context l ids !! i =
  (λ ctx, {| cc_timeout := cc_timeout ctx; cc_cancelled := cc_cancelled ctx || bool_decide (i ∈ ids) |}) <$> l !! i.
Proof.
  revert l. induction ids as [|c ids IH]; intros l; cbn [foldl].
  - destruct (l !! i) as [[t x]|]; [|done]. cbn. by rewrite orb_false_r.
  - rewrite IH. unfold cancel_context. destruct (decide (i = c)) as [->|Hne].
    + rewrite list_lookup_alter_eq. destruct (l !! c); [|done]. cbn.
      by rewrite (bool_decide_true (c ∈ c :: ids)), orb_true_r by (by left).
    + rewrite list_lookup_alter_ne by done. destruct (l !! i); [|done]. cbn. do 2 f_equal. f_equal.
      apply bool_decide_ext. rewrite elem_of_cons. naive_solver.
Qed.
Lemma health_return_checked n : health_return (health_after n false) = health_after n true.
Proof.
  unfold health_return, health_after. cbn. f_equal. apply list_eq. intros i. rewrite cancel_all.
  destruct (decide (i < n)) as [Hi|Hi].
  - rewrite !lookup_replicate_2 by done. cbn. rewrite bool_decide_true; [done|].
    apply elem_of_reverse, elem_of_seq. lia.
  - by rewrite !lookup_ge_None_2 by (rewrite length_replicate; lia).
Qed.

Lemma HealthCheck_step_spec e n r (s : state) : ∃ w,
  HealthCheck_step e (health_after n r) s =
  (Val (if r then health_after n true else
        match e with HealthTick => health_after (n + size (pcb_clients s.1)) false | HealthDone => health_after n true end), (s.1, w)).
Proof.
  unfold HealthCheck_step. destruct s as [b w0]. destruct r; [by exists w0|]. cbn [hc_returned health_after].
  destruct e; [|by exists w0; rewrite health_return_checked].
  unfold HealthCheck_tick. rewrite <- length_map_to_list. cbn. apply (check_clients_spec _ n (b, w0)).
Qed.

(** [HealthCheck] keeps the builder, whatever its own state. *)
Lemma HealthCheck_step_keeps e h (s : state) : ∃ h' w, HealthCheck_step e h s = (Val h', (s.1, w)).
Proof.
  assert (∀ l h (s : state), ∃ h' w, check_clients l h s = (Val h', (s.1, w))) as HC.
  { clear. intros l. induction l as [|[k c] l IH]; intros h [b w]; [by exists h, w|]. cbn [check_clients].
    destruct (WithTimeout _ h) as [c' h']. unfold Version, mbind, GoM_bind, world, act. simpl.
    destruct (csi_Version c _ w) as [r w']. apply (IH _ (b, w')). }
  unfold HealthCheck_step. destruct s as [b w0]. destruct (hc_returned h); [by exists h, w0|].
  destruct e; [|by eexists _, w0]. apply (HC (map_to_list (pcb_clients b)) h (b, w0)).
Qed.

Lemma phase_step_inv s t p ph ph' b' :
  sys_inv s → sy_calls s !! t = Some (p, ph) → phase_step (sy_epoch s) p ph (sy_state s).1 ph' b' →
  ∀ w, sys_inv {| sy_state := (b', w); sy_calls := <[ t := (p, ph') ]> (sy_calls s); sy_epoch := sy_epoch s; sy_health := sy_health s |}.
Proof.
  intros [Hc Hn Hcalls] Ht Hstep w. set (cl := pcb_clients (sy_state s).1) in *.
  assert (phase_ok cl (sy_epoch s) (p, ph)) as Hph by (by apply (Hcalls t)).
  destruct ph as [| |conn|r e]; simpl in Hstep.
  - destruct Hstep as [-> ->]. split; [done..|]. apply map_Forall_insert_2; [|done].
    fold cl. by destruct (cl !! p) eqn:E.
  - destruct Hstep as [-> Hr]. split; [done..|]. apply map_Forall_insert_2; [|done].
    by destruct ph' as [| |conn|[c|e] ep].
  - fold cl in Hstep. destruct (cl !! p) as [c|] eqn:E.
    + destruct Hstep as [-> ->]. split; [done..|]. by apply map_Forall_insert_2.
    + destruct Hstep as [-> ->]. fold cl. split; simpl.
      * intros q. destruct (decide (p = q)) as [<-|Hne]; [by rewrite !lookup_insert_eq|].
        rewrite !lookup_insert_ne by done. apply Hc.
      * intros q. destruct (decide (p = q)) as [<-|Hne]; [done|]. rewrite lookup_insert_ne by done. apply Hn.
      * apply map_Forall_insert_2; [by split; [|rewrite lookup_insert_eq]|].
        apply (map_Forall_impl _ _ _ Hcalls). intros _ call. apply phase_ok_mono. by apply insert_subseteq.
  - destruct Hstep as [-> ->]. split; [done..|]. by apply map_Forall_insert_2.
Qed.

Lemma sys_step_inv a s s' : sys_inv s → sys_step a s = Some s' → sys_inv s'.
Proof.
  intros Hinv. pose proof Hinv as [Hc Hn Hcalls]. destruct a as [t p|t| |e|w]; cbn [sys_step].
  - destruct (sy_calls s !! t); [done|]. intros [= <-]. split; [done..|]. by apply map_Forall_insert_2.
  - destruct (sy_calls s !! t) as [[p ph]|] eqn:Ht; [|done]. cbn [mbind option_bind].
    destruct (run_phase_spec (sy_epoch s) p ph (sy_state s)) as (ph' & Ho & Hstep). unfold settle.
    destruct (run_phase _ _ _ _) as [o [b w]]. simpl in Ho, Hstep. subst o. intros [= <-].
    by eapply phase_step_inv.
  - rewrite Cleanup_eq. intros [= <-]. split; simpl.
    + intros p. by rewrite !lookup_empty.
    + intros p. rewrite lookup_empty. by intros [].
    + apply (map_Forall_impl _ _ _ Hcalls). intros _ call. apply phase_ok_cleanup.
  - destruct (HealthCheck_step_keeps e (sy_health s) (sy_state s)) as (h & w & ->). intros [= <-]. by split.
  - intros [= <-]. by split.
Qed.

(** The clients that are registered at the ticks of a run, counted tick by tick
    until the controller's context is done. *)
Definition is_done (a : action) : bool := match a with act_health HealthDone => true | _ => false end.
Fixpoint checks (l : list action) (s : system) : nat :=
  match l with
  | [] => 0
  | a :: l =>
    if is_done a then 0 else
    (match a with act_health HealthTick => size (pcb_clients (sy_state s).1) | _ => 0 end) +
    match sys_step a s with Some s' => checks l s' | None => 0 end
  end.

Lemma settle_health {A} (os : outcome A * state) k (s' : system) h :
  settle os k = Some s' → (∀ a st, sy_health (k a st) = h) → sy_health s' = h.
Proof. destruct os as [[a|p] st]; [|done]. intros [= <-] Hk. apply Hk. Qed.

(** Only the goroutine of [HealthCheck] changes the state of its call. *)
Lemma sys_step_health a s s' : sys_step a s = Some s' → match a with act_health _ => True | _ => sy_health s' = sy_health s end.
Proof.
  destruct a as [t p|t| |e|w]; cbn [sys_step].
  - destruct (sy_calls s !! t); [done|]. by intros [= <-].
  - destruct (sy_calls s !! t) as [[p ph]|]; [|done]. cbn [mbind option_bind]. intros E. by apply (settle_health _ _ _ _ E).
  - intros E. by apply (settle_health _ _ _ _ E).
  - done.
  - by intros [= <-].
Qed.

Lemma sys_run_health l n r s s' : sys_run l s = Some s' → sy_health s = health_after n r →
  sy_health s' = if r then health_after n true else health_after (n + checks l s) (existsb is_done l).
Proof.
  revert n r s. induction l as [|a l IH]; intros n r s; cbn [sys_run checks existsb].
  { intros [= <-] ->. rewrite Nat.add_0_r. by destruct r. }
  destruct (sys_step a s) as [s1|] eqn:E; [|done]. cbn [mbind option_bind]. intros Hrun Hh.
  pose proof (sys_step_health a s s1 E) as H1. destruct a as [t p|t| |e|w]; try (rewrite <- H1 in Hh; by rewrite (IH _ _ _ Hrun Hh)).
  cbn [sys_step] in E. rewrite Hh in E. destruct (HealthCheck_step_spec e n r (sy_state s)) as [w E']. rewrite E' in E.
  injection E as Es. assert (sy_health s1 = if r then health_after n true else
    match e with HealthTick => health_after (n + size (pcb_clients (sy_state s).1)) false | HealthDone => health_after n true end) as E1 by by subst s1.
  destruct r; [by rewrite (IH _ _ _ Hrun E1)|]. destruct e; rewrite (IH _ _ _ Hrun E1); cbn [is_done orb].
  - by rewrite Nat.add_assoc.
  - by rewrite Nat.add_0_r.
Qed.

Lemma sys_reachable_inv s : sys_reachable s → sys_inv s.
Proof.
  induction 1 as [paths w|a s s' _ IH Hs]; [|by eapply sys_step_inv].
  split; simpl; [intros p; by rewrite !lookup_empty|intros p; rewrite lookup_empty; by intros []|done].
Qed.
End system.

(** ** The response of a provider *)

(** The last element that satisfies a test. *)
Definition last_with {A} (p : A → bool) (l : list A) : option A := last (filter (λ a, p a = true) l).

Lemma last_with_cons {A} p (a : A) l :
  last_with p (a :: l) = match last_with p l with Some b => Some b | None => if p a then Some a else None end.
Proof.
  unfold last_with. rewrite filter_cons. destruct (p a) eqn:E.
  - rewrite decide_True by done. rewrite last_cons. by destruct (last (filter _ l)).
  - rewrite decide_False by done. by destruct (last (filter _ l)).
Qed.

Lemma object_versions_lookup l m ov id :
  object_versions (Some <$> l) m = Val ov →
  ov !! id = match last_with (λ v, bool_decide (ov_Id v = id)) l with Some v => Some (ov_Version v) | None => m !! id end.
Proof.
  revert m. induction l as [|v l IH]; intros m; simpl; [by intros [= <-]|].
  intros ->%IH. rewrite last_with_cons. destruct (last_with _ l); [done|].
  case_bool_decide as E; [by rewrite E, lookup_insert_eq|by rewrite lookup_insert_ne].
Qed.

Lemma object_versions_val l m : ∃ ov, object_versions (Some <$> l) m = Val ov.
Proof. revert m. induction l as [|v l IH]; intros m; simpl; eauto. Qed.
Lemma object_versions_some l m ov : object_versions l m = Val ov → ∃ l', l = Some <$> l'.
Proof.
  revert m. induction l as [|[v|] l IH]; intros m; simpl; [by exists []| |done].
  intros [l' ->]%IH. by exists (v :: l').
Qed.

Definition file_path (f : option File) : string := match f with Some f => f_Path f | None => EmptyString end.
Definition file_contents (f : option File) : slice := match f with Some f => f_Contents f | None => None end.

Lemma mounted_files_lookup fs m p :
  mounted_files fs m !! p =
  match last_with (λ f, bool_decide (file_path f = p)) fs with Some f => Some (file_contents f) | None => m !! p end.
Proof.
  revert m. induction fs as [|f fs IH]; intros m; [done|]. cbn [mounted_files].
  rewrite IH, last_with_cons. destruct (last_with _ fs); [done|]. unfold file_path, file_contents.
  case_bool_decide as E; [by rewrite <- E, lookup_insert_eq|by rewrite lookup_insert_ne].
Qed.

(** ** Properties *)

Section claims.
Context (IsPrint_table : N → bool).
Context {W Conn Client : Type} `{Grpc W Conn Client} `{CSIDriverProvider W Client}.
Local Notation state := (PluginClientBuilder Conn Client * W)%type.

(** C17: whatever calls of [Get], clean-ups and health checks are interleaved,
    every registered client has its connection registered and is of a valid
    plugin name, and two calls for one provider that return a client between
    the same clean-ups return the same client. *)
Theorem Get_concurrent (s : system (W:=W) (Conn:=Conn) (Client:=Client)) :
  sys_reachable IsPrint_table s →
  (∀ p, pcb_clients (sy_state s).1 !! p = NewCSIDriverProviderClient <$> pcb_conns (sy_state s).1 !! p) ∧
  (∀ p, is_Some (pcb_clients (sy_state s).1 !! p) → pluginNameRe p = true) ∧
  (∀ t t' p c c' epoch,
     sy_calls s !! t = Some (p, Returned (Ok c) epoch) →
     sy_calls s !! t' = Some (p, Returned (Ok c') epoch) →
     epoch = sy_epoch s → c = c').
Proof.
  intros [Hc Hn Hcalls]%sys_reachable_inv. split_and!; [done..|].
  intros t t' p c c' epoch Ht Ht' He. apply Hcalls in Ht as [_ Ht], Ht' as [_ Ht'].
  specialize (Ht He). specialize (Ht' He). simpl in *. congruence.
Qed.

(** C19: one undisturbed [Get] (its three phases in a row).  A registered client
    is returned and nothing changes.  Otherwise an invalid name gives the error
    that names it, with no file looked at; the folders are asked for the socket
    in their order, each only when those before it do not have it (by [os.Stat],
    on Windows also by [os.Lstat]); when none has it the error names the provider
    and nothing is dialled; the first socket found is dialled, once, with the
    options of the builder; an error of the dial is returned, a connection is
    registered with its client, which is returned.  An error registers nothing. *)
Theorem Get_correct provider (s : state) :
  let '(o, s') := Get IsPrint_table provider s in
  match pcb_clients s.1 !! provider with
  | Some c => o = Val (Ok c) ∧ s' = s
  | None =>
    if pluginNameRe provider then
      ∃ found w, searched provider (pcb_socketPaths s.1) s.2 found w ∧
      match found with
      | None => o = Val (Err (provider_not_found IsPrint_table provider)) ∧ s' = (s.1, w)
      | Some sock =>
        let '(r, w') := grpc_NewClient ("unix://" +:+ sock) (pcb_opts s.1) w in
        match r with
        | Err e => o = Val (Err e) ∧ s' = (s.1, w')
        | Ok conn =>
          let c := NewCSIDriverProviderClient conn in
          o = Val (Ok c) ∧
          s' = (set_clients (<[ provider := c ]> (pcb_clients s.1)) (<[ provider := conn ]> (pcb_conns s.1)) s.1, w')
        end
      end
    else o = Val (Err (invalid_provider IsPrint_table provider)) ∧ s' = s
  end.
Proof.
  run_wp. apply (wp_mono _ (got IsPrint_table provider s)); [apply Get_got|]. intros o [b w']. unfold got, opened.
  destruct (pcb_clients s.1 !! provider) as [c|]; [done|]. intros (r & Ho & Hr). destruct s as [b0 w]. cbn [fst snd] in *.
  destruct (pluginNameRe provider).
  - destruct Ho as (found & w1 & Hf & Ho). exists found, w1. split; [done|]. destruct found as [sock|].
    + rewrite Ho. destruct r as [conn|e]; destruct Hr as [-> ->]; done.
    + destruct Ho as [-> ->]. by destruct Hr as [-> ->].
  - destruct Ho as [-> ->]. by destruct Hr as [-> ->].
Qed.

(** C18: with absolute socket folders, whatever the provider's name, the only
    sockets [Get] opens are files named after a valid plugin name directly in
    one of the (cleaned) folders: what holds of the world and is kept by file
    queries and by opening such sockets holds after [Get]. *)
Theorem Get_socket_confined (P : W → Prop) provider (s : state) :
  Forall (λ d, is_rooted d = true) (pcb_socketPaths s.1) →
  (∀ path w, P w → P (os_Stat path w).2) →
  (∀ path w, P w → P (os_Lstat path w).2) →
  (∀ d w, d ∈ pcb_socketPaths s.1 → pluginNameRe provider = true → P w →
     P (grpc_NewClient ("unix://" +:+ socket_in d provider) (pcb_opts s.1) w).2) →
  P s.2 → P (Get IsPrint_table provider s).2.2.
Proof.
  intros Hroot HS HL HN Hs. pose proof (Get_got IsPrint_table provider s) as HG.
  unfold wp, got, opened in HG. destruct (pcb_clients s.1 !! provider); [by destruct HG as [_ ->]|].
  destruct HG as (r & HG & _). destruct (pluginNameRe provider) eqn:Hn; [|by destruct HG as [_ ->]].
  destruct HG as (found & w & Hf & E). pose proof (searched_keeps P _ _ _ _ _ HS HL Hf Hs) as Hw.
  destruct found as [sock|]; [|by destruct E as [_ ->]].
  destruct (searched_socket _ _ _ _ _ sock Hf eq_refl) as (d & Hd & ->). specialize (HN d w Hd eq_refl Hw). rewrite Forall_forall in Hroot.
  rewrite filepath_Join_plain in E; [|by apply Hroot|by apply pluginName_plain].
  unfold socket_in in HN. by rewrite E in HN.
Qed.

(** C21: when two goroutines have both missed the cache and both opened a
    connection, the second to publish gets the first one's client, and its own
    connection is left out of the builder: no later [Cleanup] closes it. *)
Theorem Get_race provider (s s1 s2 : state) conn1 conn2 :
  pcb_clients s.1 !! provider = None →
  Get_open IsPrint_table provider s = (Val (Ok conn1), s1) →
  Get_open IsPrint_table provider s1 = (Val (Ok conn2), s2) →
  conn2 ≠ conn1 → (∀ q, pcb_conns s.1 !! q ≠ Some conn2) →
  ∃ s3, Get_publish provider conn1 s2 = (Val (NewCSIDriverProviderClient conn1), s3) ∧
        Get_publish provider conn2 s3 = (Val (NewCSIDriverProviderClient conn1), s3) ∧
        pcb_conns s3.1 !! provider = Some conn1 ∧ (∀ q, pcb_conns s3.1 !! q ≠ Some conn2).
Proof.
  intros Hc H1 H2 Hne Hfresh.
  assert (∀ s s' : state, ∀ o, Get_open IsPrint_table provider s = (o, s') → s'.1 = s.1) as Hsame.
  { intros st st' o E. assert (wp (Get_open IsPrint_table provider) (λ _ s', s'.1 = st.1) st) as Hw
      by (by apply (wp_Get_open IsPrint_table)).
    unfold wp in Hw. by rewrite E in Hw. }
  apply Hsame in H1. apply Hsame in H2. rewrite H1 in H2. destruct s2 as [b2 w2]. simpl in H2. subst b2.
  eexists. split_and!.
  - unfold Get_publish, mbind, GoM_bind. cbn. by rewrite Hc.
  - unfold Get_publish, mbind, GoM_bind. cbn. by rewrite lookup_insert_eq.
  - cbn. by rewrite lookup_insert_eq.
  - cbn. intros q. destruct (decide (provider = q)) as [<-|Hq]; [rewrite lookup_insert_eq; congruence|].
    by rewrite lookup_insert_ne.
Qed.

(** [Cleanup] closes each registered connection exactly once, whether or
    not closing fails, and leaves a builder with no client that looks in the
    same folders and dials with the same options. *)
Theorem Cleanup_correct (s : state) :
  Cleanup s = (Val tt, (set_clients ∅ ∅ s.1,
    foldl (λ w kc, (Conn_Close kc.2 w).2) s.2 (map_to_list (pcb_conns s.1)))).
Proof. apply Cleanup_eq. Qed.

(** C22: the cancel functions that [HealthCheck] defers inside its loop run only
    when the method returns.  However calls of [Get], clean-ups and ticks are
    interleaved, one context (of five seconds) is made per client registered at a
    tick; as long as the controller's context is not done, none of these has been
    cancelled and the cancels of all of them are deferred, the last one first, so
    they pile up for the life of the process; the method can always return, and
    when it has, each has been cancelled and none is deferred. *)
Theorem HealthCheck_defers l (s s' : system (W:=W) (Conn:=Conn) (Client:=Client)) :
  sys_run IsPrint_table l s = Some s' → sy_health s = HealthCheck_start →
  let h := sy_health s' in
  let n := checks IsPrint_table l s in
  length (hc_contexts h) = n ∧ Forall (λ c, cc_timeout c = (5 * Second)%Z) (hc_contexts h) ∧
  hc_returned h = existsb is_done l ∧
  (if existsb is_done l
   then hc_defers h = [] ∧ Forall (λ c, cc_cancelled c = true) (hc_contexts h)
   else hc_defers h = reverse (seq 0 n) ∧ Forall (λ c, cc_cancelled c = false) (hc_contexts h)) ∧
  ∃ s'', sys_step IsPrint_table (act_health HealthDone) s' = Some s'' ∧ hc_returned (sy_health s'') = true.
Proof.
  intros Hrun Hh. pose proof (sys_run_health IsPrint_table l 0 false s s' Hrun Hh) as E. cbn [Nat.add] in E.
  set (n := checks IsPrint_table l s) in *. cbn zeta. split_and!.
  - rewrite E. apply length_replicate.
  - rewrite E. apply Forall_replicate. done.
  - by rewrite E.
  - rewrite E. destruct (existsb is_done l); (split; [done|]; by apply Forall_replicate).
  - cbn [sys_step]. rewrite E. destruct (HealthCheck_step_spec HealthDone n (existsb is_done l) (sy_state s')) as [w ->].
    eexists. split; [done|]. by destruct (existsb is_done l).
Qed.

(** C20: [MountContent] passes the parameters on in one Mount call and fails
    exactly when the call fails, the provider reports an error code or there
    are no object versions; otherwise each path maps to the contents of the last
    file of that path, and each id to its last version. *)
Theorem MountContent_correct client attributes secrets old (w : W) :
  let '(r, w') := csi_Mount client (mount_request attributes secrets old) w in
  let '(o, w'') := MountContent client attributes secrets old w in
  w'' = w' ∧
  match r with
  | Err e => o = Val (Err e)
  | Ok resp =>
    match provider_error_code resp, resp ≫= mresp_ObjectVersion with
    | Some code, _ => o = Val (Err (errors_New ("mount request failed with provider error code " +:+ code)))
    | None, None => o = Val (Err errMissingObjectVersions)
    | None, Some ovs => ∀ l, ovs = Some <$> l → ∃ ov files,
        o = Val (Ok (ov, files)) ∧
        (∀ id, ov !! id = ov_Version <$> last_with (λ v, bool_decide (ov_Id v = id)) l) ∧
        (∀ p, files !! p = file_contents <$> last_with (λ f, bool_decide (file_path f = p))
                                              (default [] (mresp_Files <$> resp)))
    end
  end.
Proof.
  unfold MountContent, mbind, GoM_bind, act. destruct (csi_Mount _ _ w) as [[resp|e] w']; [|done].
  cbn. unfold outcome_of, mount_response. split; [done|].
  destruct (provider_error_code resp); [done|]. change (option_bind _ _ mresp_ObjectVersion resp) with (resp ≫= mresp_ObjectVersion).
  destruct (resp ≫= mresp_ObjectVersion) as [ovs|]; [|done].
  intros l ->. destruct (object_versions_val l ∅) as [ov E]. rewrite E. do 2 eexists. split; [done|]. split.
  - intros id. rewrite (object_versions_lookup _ _ _ id E). by destruct (last_with _ l).
  - intros p. rewrite mounted_files_lookup. by destruct (last_with _ _).
Qed.
End claims.

(** ** Witnesses *)

Definition quote_table (c : N) : bool := (32 <=? c)%N.
Definition fixture_system : system (W:=pworld) (Conn:=nat) (Client:=nat) :=
  {| sy_state := provider_start; sy_calls := ∅; sy_epoch := 0; sy_health := HealthCheck_start |}.

Lemma sys_run_reachable l s s' : sys_reachable quote_table s → sys_run quote_table l s = Some s' → sys_reachable quote_table s'.
Proof.
  revert s. induction l as [|a l IH]; intros s Hs; cbn [sys_run]; [by intros [= <-]|].
  destruct (sys_step quote_table a s) as [s1|] eqn:E; [|done]. cbn [mbind option_bind]. apply IH. by eapply sys_next.
Qed.

(** Two calls for one provider, phase by phase in turn. *)
Definition race : list (action (W:=pworld)) :=
  [act_call 0 "azure"; act_call 1 "azure"; act_run 0; act_run 1; act_run 0; act_run 1; act_health HealthTick; act_run 1; act_run 0].

(** Both return the client of the connection 1, which was published first. *)
Lemma Get_concurrent_witness : ∃ s, sys_run quote_table race fixture_system = Some s ∧
  sy_calls s !! 0 = Some ("azure", Returned (Ok 1) 0) ∧ sy_calls s !! 1 = Some ("azure", Returned (Ok 1) 0) ∧
  pw_dialed (sy_state s).2 = ["unix:///etc/providers/azure.sock"; "unix:///etc/providers/azure.sock"] ∧
  pcb_clients (sy_state s).1 !! "azure" = (λ c : nat, c) <$> pcb_conns (sy_state s).1 !! "azure".
Proof.
  destruct (sys_run quote_table race fixture_system) as [s|] eqn:E; [|vm_compute in E; discriminate E].
  exists s. assert (R : sys_reachable quote_table s).
  { apply (sys_run_reachable race fixture_system); [apply sys_new|exact E]. }
  assert (X : (s0 ← sys_run quote_table race fixture_system;
    Some (sy_calls s0 !! 0, sy_calls s0 !! 1, pw_dialed (sy_state s0).2)) =
    Some (Some ("azure", Returned (Ok 1) 0), Some ("azure", Returned (Ok 1) 0),
          ["unix:///etc/providers/azure.sock"; "unix:///etc/providers/azure.sock"])) by (vm_compute; reflexivity).
  rewrite E in X. injection X as X0 X1 X2. split; [reflexivity|]. split; [exact X0|]. split; [exact X1|].
  split; [exact X2|]. exact (proj1 (Get_concurrent quote_table s R) "azure").
Defined.

(** One provider in the first folder and one in none. *)
Lemma Get_correct_witness :
  (∃ sock w, searched "vault" ["/provider"; "/etc/providers"] provider_start.2 (Some sock) w ∧
     (Get quote_table "vault" provider_start).1 = Val (Ok (length (pw_dialed w))) ∧
     pw_dialed (Get quote_table "vault" provider_start).2.2 = ["unix:///provider/vault.sock"]) ∧
  (∃ w, searched "gcp" ["/provider"; "/etc/providers"] provider_start.2 None w ∧
     Get quote_table "gcp" provider_start = (Val (Err (provider_not_found quote_table "gcp")), (provider_start.1, w))).
Proof.
  pose proof (Get_correct quote_table "vault" provider_start) as HV.
  pose proof (Get_correct quote_table "gcp" provider_start) as HG.
  assert (EV : (Get quote_table "vault" provider_start).1 = Val (Ok 0)) by (vm_compute; reflexivity).
  assert (DV : pw_dialed (Get quote_table "vault" provider_start).2.2 = ["unix:///provider/vault.sock"]) by (vm_compute; reflexivity).
  assert (EG : (Get quote_table "gcp" provider_start).1 = Val (Err (provider_not_found quote_table "gcp"))) by (vm_compute; reflexivity).
  destruct (Get quote_table "vault" provider_start) as [ov sv], (Get quote_table "gcp" provider_start) as [og sg].
  cbn [fst snd] in EV, DV, EG. subst ov og. split.
  - destruct HV as ([sock|] & w & Hf & HV); [|destruct HV as [HV _]; discriminate HV].
    exists sock, w. split; [exact Hf|]. split; [exact (proj1 HV)|exact DV].
  - destruct HG as ([sock|] & w & Hf & HG); [destruct HG as [HG _]; discriminate HG|].
    exists w. split; [exact Hf|]. destruct HG as [_ ->]. reflexivity.
Defined.

(** The name of a provider that tries to leave its folder opens nothing. *)
Definition only_providers (w : pworld) : Prop :=
  Forall (λ t, t = "unix:///provider/vault.sock" ∨ t = "unix:///etc/providers/vault.sock") (pw_dialed w).
Lemma Get_socket_confined_witness : only_providers (Get quote_table "vault" provider_start).2.2.
Proof.
  apply (Get_socket_confined quote_table only_providers "vault" provider_start).
  - repeat constructor.
  - intros path w Hw. exact Hw.
  - intros path w Hw. exact Hw.
  - intros d w Hd _ Hw. unfold only_providers in *. cbn. apply Forall_app. split; [exact Hw|].
    apply Forall_singleton. apply elem_of_cons in Hd. destruct Hd as [->|Hd].
    + left. vm_compute. reflexivity.
    + apply list_elem_of_singleton in Hd. subst d. right. vm_compute. reflexivity.
  - constructor.
Defined.

Definition dial1 : PluginClientBuilder nat nat * pworld := (Get_open quote_table "vault" provider_start).2.
Definition dial2 : PluginClientBuilder nat nat * pworld := (Get_open quote_table "vault" dial1).2.
Lemma Get_race_witness : ∃ s3, Get_publish "vault" 0 dial2 = (Val 0, s3) ∧ Get_publish "vault" 1 s3 = (Val 0, s3) ∧
  pcb_conns s3.1 !! "vault" = Some 0 ∧ (∀ q, pcb_conns s3.1 !! q ≠ Some 1) ∧ length (pw_dialed s3.2) = 2.
Proof.
  destruct (Get_race quote_table "vault" provider_start dial1 dial2 0 1) as (s3 & H1 & H2 & H3 & H4).
  - reflexivity.
  - vm_compute. reflexivity.
  - vm_compute. reflexivity.
  - discriminate.
  - intros q. cbn. rewrite lookup_empty. discriminate.
  - exists s3. split; [exact H1|]. split; [exact H2|]. split; [exact H3|]. split; [exact H4|].
    assert (X : length (pw_dialed (Get_publish (Client:=nat) "vault" 0 dial2).2.2) = 2) by (vm_compute; reflexivity).
    rewrite H1 in X. exact X.
Defined.

(** Two files, one of them sent twice: the last contents count. *)
Lemma MountContent_correct_witness :
  let '(o, _) := MountContent (W:=pworld) (Client:=nat) 0 "{}" "{}" ∅ provider_start.2 in
  ∃ ov files, o = Val (Ok (ov, files)) ∧ ov !! "secret/password" = Some "v2" ∧
    files !! "password" = Some (Some "new") ∧ files !! "other" = None.
Proof.
  pose proof (MountContent_correct (W:=pworld) (Client:=nat) 0 "{}" "{}" ∅ provider_start.2) as HM.
  cbn [csi_Mount fixture_provider] in HM.
  destruct (MountContent (W:=pworld) (Client:=nat) 0 "{}" "{}" ∅ provider_start.2) as [o w'].
  destruct HM as [_ HM]. cbn in HM.
  destruct (HM [{| ov_Id := "secret/password"; ov_Version := "v1" |};
                {| ov_Id := "secret/password"; ov_Version := "v2" |}] eq_refl) as (ov & files & Ho & Hov & Hf).
  exists ov, files. split; [exact Ho|]. rewrite (Hov "secret/password"), (Hf "password"), (Hf "other").
  split; [vm_compute; reflexivity|]. split; vm_compute; reflexivity.
Defined.

(** One provider, two ticks, another provider, a tick, and the end. *)
Definition two_clients : list (action (W:=pworld)) :=
  [act_call 0 "azure"; act_run 0; act_run 0; act_run 0; act_health HealthTick; act_health HealthTick;
   act_call 1 "vault"; act_run 1; act_run 1; act_run 1; act_health HealthTick].
Lemma HealthCheck_defers_witness : ∃ s' s'',
  sys_run quote_table two_clients fixture_system = Some s' ∧
  hc_defers (sy_health s') = [3; 2; 1; 0] ∧ hc_returned (sy_health s') = false ∧
  sys_run quote_table (two_clients ++ [act_health HealthDone]) fixture_system = Some s'' ∧
  hc_defers (sy_health s'') = [] ∧ length (hc_contexts (sy_health s'')) = 4 ∧
  Forall (λ c, cc_cancelled c = true) (hc_contexts (sy_health s'')).
Proof.
  destruct (sys_run quote_table two_clients fixture_system) as [s'|] eqn:E; [|vm_compute in E; discriminate E].
  destruct (sys_run quote_table (two_clients ++ [act_health HealthDone]) fixture_system) as [s''|] eqn:E'; [|vm_compute in E'; discriminate E'].
  exists s', s''. destruct (HealthCheck_defers quote_table _ fixture_system s' E eq_refl) as (_ & _ & HR & [HD _] & _).
  destruct (HealthCheck_defers quote_table _ fixture_system s'' E' eq_refl) as (HN & _ & _ & [HD' HF'] & _).
  assert (checks quote_table two_clients fixture_system = 4) as C by (vm_compute; reflexivity).
  assert (checks quote_table (two_clients ++ [act_health HealthDone]) fixture_system = 4) as C' by (vm_compute; reflexivity).
  rewrite C in HD. rewrite C' in HN. split; [reflexivity|]. split; [exact HD|]. split; [exact HR|].
  split; [reflexivity|]. split; [exact HD'|]. split; [exact HN|exact HF'].
Defined.
