(* ===== verification/ControllerEnv.v ===== *)
(** * internal/controller: the state of the reconciler and what it talks to

    A [Reconcile] call works on the heap of string maps, the token cache, the
    provider clients and the outside world.  The Kubernetes client and
    [meta.SetStatusCondition] are interfaces with the documented behaviour the
    controller relies on as laws.  What the reconciler asks of the others and
    what they answer is recorded in [rs_calls], oldest first; the code never
    looks at it. *)

From stdpp Require Import strings gmap list.
From S2P Require Import Prelude ApiTypes SecretUtil Token.

(** ** The Secret of a server-side apply *)

Record OwnerReference := { or_APIVersion : string; or_Kind : string; or_Name : string; or_UID : string }.
Record Secret := {
  sec_TypeMeta : TypeMeta;
  sec_Name : string;
  sec_Namespace : string;
  sec_Labels : option smap;
  sec_Annotations : option smap;
  sec_OwnerReferences : list OwnerReference;
  sec_Data : gmap string slice;
  sec_Type : string;
}.

(** ** The Kubernetes client *)

(** Objects come with references into the heap, which may be shared with the
    client's cache; what is sent is what the references read as.  After a
    successful status update the answer of the server is in the object. *)
Class KubeClient (W : Type) := {
  kc_GetSecretSync : string → string → heap * W → result (SecretSync mapref) * (heap * W);
  kc_GetSecretProviderClass : string → string → heap * W → result (SecretProviderClass mapref) * (heap * W);
  kc_StatusUpdate : SecretSync mapref → heap * W → (SecretSync mapref * option error) * (heap * W);
  kc_PatchSecret : string → string → string → Secret → W → option error * W;
  kc_SetStatusCondition : list Condition → Condition → W → list Condition * W;
}.

(** The server's answer to a status update: the object sent, in a new
    version.  A [metav1.Time] is sent in whole seconds; here the times come back
    as they are, as no decision of the code reads them. *)
Definition stored_as (sent answer : SecretSync (option smap)) : Prop :=
  ss_TypeMeta answer = ss_TypeMeta sent ∧ ss_Spec answer = ss_Spec sent ∧ ss_Status answer = ss_Status sent ∧
  om_Name (ss_ObjectMeta answer) = om_Name (ss_ObjectMeta sent) ∧
  om_Namespace (ss_ObjectMeta answer) = om_Namespace (ss_ObjectMeta sent) ∧
  om_UID (ss_ObjectMeta answer) = om_UID (ss_ObjectMeta sent) ∧
  om_Generation (ss_ObjectMeta answer) = om_Generation (ss_ObjectMeta sent).

(** Same type, status, reason and message. *)
Definition reports (c c' : Condition) : Prop :=
  cond_Type c' = cond_Type c ∧ cond_Status c' = cond_Status c ∧
  cond_Reason c' = cond_Reason c ∧ cond_Message c' = cond_Message c.

(** Replaces the first condition of the type, or appends. *)
Fixpoint put_cond (c : Condition) (cs : list Condition) : list Condition :=
  match cs with
  | [] => [c]
  | x :: cs => if bool_decide (cond_Type x = cond_Type c) then c :: cs else x :: put_cond c cs
  end.
Fixpoint find_cond (ty : string) (cs : list Condition) : option Condition :=
  match cs with
  | [] => None
  | x :: cs => if bool_decide (cond_Type x = ty) then Some x else find_cond ty cs
  end.

Class KubeClientLaws (W : Type) `{KubeClient W} := {
  kc_GetSecretSync_heap ns n h w :
    let '(r, (h', _)) := kc_GetSecretSync ns n (h, w) in
    h ⊆ h' ∧ match r with Ok ss => Forall (ref_ok h') (ss_refs ss) | Err _ => True end;
  kc_GetSecretProviderClass_heap ns n h w :
    let '(r, (h', _)) := kc_GetSecretProviderClass ns n (h, w) in
    h ⊆ h' ∧ match r with Ok spc => ref_ok h' (spc_Parameters spc) | Err _ => True end;
  kc_StatusUpdate_heap ss h w :
    Forall (ref_ok h) (ss_refs ss) →
    let '((ss', err), (h', _)) := kc_StatusUpdate ss (h, w) in
    h ⊆ h' ∧ Forall (ref_ok h') (ss_refs ss') ∧
    match err with None => stored_as (read_ss h ss) (read_ss h' ss') | Some _ => ss' = ss end;
  kc_SetStatusCondition_put cs c w : ∃ c', reports c c' ∧ (kc_SetStatusCondition cs c w).1 = put_cond c' cs;
}.

(** ** The provider clients, an interface of the controller package *)

Class AllClientBuilder (P W Client : Type) := { acb_Get : string → GoM (P * W) (result Client) }.
Class AllClientBuilderLaws (P W Client : Type) `{AllClientBuilder P W Client} := {
  acb_Get_returns provider s : ∃ r s', acb_Get provider s = (Val r, s');
}.

(** ** The state *)

(** An object as the API server has it. *)
Notation wire_ss := (SecretSync (option smap)).
Notation wire_spc := (SecretProviderClass (option smap)).
Definition read_spc (h : heap) (spc : SecretProviderClass mapref) : wire_spc := {|
  spc_UID := spc_UID spc; spc_Generation := spc_Generation spc; spc_Provider := spc_Provider spc;
  spc_Parameters := read_map h (spc_Parameters spc) |}.

(** A request and its answer: the class, the provider's client, the tokens, the
    provider's files, and the two writes. *)
Inductive api_call (Client : Type) :=
| GotClass (namespace name : string) (res : result wire_spc)
| GotClient (provider : string) (res : outcome (result Client))
| GotTokens (namespace serviceAccount : string) (res : outcome (result (option smap)))
| Mounted (client : Client) (attributes secrets : string)
    (res : outcome (result (gmap string string * gmap string slice)))
| PatchSecret (namespace name fieldManager : string) (patch : Secret) (err : option error)
| StatusUpdate (obj : wire_ss) (err : option error).
Arguments GotClass {_} _ _ _. Arguments GotClient {_} _ _. Arguments GotTokens {_} _ _ _.
Arguments Mounted {_} _ _ _ _. Arguments PatchSecret {_} _ _ _ _ _. Arguments StatusUpdate {_} _ _.

Record rstate (P W Client : Type) := {
  rs_heap : heap;
  rs_tokens : Manager;
  rs_providers : P;
  rs_world : W;
  rs_calls : list (api_call Client);
}.
Arguments rs_heap {_ _ _} _. Arguments rs_tokens {_ _ _} _. Arguments rs_providers {_ _ _} _.
Arguments rs_world {_ _ _} _. Arguments rs_calls {_ _ _} _.

Section lift.
Context {P W Client : Type}.
Local Notation RM := (GoM (rstate P W Client)).

(** The state with its heap, tokens, providers replaced and the world moved. *)
Definition set_state (h : heap) (t : Manager) (p : P) (w : W) (s : rstate P W Client) : rstate P W Client :=
  {| rs_heap := h; rs_tokens := t; rs_providers := p; rs_world := w; rs_calls := rs_calls s |}.

Definition on_heap {A} (m : GoM heap A) : RM A := λ s,
  let '(o, h) := m (rs_heap s) in (o, set_state h (rs_tokens s) (rs_providers s) (rs_world s) s).
Definition on_tokens {A} (m : GoM (Manager * W) A) : RM A := λ s,
  let '(o, (t, w)) := m (rs_tokens s, rs_world s) in (o, set_state (rs_heap s) t (rs_providers s) w s).
Definition on_providers {A} (m : GoM (P * W) A) : RM A := λ s,
  let '(o, (p, w)) := m (rs_providers s, rs_world s) in (o, set_state (rs_heap s) (rs_tokens s) p w s).
Definition on_world {A} (m : GoM W A) : RM A := λ s,
  let '(o, w) := m (rs_world s) in (o, set_state (rs_heap s) (rs_tokens s) (rs_providers s) w s).
Definition on_client {A} (f : heap * W → A * (heap * W)) : RM A := λ s,
  let '(a, (h, w)) := f (rs_heap s, rs_world s) in (Val a, set_state h (rs_tokens s) (rs_providers s) w s).
Definition add_call (c : api_call Client) (s : rstate P W Client) : rstate P W Client :=
  {| rs_heap := rs_heap s; rs_tokens := rs_tokens s; rs_providers := rs_providers s; rs_world := rs_world s;
     rs_calls := rs_calls s ++ [c] |}.
Definition record_call (c : api_call Client) : RM unit := modify (add_call c).

(** Records how a request ended, a panic included. *)
Definition observed_as {A} (f : outcome A → api_call Client) (m : RM A) : RM A := λ s,
  let '(o, s') := m s in (o, add_call (f o) s').

Context `{KubeClient W}.

(** [r.Get(ctx, key, spc)]. *)
Definition Get_class (namespace name : string) : RM (result (SecretProviderClass mapref)) :=
  res ← on_client (kc_GetSecretProviderClass namespace name);
  wire ← gets (λ s, match res with Ok spc => Ok (read_spc (rs_heap s) spc) | Err err => Err err end);
  _ ← record_call (GotClass namespace name wire);
  mret res.

(** [r.Client.Status().Update(ctx, ss)]: the object and the error. *)
Definition Status_Update (ss : SecretSync mapref) : RM (SecretSync mapref * option error) :=
  obj ← gets (λ s, read_ss (rs_heap s) ss);
  r ← on_client (kc_StatusUpdate ss);
  _ ← record_call (StatusUpdate obj r.2);
  mret r.

(** [Secrets(namespace).Patch(ctx, name, types.ApplyPatchType, ...)]. *)
Definition Secrets_Patch (namespace name fieldManager : string) (patch : Secret) : RM (option error) :=
  err ← on_world (act (kc_PatchSecret namespace name fieldManager patch));
  _ ← record_call (PatchSecret namespace name fieldManager patch err);
  mret err.
End lift.

#[export] Hint Unfold record_call : go_wp.
