(* ===== verification/Conditions.v ===== *)
(** * internal/controller/conditions.go: the conditions of a SecretSync *)

From stdpp Require Import strings gmap list.
From S2P Require Import Prelude ApiTypes ControllerEnv.

Definition ConditionTypeCreate : string := "SecretCreated".
Definition ConditionTypeUpdate : string := "SecretUpdated".

Definition ConditionReasonFailedProviderError : string := "ProviderError".
Definition ConditionReasonFailedInvalidLabelError : string := "InvalidClusterSecretLabelError".
Definition ConditionReasonFailedInvalidAnnotationError : string := "InvalidClusterSecretAnnotationError".
Definition ConditionReasonControllerSyncError : string := "ControllerSyncError".
Definition ConditionReasonControllerPatchError : string := "ControllerPatchError".
Definition ConditionReasonControllerSpcError : string := "SecretProviderClassMisconfigured".
Definition ConditionReasonRemoteSecretStoreFetchFailed : string := "RemoteSecretStoreFetchFailed".

Definition ConditionReasonSyncStarting : string := "SyncStarting".
Definition ConditionReasonNoUpdateAttemptedYet : string := "NoUpdatesAttemptedYet".

Definition ConditionReasonSecretUpToDate : string := "SecretUpToDate".
Definition ConditionReasonCreateSuccessful : string := "CreateSuccessful".

Definition ConditionMessageCreateSuccessful : string := "Secret created successfully.".
Definition ConditionMessageUpdateSuccessful : string := "Secret contains last observed values.".

Definition FailedConditionsTriggeringRetry : list string :=
  [ConditionReasonControllerSpcError;
   ConditionReasonFailedInvalidAnnotationError;
   ConditionReasonFailedInvalidLabelError;
   ConditionReasonFailedProviderError;
   ConditionReasonFailedInvalidAnnotationError;
   ConditionReasonFailedProviderError;
   ConditionReasonRemoteSecretStoreFetchFailed;
   ConditionReasonControllerPatchError;
   ConditionReasonControllerSyncError].

Definition SuccessfulConditionsTriggeringRetry : list string :=
  [ConditionReasonCreateSuccessful; ConditionReasonSecretUpToDate].

(** Nothing in the program reads it. *)
Definition AllowedStringsToDisplayConditionErrorMessage : list string := ["validatingadmissionpolicy"].

(** [metav1.ConditionTrue] and the like. *)
Definition ConditionTrue : string := "True".
Definition ConditionFalse : string := "False".
Definition ConditionUnknown : string := "Unknown".

Definition with_conditions {M} (cs : list Condition) (ss : SecretSync M) : SecretSync M := {|
  ss_TypeMeta := ss_TypeMeta ss; ss_ObjectMeta := ss_ObjectMeta ss; ss_Spec := ss_Spec ss;
  ss_Status := {| st_SyncHash := st_SyncHash (ss_Status ss);
                  st_LastSuccessfulSyncTime := st_LastSuccessfulSyncTime (ss_Status ss);
                  st_Conditions := Some cs |} |}.

(** A condition without a transition time; 0 stands for the zero time. *)
Definition new_condition (ty status reason message : string) : Condition := {|
  cond_Type := ty; cond_Status := status; cond_Reason := reason; cond_Message := message;
  cond_LastTransitionTime := 0 |}.

Section conditions.
Context {P W Client : Type} `{KubeClient W}.
Local Notation RM := (GoM (rstate P W Client)).

(** [meta.SetStatusCondition(&ss.Status.Conditions, c)], a nil slice having
    been made empty before. *)
Definition SetStatusCondition (ss : SecretSync mapref) (c : Condition) : RM (SecretSync mapref) :=
  cs ← on_world (act (kc_SetStatusCondition (default [] (st_Conditions (ss_Status ss))) c));
  mret (with_conditions cs ss).

(** The method changes the object it is given: the model returns it. *)
Definition updateStatusConditions (ss : SecretSync mapref)
    (conditionType conditionStatus conditionReason conditionMessage : string) (shouldUpdateStatus : bool) :
    RM (SecretSync mapref) :=
  ss ← SetStatusCondition ss (new_condition conditionType conditionStatus conditionReason conditionMessage);
  if negb shouldUpdateStatus then mret ss else
  r ← Status_Update ss;
  mret r.1.

Definition initConditions (ss : SecretSync mapref) : RM (SecretSync mapref * option error) :=
  ss ← SetStatusCondition ss
    (new_condition ConditionTypeCreate ConditionUnknown ConditionReasonSyncStarting EmptyString);
  ss ← SetStatusCondition ss
    (new_condition ConditionTypeUpdate ConditionUnknown ConditionReasonNoUpdateAttemptedYet EmptyString);
  Status_Update ss.
End conditions.
