(* ===== verification/StateHash.v ===== *)
(** * [computeCurrentStateHash]: the hash that says whether to sync

    The hash is PBKDF2 over the length-prefixed JSON of the secret data and the
    identities and generations of the two objects.  PBKDF2 is an interface:
    equal hashes mean equal inputs, or PBKDF2 maps the two passwords and salts of
    these very states, which differ, to one key. *)

From Stdlib Require Import Ascii.
From stdpp Require Import strings gmap list.
From S2P Require Import Prelude GoText GoFmt GoJson GoStrings ApiTypes SecretUtil.

(** [pbkdf2.Key(password, salt, iter, keyLen, sha512.New)]. *)
Class Pbkdf2 := pbkdf2_Key : string → string → N → N → string.
(** The derived key has the length asked for. *)
Class Pbkdf2Laws `{Pbkdf2} := pbkdf2_Key_length p s i n : String.length (pbkdf2_Key p s i n) = N.to_nat n.

(** The [toHash] of the two objects. *)
Definition toHash {M N} (spc : SecretProviderClass M) (ss : SecretSync N) : string :=
  Join [spc_UID spc;
        FormatInt (spc_Generation spc);
        om_UID (ss_ObjectMeta ss);
        FormatInt (om_Generation (ss_ObjectMeta ss));
        sss_ForceSynchronization (ss_Spec ss)] "|".

Definition secretBytesLenPrefixed (secretData : gmap string slice) : string :=
  let secretBytes := json_bytes_map (Some secretData) in
  Itoa (String.length secretBytes) +:+ ":" +:+ secretBytes.

Definition computeCurrentStateHash `{Pbkdf2} {M N} (secretData : gmap string slice)
    (spc : SecretProviderClass M) (ss : SecretSync N) : result string :=
  let salt := om_UID (ss_ObjectMeta ss) in
  let dk := pbkdf2_Key (secretBytesLenPrefixed secretData +:+ toHash spc ss) salt 100000 32 in
  Ok ("v1:" +:+ EncodeToString dk).

(** ** The hashed text determines its parts *)

Definition bar : ascii := "|"%char.
Definition no_bar (s : string) : bool := all_chars (λ a, negb (bool_decide (a = bar))) s.

Lemma is_num_no_bar s : all_chars is_num s = true → no_bar s = true.
Proof.
  apply all_chars_impl. intros a. assert (∀ a, negb (is_num a) || negb (bool_decide (a = bar)) = true) as H.
  { apply all_bytes_forallb. vm_compute. reflexivity. }
  intros Ha. specialize (H a). by rewrite Ha in H.
Qed.

Lemma toHash_inj {M N M' N'} (spc : SecretProviderClass M) (ss : SecretSync N)
    (spc' : SecretProviderClass M') (ss' : SecretSync N') :
  no_bar (spc_UID spc) = true → no_bar (spc_UID spc') = true →
  no_bar (om_UID (ss_ObjectMeta ss)) = true → no_bar (om_UID (ss_ObjectMeta ss')) = true →
  toHash spc ss = toHash spc' ss' →
  spc_UID spc = spc_UID spc' ∧ spc_Generation spc = spc_Generation spc' ∧
  om_UID (ss_ObjectMeta ss) = om_UID (ss_ObjectMeta ss') ∧
  om_Generation (ss_ObjectMeta ss) = om_Generation (ss_ObjectMeta ss') ∧
  sss_ForceSynchronization (ss_Spec ss) = sss_ForceSynchronization (ss_Spec ss').
Proof.
  intros H1 H1' H2 H2'. unfold toHash. cbn [Join].
  assert (∀ z, no_bar (FormatInt z) = true) as HN by (intros; apply is_num_no_bar, FormatInt_num).
  assert (∀ s t r u, no_bar s = true → no_bar t = true → s +:+ "|" +:+ r = t +:+ "|" +:+ u → s = t ∧ r = u) as D.
  { intros s t r u Hs Ht. rewrite !sapp_cons, !sapp_nil_l. by apply (delimited (λ a, negb (bool_decide (a = bar)))). }
  intros [-> [->%FormatInt_inj [-> [->%FormatInt_inj ->]%D]%D]%D]%D; auto.
Qed.

Lemma secretBytesLenPrefixed_code :
  prefix_code (json_ok (λ _ : slice, True)) secretBytesLenPrefixed.
Proof.
  intros d d' r s Hd Hd'. unfold secretBytesLenPrefixed. rewrite !sapp_assoc, <- !(sapp_assoc _ ":").
  intros [_ E]%(Itoa_code ":"); [|done..].
  apply (json_map_code json_bytes (λ _, True) json_bytes_code) in E as [[= ->] ->]; done.
Qed.

(** Two given password and salt pairs differ, and PBKDF2 gives one key for
    both. *)
Definition pbkdf2_collision `{Pbkdf2} (ps ps' : string * string) : Prop :=
  ps ≠ ps' ∧ pbkdf2_Key ps.1 ps.2 100000 32 = pbkdf2_Key ps'.1 ps'.2 100000 32.

(** C16: when two states hash alike, the secret data, the UID and generation of
    the SecretProviderClass, the UID and generation of the SecretSync and the
    force field are all the same, or the two hashed texts with their salts are
    different and PBKDF2 gives one key for the two; no separator in a value, and
    no value in place of another, can make two states look alike. *)
Theorem computeCurrentStateHash_injective `{Pbkdf2} {M N M' N'} d d'
    (spc : SecretProviderClass M) (ss : SecretSync N) (spc' : SecretProviderClass M') (ss' : SecretSync N') :
  json_ok (λ _, True) d → json_ok (λ _, True) d' →
  no_bar (spc_UID spc) = true → no_bar (spc_UID spc') = true →
  no_bar (om_UID (ss_ObjectMeta ss)) = true → no_bar (om_UID (ss_ObjectMeta ss')) = true →
  computeCurrentStateHash d spc ss = computeCurrentStateHash d' spc' ss' →
  (d = d' ∧ spc_UID spc = spc_UID spc' ∧ spc_Generation spc = spc_Generation spc' ∧
   om_UID (ss_ObjectMeta ss) = om_UID (ss_ObjectMeta ss') ∧
   om_Generation (ss_ObjectMeta ss) = om_Generation (ss_ObjectMeta ss') ∧
   sss_ForceSynchronization (ss_Spec ss) = sss_ForceSynchronization (ss_Spec ss')) ∨
  pbkdf2_collision (secretBytesLenPrefixed d +:+ toHash spc ss, om_UID (ss_ObjectMeta ss))
                   (secretBytesLenPrefixed d' +:+ toHash spc' ss', om_UID (ss_ObjectMeta ss')).
Proof.
  intros Hd Hd' H1 H1' H2 H2'. unfold computeCurrentStateHash. intros [= E%EncodeToString_inj].
  set (p := secretBytesLenPrefixed d +:+ toHash spc ss) in *.
  set (p' := secretBytesLenPrefixed d' +:+ toHash spc' ss') in *.
  destruct (decide (p = p')) as [Ep|Hne]; [left|right].
  - apply secretBytesLenPrefixed_code in Ep as [-> Ep]; [|done..].
    split; [done|]. by apply toHash_inj.
  - split; [congruence|done].
Qed.

(** The hash is ["v1:"] followed by 64 hexadecimal digits, so it is never the
    empty hash of a SecretSync that has not been synced. *)
Theorem computeCurrentStateHash_format `{Pbkdf2Laws} {M N} d (spc : SecretProviderClass M) (ss : SecretSync N) :
  ∃ hex, computeCurrentStateHash d spc ss = Ok ("v1:" +:+ hex) ∧ String.length hex = 64 ∧
    "v1:" +:+ hex ≠ EmptyString ∧
    all_chars (λ a, in_range 48 57 (byte_of a) || in_range 97 102 (byte_of a)) hex = true.
Proof.
  eexists. split; [done|]. rewrite EncodeToString_length, pbkdf2_Key_length. split_and!; [done..|].
  generalize (pbkdf2_Key (secretBytesLenPrefixed d +:+ toHash spc ss) (om_UID (ss_ObjectMeta ss)) 100000 32).
  induction s as [|a s IH]; [done|]. cbn [EncodeToString]. rewrite all_chars_app, IH, andb_true_r.
  revert a. apply all_bytes_forallb. vm_compute. reflexivity.
Qed.

(** ** Witnesses *)

(** The first bytes of salt and password, padded: a derivation of the right
    length. *)
Fixpoint pad_key (n : nat) (s : string) : string :=
  match n, s with
  | O, _ => EmptyString
  | S n, EmptyString => String "x" (pad_key n EmptyString)
  | S n, String a s => String a (pad_key n s)
  end.
Definition toy_pbkdf2 : Pbkdf2 := λ p s _ n, pad_key (N.to_nat n) (s +:+ p).
Lemma toy_pbkdf2_laws : Pbkdf2Laws (H:=toy_pbkdf2).
Proof.
  intros p s i n. unfold pbkdf2_Key, toy_pbkdf2. generalize (s +:+ p). generalize (N.to_nat n).
  induction n0 as [|k IH]; intros t; [done|]. destruct t; simpl; by rewrite IH.
Qed.

Definition hash_spc (provider : string) : SecretProviderClass (option smap) :=
  {| spc_UID := "6f1"; spc_Generation := 3; spc_Provider := provider; spc_Parameters := None |}.
Definition hash_ss (name : string) : SecretSync (option smap) := {|
  ss_TypeMeta := {| tm_Kind := "SecretSync"; tm_APIVersion := "v1" |};
  ss_ObjectMeta := {| om_Name := name; om_Namespace := "ns"; om_UID := "8a2"; om_Generation := 1; om_ResourceVersion := "1" |};
  ss_Spec := {| sss_SecretSyncControllerName := EmptyString; sss_SecretProviderClassName := "spc";
    sss_ServiceAccountName := "sa"; sss_ForceSynchronization := "a|b";
    sss_SecretObject := {| so_Type := "Opaque"; so_Data := []; so_Labels := None; so_Annotations := None |} |};
  ss_Status := {| st_SyncHash := EmptyString; st_LastSuccessfulSyncTime := None; st_Conditions := None |} |}.

(** States that differ in what is not hashed: the texts to hash are the same, so
    there is no collision. *)
Lemma computeCurrentStateHash_injective_witness :
  let d : gmap string slice := {[ "tls.key" := Some "k" ]} in
  computeCurrentStateHash (H:=toy_pbkdf2) d (hash_spc "azure") (hash_ss "a") =
  computeCurrentStateHash (H:=toy_pbkdf2) d (hash_spc "vault") (hash_ss "b") ∧
  spc_UID (hash_spc "azure") = spc_UID (hash_spc "vault") ∧
  sss_ForceSynchronization (ss_Spec (hash_ss "a")) = sss_ForceSynchronization (ss_Spec (hash_ss "b")).
Proof.
  intros d. split; [vm_compute; reflexivity|].
  destruct (computeCurrentStateHash_injective (H:=toy_pbkdf2) d d (hash_spc "azure") (hash_ss "a") (hash_spc "vault") (hash_ss "b"))
    as [(_ & HU & _ & _ & _ & HF)|[Hne _]].
  - apply map_Forall_singleton. split; [vm_compute; reflexivity|exact I].
  - apply map_Forall_singleton. split; [vm_compute; reflexivity|exact I].
  - reflexivity.
  - reflexivity.
  - reflexivity.
  - reflexivity.
  - vm_compute. reflexivity.
  - split; [exact HU|exact HF].
  - destruct Hne. vm_compute. reflexivity.
Defined.

Lemma computeCurrentStateHash_format_witness : ∃ hex,
  computeCurrentStateHash (H:=toy_pbkdf2) {[ "k" := None ]} (hash_spc "azure") (hash_ss "a") = Ok ("v1:" +:+ hex) ∧
  String.length hex = 64.
Proof.
  destruct (computeCurrentStateHash_format (H:=toy_pbkdf2) (H0:=toy_pbkdf2_laws) {[ "k" := None ]} (hash_spc "azure") (hash_ss "a"))
    as (hex & E & HL & _).
  exists hex. split; [exact E|exact HL].
Defined.
