(* ===== verification/Reconciler.v ===== *)
(** * internal/controller/secretsync_controller.go: [Reconcile]

    [Reconcile] reads the SecretSync and its SecretProviderClass, asks the
    provider for the secrets ([fetchSecretsFromProvider],
    [prepareCSIProviderParams]), decides by the hash and the conditions whether
    to write, patches the Secret ([serverSidePatchSecret]) and writes the
    status.  An object in memory is a Rocq value whose maps are references into
    the heap; a method that changes the object it is given returns it. *)

From stdpp Require Import strings gmap list.
From S2P Require Import Prelude GoText GoFmt GoJson GoStrings GoTime ApiTypes SecretUtil Token Provider ControllerEnv Conditions StateHash.

Open Scope nat_scope.

Definition csiPodName : string := "csi.storage.k8s.io/pod.name".
Definition csiPodNamespace : string := "csi.storage.k8s.io/pod.namespace".
Definition csiPodUID : string := "csi.storage.k8s.io/pod.uid".
Definition csiPodServiceAccountName : string := "csi.storage.k8s.io/serviceAccount.name".
Definition csiPodServiceAccountTokens : string := "csi.storage.k8s.io/serviceAccount.tokens".
Definition controllerLabelKey : string := "secrets-store.sync.x-k8s.io".
Definition controllerAnnotationKey : string := "secrets-store.sync.x-k8s.io".
Definition secretSyncControllerFieldManager : string := "secrets-store-sync-controller".
Definition syncControllerPodName : string := "SYNC_CONTROLLER_POD_NAME".
Definition syncControllerPodUID : string := "SYNC_CONTROLLER_POD_UID".

(** The results (value, "", nil) and (zero, reason, err) of the stages. *)
Inductive stage (A : Type) :=
| Passed (a : A)
| Failed (reason : string) (err : error).
Arguments Passed {_} _. Arguments Failed {_} _ _.

(** The fields of [SecretSyncReconciler] that are data, and what the process
    provides: the environment variables, the printable characters, the JSON
    form of a time. *)
Record SecretSyncReconciler := {
  r_Audiences : list string;
  r_Getenv : string → string;
  r_IsPrint : N → bool;
  r_Time_MarshalJSON : Z → string;
}.

(** Reading a key of a map; a nil map has none. *)
Definition map_get (m : option smap) (k : string) : option string := m ≫= (.!! k).

Definition with_sync {M} (hash : string) (time : option Z) (ss : SecretSync M) : SecretSync M := {|
  ss_TypeMeta := ss_TypeMeta ss; ss_ObjectMeta := ss_ObjectMeta ss; ss_Spec := ss_Spec ss;
  ss_Status := {| st_SyncHash := hash; st_LastSuccessfulSyncTime := time;
                  st_Conditions := st_Conditions (ss_Status ss) |} |}.

(** A SecretSync without a hash has no Secret yet. *)
Definition conditionTypeOf {M} (ss : SecretSync M) : string :=
  if bool_decide (String.length (st_SyncHash (ss_Status ss)) = 0) then ConditionTypeCreate else ConditionTypeUpdate.

(** The search for a condition that asks for a retry. *)
Definition failedCondition {M} (ss : SecretSync M) : option Condition :=
  head (filter (λ c, cond_Reason c ∈ FailedConditionsTriggeringRetry) (default [] (st_Conditions (ss_Status ss)))).

Section reconciler.
Context {P W Client : Type}.
Context `{Clock W, TokenGetter W, KubeClient W, AllClientBuilder P W Client, CSIDriverProvider W Client}.
Context `{Pem, Pkcs12, X509, Pbkdf2}.
Context (r : SecretSyncReconciler).
Local Notation RM := (GoM (rstate P W Client)).

(** ** Validation *)

Definition validateLabelsAnnotations (secretObj : SecretObject mapref) : RM (option (string * error)) :=
  labels ← gets (λ s, read_map (rs_heap s) (so_Labels secretObj));
  annotations ← gets (λ s, read_map (rs_heap s) (so_Annotations secretObj));
  mret (
    if match map_get labels controllerLabelKey with Some val => 0 <? String.length val | None => false end then
      Some (ConditionReasonFailedInvalidLabelError,
            errors_New ("label " +:+ controllerLabelKey +:+ " is reserved for use by the Secrets Store Sync Controller"))
    else match map_get annotations controllerAnnotationKey with
    | Some _ =>
      Some (ConditionReasonFailedInvalidAnnotationError,
            errors_New ("annotation " +:+ controllerAnnotationKey +:+ " is reserved for use by the Secrets Store Sync Controller"))
    | None => None
    end).

(** ** The provider's parameters *)

Definition prepareCSIProviderParams (spc : SecretProviderClass mapref) (namespace saName : string) : RM (stage string) :=
  serviceAccountTokenAttrs ← observed_as (GotTokens namespace saName) (on_tokens
    (SecretProviderServiceAccountTokenAttrs (r_IsPrint r) (r_Time_MarshalJSON r) namespace saName (r_Audiences r)));
  match serviceAccountTokenAttrs with
  | Err err => mret (Failed ConditionReasonControllerSyncError err)
  | Ok serviceAccountTokenAttrs =>
    parameters ← on_heap (maps_Clone (spc_Parameters spc));
    _ ← on_heap (map_assign parameters csiPodName (r_Getenv r syncControllerPodName));
    _ ← on_heap (map_assign parameters csiPodUID (r_Getenv r syncControllerPodUID));
    _ ← on_heap (map_assign parameters csiPodNamespace namespace);
    _ ← on_heap (map_assign parameters csiPodServiceAccountName saName);
    _ ← on_heap (maps_Copy parameters serviceAccountTokenAttrs);
    paramsJSON ← gets (λ s, json_string_map (read_map (rs_heap s) parameters));
    mret (Passed paramsJSON)
  end.

(** ** Fetching *)

(** [None] of [BuildKubeSecretData] is its fuel running out, which never
    happens ([BuildKubeSecretData] returns on every input). *)
Definition fetchSecretsFromProvider (spc : SecretProviderClass mapref) (ss : SecretSync mapref) :
    RM (stage (gmap string slice)) :=
  let providerName := spc_Provider spc in
  providerClient ← observed_as (GotClient providerName) (on_providers (acb_Get providerName));
  match providerClient with
  | Err err => mret (Failed ConditionReasonControllerSpcError err)
  | Ok providerClient =>
    paramsJSON ← prepareCSIProviderParams spc (om_Namespace (ss_ObjectMeta ss)) (sss_ServiceAccountName (ss_Spec ss));
    match paramsJSON with
    | Failed reason err => mret (Failed reason err)
    | Passed paramsJSON =>
      let secretsJSON := json_string_map (Some ∅) in
      res ← observed_as (Mounted providerClient paramsJSON secretsJSON)
               (on_world (MountContent providerClient paramsJSON secretsJSON ∅));
      match res with
      | Err err => mret (Failed ConditionReasonFailedProviderError err)
      | Ok (_, files) =>
        let secretObj := sss_SecretObject (ss_Spec ss) in
        match BuildKubeSecretData (so_Data secretObj) (so_Type secretObj) files with
        | None => panic "no result"
        | Some (_, Some err) => mret (Failed ConditionReasonRemoteSecretStoreFetchFailed err)
        | Some (datamap, None) => mret (Passed datamap)
        end
      end
    end
  end.

(** ** Patching the Secret *)

Definition serverSidePatchSecret (ss : SecretSync mapref) (datamap : gmap string slice) : RM (option error) :=
  ssCopy ← on_heap (SecretSync_DeepCopyInto ss);
  let secretObj := sss_SecretObject (ss_Spec ssCopy) in
  controllerLabels ← match so_Labels secretObj with
                     | None => on_heap (l ← alloc ∅; mret (Some l))
                     | Some l => mret (Some l)
                     end;
  _ ← on_heap (map_assign controllerLabels controllerLabelKey EmptyString);
  labels ← gets (λ s, read_map (rs_heap s) controllerLabels);
  annotations ← gets (λ s, read_map (rs_heap s) (so_Annotations secretObj));
  let meta := ss_ObjectMeta ssCopy in
  let secretPatchData := {|
    sec_TypeMeta := {| tm_Kind := "Secret"; tm_APIVersion := "v1" |};
    sec_Name := om_Name meta;
    sec_Namespace := om_Namespace meta;
    sec_Labels := labels;
    sec_Annotations := annotations;
    sec_OwnerReferences :=
      [{| or_APIVersion := tm_APIVersion (ss_TypeMeta ssCopy); or_Kind := tm_Kind (ss_TypeMeta ssCopy);
          or_Name := om_Name meta; or_UID := om_UID meta |}];
    sec_Data := datamap;
    sec_Type := so_Type secretObj |} in
  Secrets_Patch (sec_Namespace secretPatchData) (sec_Name secretPatchData) secretSyncControllerFieldManager secretPatchData.

(** ** [Reconcile] *)

(** From the decision to sync: the conditions of success, the patch, the
    status; a failed patch restores the hash and the time. *)
Definition sync_secret (ss : SecretSync mapref) (conditionType syncHash : string) (hashChanged : bool)
    (datamap : gmap string slice) : RM (option error) :=
  ss ← (if bool_decide (conditionType = ConditionTypeCreate) then
          ss ← updateStatusConditions ss conditionType ConditionTrue ConditionReasonCreateSuccessful
                 ConditionMessageCreateSuccessful false;
          updateStatusConditions ss ConditionTypeUpdate ConditionTrue ConditionReasonSecretUpToDate
                 ConditionMessageUpdateSuccessful false
        else if hashChanged then
          updateStatusConditions ss conditionType ConditionTrue ConditionReasonSecretUpToDate
                 ConditionMessageUpdateSuccessful false
        else mret ss);
  let prevSecretHash := st_SyncHash (ss_Status ss) in
  let prevTime := st_LastSuccessfulSyncTime (ss_Status ss) in
  now ← on_world (act Now);
  let ss := with_sync syncHash (Some now) ss in
  err ← serverSidePatchSecret ss datamap;
  match err with
  | Some err =>
    let ss := with_sync prevSecretHash prevTime ss in
    _ ← updateStatusConditions ss conditionType ConditionFalse ConditionReasonControllerPatchError
          ("failed to patch secret " +:+ Quote (r_IsPrint r) (om_Name (ss_ObjectMeta ss)) +:+ ": " +:+ Error err) true;
    mret (Some err)
  | None => res ← Status_Update ss; mret res.2
  end.

(** From validation to the decision, on an object with its conditions. *)
Definition reconcile_object (req_ns : string) (ss : SecretSync mapref) (conditionType : string) : RM (option error) :=
  invalid ← validateLabelsAnnotations (sss_SecretObject (ss_Spec ss));
  match invalid with
  | Some (reason, err) =>
    _ ← updateStatusConditions ss conditionType ConditionFalse reason (Error err) true;
    mret (Some err)
  | None =>
  let spcName := sss_SecretProviderClassName (ss_Spec ss) in
  spc ← Get_class req_ns spcName;
  match spc with
  | Err err =>
    _ ← updateStatusConditions ss conditionType ConditionFalse ConditionReasonControllerSpcError
          ("failed to get SecretProviderClass " +:+ Quote (r_IsPrint r) spcName +:+ ": " +:+ Error err) true;
    mret (Some err)
  | Ok spc =>
  datamap ← fetchSecretsFromProvider spc ss;
  match datamap with
  | Failed reason err =>
    _ ← updateStatusConditions ss conditionType ConditionFalse reason
          ("fetching secrets from the provider failed: " +:+ Error err) true;
    mret (Some err)
  | Passed datamap =>
  match computeCurrentStateHash datamap spc ss with
  | Err err =>
    _ ← updateStatusConditions ss conditionType ConditionFalse ConditionReasonControllerSyncError
          "failed to compute state hash" true;
    mret (Some err)
  | Ok syncHash =>
  let hashChanged := negb (bool_decide (syncHash = st_SyncHash (ss_Status ss))) in
  match failedCondition ss, hashChanged with
  | None, false => mret None
  | _, _ => sync_secret ss conditionType syncHash hashChanged datamap
  end end end end end.

(** [Reconcile]; the [ctrl.Result] is empty on every path. *)
Definition Reconcile (req_ns req_name : string) : RM (option error) :=
  ss ← on_client (kc_GetSecretSync req_ns req_name);
  match ss with
  | Err err => mret (Some err)
  | Ok ss =>
    let conditionType := conditionTypeOf ss in
    if length (default [] (st_Conditions (ss_Status ss))) <? 2 then
      res ← initConditions ss;
      match res.2 with
      | Some err => mret (Some err)
      | None => reconcile_object req_ns res.1 conditionType
      end
    else reconcile_object req_ns ss conditionType
  end.
End reconciler.
