(* ===== verification/TokenFixture.v ===== *)
(** * A concrete API server for the token properties

    Time is a number the caller moves; the server answers every account of
    every namespace but ["locked"] with a token that names what it was issued
    for, and one of the names ["gone"] as not found; it bounds the expiration as the real one
    does. *)

From stdpp Require Import strings pretty gmap list.
From S2P Require Import Prelude GoTime Token.

Open Scope Z_scope.

Definition token_text (ns n : string) (auds : option (list string)) : string :=
  "token of " +:+ ns +:+ "/" +:+ n +:+ " for " +:+
  match auds with Some (a :: _) => a | _ => EmptyString end.

Definition not_found : error := errors_New "not found".
Definition forbidden : error := errors_New "forbidden".

Definition bad_expiration : error := errors_New "may not specify this duration".

(** Expiration seconds default to an hour and are bounded. *)
Definition fixture_CreateToken (ns n : string) (tr : TokenRequest) (now : Z) : result TokenRequest * Z :=
  let exp := default 3600 (trs_ExpirationSeconds (tr_Spec tr)) in
  if bool_decide (ns = "locked") then (Err forbidden, now) else
  if bool_decide (n = "gone") then (Err not_found, now) else
  if negb ((600 <=? exp) && (exp <=? 2 ^ 32)) then (Err bad_expiration, now) else
  (Ok {| tr_Spec := {| trs_Audiences := trs_Audiences (tr_Spec tr);
                       trs_ExpirationSeconds := Some exp;
                       trs_BoundObjectRef := trs_BoundObjectRef (tr_Spec tr) |};
         tr_Status := {| trst_Token := token_text ns n (trs_Audiences (tr_Spec tr));
                         trst_ExpirationTimestamp := now + exp * Second |} |}, now).

#[export] Instance fixture_env : TokenEnv Z := {
  te_CreateToken := fixture_CreateToken;
  te_ServerResources := λ _ now, (Ok ["pods"; "serviceaccounts/token"], now);
  te_IsNotFound := λ e, bool_decide (e = not_found);
  te_clock := λ now, (now, now);
  te_jitter := λ now, (3, now);
}.

#[export] Instance fixture_clock_laws : ClockLaws Z.
Proof. refine {| instant := λ w, w |}. by intros w. Defined.

#[export] Instance fixture_laws : TokenEnvLaws Z.
Proof.
  refine {| te_clock_laws := fixture_clock_laws |}.
  - simpl. lia.
  - done.
  - intros ns n tr w. simpl. unfold fixture_CreateToken. repeat case_bool_decide; try done. by case_match.
  - done.
Defined.

(** A server where every byte but the ASCII control codes prints. *)
Definition ascii_print (c : N) : bool := (32 <=? c)%N.

(** The manager of a controller that has fetched one token at time 1000 s. *)
Definition fixture_start : Manager * Z := (NewManager true, 1000 * Second).
