(* ===== verification/TokenSpec.v ===== *)
(** * Properties of pkg/token

    The cache key determines the request; the refresh rule as arithmetic on
    time; a token handed out belongs to the request and is not an expired
    cache entry; what [cleanup] removes; what the cache promises its clients
    ([TokenGetterLaws]), and from it one token per audience. *)

From stdpp Require Import strings pretty gmap list.
From S2P Require Import Prelude GoText GoFmt GoJson GoTime Token TokenFixture.

Open Scope Z_scope.

(** What a key stands for. *)
Definition key_parts (name namespace : string) (s : TokenRequestSpec) :
    string * string * option (list string) * Z * BoundObjectReference :=
  (name, namespace, trs_Audiences s, key_exp s, key_ref s).

Section key.
Context (IsPrint_table : N → bool).
Local Notation Quote := (Quote IsPrint_table).

Lemma Quote_start s d : d ≠ dquote → starts_with d (Quote s) = false.
Proof. intros Hd. simpl. by apply bool_decide_eq_false. Qed.

Lemma go_strings_code : prefix_code (λ _, True) (go_strings IsPrint_table).
Proof.
  assert (prefix_code (Forall (λ _ : string, True)) (λ l, Join (map Quote l) ", " +:+ "}")) as HJ.
  { apply (prefix_code_join (λ _, True) Quote); [apply Quote_code|by intros; apply Quote_start|done]. }
  assert (∀ l : list string, Forall (λ _, True) l) as HT by (intros l; by apply Forall_true).
  intros [a|] [b|] r s _ _; cbn [go_strings]; rewrite ?sapp_assoc.
  - intros E%(inj _). rewrite <- !(sapp_assoc _ "}") in E.
    by apply HJ in E as [-> ->].
  - intros [=].
  - intros [=].
  - by intros E%(inj _).
Qed.

Lemma go_ref_code : prefix_code (λ _, True) (go_ref IsPrint_table).
Proof.
  intros [a1 a2 a3 a4] [b1 b2 b3 b4] r s _ _. unfold go_ref. rewrite !sapp_assoc. cbn [ref_Kind ref_APIVersion ref_Name ref_UID].
  do 4 (intros [-> E]%(inj _)%Quote_code; [revert E|done..]).
  by intros ->%(inj _).
Qed.

Lemma keyFunc_parts name namespace tr name' namespace' tr' :
  keyFunc IsPrint_table name namespace tr = keyFunc IsPrint_table name' namespace' tr' ↔
  key_parts name namespace (tr_Spec tr) = key_parts name' namespace' (tr_Spec tr').
Proof.
  unfold key_parts. split.
  - unfold keyFunc.
    intros [-> [-> [-> E]%(inj _)%go_strings_code]%(inj _)%Quote_code]%Quote_code; [|done..].
    apply (inj _) in E. rewrite <- !(sapp_assoc _ "/") in E.
    apply FormatInt_code in E as [-> E]; [|done..].
    apply (prefix_code_inj _ _ _ _ go_ref_code) in E as ->; done.
  - intros [= -> -> Ea Ee Er]. unfold keyFunc. by rewrite Ea, Ee, Er.
Qed.
End key.

(** ** The refresh rule *)

(** The largest number of seconds whose nanoseconds fit in [int64]. *)
Definition maxSeconds : Z := 9223372036.

Lemma requiresRefresh_at_eq now j E exp :
  0 ≤ j < 10 → 0 ≤ E ≤ maxSeconds →
  requiresRefresh_at now j E exp =
    (exp - E * Second + (maxTTL - j * Second) <? now) ||
    (exp - ((E * 20) `div` 100) * Second - j * Second <? now).
Proof.
  unfold maxSeconds. intros Hj HE. unfold requiresRefresh_at, time_After, time_Add.
  assert (0 ≤ (E * 20) `div` 100 ≤ E) as HD.
  { split; [apply Z.div_pos; lia|apply Z.div_le_upper_bound; lia]. }
  assert (div64 (mul64 E 20) 100 = (E * 20) `div` 100) as ->.
  { unfold div64, mul64. rewrite (int64_id (E * 20)) by (unfold in_int64; lia).
    rewrite Z.quot_div_nonneg by lia. apply int64_id. unfold in_int64; lia. }
  set (D := (E * 20) `div` 100) in *.
  unfold mul64, sub64, maxTTL, Hour, Minute, Second.
  rewrite (int64_id (-1 * E)), (int64_id (-1 * D)), (int64_id (j * _)) by (unfold in_int64; lia).
  rewrite (int64_id (_ * E * _)), (int64_id (_ * D * _)) by (unfold in_int64; lia).
  rewrite !int64_id by (unfold in_int64; lia).
  repeat case Z.ltb_spec; intros; try done; exfalso; lia.
Qed.

(** ** What one request does to the cache *)

Section spec.
Context (IsPrint_table : N → bool).
Context {W : Type} `{TokenEnv W, !TokenEnvLaws W}.
Local Notation keyFunc := (keyFunc IsPrint_table).
Local Notation cache := (gmap string TokenRequest).

Definition exp_of (t : TokenRequest) : Z := trst_ExpirationTimestamp (tr_Status t).

(** The refresh test of a cached token answers [b] at an instant between [lo]
    and [hi], for a jitter in range. *)
Definition refresh_test (lo hi : Z) (b : bool) (t : TokenRequest) : Prop :=
  match trs_ExpirationSeconds (tr_Spec t) with
  | None => b = false
  | Some E => ∃ now j, lo ≤ now ≤ hi ∧ 0 ≤ j < 10 ∧ requiresRefresh_at now j E (exp_of t) = b
  end.
Definition expired_test (lo hi : Z) (b : bool) (t : TokenRequest) : Prop :=
  ∃ now, lo ≤ now ≤ hi ∧ expired_at now t = b.

(** The API server's answer to the request, [None] when it is not asked. *)
Definition answered (client : bool) (lo hi : Z) (ns n : string) (tr : TokenRequest) (r : result TokenRequest) : Prop :=
  client = true ∧ ∃ w, lo ≤ instant w ≤ hi ∧ (te_CreateToken ns n tr w).1 = r.
Definition refused (client : bool) (lo hi : Z) (ns n : string) (tr : TokenRequest) (err : error) : Prop :=
  client = false ∧ err = errors_New "cannot use TokenManager when kubelet is in standalone mode" ∨
  ∃ e, answered client lo hi ns n tr (Err e) ∧
       (err = e ∨
        te_IsNotFound (W:=W) e = true ∧
        err = errors_New "the API server does not have TokenRequest endpoints enabled").

(** The abstract behaviour: a cached token, a fetched one, an old one that is
    still valid, or the error. *)
Inductive token_step (client : bool) (lo hi : Z) (ns n : string) (tr : TokenRequest) (c : cache) :
    result TokenRequest → cache → Prop :=
| step_cached t :
    c !! keyFunc n ns tr = Some t → refresh_test lo hi false t →
    token_step client lo hi ns n tr c (Ok t) c
| step_fetched t :
    (∀ old, c !! keyFunc n ns tr = Some old → refresh_test lo hi true old) →
    answered client lo hi ns n tr (Ok t) →
    token_step client lo hi ns n tr c (Ok t) (<[ keyFunc n ns tr := t ]> c)
| step_stale t err :
    c !! keyFunc n ns tr = Some t → refresh_test lo hi true t →
    refused client lo hi ns n tr err → expired_test lo hi false t →
    token_step client lo hi ns n tr c (Ok t) c
| step_expired t err :
    c !! keyFunc n ns tr = Some t → refresh_test lo hi true t →
    refused client lo hi ns n tr err → expired_test lo hi true t →
    token_step client lo hi ns n tr c
      (Err (errorf_w ("token " +:+ keyFunc n ns tr +:+ " expired and refresh failed: " +:+ Error err) err)) c
| step_unavailable err :
    c !! keyFunc n ns tr = None → refused client lo hi ns n tr err →
    token_step client lo hi ns n tr c (Err (errorf_w ("failed to fetch token: " +:+ Error err) err)) c.

Lemma wp_outside {A} (f : W → A * W) Q (s : Manager * W) :
  Q (Val (f s.2).1) (s.1, (f s.2).2) → wp (outside f) Q s.
Proof. unfold wp, outside. by destruct (f s.2). Qed.

(** A call keeps the parts of the manager it has no business with, and time
    moves forward. *)
Definition moved (s s' : Manager * W) : Prop :=
  m_client s'.1 = m_client s.1 ∧ instant s.2 ≤ instant s'.2.

Lemma wp_tokenRequestsSupported Q (s : Manager * W) :
  (∀ b s', moved s s' → m_cache s'.1 = m_cache s.1 → Q (Val b) s') → wp tokenRequestsSupported Q s.
Proof.
  intros HQ. unfold tokenRequestsSupported. wp_steps.
  destruct (m_once s.1). { wp_steps. by apply HQ. }
  apply wp_bind, wp_outside. pose proof (te_ServerResources_instant "v1" s.2) as Hi.
  destruct (te_ServerResources "v1" s.2) as [[rs|e] w']; apply HQ; by try split.
Qed.

Lemma wp_getToken ns n tr Q (s : Manager * W) :
  (∀ r s', moved s s' → m_cache s'.1 = m_cache s.1 →
    match r with
    | Ok t => answered (m_client s.1) (instant s.2) (instant s'.2) ns n tr (Ok t)
    | Err err => refused (m_client s.1) (instant s.2) (instant s'.2) ns n tr err
    end → Q (Val r) s') →
  wp (getToken n ns tr) Q s.
Proof.
  intros HQ. unfold getToken. wp_steps.
  destruct (m_client s.1) eqn:Hc; simpl.
  2: { apply wp_ret, HQ; [by split|done|]. by left. }
  apply wp_bind, wp_outside. pose proof (te_CreateToken_instant ns n tr s.2) as Hi.
  assert (∀ hi, instant (te_CreateToken ns n tr s.2).2 ≤ hi →
    answered true (instant s.2) hi ns n tr (te_CreateToken ns n tr s.2).1) as HA.
  { intros hi Hhi. split; [done|]. exists s.2. lia || (split; [lia|done]). }
  destruct (te_CreateToken ns n tr s.2) as [[t|e] w']; simpl in *.
  - apply wp_ret, HQ; [by split|done|]. by apply HA.
  - destruct (te_IsNotFound e) eqn:He.
    + apply wp_bind, wp_tokenRequestsSupported. intros b s' [Hc' Hi'] Hs'. simpl in *.
      destruct b; apply wp_ret, HQ; (split; simpl; congruence || lia) || done || idtac;
        right; exists e; (split; [apply HA; lia|auto]).
    + apply wp_ret, HQ; [by split|done|]. right. exists e. split; [by apply HA|auto].
Qed.

Lemma wp_requiresRefresh t Q (s : Manager * W) :
  (∀ b s', moved s s' → s'.1 = s.1 → refresh_test (instant s.2) (instant s'.2) b t → Q (Val b) s') →
  wp (requiresRefresh t) Q s.
Proof.
  unfold requiresRefresh, refresh_test. intros HQ.
  destruct (trs_ExpirationSeconds (tr_Spec t)) as [E|].
  - wp_steps. apply wp_outside. wp_steps. apply wp_outside. wp_steps. simpl.
    pose proof (Now_between s.2) as [??].
    pose proof (te_jitter_instant (Now s.2).2) as ?. pose proof (te_jitter_range (Now s.2).2) as ?.
    apply HQ; [split; [done|simpl; lia]|done|]. do 2 eexists. split_and!; [..|done]; simpl; lia.
  - wp_steps. by apply HQ.
Qed.

Lemma wp_expired t Q (s : Manager * W) :
  (∀ b s', moved s s' → s'.1 = s.1 → expired_test (instant s.2) (instant s'.2) b t → Q (Val b) s') →
  wp (expired t) Q s.
Proof.
  unfold expired. intros HQ. wp_steps. apply wp_outside. wp_steps.
  pose proof (Now_between s.2) as [??]. apply HQ; [split; [done|simpl; lia]|done|].
  eexists. split; [|done]. simpl. lia.
Qed.

Lemma refresh_test_mono lo lo' hi hi' b t :
  refresh_test lo hi b t → lo' ≤ lo → hi ≤ hi' → refresh_test lo' hi' b t.
Proof.
  unfold refresh_test. destruct (trs_ExpirationSeconds _); [|done].
  intros (now & j & ? & ? & ?) ??. exists now, j. split_and!; done || lia.
Qed.
Lemma expired_test_mono lo lo' hi hi' b t :
  expired_test lo hi b t → lo' ≤ lo → hi ≤ hi' → expired_test lo' hi' b t.
Proof. intros (now & ? & ?) ??. exists now. split; done || lia. Qed.
Lemma answered_mono client lo lo' hi hi' ns n tr r :
  answered client lo hi ns n tr r → lo' ≤ lo → hi ≤ hi' → answered client lo' hi' ns n tr r.
Proof. intros (? & w & ? & ?) ??. split; [done|]. exists w. split; done || lia. Qed.
Lemma refused_mono client lo lo' hi hi' ns n tr err :
  refused client lo hi ns n tr err → lo' ≤ lo → hi ≤ hi' → refused client lo' hi' ns n tr err.
Proof. intros [?|(e & ? & ?)] ??; [by left|right]. eauto using answered_mono. Qed.
Ltac token_mono :=
  first [eapply refresh_test_mono|eapply expired_test_mono|eapply answered_mono|eapply refused_mono];
  [eassumption|lia..].

(** The cache after a step, in a manager that is otherwise unchanged. *)
Definition stepped (ns n : string) (tr : TokenRequest) (s : Manager * W)
    (o : outcome (result TokenRequest)) (s' : Manager * W) : Prop :=
  ∃ r, o = Val r ∧ moved s s' ∧
    token_step (m_client s.1) (instant s.2) (instant s'.2) ns n tr (m_cache s.1) r (m_cache s'.1).

(** Fetching, when the cache has nothing to serve directly. *)
Lemma wp_fetch ns n tr ctr Q (s0 s : Manager * W) :
  m_cache s0.1 !! keyFunc n ns tr = ctr → moved s0 s → s.1 = s0.1 →
  (∀ old, ctr = Some old → refresh_test (instant s0.2) (instant s.2) true old) →
  (∀ o s', stepped ns n tr s0 o s' → Q o s') →
  wp (r ← getToken n ns tr;
      match r with
      | Err err =>
        match ctr with
        | None => mret (Err (errorf_w ("failed to fetch token: " +:+ Error err) err))
        | Some ctr =>
          e ← expired ctr;
          if (e : bool) then
            mret (Err (errorf_w ("token " +:+ keyFunc n ns tr +:+ " expired and refresh failed: " +:+ Error err) err))
          else mret (Ok ctr)
        end
      | Ok tr' => _ ← set (keyFunc n ns tr) tr'; mret (Ok tr')
      end) Q s.
Proof.
  intros Hk [Hc Hi] Hs Hold HQ. wp_steps. apply wp_getToken. intros r s' [Hc' Hi'] Hs' Hr.
  destruct r as [t|err]; rewrite Hc in Hr.
  - wp_steps. apply HQ. exists (Ok t). split; [done|].
    split; [split; simpl; [congruence|lia]|]. simpl. rewrite Hs', Hs.
    apply step_fetched; [|token_mono]. intros old Hk'. rewrite Hk in Hk'. specialize (Hold _ Hk'). token_mono.
  - destruct ctr as [old|]; wp_steps.
    + apply wp_expired. intros b s'' [Hc'' Hi''] Hs'' He.
      specialize (Hold _ eq_refl).
      destruct b; wp_steps; apply HQ; eexists; (split; [done|]);
        (split; [split; [congruence|lia]|]); rewrite Hs'', Hs', Hs;
        econstructor; first [done|token_mono].
    + apply HQ; eexists; (split; [done|]);
        (split; [split; [congruence|lia]|]). rewrite Hs', Hs. constructor; [done|token_mono].
Qed.

(** Every call ends in a step of the abstract behaviour, and never panics. *)
Lemma wp_GetServiceAccountToken ns n tr Q (s : Manager * W) :
  (∀ o s', stepped ns n tr s o s' → Q o s') → wp (GetServiceAccountToken IsPrint_table ns n tr) Q s.
Proof.
  intros HQ. unfold GetServiceAccountToken. wp_steps.
  destruct (m_cache s.1 !! keyFunc n ns tr) as [old|] eqn:Hk; wp_step.
  - apply wp_requiresRefresh. intros b s' [Hc Hi] Hs Hb. wp_step. destruct b; simpl.
    + apply (wp_fetch _ _ _ (Some old)) with (s0 := s); [done|by split|done| |done]. by intros ? [= <-].
    + wp_steps. apply HQ. eexists. split; [done|]. split; [by split|]. rewrite Hs. by apply step_cached.
  - apply (wp_fetch _ _ _ None) with (s0 := s); [done|by split|done|done|done].
Qed.

(** *** [cleanup] *)

(** What cleaning up one entry may do to its slot. *)
Definition cleaned (lo hi : Z) (t : TokenRequest) (before after : option TokenRequest) : Prop :=
  after = None ∧ expired_test lo hi true t ∨ after = before ∧ expired_test lo hi false t.

Lemma cleaned_mono lo lo' hi hi' t b a : cleaned lo hi t b a → lo' ≤ lo → hi ≤ hi' → cleaned lo' hi' t b a.
Proof. intros [[??]|[??]] ??; [left|right]; split; done || token_mono. Qed.

Lemma wp_cleanup_entries l Q (s : Manager * W) :
  NoDup l.*1 →
  (∀ s', moved s s' →
    (∀ k, k ∉ l.*1 → m_cache s'.1 !! k = m_cache s.1 !! k) →
    (∀ k t, (k, t) ∈ l → cleaned (instant s.2) (instant s'.2) t (m_cache s.1 !! k) (m_cache s'.1 !! k)) →
    Q (Val tt) s') →
  wp (cleanup_entries l) Q s.
Proof.
  revert Q s. induction l as [|[k t] l IH]; intros Q s Hnd HQ; cbn [cleanup_entries].
  { wp_steps. apply HQ; [by split|done|]. by intros ?? ?%not_elem_of_nil. }
  apply NoDup_cons in Hnd as [Hk Hnd]. wp_step. apply wp_expired. intros b s1 [Hc1 Hi1] Hs1 Hb.
  assert (∀ s2, s2.2 = s1.2 → m_client s2.1 = m_client s1.1 →
    (∀ k', k' ≠ k → m_cache s2.1 !! k' = m_cache s.1 !! k') →
    m_cache s2.1 !! k = (if b then None else m_cache s.1 !! k) →
    wp (cleanup_entries l) Q s2) as Hrest.
  { intros s2 Hw Hc2 Hother Hself. apply IH; [done|]. intros s' [Hc Hi] Hout Hin. rewrite Hw in *.
    apply HQ; [split; [congruence|lia]| |].
    - intros k'. rewrite fmap_cons, not_elem_of_cons. intros [??]. rewrite Hout by done. by apply Hother.
    - intros k' t'. rewrite elem_of_cons. intros [[= -> ->]|Hin'].
      + rewrite (Hout k), Hself by done. destruct b; [left|right]; (split; [done|]); token_mono.
      + rewrite <- (Hother k'). { eapply cleaned_mono; [by apply Hin|lia..]. }
        intros ->. apply Hk. by apply (list_elem_of_fmap_2 fst) in Hin'. }
  wp_step. destruct b; wp_steps; apply Hrest; simpl; rewrite ?Hs1; try done.
  - intros k' ?. by rewrite lookup_delete_ne.
  - by rewrite lookup_delete_eq.
Qed.

Definition swept (lo hi : Z) (c c' : cache) : Prop := ∀ k,
  match c !! k with
  | None => c' !! k = None
  | Some t => cleaned lo hi t (Some t) (c' !! k)
  end.

Lemma wp_cleanup Q (s : Manager * W) :
  (∀ s', moved s s' → swept (instant s.2) (instant s'.2) (m_cache s.1) (m_cache s'.1) → Q (Val tt) s') →
  wp cleanup Q s.
Proof.
  intros HQ. unfold cleanup. wp_steps. apply wp_cleanup_entries; [apply NoDup_fst_map_to_list|].
  intros s' Hm Hout Hin. apply HQ; [done|]. intros k. destruct (m_cache s.1 !! k) as [t|] eqn:Hk.
  - rewrite <- Hk at 1. apply Hin. by apply elem_of_map_to_list.
  - rewrite <- Hk. apply Hout. intros Hel%list_elem_of_fmap. destruct Hel as ([k' t] & -> & Hel%elem_of_map_to_list).
    simpl in *. congruence.
Qed.
End spec.

(** ** Reachable managers *)

Section reach.
Context (IsPrint_table : N → bool).
Context {W : Type} `{TokenEnv W, !TokenEnvLaws W}.

(** What a process does with its manager: create it, ask for tokens, clean up,
    while time passes. *)
Inductive reachable : Manager * W → Prop :=
| reach_new client w : reachable (NewManager client, w)
| reach_get ns n tr s : reachable s → reachable (GetServiceAccountToken IsPrint_table ns n tr s).2
| reach_cleanup s : reachable s → reachable (cleanup s).2
| reach_wait m w w' : reachable (m, w) → instant w ≤ instant w' → reachable (m, w').

(** What the API server promises of a token, in terms of what the key names. *)
Context (G : string * string * option (list string) * Z * BoundObjectReference → TokenRequest → Prop).

Definition issues : Prop := ∀ ns n tr w t,
  (te_CreateToken ns n tr w).1 = Ok t → G (key_parts n ns (tr_Spec tr)) t.

(** Every cached token serves every request that has its key. *)
Definition cache_ok (c : gmap string TokenRequest) : Prop :=
  ∀ ns n tr t, c !! keyFunc IsPrint_table n ns tr = Some t → G (key_parts n ns (tr_Spec tr)) t.

Lemma token_step_ok client lo hi ns n tr c r c' :
  issues → cache_ok c → token_step IsPrint_table client lo hi ns n tr c r c' →
  (∀ t, r = Ok t → G (key_parts n ns (tr_Spec tr)) t) ∧ cache_ok c'.
Proof.
  intros HG Hc [t Hk _|t Hold [_ (w & _ & Ha)]|t err Hk _ _ _|t err _ _ _ _|err _ _].
  - split; [|done]. intros ? [= <-]. by apply Hc.
  - assert (G (key_parts n ns (tr_Spec tr)) t) as Ht by (by eapply HG).
    split; [by intros ? [= <-]|]. intros ns' n' tr' t'.
    destruct (decide (keyFunc IsPrint_table n ns tr = keyFunc IsPrint_table n' ns' tr')) as [E|E].
    + rewrite <- E, lookup_insert_eq. intros [= <-]. apply keyFunc_parts in E. by rewrite <- E.
    + rewrite lookup_insert_ne by done. apply Hc.
  - split; [|done]. intros ? [= <-]. by apply Hc.
  - by split.
  - by split.
Qed.

Lemma cleanup_ok (s : Manager * W) : cache_ok (m_cache s.1) → wp cleanup (λ _ s', cache_ok (m_cache s'.1)) s.
Proof.
  intros Hc. apply wp_cleanup. intros s' _ Hk ns n tr t Ht. specialize (Hk (keyFunc IsPrint_table n ns tr)).
  destruct (m_cache s.1 !! _) as [t'|] eqn:E; [|congruence].
  destruct Hk as [[? _]|[E' _]]; [congruence|]. apply Hc. congruence.
Qed.

Lemma reachable_ok s : issues → reachable s → cache_ok (m_cache s.1).
Proof.
  intros HG. induction 1 as [client w|ns n tr s _ IH|s _ IH|m w w' _ IH _].
  - intros ns n tr t. simpl. by rewrite lookup_empty.
  - apply (wp_GetServiceAccountToken IsPrint_table ns n tr (λ _ s', cache_ok (m_cache s'.1)) s).
    intros o s' (r & _ & _ & Hstep). by eapply token_step_ok in Hstep as [_ ?].
  - by apply (cleanup_ok s).
  - done.
Qed.
End reach.

(** ** What the cache promises its clients *)

(** A call returns, time moves forward, the cache stays in order, and the token
    was issued for the request or the server refused it. *)
Class TokenGetterLaws (W : Type) `{TokenEnv W, !TokenEnvLaws W, TokenGetter W} := {
  wp_tg_Get IsPrint_table
      (G : string * string * option (list string) * Z * BoundObjectReference → TokenRequest → Prop)
      ns n tr Q (s : Manager * W) :
    issues G → cache_ok IsPrint_table G (m_cache s.1) →
    (∀ r s', moved s s' → cache_ok IsPrint_table G (m_cache s'.1) →
      match r with
      | Ok t => G (key_parts n ns (tr_Spec tr)) t
      | Err _ => ∃ err, refused (m_client s.1) (instant s.2) (instant s'.2) ns n tr err
      end → Q (Val r) s') →
    wp (tg_GetServiceAccountToken IsPrint_table ns n tr) Q s;
}.

Lemma token_step_refused IsPrint_table {W} `{TokenEnv W, !TokenEnvLaws W} client lo hi ns n tr c e c' :
  token_step (W:=W) IsPrint_table client lo hi ns n tr c (Err e) c' → ∃ err, refused (W:=W) client lo hi ns n tr err.
Proof. inversion 1; eauto. Qed.

#[export] Instance undisturbed_laws {W : Type} `{TokenEnv W, !TokenEnvLaws W} : TokenGetterLaws W (H0 := undisturbed).
Proof.
  split. intros IsPrint_table G ns n tr Q s HG Hc HQ. cbn [tg_GetServiceAccountToken undisturbed].
  apply (wp_GetServiceAccountToken IsPrint_table).
  intros o s' (r & -> & Hm & Hstep).
  destruct (token_step_ok IsPrint_table G _ _ _ ns n _ _ _ _ HG Hc Hstep) as [Ht Hc'].
  apply HQ; [done..|]. destruct r as [t|e]; [by apply Ht|by eapply token_step_refused].
Qed.

(** ** Collecting the tokens of a list of audiences *)

Section collect.
Context (IsPrint_table : N → bool) (Time_MarshalJSON : Z → string).
Context {W : Type} `{TokenEnv W, !TokenEnvLaws W, TokenGetter W, !TokenGetterLaws W}.
Context (G : string * string * option (list string) * Z * BoundObjectReference → TokenRequest → Prop).

(** The status of a token issued for one audience. *)
Definition issued_status (ns sa aud : string) (st : TokenRequestStatus) : Prop :=
  ∃ t, tr_Status t = st ∧ G (sa, ns, Some [aud], tokenExpirationSeconds, zero_ref) t.
(** No token could be had for one of the audiences. *)
Definition some_refused (client : bool) (lo hi : Z) (ns sa : string) (auds : list string) : Prop :=
  ∃ aud err, aud ∈ auds ∧ refused client lo hi ns sa (aud_request aud) err.

Lemma wp_collect_tokens ns sa auds outputs Q (s : Manager * W) :
  issues G → cache_ok IsPrint_table G (m_cache s.1) → map_Forall (issued_status ns sa) outputs →
  (∀ r s', moved s s' → cache_ok IsPrint_table G (m_cache s'.1) →
    match r with
    | Ok m => dom m = list_to_set auds ∪ dom outputs ∧ map_Forall (issued_status ns sa) m
    | Err _ => some_refused (m_client s.1) (instant s.2) (instant s'.2) ns sa auds
    end → Q (Val r) s') →
  wp (collect_tokens IsPrint_table ns sa auds outputs) Q s.
Proof.
  intros HG. revert outputs Q s. induction auds as [|aud auds IH]; intros outputs Q s Hc Ho HQ; cbn [collect_tokens].
  { wp_steps. apply HQ; [by split|done|]. split; [set_solver|done]. }
  wp_step. apply (wp_tg_Get IsPrint_table G); [done..|]. intros [t|err] s1 [Hcl Hi] Hc1 Hr; wp_steps.
  - apply IH; [done| |].
    + apply map_Forall_insert_2; [|done]. by exists t.
    + intros r s' [Hcl' Hi'] Hc' Hr'. apply HQ; [split; [congruence|lia]|done|].
      destruct r as [m|e].
      * destruct Hr' as [-> ?]. split; [|done]. rewrite dom_insert_L. set_solver.
      * destruct Hr' as (a & e' & ? & Hr'). exists a, e'. split; [by right|]. rewrite Hcl in Hr'. eapply refused_mono; [eassumption|lia..].
  - apply HQ; [by split|done|]. destruct Hr as [e Hr]. exists aud, e. split; [by left|done].
Qed.

(** The attributes hold, for each audience, the status of a token issued for
    this service account, and nothing else; none without audiences. *)
Definition attrs_issued (ns sa : string) (auds : list string) (attrs : option (gmap string string)) : Prop :=
  attrs = None ∧ auds = [] ∨
  ∃ m, attrs = Some {[ tokensKey := json_map (json_status Time_MarshalJSON) (Some m) ]} ∧
    dom m = list_to_set (C:=gset string) auds ∧ ∀ aud st, m !! aud = Some st → issued_status ns sa aud st.

Lemma wp_token_attrs ns sa auds Q (s : Manager * W) :
  issues G → cache_ok IsPrint_table G (m_cache s.1) →
  (∀ r s', moved s s' → cache_ok IsPrint_table G (m_cache s'.1) →
    match r with
    | Ok attrs => attrs_issued ns sa auds attrs
    | Err _ => some_refused (m_client s.1) (instant s.2) (instant s'.2) ns sa auds
    end → Q (Val r) s') →
  wp (SecretProviderServiceAccountTokenAttrs IsPrint_table Time_MarshalJSON ns sa auds) Q s.
Proof.
  intros HG Hc HQ. unfold SecretProviderServiceAccountTokenAttrs. destruct auds as [|a l].
  { wp_steps. apply HQ; [by split|done|by left]. }
  wp_step. apply wp_collect_tokens; [done|done|apply map_Forall_empty|].
  intros [m|e] s' Hm Hc' Hr; wp_steps; apply HQ; try done.
  right. exists m. destruct Hr as [Hd Hms]. split_and!; [done| |done]. rewrite Hd. set_solver.
Qed.
End collect.

(** ** Properties *)

(** C28: two token requests share a cache slot exactly when name, namespace,
    audiences, expiration and bound object are the same (nil expiration counts
    as 0 and a nil reference as the empty one); quoting keeps any byte of a
    name or audience from running into the next field. *)
Theorem keyFunc_identifies IsPrint_table name namespace tr name' namespace' tr' :
  keyFunc IsPrint_table name namespace tr = keyFunc IsPrint_table name' namespace' tr' ↔
  name = name' ∧ namespace = namespace' ∧
  trs_Audiences (tr_Spec tr) = trs_Audiences (tr_Spec tr') ∧
  key_exp (tr_Spec tr) = key_exp (tr_Spec tr') ∧ key_ref (tr_Spec tr) = key_ref (tr_Spec tr').
Proof.
  rewrite keyFunc_parts. unfold key_parts. split; [by intros [= -> -> -> -> ->]|].
  intros (-> & -> & Ea & Ee & Er). by rewrite Ea, Ee, Er.
Qed.

(** C29: with a jitter below 10 seconds and an expiration whose nanoseconds fit
    in 64 bits, a refresh is due exactly when the token is older than 24 hours
    less the jitter, or less than 20% of its life (rounded down) and the jitter
    is left; and a token that is not due has not expired. *)
Theorem requiresRefresh_at_correct now j E exp :
  0 ≤ j < 10 → 0 ≤ E ≤ maxSeconds →
  (requiresRefresh_at now j E exp = true ↔
     exp - E * Second + (maxTTL - j * Second) < now ∨
     exp - ((E * 20) `div` 100) * Second - j * Second < now) ∧
  (requiresRefresh_at now j E exp = false → now ≤ exp).
Proof.
  intros Hj HE. rewrite requiresRefresh_at_eq by done.
  assert (0 ≤ (E * 20) `div` 100) by (apply Z.div_pos; lia).
  rewrite orb_true_iff, orb_false_iff, !Z.ltb_lt, !Z.ltb_ge. split; [done|]. unfold Second. lia.
Qed.
Lemma requiresRefresh_at_witness :
  requiresRefresh_at (481 * Second) 0 600 (600 * Second) = true ∧
  (requiresRefresh_at (480 * Second) 0 600 (600 * Second) = false → 480 * Second ≤ 600 * Second).
Proof.
  split.
  - apply (requiresRefresh_at_correct (481 * Second) 0 600 (600 * Second)); [lia|unfold maxSeconds; lia|].
    right. vm_compute. reflexivity.
  - apply (requiresRefresh_at_correct (480 * Second) 0 600 (600 * Second)); [lia|unfold maxSeconds; lia].
Defined.

Section claims.
Context (IsPrint_table : N → bool).
Context {W : Type} `{TokenEnv W, !TokenEnvLaws W}.

(** C26: every call of [GetServiceAccountToken] returns, without a panic, and
    is one step of the abstract behaviour: a cached token that is not due, a
    fetched one that takes the slot of its key, an old one that has not expired
    when fetching fails, or the wrapped error; time moves forward. *)
Theorem GetServiceAccountToken_refines ns n tr (s : Manager * W) :
  ∃ r s', GetServiceAccountToken IsPrint_table ns n tr s = (Val r, s') ∧
    m_client s'.1 = m_client s.1 ∧ instant s.2 ≤ instant s'.2 ∧
    token_step IsPrint_table (m_client s.1) (instant s.2) (instant s'.2) ns n tr (m_cache s.1) r (m_cache s'.1).
Proof.
  destruct (wp_GetServiceAccountToken IsPrint_table ns n tr (stepped IsPrint_table ns n tr s) s) as (r & Hr & [??] & Hs);
    [done|].
  exists r, (GetServiceAccountToken IsPrint_table ns n tr s).2. split_and!; try done.
  by rewrite <- Hr, <- surjective_pairing.
Qed.

(** In every reachable manager, whatever tokens were asked for before and
    whenever the cache was cleaned up, the token a call returns is one the API
    server issued for that account, namespace, audiences, expiration and bound
    object: the cache never hands a token to a request it was not issued for. *)
Theorem token_isolation (G : string * string * option (list string) * Z * BoundObjectReference → TokenRequest → Prop)
    ns n tr (s : Manager * W) t :
  issues G → reachable IsPrint_table s →
  (GetServiceAccountToken IsPrint_table ns n tr s).1 = Val (Ok t) →
  G (n, ns, trs_Audiences (tr_Spec tr), key_exp (tr_Spec tr), key_ref (tr_Spec tr)) t.
Proof.
  intros HG Hs. apply (wp_GetServiceAccountToken IsPrint_table ns n tr (λ o _, o = Val (Ok t) → G (key_parts n ns (tr_Spec tr)) t) s).
  intros o s' (r & -> & _ & Hstep) [= ->].
  eapply token_step_ok in Hstep as [Ht _]; [by apply Ht|done|by apply (reachable_ok IsPrint_table G s)].
Qed.

(** When the API server issues tokens with an expiration in range, the
    token a call returns was issued during the call or is unexpired at an
    instant of the call; and a token in the cache that outlives the call is
    enough for the call to succeed. *)
Theorem GetServiceAccountToken_valid ns n tr (s : Manager * W) :
  issues (λ _ t, ∃ E, trs_ExpirationSeconds (tr_Spec t) = Some E ∧ 0 ≤ E ≤ maxSeconds) →
  reachable IsPrint_table s →
  let '(o, s') := GetServiceAccountToken IsPrint_table ns n tr s in
  (∀ t, o = Val (Ok t) →
     answered (m_client s.1) (instant s.2) (instant s'.2) ns n tr (Ok t) ∨
     ∃ now, instant s.2 ≤ now ≤ instant s'.2 ∧ now ≤ exp_of t) ∧
  (∀ t, m_cache s.1 !! keyFunc IsPrint_table n ns tr = Some t → instant s'.2 ≤ exp_of t →
     ∃ t', o = Val (Ok t')).
Proof.
  intros HG Hs.
  destruct (wp_GetServiceAccountToken IsPrint_table ns n tr (stepped IsPrint_table ns n tr s) s) as (r & Hr & [_ Hi] & Hstep);
    [done|].
  destruct (GetServiceAccountToken IsPrint_table ns n tr s) as [o s']. simpl in *. subst o.
  pose proof (reachable_ok _ _ _ HG Hs ns n tr) as Hc.
  destruct Hstep as [t Hk Hr|t _ Ha|t err Hk _ _ Hx|t err Hk _ _ (now & ? & Hx)|err Hk _].
  - split; [|eauto]. intros ? [= <-]. right. destruct (Hc t Hk) as (E & HE & ?).
    unfold refresh_test in Hr. rewrite HE in Hr. destruct Hr as (now & j & ? & ? & Hr).
    exists now. split; [done|]. rewrite requiresRefresh_at_eq in Hr by done.
    apply orb_false_iff in Hr as [_ Hr%Z.ltb_ge].
    assert (0 ≤ (E * 20) `div` 100) by (apply Z.div_pos; lia). unfold Second in Hr. lia.
  - split; [|eauto]. intros ? [= <-]. by left.
  - split; [|eauto]. intros ? [= <-]. right. destruct Hx as (now & ? & Hx%Z.ltb_ge). eauto.
  - split; [done|]. intros t'. rewrite Hk. intros [= <-]. unfold expired_at, time_After in Hx.
    apply Z.ltb_lt in Hx. unfold exp_of. lia.
  - split; [done|]. intros t'. by rewrite Hk.
Qed.

(** C27: [cleanup] removes every token that expired before it started and only
    tokens that have expired when it ends; the others stay as they are, no
    token is added, and it does not panic. *)
Theorem cleanup_correct (s : Manager * W) :
  ∃ s', cleanup s = (Val tt, s') ∧
    (∀ k t, m_cache s'.1 !! k = Some t → m_cache s.1 !! k = Some t ∧ instant s.2 ≤ exp_of t) ∧
    (∀ k t, m_cache s.1 !! k = Some t → m_cache s'.1 !! k = None → exp_of t < instant s'.2).
Proof.
  assert (wp cleanup (λ o s', o = Val tt ∧
    swept (instant s.2) (instant s'.2) (m_cache s.1) (m_cache s'.1)) s) as [Hv Hs].
  { by apply wp_cleanup. }
  exists (cleanup s).2. rewrite <- Hv, <- surjective_pairing. split_and!; [done|..]; intros k t Hk.
  - specialize (Hs k). destruct (m_cache s.1 !! k) as [t'|]; [|congruence].
    destruct Hs as [[? _]|[E (now & ? & Hx%Z.ltb_ge)]]; [congruence|].
    assert (t' = t) as -> by congruence. unfold exp_of. split; [done|lia].
  - intros Hn. specialize (Hs k). rewrite Hk in Hs.
    destruct Hs as [[_ (now & ? & Hx%Z.ltb_lt)]|[E _]]; [unfold exp_of; lia|congruence].
Qed.

(** With no audience the provider gets no token attributes and the API
    server is not asked; otherwise it gets one JSON object with exactly the
    audiences as its keys, each with the status of a token issued to the
    service account for that audience and 600 seconds, or the call fails because
    the server refused one of the audiences. *)
Theorem token_attrs_correct Time_MarshalJSON
    (G : string * string * option (list string) * Z * BoundObjectReference → TokenRequest → Prop)
    ns sa auds (s : Manager * W) :
  issues G → reachable IsPrint_table s →
  let '(o, s') := SecretProviderServiceAccountTokenAttrs IsPrint_table Time_MarshalJSON ns sa auds s in
  match auds with
  | [] => o = Val (Ok None) ∧ s' = s
  | _ =>
    (∃ m, o = Val (Ok (Some {[ tokensKey := json_map (json_status Time_MarshalJSON) (Some m) ]})) ∧
          dom m = list_to_set auds ∧
          ∀ aud st, m !! aud = Some st → issued_status G ns sa aud st) ∨
    (∃ e, o = Val (Err e) ∧ some_refused (m_client s.1) (instant s.2) (instant s'.2) ns sa auds)
  end.
Proof.
  intros HG Hs. destruct auds as [|aud auds]; [done|].
  run_wp. apply (wp_token_attrs _ _ G); [done|by apply (reachable_ok IsPrint_table G s)|].
  intros [attrs|e] s' _ _ Hr; [left|right; by exists e].
  destruct Hr as [[_ ?]|(m & -> & ? & ?)]; [done|by exists m].
Qed.
End claims.

(** ** Witnesses *)

Definition fixture_text (p : string * string * option (list string) * Z * BoundObjectReference) (t : TokenRequest) : Prop :=
  let '(n, ns, auds, _, _) := p in trst_Token (tr_Status t) = token_text ns n auds.

Lemma fixture_answer ns n tr w t : (te_CreateToken (W:=Z) ns n tr w).1 = Ok t →
  trst_Token (tr_Status t) = token_text ns n (trs_Audiences (tr_Spec tr)) ∧
  ∃ E, trs_ExpirationSeconds (tr_Spec t) = Some E ∧ 0 ≤ E ≤ maxSeconds.
Proof.
  simpl. unfold fixture_CreateToken. repeat case_bool_decide; simpl; [done..|].
  case_match eqn:Hb; simpl; [done|]. intros [= <-]. split; [done|]. eexists. split; [done|].
  apply negb_false_iff, andb_true_iff in Hb as [?%Z.leb_le ?%Z.leb_le]. unfold maxSeconds. lia.
Qed.

(** A manager that has already served the account of another namespace. *)
Definition fixture_used : Manager * Z :=
  (GetServiceAccountToken ascii_print "bank" "app" (aud_request "vault") fixture_start).2.
(** The same manager when that token has expired. *)
Definition fixture_late : Manager * Z := (fixture_used.1, fixture_used.2 + 700 * Second).

Lemma fixture_used_reachable : reachable ascii_print fixture_used.
Proof. apply reach_get, reach_new. Qed.
Lemma fixture_late_reachable : reachable ascii_print fixture_late.
Proof.
  apply (reach_wait _ fixture_used.1 fixture_used.2); [|by apply Z.leb_le; vm_compute].
  rewrite <- surjective_pairing. apply fixture_used_reachable.
Qed.

Lemma GetServiceAccountToken_refines_witness : ∃ r s',
  GetServiceAccountToken ascii_print "shop" "app" (aud_request "vault") fixture_used = (Val r, s') ∧ is_Ok r = true ∧
  size (m_cache s'.1) = 2%nat.
Proof.
  destruct (GetServiceAccountToken_refines ascii_print "shop" "app" (aud_request "vault") fixture_used)
    as (r & s' & E & _).
  exists r, s'. split; [exact E|].
  assert (E2 : match GetServiceAccountToken ascii_print "shop" "app" (aud_request "vault") fixture_used with
          | (Val r0, s0) => is_Ok r0 && bool_decide (size (m_cache s0.1) = 2%nat) | _ => false end = true)
    by (vm_compute; reflexivity).
  rewrite E in E2. apply andb_prop in E2 as [? ?%bool_decide_eq_true]. split; assumption.
Defined.

Lemma token_isolation_witness : ∃ t,
  (GetServiceAccountToken ascii_print "shop" "app" (aud_request "vault") fixture_used).1 = Val (Ok t) ∧
  trst_Token (tr_Status t) = "token of shop/app for vault".
Proof.
  eexists. split; [vm_compute; reflexivity|].
  refine (token_isolation ascii_print fixture_text "shop" "app" (aud_request "vault") fixture_used _ _
    fixture_used_reachable _).
  - intros ns n tr w t Ht. exact (proj1 (fixture_answer _ _ _ _ _ Ht)).
  - vm_compute. reflexivity.
Defined.

(** 700 seconds later the token of 600 seconds is fetched anew. *)
Lemma GetServiceAccountToken_valid_witness :
  let '(o, s') := GetServiceAccountToken ascii_print "bank" "app" (aud_request "vault") fixture_late in
  ∃ t, o = Val (Ok t) ∧ exp_of t = 2300 * Second ∧
    (answered (W:=Z) true (instant fixture_late.2) (instant s'.2) "bank" "app" (aud_request "vault") (Ok t) ∨
     ∃ now, instant fixture_late.2 ≤ now ≤ instant s'.2 ∧ now ≤ exp_of t).
Proof.
  pose proof (GetServiceAccountToken_valid ascii_print "bank" "app" (aud_request "vault") fixture_late
    (λ ns n tr w t Ht, proj2 (fixture_answer ns n tr w t Ht)) fixture_late_reachable) as HV.
  destruct (GetServiceAccountToken _ _ _ _ _) as [o s'] eqn:E.
  assert (HO : o = (GetServiceAccountToken ascii_print "bank" "app" (aud_request "vault") fixture_late).1)
    by (rewrite E; reflexivity).
  vm_compute in HO. eexists. split; [exact HO|]. split; [vm_compute; reflexivity|].
  apply (proj1 HV). exact HO.
Defined.

(** One cached token has expired, one has not. *)
Definition fixture_two : Manager * Z :=
  let s := fixture_late in
  let s' := GetServiceAccountToken ascii_print "shop" "app" (aud_request "vault") s in s'.2.

Lemma cleanup_correct_witness : ∃ s', cleanup fixture_two = (Val tt, s') ∧
  size (m_cache fixture_two.1) = 2%nat ∧ size (m_cache s'.1) = 1%nat.
Proof.
  destruct (cleanup_correct fixture_two) as (s' & E & _). exists s'. split; [exact E|].
  split; [vm_compute; reflexivity|].
  assert (E2 : size (m_cache (cleanup fixture_two).2.1) = 1%nat) by (vm_compute; reflexivity).
  rewrite E in E2. exact E2.
Defined.

Lemma token_attrs_witness :
  let '(o, s') := SecretProviderServiceAccountTokenAttrs ascii_print (λ _, "T") "shop" "app" ["vault"; "aws"] fixture_used in
  ∃ m, o = Val (Ok (Some {[ tokensKey := json_map (json_status (λ _, "T")) (Some m) ]})) ∧
    dom m = list_to_set ["vault"; "aws"] ∧
    (∀ aud st, m !! aud = Some st → issued_status fixture_text "shop" "app" aud st).
Proof.
  pose proof (token_attrs_correct ascii_print (λ _, "T") fixture_text "shop" "app" ["vault"; "aws"] fixture_used
    (λ ns n tr w t Ht, proj1 (fixture_answer ns n tr w t Ht)) fixture_used_reachable) as HA.
  destruct (SecretProviderServiceAccountTokenAttrs _ _ _ _ _ _) as [o s'] eqn:E.
  destruct HA as [HA|(e & He & _)]; [exact HA|exfalso].
  assert (HO : match o with Val (Ok _) => true | _ => false end = true).
  { change o with (o, s').1. rewrite <- E. vm_compute. reflexivity. }
  rewrite He in HO. discriminate HO.
Defined.
