(* ===== verification/TokenConcurrent.v ===== *)
(** * The token cache under concurrency

    [GetServiceAccountToken] holds the lock of the cache only while it looks its
    key up and while it stores a fetched token; [cleanup] holds it throughout.
    Here a call is split where it takes or drops the lock and where it asks the
    outside, and the pieces of any number of calls, the clean-ups of the
    goroutine of [NewManager] and the outside are interleaved at will. *)

From stdpp Require Import strings pretty gmap list.
From S2P Require Import Prelude GoText GoFmt GoJson GoTime Token TokenFixture TokenSpec.

Open Scope Z_scope.

(** ** A call in pieces *)

(** The arguments: namespace, name, request. *)
Notation token_call := (string * string * TokenRequest)%type.

(** [ctr] is what the call found in the cache. *)
Inductive token_phase :=
| TCalled
| TLooked (ctr : option TokenRequest)
| TMissed (ctr : option TokenRequest)
| TFailed (ctr : option TokenRequest) (err : error)
| TFetched (ctr : option TokenRequest) (t : TokenRequest)
| TReturned (ctr : option TokenRequest) (res : result TokenRequest).

Section phases.
Context (IsPrint_table : N → bool).
Context {W : Type} `{TokenEnv W}.
Local Notation keyFunc := (keyFunc IsPrint_table).
Local Notation TM := (GoM (Manager * W)).

Definition token_phase_step (call : token_call) (ph : token_phase) : TM token_phase :=
  let '(namespace, name, tr) := call in
  let key := keyFunc name namespace tr in
  match ph with
  | TCalled => ctr ← get key; mret (TLooked ctr)
  | TLooked None => mret (TMissed None)
  | TLooked (Some ctr) =>
    refresh ← requiresRefresh ctr;
    mret (if (refresh : bool) then TMissed (Some ctr) else TReturned (Some ctr) (Ok ctr))
  | TMissed ctr =>
    r ← getToken name namespace tr;
    mret (match r with Err err => TFailed ctr err | Ok t => TFetched ctr t end)
  | TFailed None err => mret (TReturned None (Err (errorf_w ("failed to fetch token: " +:+ Error err) err)))
  | TFailed (Some ctr) err =>
    e ← expired ctr;
    mret (TReturned (Some ctr) (if (e : bool) then
      Err (errorf_w ("token " +:+ key +:+ " expired and refresh failed: " +:+ Error err) err) else Ok ctr))
  | TFetched ctr t => _ ← set key t; mret (TReturned ctr (Ok t))
  | TReturned ctr res => mret (TReturned ctr res)
  end.

(** ** Interleaving *)

(** A call with the instant it started at. *)
Record token_system := {
  tsy_state : Manager * W;
  tsy_calls : gmap nat (token_call * Z * token_phase);
}.

Inductive token_action :=
| ta_call (t : nat) (call : token_call)
| ta_run (t : nat)
| ta_cleanup
| ta_world (w : W).

Context `{!TokenEnvLaws W}.

Inductive token_sys_step : token_action → token_system → token_system → Prop :=
| tss_call t call s :
    tsy_calls s !! t = None →
    token_sys_step (ta_call t call) s
      {| tsy_state := tsy_state s; tsy_calls := <[ t := (call, instant (tsy_state s).2, TCalled) ]> (tsy_calls s) |}
| tss_run t call start ph ph' st s :
    tsy_calls s !! t = Some (call, start, ph) → token_phase_step call ph (tsy_state s) = (Val ph', st) →
    token_sys_step (ta_run t) s {| tsy_state := st; tsy_calls := <[ t := (call, start, ph') ]> (tsy_calls s) |}
| tss_cleanup st s :
    cleanup (tsy_state s) = (Val tt, st) →
    token_sys_step ta_cleanup s {| tsy_state := st; tsy_calls := tsy_calls s |}
| tss_world w s :
    instant (tsy_state s).2 ≤ instant w →
    token_sys_step (ta_world w) s {| tsy_state := ((tsy_state s).1, w); tsy_calls := tsy_calls s |}.

Inductive token_sys_reachable : token_system → Prop :=
| tsr_new client w : token_sys_reachable {| tsy_state := (NewManager client, w); tsy_calls := ∅ |}
| tsr_step a s s' : token_sys_reachable s → token_sys_step a s s' → token_sys_reachable s'.

(** ** What holds of the calls *)

Context (G : string * string * option (list string) * Z * BoundObjectReference → TokenRequest → Prop).

(** Issued for the request of the call. *)
Definition issued_for (call : token_call) (t : TokenRequest) : Prop :=
  let '(ns, n, tr) := call in G (key_parts n ns (tr_Spec tr)) t.

(** Its expiration in nanoseconds fits in 64 bits. *)
Definition in_range (t : TokenRequest) : Prop :=
  ∃ E, trs_ExpirationSeconds (tr_Spec t) = Some E ∧ 0 ≤ E ≤ maxSeconds.
(** Of use at some instant of the call, if in range: sent by the server then, or
    not expired then. *)
Definition of_use (lo hi : Z) (client : bool) (call : token_call) (t : TokenRequest) : Prop :=
  let '(ns, n, tr) := call in
  in_range t → answered client lo hi ns n tr (Ok t) ∨ ∃ now, lo ≤ now ≤ hi ∧ now ≤ exp_of t.
Definition refused_for (lo hi : Z) (client : bool) (call : token_call) (err : error) : Prop :=
  let '(ns, n, tr) := call in refused client lo hi ns n tr err.

(** The error the caller gets, for the reason why no token could be had. *)
Definition call_error (call : token_call) (e : error) (err : error) : Prop :=
  let '(ns, n, tr) := call in
  e = errorf_w ("failed to fetch token: " +:+ Error err) err ∨
  e = errorf_w ("token " +:+ keyFunc n ns tr +:+ " expired and refresh failed: " +:+ Error err) err.

Definition token_phase_ok (lo hi : Z) (client : bool) (call : token_call) (ph : token_phase) : Prop :=
  match ph with
  | TCalled => True
  | TLooked ctr | TMissed ctr => ∀ t, ctr = Some t → issued_for call t
  | TFailed ctr err => (∀ t, ctr = Some t → issued_for call t) ∧ refused_for lo hi client call err
  | TFetched _ t => issued_for call t ∧ of_use lo hi client call t
  | TReturned _ (Ok t) => issued_for call t ∧ of_use lo hi client call t
  | TReturned ctr (Err e) => (∃ err, refused_for lo hi client call err ∧ call_error call e err) ∧
      ∀ t, ctr = Some t → exp_of t < hi
  end.

Lemma of_use_mono lo hi hi' client call t : of_use lo hi client call t → hi ≤ hi' → of_use lo hi' client call t.
Proof.
  destruct call as [[ns n] tr]. intros Hu ? Hr. destruct (Hu Hr) as [Ha|(now & ? & ?)]; [left|right; exists now; split; [lia|done]].
  eapply answered_mono; [done|lia|done].
Qed.
Lemma refused_for_mono lo hi hi' client call err : refused_for lo hi client call err → hi ≤ hi' → refused_for lo hi' client call err.
Proof. destruct call as [[ns n] tr]. intros Hr ?. eapply refused_mono; [done|lia|done]. Qed.
Lemma token_phase_ok_mono lo hi hi' client call ph : token_phase_ok lo hi client call ph → hi ≤ hi' → token_phase_ok lo hi' client call ph.
Proof.
  intros Hp Hi. destruct ph as [|ctr|ctr|ctr err|ctr t|ctr [t|e]]; cbn in *; try done.
  - destruct Hp. eauto using refused_for_mono.
  - destruct Hp. eauto using of_use_mono.
  - destruct Hp. eauto using of_use_mono.
  - destruct Hp as [(err & ? & ?) He]. split; [eauto using refused_for_mono|]. intros t Ht. specialize (He t Ht). lia.
Qed.

Hypothesis G_issues : issues G.

(** A token whose refresh is not due has not expired. *)
Lemma refresh_of_use lo hi call t client : refresh_test lo hi false t → of_use lo hi client call t.
Proof.
  destruct call as [[ns n] tr]. intros Hr (E & HE & Hrange). right.
  unfold refresh_test in Hr. rewrite HE in Hr. destruct Hr as (now & j & ? & ? & Hr). exists now. split; [done|].
  rewrite requiresRefresh_at_eq in Hr by done. apply orb_false_iff in Hr as [_ Hr%Z.ltb_ge].
  assert (0 ≤ (E * 20) `div` 100) by (apply Z.div_pos; lia). unfold Second in Hr. lia.
Qed.

Lemma cache_ok_insert ns n tr t c :
  G (key_parts n ns (tr_Spec tr)) t → cache_ok IsPrint_table G c → cache_ok IsPrint_table G (<[ keyFunc n ns tr := t ]> c).
Proof.
  intros Ht Hc ns' n' tr' t'. rewrite lookup_insert. case_decide as E; [|apply Hc].
  intros [= <-]. apply keyFunc_parts in E. by rewrite <- E.
Qed.

Notation ok_state := (λ s : Manager * W, cache_ok IsPrint_table G (m_cache s.1)).

(** One piece of a call. *)
Lemma wp_token_phase lo call ph Q (s : Manager * W) :
  lo ≤ instant s.2 → ok_state s → token_phase_ok lo (instant s.2) (m_client s.1) call ph →
  (∀ ph' s', moved s s' → ok_state s' → token_phase_ok lo (instant s'.2) (m_client s'.1) call ph' → Q (Val ph') s') →
  wp (token_phase_step call ph) Q s.
Proof.
  destruct call as [[ns n] tr]. intros Hlo Hc Hp HQ.
  destruct ph as [|[ctr|]|ctr|[ctr|] err|ctr t|ctr res]; cbn [token_phase_step token_phase_ok] in *.
  - wp_steps. apply HQ; [by split|done|]. intros t Hk. by apply Hc.
  - wp_step. apply wp_requiresRefresh. intros b s' [Hcl Hi] Hs Hb. wp_step.
    apply HQ; [by split|by rewrite Hs|]. destruct b; [done|]. split; [by apply Hp|].
    apply refresh_of_use. eapply refresh_test_mono; [done|lia..].
  - wp_steps. by apply HQ.
  - wp_step. apply wp_getToken. intros res s' [Hcl Hi] Hs Hr. wp_step. apply HQ; [by split|by rewrite Hs|].
    rewrite Hcl. destruct res as [t|err]; cbn.
    + split; [destruct Hr as (_ & w & _ & Ha); by eapply G_issues|]. intros _. left. eapply answered_mono; [done|lia..].
    + split; [done|]. eapply refused_mono; [done|lia..].
  - wp_step. apply wp_expired. intros b s' [Hcl Hi] Hs Hb. wp_step. apply HQ; [by split|by rewrite Hs|].
    destruct Hp as [Ht Hr]. destruct b; cbn.
    + split; [exists err; split; [rewrite Hcl; eapply refused_mono; [done|lia..]|by right]|].
      destruct Hb as (now & ? & Hx%Z.ltb_lt). intros t [= <-]. unfold exp_of. lia.
    + split; [by apply Ht|]. intros _. right. destruct Hb as (now & ? & Hx%Z.ltb_ge). exists now. split; [lia|done].
  - wp_steps. apply HQ; [by split|done|]. destruct Hp as [_ Hr]. split; [|done]. exists err. split; [done|by left].
  - wp_steps. destruct Hp as [Ht Hu]. apply HQ; [by split| |by split]. by apply cache_ok_insert.
  - wp_steps. by apply HQ.
Qed.

(** Every call stays in order while the others, and the clean-up, go on. *)
Record token_sys_inv (s : token_system) : Prop := {
  tinv_cache : ok_state (tsy_state s);
  tinv_calls t call start ph : tsy_calls s !! t = Some (call, start, ph) →
    start ≤ instant (tsy_state s).2 ∧ token_phase_ok start (instant (tsy_state s).2) (m_client (tsy_state s).1) call ph;
}.

(** The calls that are not at it only see time pass. *)
Lemma calls_moved st st' start call ph : moved st st' →
  start ≤ instant st.2 ∧ token_phase_ok start (instant st.2) (m_client st.1) call ph →
  start ≤ instant st'.2 ∧ token_phase_ok start (instant st'.2) (m_client st'.1) call ph.
Proof. intros [-> Hi] [? Hp]. split; [lia|]. by eapply token_phase_ok_mono. Qed.

Lemma token_sys_step_inv a s s' : token_sys_inv s → token_sys_step a s s' → token_sys_inv s'.
Proof.
  intros [Hc Hcalls] Hstep. destruct Hstep as [t call s Ht|t call start ph ph' st s Ht E|st s E|w s Hw]; split; cbn [tsy_state tsy_calls].
  - done.
  - intros t' call' start' ph'. rewrite lookup_insert. case_decide; [|apply Hcalls]. by intros [= <- <- <-].
  - destruct (Hcalls _ _ _ _ Ht) as [Hlo Hp].
    assert (wp (token_phase_step call ph) (λ _ s', ok_state s') (tsy_state s)) as Hwp by (by eapply wp_token_phase).
    unfold wp in Hwp. by rewrite E in Hwp.
  - destruct (Hcalls _ _ _ _ Ht) as [Hlo Hp].
    assert (wp (token_phase_step call ph) (λ o s', ∀ ph', o = Val ph' → moved (tsy_state s) s' ∧
      token_phase_ok start (instant s'.2) (m_client s'.1) call ph') (tsy_state s)) as Hwp.
    { eapply wp_token_phase; [done..|]. intros ph1 s1 Hm _ Hp1 ? [= <-]. by split. }
    unfold wp in Hwp. rewrite E in Hwp. destruct (Hwp ph' eq_refl) as [Hm Hp'].
    intros t' call' start' ph1. rewrite lookup_insert. case_decide as Et.
    + intros [= <- <- <-]. split; [destruct Hm; cbn in *; lia|done].
    + intros Ht'. eapply calls_moved; [exact Hm|by eapply Hcalls].
  - pose proof (cleanup_ok IsPrint_table G _ Hc) as Hwp. unfold wp in Hwp. by rewrite E in Hwp.
  - assert (moved (tsy_state s) st) as Hm.
    { assert (wp cleanup (λ _ s', moved (tsy_state s) s') (tsy_state s)) as Hwp by (by apply wp_cleanup).
      unfold wp in Hwp. by rewrite E in Hwp. }
    intros t call start ph Ht. eapply calls_moved; [exact Hm|by eapply Hcalls].
  - done.
  - intros t call start ph Ht. eapply (calls_moved (tsy_state s)); [by split|by eapply Hcalls].
Qed.

Lemma token_sys_reachable_inv s : token_sys_reachable s → token_sys_inv s.
Proof.
  induction 1 as [client w|a s s' _ IH Hs]; [|by eapply token_sys_step_inv].
  split; cbn; [intros ns n tr t; cbn; by rewrite lookup_empty|intros t call start ph; by rewrite lookup_empty].
Qed.

(** Pieces still to run, at most. *)
Definition rank (ph : token_phase) : nat :=
  match ph with TCalled => 4 | TLooked _ => 3 | TMissed _ => 2 | TFailed _ _ | TFetched _ _ => 1 | TReturned _ _ => 0 end.

Lemma token_phase_rank call ph (s : Manager * W) :
  wp (token_phase_step call ph) (λ o _, ∃ ph', o = Val ph' ∧ (rank ph' ≤ pred (rank ph))%nat) s.
Proof.
  destruct call as [[ns n] tr]. destruct ph as [|[ctr|]|ctr|[ctr|] err|ctr t|ctr res]; cbn [token_phase_step rank pred].
  - wp_steps. eexists. by split.
  - wp_step. apply wp_requiresRefresh. intros b s' _ _ _. wp_step. eexists. split; [done|]. destruct b; cbn; lia.
  - wp_steps. eexists. by split.
  - wp_step. apply wp_getToken. intros res s' _ _ _. wp_step. eexists. split; [done|]. by destruct res.
  - wp_step. apply wp_expired. intros b s' _ _ _. wp_step. eexists. by split.
  - wp_steps. eexists. by split.
  - wp_steps. eexists. by split.
  - wp_steps. eexists. by split.
Qed.
End phases.
Arguments token_system : clear implicits.

(** The pieces one after the other. *)
Lemma GetServiceAccountToken_in_pieces IsPrint_table {W : Type} `{TokenEnv W} ns n tr (s : Manager * W) :
  GetServiceAccountToken IsPrint_table ns n tr s =
  (ph ← token_phase_step IsPrint_table (ns, n, tr) TCalled; ph ← token_phase_step IsPrint_table (ns, n, tr) ph; ph ← token_phase_step IsPrint_table (ns, n, tr) ph; ph ← token_phase_step IsPrint_table (ns, n, tr) ph;
   match ph with TReturned _ res => mret res | _ => panic "not returned" end) s.
Proof.
  unfold GetServiceAccountToken. cbn [token_phase_step]. unfold get, gets, mbind, GoM_bind, mret, GoM_ret.
  destruct (m_cache s.1 !! _) as [ctr|]; cbn [token_phase_step]; unfold mbind, GoM_bind, mret, GoM_ret.
  - destruct (requiresRefresh ctr s) as [[[]|p] s1]; cbn [negb token_phase_step]; try done.
    unfold mbind, GoM_bind, mret, GoM_ret.
    destruct (getToken n ns tr s1) as [[[t|err]|p] s2]; cbn [token_phase_step]; try done.
    unfold mbind, GoM_bind, mret, GoM_ret. by destruct (expired ctr s2) as [[[]|p] s3].
  - destruct (getToken n ns tr s) as [[[t|err]|p] s2]; cbn [token_phase_step]; done.
Qed.

(** ** Properties *)

Section claims.
Context (IsPrint_table : N → bool).
Context {W : Type} `{TokenEnv W, !TokenEnvLaws W}.
Local Notation step := (token_phase_step IsPrint_table).

(** C23: whatever calls and clean-ups are interleaved, a call never gets stuck
    and each piece brings it closer to its return; a token it returns was issued
    for its account, namespace, audiences, expiration and bound object, and was
    issued, or had not expired, while the call was under way; an error means that
    the server refused the request meanwhile and that the token the call had
    found in the cache, if any, has expired. *)
Theorem GetServiceAccountToken_concurrent
    (G : string * string * option (list string) * Z * BoundObjectReference → TokenRequest → Prop)
    (s : token_system W) t ns n tr start ph :
  issues G →
  issues (λ _ t, in_range t) →
  token_sys_reachable IsPrint_table s → tsy_calls s !! t = Some ((ns, n, tr), start, ph) →
  (∃ s' ph', token_sys_step IsPrint_table (ta_run t) s s' ∧ tsy_calls s' !! t = Some ((ns, n, tr), start, ph') ∧
     (rank ph' ≤ pred (rank ph))%nat) ∧
  match ph with
  | TReturned _ (Ok tok) =>
    G (n, ns, trs_Audiences (tr_Spec tr), key_exp (tr_Spec tr), key_ref (tr_Spec tr)) tok ∧
    (answered (m_client (tsy_state s).1) start (instant (tsy_state s).2) ns n tr (Ok tok) ∨
     ∃ now, start ≤ now ≤ instant (tsy_state s).2 ∧ now ≤ exp_of tok)
  | TReturned ctr (Err e) =>
    (∃ err, refused (m_client (tsy_state s).1) start (instant (tsy_state s).2) ns n tr err ∧
       call_error IsPrint_table (ns, n, tr) e err) ∧
    ∀ old, ctr = Some old → exp_of old < instant (tsy_state s).2
  | _ => True
  end.
Proof.
  intros HG Hrange Hs Ht. split.
  - destruct (token_phase_rank IsPrint_table (ns, n, tr) ph (tsy_state s)) as (ph' & Ho & Hr).
    destruct (step (ns, n, tr) ph (tsy_state s)) as [o st] eqn:E. cbn in Ho. subst o.
    eexists _, ph'. split; [by eapply tss_run|]. split; [apply lookup_insert_eq|done].
  - set (G2 := λ p t, G p t ∧ in_range t).
    destruct (token_sys_reachable_inv IsPrint_table G2) with (s := s) as [_ Hcalls]; [|done|].
    { intros ns' n' tr' w tok Ha. split; [by eapply HG|by eapply (Hrange ns' n' tr' w)]. }
    destruct (Hcalls _ _ _ _ Ht) as [_ Hp]. destruct ph as [| | | | |ctr [tok|e]]; try done.
    destruct Hp as [[HGt Hin] Hu]. split; [done|by apply Hu].
Qed.
End claims.

(** ** Witnesses *)

(** Two calls for one account have both missed the cache; one has stored its
    token, an hour passes, the cache is cleaned up, and the other stores its
    own. *)
Definition app_call : token_call := ("shop", "app", aud_request "vault").
Definition calls_start : token_system Z :=
  {| tsy_state := (NewManager true, 1000 * Second); tsy_calls := ∅ |}.

(** The next state of a system, where it is determined. *)
Definition next_state (a : token_action (W:=Z)) (s : token_system Z) : token_system Z :=
  match a with
  | ta_call t call => {| tsy_state := tsy_state s; tsy_calls := <[ t := (call, instant (tsy_state s).2, TCalled) ]> (tsy_calls s) |}
  | ta_run t =>
    match tsy_calls s !! t with
    | Some (call, start, ph) =>
      match token_phase_step ascii_print call ph (tsy_state s) with
      | (Val ph', st) => {| tsy_state := st; tsy_calls := <[ t := (call, start, ph') ]> (tsy_calls s) |}
      | _ => s
      end
    | None => s
    end
  | ta_cleanup => match cleanup (tsy_state s) with (Val _, st) => {| tsy_state := st; tsy_calls := tsy_calls s |} | _ => s end
  | ta_world w => {| tsy_state := ((tsy_state s).1, w); tsy_calls := tsy_calls s |}
  end.
Definition enabled (a : token_action (W:=Z)) (s : token_system Z) : bool :=
  match a with
  | ta_call t _ => bool_decide (tsy_calls s !! t = None)
  | ta_run t =>
    match tsy_calls s !! t with
    | Some (call, start, ph) => match token_phase_step ascii_print call ph (tsy_state s) with (Val _, _) => true | _ => false end
    | None => false
    end
  | ta_cleanup => match cleanup (tsy_state s) with (Val _, _) => true | _ => false end
  | ta_world w => ((tsy_state s).2 <=? w)%Z
  end.
Fixpoint all_enabled (l : list token_action) (s : token_system Z) : bool :=
  match l with [] => true | a :: l => enabled a s && all_enabled l (next_state a s) end.

Lemma next_reachable l s :
  token_sys_reachable ascii_print s → all_enabled l s = true → token_sys_reachable ascii_print (foldl (λ s a, next_state a s) s l).
Proof.
  revert s. induction l as [|a l IH]; [done|]. intros s Hs [Ha Hl]%andb_true_iff. cbn. apply IH; [|done].
  apply (tsr_step _ a s); [done|]. destruct a as [t call|t| |w]; cbn in *.
  - apply tss_call. by apply bool_decide_eq_true in Ha.
  - destruct (tsy_calls s !! t) as [[[call start] ph]|] eqn:Et; [|done].
    destruct (token_phase_step ascii_print call ph (tsy_state s)) as [[ph'|] st] eqn:E; [|done]. by eapply tss_run.
  - destruct (cleanup (tsy_state s)) as [[[]|] st] eqn:E; [|done]. by apply tss_cleanup.
  - apply tss_world. by apply Z.leb_le.
Qed.

Definition token_race : list token_action :=
  [ta_call 1 app_call; ta_call 2 app_call; ta_run 1; ta_run 2; ta_run 1; ta_run 2; ta_run 1; ta_run 2;
   ta_run 1; ta_world (4600 * Second); ta_cleanup; ta_run 2].
Definition after_token_race : token_system Z := foldl (λ s a, next_state a s) calls_start token_race.

Lemma GetServiceAccountToken_concurrent_witness : ∃ tok start,
  tsy_calls after_token_race !! 2%nat = Some (app_call, start, TReturned None (Ok tok)) ∧
  fixture_text ("app", "shop", Some ["vault"], 600, zero_ref) tok.
Proof.
  assert (HR : token_sys_reachable ascii_print after_token_race).
  { apply next_reachable; [apply tsr_new|vm_compute; reflexivity]. }
  assert (HC : ∃ tok start, tsy_calls after_token_race !! 2%nat = Some (app_call, start, TReturned None (Ok tok)))
    by (do 2 eexists; vm_compute; reflexivity).
  destruct HC as (tok & start & HC). exists tok, start. split; [exact HC|].
  refine (proj1 (proj2 (GetServiceAccountToken_concurrent ascii_print fixture_text after_token_race 2 _ _ _ start _ _ _ HR HC))).
  - intros ns n tr w t Ht. exact (proj1 (fixture_answer _ _ _ _ _ Ht)).
  - intros ns n tr w t Ht. exact (proj2 (fixture_answer _ _ _ _ _ Ht)).
Defined.
