(* ===== verification/TokenPreempted.v ===== *)
(** * The token cache while the clean-up goroutine runs

    The second implementation of [TokenGetter]: a call of
    [GetServiceAccountToken] in its pieces ([token_phase_step]), and wherever it
    does not hold the lock of the cache the goroutine of [NewManager] may clean
    up, as often as a scheduler says, while time passes. *)

From stdpp Require Import strings gmap list.
From S2P Require Import Prelude GoTime Token TokenFixture TokenSpec TokenConcurrent.

Open Scope Z_scope.

(** How often the clean-up runs when the cache is next free.  The world is
    arbitrary, so any schedule is one of these. *)
Class Preempt (W : Type) := { pr_cleanups : W → nat * W }.
Class PreemptLaws (W : Type) `{TokenEnv W, !TokenEnvLaws W, Preempt W} := {
  pr_cleanups_instant w : instant w ≤ instant (pr_cleanups w).2;
}.

Section preempted.
Context (IsPrint_table : N → bool).
Context {W : Type} `{TokenEnv W, Preempt W}.
Local Notation TM := (GoM (Manager * W)).

Fixpoint cleanups (n : nat) : TM unit :=
  match n with O => mret tt | S n => _ ← cleanup; cleanups n end.
Definition preempt : TM unit := n ← outside pr_cleanups; cleanups n.

(** The pieces of a call from a point on; [rank] of them are left. *)
Fixpoint run_phases (fuel : nat) (call : token_call) (ph : token_phase) : TM (result TokenRequest) :=
  _ ← preempt;
  match ph, fuel with
  | TReturned _ res, _ => mret res
  | _, O => panic "not returned"
  | _, S fuel => ph ← token_phase_step IsPrint_table call ph; run_phases fuel call ph
  end.
Definition GetServiceAccountToken_preempted (namespace name : string) (tr : TokenRequest) : TM (result TokenRequest) :=
  run_phases (rank TCalled) (namespace, name, tr) TCalled.

Context `{!TokenEnvLaws W, !PreemptLaws W}.
Context (G : string * string * option (list string) * Z * BoundObjectReference → TokenRequest → Prop).
Notation ok_state := (λ s : Manager * W, cache_ok IsPrint_table G (m_cache s.1)).

Lemma wp_cleanups n Q (s : Manager * W) :
  ok_state s → (∀ s', moved s s' → ok_state s' → Q (Val tt) s') → wp (cleanups n) Q s.
Proof.
  revert Q s. induction n as [|n IH]; intros Q s Hc HQ; cbn [cleanups].
  { wp_steps. apply HQ; [by split|done]. }
  assert (wp cleanup (λ o s', o = Val tt ∧ moved s s') s) as Hm by (by apply wp_cleanup).
  wp_step. eapply wp_mono; [exact (wp_conj _ _ _ _ Hm (cleanup_ok IsPrint_table G s Hc))|].
  intros o s1 [[-> [Hcl Hi]] Hc1]. apply IH; [done|]. intros s' [??] ?. apply HQ; [split; [congruence|lia]|done].
Qed.

Lemma wp_preempt Q (s : Manager * W) :
  ok_state s → (∀ s', moved s s' → ok_state s' → Q (Val tt) s') → wp preempt Q s.
Proof.
  intros Hc HQ. unfold preempt. wp_step. apply wp_outside. pose proof (pr_cleanups_instant s.2).
  apply wp_cleanups; [done|]. intros s' [Hcl Hi] ?. cbn in *. apply HQ; [split; [done|lia]|done].
Qed.

(** One piece: it keeps its promise and is one less to go. *)
Lemma wp_token_phase_next lo call ph Q (s : Manager * W) :
  issues G → lo ≤ instant s.2 → ok_state s → token_phase_ok IsPrint_table G lo (instant s.2) (m_client s.1) call ph →
  (∀ ph' s', moved s s' → ok_state s' → token_phase_ok IsPrint_table G lo (instant s'.2) (m_client s'.1) call ph' →
     (rank ph' ≤ pred (rank ph))%nat → Q (Val ph') s') →
  wp (token_phase_step IsPrint_table call ph) Q s.
Proof.
  intros HG Hlo Hc Hp HQ. pose proof (token_phase_rank IsPrint_table call ph s) as Hr.
  assert (wp (token_phase_step IsPrint_table call ph) (λ o s', ∃ ph', o = Val ph' ∧ moved s s' ∧ ok_state s' ∧
    token_phase_ok IsPrint_table G lo (instant s'.2) (m_client s'.1) call ph') s) as Hk.
  { eapply wp_token_phase; eauto 6. }
  eapply wp_mono; [exact (wp_conj _ _ _ _ Hr Hk)|].
  intros o s' [(ph' & -> & ?) (? & [= <-] & ? & ? & ?)]. by apply HQ.
Qed.

(** Whatever clean-ups come in between, a call returns with what a call in a
    system of many returns with. *)
Lemma wp_run_phases lo fuel call ph Q (s : Manager * W) :
  issues G → (rank ph ≤ fuel)%nat → lo ≤ instant s.2 → ok_state s →
  token_phase_ok IsPrint_table G lo (instant s.2) (m_client s.1) call ph →
  (∀ ctr res s', moved s s' → ok_state s' →
     token_phase_ok IsPrint_table G lo (instant s'.2) (m_client s'.1) call (TReturned ctr res) → Q (Val res) s') →
  wp (run_phases fuel call ph) Q s.
Proof.
  intros HG. revert ph Q s. induction fuel as [|fuel IH]; intros ph Q s Hr Hlo Hc Hp HQ; cbn [run_phases];
    wp_step; apply wp_preempt; [done| |done|]; intros s1 Hm1 Hc1;
    destruct (calls_moved IsPrint_table G s s1 lo call ph Hm1 (conj Hlo Hp)) as [Hlo1 Hp1].
  - destruct ph; cbn [rank] in Hr; try lia. wp_steps. by eapply HQ.
  - assert (wp (ph' ← token_phase_step IsPrint_table call ph; run_phases fuel call ph') Q s1) as Hnext.
    { wp_step. apply (wp_token_phase_next lo); [done..|]. intros ph' s' [Hcl Hi] Hc' Hp' Hr'.
      destruct Hm1 as [Hcl1 Hi1]. apply IH; [lia|lia|done|done|].
      intros ctr res s2 [??] ? ?. eapply HQ; [split; [congruence|lia]|done|done]. }
    destruct ph; [exact Hnext..|]. wp_steps. by eapply HQ.
Qed.
End preempted.

#[export] Instance preempted {W : Type} `{TokenEnv W, Preempt W} : TokenGetter W | 50 :=
  {| tg_GetServiceAccountToken := λ IsPrint_table, GetServiceAccountToken_preempted IsPrint_table |}.

#[export] Instance preempted_laws {W : Type} `{TokenEnv W, !TokenEnvLaws W, Preempt W, !PreemptLaws W} :
  TokenGetterLaws W (H0 := preempted).
Proof.
  split. intros IsPrint_table G ns n tr Q s HG Hc HQ.
  cbn [tg_GetServiceAccountToken preempted]. unfold GetServiceAccountToken_preempted.
  apply (wp_run_phases IsPrint_table G (instant s.2)); [done|done|done|done|done|].
  intros ctr res s' Hm Hc' Hp. apply HQ; [done..|]. destruct res as [t|e]; [by destruct Hp|].
  destruct Hp as [(err & Hr & _) _]. exists err. by destruct Hm as [<- _].
Qed.

(** With no clean-up due, nothing but the call happens. *)
Section quiet.
Context (IsPrint_table : N → bool).
Context {W : Type} `{TokenEnv W, Preempt W}.
Hypothesis quiet : ∀ w, pr_cleanups w = (O, w).

Fixpoint pieces (n : nat) (call : token_call) (ph : token_phase) : GoM (Manager * W) (result TokenRequest) :=
  match n with
  | O => match ph with TReturned _ res => mret res | _ => panic "not returned" end
  | S n => ph ← token_phase_step IsPrint_table call ph; pieces n call ph
  end.

Lemma pieces_returned n call ctr res (s : Manager * W) : pieces n call (TReturned ctr res) s = (Val res, s).
Proof. induction n as [|n IH]; [done|]. by destruct call as [[??]?]. Qed.

Lemma run_phases_pieces fuel call ph (s : Manager * W) : run_phases IsPrint_table fuel call ph s = pieces fuel call ph s.
Proof.
  assert (∀ s : Manager * W, preempt s = (Val tt, s)) as Hp.
  { intros [m w]. unfold preempt, mbind, GoM_bind, outside. cbn. by rewrite quiet. }
  revert ph s. induction fuel as [|fuel IH]; intros ph s; cbn [run_phases]; unfold mbind at 1, GoM_bind at 1; rewrite Hp.
  - by destruct ph.
  - assert ((ph' ← token_phase_step IsPrint_table call ph; run_phases IsPrint_table fuel call ph') s = pieces (S fuel) call ph s) as E.
    { cbn [pieces]. unfold mbind, GoM_bind. destruct (token_phase_step _ _ _ s) as [[ph'|p] s']; [apply IH|done]. }
    destruct ph; [exact E..|]. by rewrite pieces_returned.
Qed.

Lemma preempted_undisturbed ns n tr (s : Manager * W) :
  GetServiceAccountToken_preempted IsPrint_table ns n tr s = GetServiceAccountToken IsPrint_table ns n tr s.
Proof. rewrite GetServiceAccountToken_in_pieces. apply run_phases_pieces. Qed.
End quiet.
