(* ===== verification/ControllerFixture.v ===== *)
(** * The provider builder as the controller's interface, and a concrete cluster

    [PluginClientBuilder] implements [AllClientBuilder].  The cluster of the
    witnesses has one SecretSync and one SecretProviderClass, switches for the
    errors of the API server, the token server of TokenFixture TokenPreempted.v and the
    provider sockets of ProviderFixture.v. *)

From stdpp Require Import strings gmap list.
From S2P Require Import Prelude GoText GoTime ApiTypes SecretUtil CryptoFixture Token TokenFixture TokenPreempted Provider ProviderFixture ProviderSpec ControllerEnv StateHash Conditions Reconciler.

Open Scope nat_scope.

(** ** The builder implements the interface *)

#[export] Instance builder_clients (IsPrint_table : N → bool) {W Conn Client} `{Grpc W Conn Client} :
  AllClientBuilder (PluginClientBuilder Conn Client) W Client := {| acb_Get := Provider.Get IsPrint_table |}.

#[export] Instance builder_clients_laws IsPrint_table {W Conn Client} `{Grpc W Conn Client} :
  AllClientBuilderLaws (PluginClientBuilder Conn Client) W Client (H:=builder_clients IsPrint_table).
Proof.
  split. intros p s. pose proof (Get_got IsPrint_table p s) as HG. unfold wp, got in HG. cbn [acb_Get builder_clients].
  destruct (Provider.Get IsPrint_table p s) as [o s']. cbn [fst snd] in HG.
  destruct (pcb_clients s.1 !! p); [destruct HG as [-> _]; eauto|].
  destruct HG as ([conn|e] & _ & [-> _]); eauto.
Qed.

(** ** The cluster *)

Record kworld := {
  kw_now : Z;
  kw_ss : result (SecretSync (option smap));
  kw_spc : result (SecretProviderClass (option smap));
  kw_patch_error : option error;
  kw_update_error : option error;
  kw_mount : result (option MountResponse);
  kw_sockets : pworld;
}.

Definition kw_move (now : Z) (sockets : pworld) (w : kworld) : kworld := {|
  kw_now := now; kw_ss := kw_ss w; kw_spc := kw_spc w; kw_patch_error := kw_patch_error w;
  kw_update_error := kw_update_error w; kw_mount := kw_mount w; kw_sockets := sockets |}.
Definition kw_store (ss : SecretSync (option smap)) (w : kworld) : kworld := {|
  kw_now := kw_now w; kw_ss := Ok ss; kw_spc := kw_spc w; kw_patch_error := kw_patch_error w;
  kw_update_error := kw_update_error w; kw_mount := kw_mount w; kw_sockets := kw_sockets w |}.

(** The cluster's clock and token server are those of TokenFixture.v. *)
Definition on_now {A} (f : Z → A * Z) (w : kworld) : A * kworld :=
  let '(a, now) := f (kw_now w) in (a, kw_move now (kw_sockets w) w).
Definition on_sockets {A} (f : pworld → A * pworld) (w : kworld) : A * kworld :=
  let '(a, p) := f (kw_sockets w) in (a, kw_move (kw_now w) p w).

#[export] Instance kworld_tokens : TokenEnv kworld := {
  te_CreateToken := λ ns n tr, on_now (te_CreateToken ns n tr);
  te_ServerResources := λ g, on_now (te_ServerResources g);
  te_IsNotFound := te_IsNotFound (W:=Z);
  te_clock := on_now (te_clock (W:=Z));
  te_jitter := on_now (te_jitter (W:=Z));
}.

#[export] Instance kworld_clock_laws : ClockLaws kworld.
Proof. refine {| instant := kw_now |}. intros w. simpl. lia. Defined.

#[export] Instance kworld_token_laws : TokenEnvLaws kworld.
Proof.
  refine {| te_clock_laws := kworld_clock_laws |}.
  - intros w. simpl. lia.
  - intros w. simpl. lia.
  - intros ns n tr w. cbn. unfold on_now. pose proof (te_CreateToken_instant ns n tr (kw_now w)) as Hi.
    cbn in Hi. by destruct (fixture_CreateToken ns n tr (kw_now w)).
  - intros g w. simpl. lia.
Defined.

(** Whenever the cache is free, the clean-up gets two turns. *)
#[export] Instance kworld_preempt : Preempt kworld := { pr_cleanups w := (2%nat, w) }.
#[export] Instance kworld_preempt_laws : PreemptLaws kworld.
Proof. split. intros w. cbn. lia. Defined.

#[export] Instance kworld_grpc : Grpc kworld nat nat := {
  grpc_NewClient := λ t opts, on_sockets (grpc_NewClient (W:=pworld) (Client:=nat) t opts);
  Conn_Close := λ c, on_sockets (Conn_Close (W:=pworld) (Client:=nat) c);
  NewCSIDriverProviderClient := λ c, c;
  os_Stat := λ p, on_sockets (fixture_stat p);
  os_Lstat := λ p, on_sockets (fixture_stat p);
  IsRuntimeWindows := false;
}.
#[export] Instance kworld_provider : CSIDriverProvider kworld nat := {
  csi_Mount := λ _ _ w, (kw_mount w, w);
  csi_Version := λ _ _ w, (Ok "v0.1", w);
}.

(** An object from the API server: its maps get new references. *)
Definition load_map (m : option smap) (h : heap) : mapref * heap :=
  match m with None => (None, h) | Some m => let l := fresh (dom h) in (Some l, <[ l := m ]> h) end.

Definition load_ss (ss : SecretSync (option smap)) (h : heap) : SecretSync mapref * heap :=
  let o := sss_SecretObject (ss_Spec ss) in
  let '(labels, h) := load_map (so_Labels o) h in
  let '(annotations, h) := load_map (so_Annotations o) h in
  ({| ss_TypeMeta := ss_TypeMeta ss; ss_ObjectMeta := ss_ObjectMeta ss; ss_Status := ss_Status ss;
      ss_Spec := {| sss_SecretSyncControllerName := sss_SecretSyncControllerName (ss_Spec ss);
        sss_SecretProviderClassName := sss_SecretProviderClassName (ss_Spec ss);
        sss_ServiceAccountName := sss_ServiceAccountName (ss_Spec ss);
        sss_ForceSynchronization := sss_ForceSynchronization (ss_Spec ss);
        sss_SecretObject := {| so_Type := so_Type o; so_Data := so_Data o;
          so_Labels := labels; so_Annotations := annotations |} |} |}, h).
Definition load_spc (spc : SecretProviderClass (option smap)) (h : heap) : SecretProviderClass mapref * heap :=
  let '(params, h) := load_map (spc_Parameters spc) h in
  ({| spc_UID := spc_UID spc; spc_Generation := spc_Generation spc; spc_Provider := spc_Provider spc;
      spc_Parameters := params |}, h).

(** The status is stored under a new resource version. *)
Definition new_version {M} (ss : SecretSync M) : SecretSync M := {|
  ss_TypeMeta := ss_TypeMeta ss; ss_Spec := ss_Spec ss; ss_Status := ss_Status ss;
  ss_ObjectMeta := {| om_Name := om_Name (ss_ObjectMeta ss); om_Namespace := om_Namespace (ss_ObjectMeta ss);
    om_UID := om_UID (ss_ObjectMeta ss); om_Generation := om_Generation (ss_ObjectMeta ss);
    om_ResourceVersion := om_ResourceVersion (ss_ObjectMeta ss) +:+ "+" |} |}.

(** A condition is stamped when it is new or its status changes. *)
Definition stamp (now : Z) (cs : list Condition) (c : Condition) : Condition := {|
  cond_Type := cond_Type c; cond_Status := cond_Status c; cond_Reason := cond_Reason c; cond_Message := cond_Message c;
  cond_LastTransitionTime :=
    match find_cond (cond_Type c) cs with
    | Some old => if bool_decide (cond_Status old = cond_Status c) then cond_LastTransitionTime old else now
    | None => now
    end |}.

#[export] Instance kworld_client : KubeClient kworld := {
  kc_GetSecretSync := λ _ _ hw,
    match kw_ss hw.2 with
    | Ok ss => let '(ss, h) := load_ss ss hw.1 in (Ok ss, (h, hw.2))
    | Err e => (Err e, hw)
    end;
  kc_GetSecretProviderClass := λ _ _ hw,
    match kw_spc hw.2 with
    | Ok spc => let '(spc, h) := load_spc spc hw.1 in (Ok spc, (h, hw.2))
    | Err e => (Err e, hw)
    end;
  kc_StatusUpdate := λ ss hw,
    match kw_update_error hw.2 with
    | Some e => ((ss, Some e), hw)
    | None => ((new_version ss, None), (hw.1, kw_store (read_ss hw.1 (new_version ss)) hw.2))
    end;
  kc_PatchSecret := λ _ _ _ _ w, (kw_patch_error w, w);
  kc_SetStatusCondition := λ cs c w, (put_cond (stamp (kw_now w) cs c) cs, w);
}.

Lemma load_map_spec m h : let '(ref, h') := load_map m h in h ⊆ h' ∧ ref_ok h' ref.
Proof.
  destruct m as [m|]; simpl; [|done]. assert (h !! fresh (dom h) = None) as Hf by apply not_elem_of_dom, is_fresh.
  split; [by apply insert_subseteq|]. rewrite lookup_insert_eq. by eexists.
Qed.

#[export] Instance kworld_client_laws : KubeClientLaws kworld.
Proof.
  split.
  - intros ns n h w. cbn. destruct (kw_ss w) as [ss|e]; [|done]. unfold load_ss.
    pose proof (load_map_spec (so_Labels (sss_SecretObject (ss_Spec ss))) h) as HL.
    destruct (load_map _ h) as [labels h1]. destruct HL as [F1 O1].
    pose proof (load_map_spec (so_Annotations (sss_SecretObject (ss_Spec ss))) h1) as HA.
    destruct (load_map _ h1) as [annotations h2]. destruct HA as [F2 O2].
    split; [by transitivity h1|]. unfold ss_refs, so_refs. simpl.
    constructor; [by eapply ref_ok_frame|]. by constructor.
  - intros ns n h w. cbn. destruct (kw_spc w) as [spc|e]; [|done]. unfold load_spc.
    pose proof (load_map_spec (spc_Parameters spc) h) as HL. by destruct (load_map _ h).
  - intros ss h w Hok. cbn. destruct (kw_update_error w); [done|]. by split_and!; [|exact Hok|].
  - intros cs c w. exists (stamp (kw_now w) cs c). by repeat split.
Qed.

(** ** A SecretSync that has not been synced yet *)

Definition cluster_ss (status : SecretSyncStatus) : SecretSync (option smap) := {|
  ss_TypeMeta := {| tm_Kind := "SecretSync"; tm_APIVersion := "secret-sync.x-k8s.io/v1alpha1" |};
  ss_ObjectMeta := {| om_Name := "db"; om_Namespace := "shop"; om_UID := "8a2"; om_Generation := 1; om_ResourceVersion := "7" |};
  ss_Spec := {| sss_SecretSyncControllerName := EmptyString; sss_SecretProviderClassName := "spc";
    sss_ServiceAccountName := "app"; sss_ForceSynchronization := EmptyString;
    sss_SecretObject := {| so_Type := "Opaque";
      so_Data := [{| sod_SourcePath := "password"; sod_TargetKey := "pw" |}];
      so_Labels := Some {[ "team" := "web" ]}; so_Annotations := None |} |};
  ss_Status := status |}.
Definition status_new : SecretSyncStatus :=
  {| st_SyncHash := EmptyString; st_LastSuccessfulSyncTime := None; st_Conditions := None |}.
Definition cluster_spc (params : option smap) : SecretProviderClass (option smap) :=
  {| spc_UID := "6f1"; spc_Generation := 3; spc_Provider := "vault"; spc_Parameters := params |}.

Definition cluster (status : SecretSyncStatus) (params : option smap) (patch_error : option error) : kworld := {|
  kw_now := 1000 * Second;
  kw_ss := Ok (cluster_ss status);
  kw_spc := Ok (cluster_spc params);
  kw_patch_error := patch_error; kw_update_error := None;
  kw_mount := Ok (Some fixture_response);
  kw_sockets := provider_start.2 |}.

Definition controller : SecretSyncReconciler := {|
  r_Audiences := ["vault"]; r_Getenv := λ v, v; r_IsPrint := ascii_print; r_Time_MarshalJSON := λ _, "T" |}.
Definition controller_start (w : kworld) : rstate (PluginClientBuilder nat nat) kworld nat := {|
  rs_heap := ∅; rs_tokens := NewManager true; rs_providers := NewPluginClientBuilder ["/provider"] [];
  rs_world := w; rs_calls := [] |}.

#[export] Instance cluster_pbkdf2 : Pbkdf2 := toy_pbkdf2.
#[export] Instance cluster_clients : AllClientBuilder (PluginClientBuilder nat nat) kworld nat := builder_clients ascii_print.
#[export] Instance cluster_clients_laws : AllClientBuilderLaws (PluginClientBuilder nat nat) kworld nat :=
  builder_clients_laws ascii_print.

Definition run_controller (s : rstate (PluginClientBuilder nat nat) kworld nat) :
    outcome (option error) * rstate (PluginClientBuilder nat nat) kworld nat :=
  Reconcile controller "shop" "db" s.
Definition params1 : smap := {[ "vault" := "v" ]}.
