(* ===== verification/ReconcilerSteps.v ===== *)
(** * What a [Reconcile] does, abstractly, and that it does it

    [object_outcome] and [reconcile_outcome] list what a call can amount to:
    the requests in order with their answers, and the result.  They speak of
    objects as the API server sees them, with no heap, no token cache and no
    intermediate state.  [wp_Reconcile] shows that every run is one of these,
    and that no map that existed before has changed. *)

From stdpp Require Import strings gmap list.
From S2P Require Import Prelude GoText GoFmt GoJson GoStrings GoTime ApiTypes SecretUtil Token TokenSpec Provider ControllerEnv Conditions StateHash Reconciler.

Open Scope nat_scope.

Definition conditions {M} (ss : SecretSync M) : list Condition := default [] (st_Conditions (ss_Status ss)).

(** [ss'] is [ss] with a condition put. *)
Definition reported {M} (ty status reason message : string) (ss ss' : SecretSync M) : Prop :=
  ∃ c, reports (new_condition ty status reason message) c ∧ ss' = with_conditions (put_cond c (conditions ss)) ss.

(** The label and annotation check. *)
Definition label_error (o : SecretObject (option smap)) : option (string * error) :=
  if match map_get (so_Labels o) controllerLabelKey with Some val => 0 <? String.length val | None => false end then
    Some (ConditionReasonFailedInvalidLabelError,
          errors_New ("label " +:+ controllerLabelKey +:+ " is reserved for use by the Secrets Store Sync Controller"))
  else match map_get (so_Annotations o) controllerAnnotationKey with
  | Some _ => Some (ConditionReasonFailedInvalidAnnotationError,
      errors_New ("annotation " +:+ controllerAnnotationKey +:+ " is reserved for use by the Secrets Store Sync Controller"))
  | None => None
  end.

(** The Secret that is applied for a SecretSync. *)
Definition secret_of (ss : wire_ss) (data : gmap string slice) : Secret := {|
  sec_TypeMeta := {| tm_Kind := "Secret"; tm_APIVersion := "v1" |};
  sec_Name := om_Name (ss_ObjectMeta ss);
  sec_Namespace := om_Namespace (ss_ObjectMeta ss);
  sec_Labels := Some (<[ controllerLabelKey := EmptyString ]> (default ∅ (so_Labels (sss_SecretObject (ss_Spec ss)))));
  sec_Annotations := so_Annotations (sss_SecretObject (ss_Spec ss));
  sec_OwnerReferences :=
    [{| or_APIVersion := tm_APIVersion (ss_TypeMeta ss); or_Kind := tm_Kind (ss_TypeMeta ss);
        or_Name := om_Name (ss_ObjectMeta ss); or_UID := om_UID (ss_ObjectMeta ss) |}];
  sec_Data := data;
  sec_Type := so_Type (sss_SecretObject (ss_Spec ss)) |}.
Definition patch_of {Client} (ss : wire_ss) (data : gmap string slice) (err : option error) : api_call Client :=
  PatchSecret (om_Namespace (ss_ObjectMeta ss)) (om_Name (ss_ObjectMeta ss)) secretSyncControllerFieldManager
    (secret_of ss data) err.

Section steps.
Context {P W Client : Type}.
Context `{Clock W, TokenGetter W, KubeClient W, AllClientBuilder P W Client, CSIDriverProvider W Client}.
Context `{Pem, Pkcs12, X509, Pbkdf2}.
Context (r : SecretSyncReconciler).

(** The parameters sent to the provider: the service account tokens, over the
    four values of the controller, over the parameters of the class. *)
Definition provider_params (params : smap) (namespace saName : string) (tokens : option smap) : smap :=
  default ∅ tokens ∪
  <[ csiPodServiceAccountName := saName ]>
  (<[ csiPodNamespace := namespace ]>
  (<[ csiPodUID := r_Getenv r syncControllerPodUID ]>
  (<[ csiPodName := r_Getenv r syncControllerPodName ]> params))).

(** The data of the Secret that the files give. *)
Definition secret_data (ss : wire_ss) (files : gmap string slice) : option (gmap string slice * option error) :=
  BuildKubeSecretData (so_Data (sss_SecretObject (ss_Spec ss))) (so_Type (sss_SecretObject (ss_Spec ss))) files.

Definition asked_client (spc : wire_spc) : outcome (result Client) → api_call Client := GotClient (spc_Provider spc).
Definition asked_tokens (ss : wire_ss) : outcome (result (option smap)) → api_call Client :=
  GotTokens (om_Namespace (ss_ObjectMeta ss)) (sss_ServiceAccountName (ss_Spec ss)).
(** The mount request: parameters of the class, the identity and the tokens; no
    secrets. *)
Definition asked_mount (ss : wire_ss) (client : Client) (params : smap) (tokens : option smap) :
    outcome (result (gmap string string * gmap string slice)) → api_call Client :=
  Mounted client
    (json_string_map (Some (provider_params params (om_Namespace (ss_ObjectMeta ss))
                              (sss_ServiceAccountName (ss_Spec ss)) tokens)))
    (json_string_map (Some ∅)).

(** Fetching: the requests made, and data, a reason with an error, or a panic;
    the two ways to panic are a class without parameters and a provider that
    sends a nil object version. *)
Inductive fetch_run (spc : wire_spc) (ss : wire_ss) :
    outcome (stage (gmap string slice)) → list (api_call Client) → Prop :=
| fr_client err :
    fetch_run spc ss (Val (Failed ConditionReasonControllerSpcError err)) [asked_client spc (Val (Err err))]
| fr_tokens client err :
    fetch_run spc ss (Val (Failed ConditionReasonControllerSyncError err))
      [asked_client spc (Val (Ok client)); asked_tokens ss (Val (Err err))]
| fr_no_params client tokens :
    spc_Parameters spc = None →
    fetch_run spc ss (Panic "assignment to entry in nil map") [asked_client spc (Val (Ok client)); asked_tokens ss (Val (Ok tokens))]
| fr_mount client tokens params answer out :
    spc_Parameters spc = Some params →
    match answer with
    | Panic p => out = Panic p
    | Val (Err err) => out = Val (Failed ConditionReasonFailedProviderError err)
    | Val (Ok (_, files)) =>
      match secret_data ss files with
      | Some (_, Some err) => out = Val (Failed ConditionReasonRemoteSecretStoreFetchFailed err)
      | Some (data, None) => out = Val (Passed data)
      | None => False
      end
    end →
    fetch_run spc ss out
      [asked_client spc (Val (Ok client)); asked_tokens ss (Val (Ok tokens)); asked_mount ss client params tokens answer].

Definition asked_class (ns : string) (ss : wire_ss) : result wire_spc → api_call Client :=
  GotClass ns (sss_SecretProviderClassName (ss_Spec ss)).

(** Why an object is not synced, with the reason and message of its condition,
    and the requests made until then. *)
Inductive refusal (ns : string) (ss : wire_ss) : string → string → error → list (api_call Client) → Prop :=
| ref_label reason err : label_error (sss_SecretObject (ss_Spec ss)) = Some (reason, err) →
    refusal ns ss reason (Error err) err []
| ref_class err : label_error (sss_SecretObject (ss_Spec ss)) = None →
    refusal ns ss ConditionReasonControllerSpcError
      ("failed to get SecretProviderClass " +:+ Quote (r_IsPrint r) (sss_SecretProviderClassName (ss_Spec ss)) +:+ ": " +:+ Error err)
      err [asked_class ns ss (Err err)]
| ref_fetch spc reason err pre : label_error (sss_SecretObject (ss_Spec ss)) = None →
    fetch_run spc ss (Val (Failed reason err)) pre →
    refusal ns ss reason ("fetching secrets from the provider failed: " +:+ Error err) err
      (asked_class ns ss (Ok spc) :: pre).

(** The requests that lead to the data and its hash. *)
Definition observed (ns : string) (ss : wire_ss) (data : gmap string slice) (hash : string)
    (pre : list (api_call Client)) : Prop :=
  ∃ spc fetch, label_error (sss_SecretObject (ss_Spec ss)) = None ∧
    pre = asked_class ns ss (Ok spc) :: fetch ∧ fetch_run spc ss (Val (Passed data)) fetch ∧
    computeCurrentStateHash data spc ss = Ok hash.

(** The conditions a sync claims before it patches. *)
Definition claimed (ct : string) (changed : bool) (ss ss' : wire_ss) : Prop :=
  if bool_decide (ct = ConditionTypeCreate) then
    ∃ ss1, reported ct ConditionTrue ConditionReasonCreateSuccessful ConditionMessageCreateSuccessful ss ss1 ∧
           reported ConditionTypeUpdate ConditionTrue ConditionReasonSecretUpToDate ConditionMessageUpdateSuccessful ss1 ss'
  else if changed then
    reported ct ConditionTrue ConditionReasonSecretUpToDate ConditionMessageUpdateSuccessful ss ss'
  else ss' = ss.

Definition patch_error (ss : wire_ss) (err : error) : string :=
  "failed to patch secret " +:+ Quote (r_IsPrint r) (om_Name (ss_ObjectMeta ss)) +:+ ": " +:+ Error err.

(** What becomes of an object with its conditions initialised. *)
Inductive object_outcome (ns ct : string) (ss : wire_ss) : outcome (option error) → list (api_call Client) → Prop :=
| oo_refused reason message err pre ss' e :
    refusal ns ss reason message err pre → reported ct ConditionFalse reason message ss ss' →
    object_outcome ns ct ss (Val (Some err)) (pre ++ [StatusUpdate ss' e])
| oo_unchanged data pre :
    observed ns ss data (st_SyncHash (ss_Status ss)) pre → failedCondition ss = None →
    object_outcome ns ct ss (Val None) pre
| oo_patch_failed data hash pre changed ss1 ss2 err e :
    observed ns ss data hash pre → changed = negb (bool_decide (hash = st_SyncHash (ss_Status ss))) →
    is_Some (failedCondition ss) ∨ changed = true →
    claimed ct changed ss ss1 →
    reported ct ConditionFalse ConditionReasonControllerPatchError (patch_error ss err) ss1 ss2 →
    object_outcome ns ct ss (Val (Some err)) (pre ++ [patch_of ss data (Some err); StatusUpdate ss2 e])
| oo_patched data hash pre changed ss1 now e :
    observed ns ss data hash pre → changed = negb (bool_decide (hash = st_SyncHash (ss_Status ss))) →
    is_Some (failedCondition ss) ∨ changed = true →
    claimed ct changed ss ss1 →
    object_outcome ns ct ss (Val e) (pre ++ [patch_of ss data None; StatusUpdate (with_sync hash (Some now) ss1) e])
| oo_panic spc p pre :
    label_error (sss_SecretObject (ss_Spec ss)) = None → fetch_run spc ss (Panic p) pre →
    object_outcome ns ct ss (Panic p) (asked_class ns ss (Ok spc) :: pre).

(** Both conditions set to unknown. *)
Definition initialised (ss ss' : wire_ss) : Prop :=
  ∃ ss1, reported ConditionTypeCreate ConditionUnknown ConditionReasonSyncStarting EmptyString ss ss1 ∧
         reported ConditionTypeUpdate ConditionUnknown ConditionReasonNoUpdateAttemptedYet EmptyString ss1 ss'.

(** What reading the SecretSync answers in a state. *)
Definition read_answer (s : rstate P W Client) (ns name : string) (res : result wire_ss) : Prop :=
  let '(o, (h', _)) := kc_GetSecretSync ns name (rs_heap s, rs_world s) in
  res = match o with Ok ss => Ok (read_ss h' ss) | Err e => Err e end.

Lemma read_answer_det s ns name res res' : read_answer s ns name res → read_answer s ns name res' → res = res'.
Proof. unfold read_answer. destruct (kc_GetSecretSync _ _ _) as [o [h w]]. congruence. Qed.

Inductive reconcile_outcome (s : rstate P W Client) (ns name : string) : outcome (option error) → list (api_call Client) → Prop :=
| ro_unread err : read_answer s ns name (Err err) → reconcile_outcome s ns name (Val (Some err)) []
| ro_uninitialised ss ss' err :
    read_answer s ns name (Ok ss) → length (conditions ss) < 2 → initialised ss ss' →
    reconcile_outcome s ns name (Val (Some err)) [StatusUpdate ss' (Some err)]
| ro_initialised ss ss' ss'' o calls :
    read_answer s ns name (Ok ss) → length (conditions ss) < 2 → initialised ss ss' → stored_as ss' ss'' →
    object_outcome ns (conditionTypeOf ss) ss'' o calls →
    reconcile_outcome s ns name o (StatusUpdate ss' None :: calls)
| ro_object ss o calls :
    read_answer s ns name (Ok ss) → 2 ≤ length (conditions ss) →
    object_outcome ns (conditionTypeOf ss) ss o calls →
    reconcile_outcome s ns name o calls.
End steps.

(** ** Running the pieces *)

Section lift.
Context {P W Client : Type}.
Implicit Types s : rstate P W Client.

Lemma wp_on_heap {A} (m : GoM heap A) Q s :
  wp m (λ o h, Q o (set_state h (rs_tokens s) (rs_providers s) (rs_world s) s)) (rs_heap s) → wp (on_heap m) Q s.
Proof. unfold wp, on_heap. by destruct (m _). Qed.
Lemma wp_on_tokens {A} (m : GoM (Manager * W) A) Q s :
  wp m (λ o tw, Q o (set_state (rs_heap s) tw.1 (rs_providers s) tw.2 s)) (rs_tokens s, rs_world s) → wp (on_tokens m) Q s.
Proof. unfold wp, on_tokens. by destruct (m _) as [? [??]]. Qed.
Lemma wp_on_providers {A} (m : GoM (P * W) A) Q s :
  wp m (λ o pw, Q o (set_state (rs_heap s) (rs_tokens s) pw.1 pw.2 s)) (rs_providers s, rs_world s) → wp (on_providers m) Q s.
Proof. unfold wp, on_providers. by destruct (m _) as [? [??]]. Qed.
Lemma wp_on_world {A} (m : GoM W A) Q s :
  wp m (λ o w, Q o (set_state (rs_heap s) (rs_tokens s) (rs_providers s) w s)) (rs_world s) → wp (on_world m) Q s.
Proof. unfold wp, on_world. by destruct (m _). Qed.
Lemma wp_on_client {A} (f : heap * W → A * (heap * W)) Q s :
  (let '(a, (h, w)) := f (rs_heap s, rs_world s) in Q (Val a) (set_state h (rs_tokens s) (rs_providers s) w s)) →
  wp (on_client f) Q s.
Proof. unfold wp, on_client. by destruct (f _) as [? [??]]. Qed.

(** The maps there were are unchanged, and these calls were added. *)
Definition extends s s' (calls : list (api_call Client)) : Prop :=
  rs_heap s ⊆ rs_heap s' ∧ rs_calls s' = rs_calls s ++ calls.
Lemma extends_refl s : extends s s [].
Proof. split; [done|]. by rewrite app_nil_r. Qed.
Lemma extends_trans s1 s2 s3 l1 l2 : extends s1 s2 l1 → extends s2 s3 l2 → extends s1 s3 (l1 ++ l2).
Proof. intros [? E1] [? E2]. split; [by transitivity (rs_heap s2)|]. by rewrite E2, E1, app_assoc. Qed.
Lemma extends_quiet s1 s2 s3 l : extends s1 s2 [] → extends s2 s3 l → extends s1 s3 l.
Proof. apply extends_trans. Qed.
Lemma extends_heap s h t p w : rs_heap s ⊆ h → extends s (set_state h t p w s) [].
Proof. intros ?. split; [done|]. by rewrite app_nil_r. Qed.
Lemma extends_same s s' : rs_heap s ⊆ rs_heap s' → rs_calls s' = rs_calls s → extends s s' [].
Proof. intros ? E. split; [done|]. by rewrite E, app_nil_r. Qed.
Lemma extends_call s s' c : extends s s' [] → extends s (add_call c s') [c].
Proof. intros [? E]. split; [done|]. cbn. by rewrite E, app_nil_r. Qed.

Lemma wp_observed_as {A} (f : outcome A → api_call Client) (m : GoM (rstate P W Client) A) Q s :
  wp m (λ o s', Q o (add_call (f o) s')) s → wp (observed_as f m) Q s.
Proof. unfold wp, observed_as. by destruct (m s). Qed.

Context `{KubeClient W, !KubeClientLaws W}.

(** An object whose references are allocated. *)
Definition ss_ok s (ss : SecretSync mapref) : Prop := Forall (ref_ok (rs_heap s)) (ss_refs ss).
Definition wire s (ss : SecretSync mapref) : wire_ss := read_ss (rs_heap s) ss.

Lemma ss_ok_extends s s' l ss : extends s s' l → ss_ok s ss → ss_ok s' ss.
Proof. intros [? _] Hok. apply (Forall_impl (ref_ok (rs_heap s))); [done|]. intros ref. by apply ref_ok_frame. Qed.
Lemma wire_extends s s' l ss : extends s s' l → ss_ok s ss → wire s' ss = wire s ss.
Proof. intros [? _]. by apply read_ss_frame. Qed.

Lemma wp_Status_Update ss Q s :
  ss_ok s ss →
  (∀ ss' err s', extends s s' [StatusUpdate (wire s ss) err] → ss_ok s' ss' →
     match err with None => stored_as (wire s ss) (wire s' ss') | Some _ => ss' = ss end → Q (Val (ss', err)) s') →
  wp (Status_Update ss) Q s.
Proof.
  intros Hok HQ. unfold Status_Update. wp_steps. apply wp_on_client.
  pose proof (kc_StatusUpdate_heap ss (rs_heap s) (rs_world s) Hok) as HL.
  destruct (kc_StatusUpdate ss (rs_heap s, rs_world s)) as [[ss' err] [h w]]. destruct HL as (Hh & Hok' & HS).
  wp_steps. by apply HQ.
Qed.

Lemma wp_Secrets_Patch ns n fm patch Q s :
  (∀ err s', extends s s' [PatchSecret ns n fm patch err] → Q (Val err) s') → wp (Secrets_Patch ns n fm patch) Q s.
Proof.
  intros HQ. unfold Secrets_Patch. wp_steps. apply wp_on_world. wp_steps. by apply HQ.
Qed.

Lemma wp_SetStatusCondition ss ty status reason message Q s :
  (∀ ss' s', extends s s' [] → rs_heap s' = rs_heap s → reported ty status reason message ss ss' → Q (Val ss') s') →
  wp (SetStatusCondition ss (new_condition ty status reason message)) Q s.
Proof.
  intros HQ. unfold SetStatusCondition. wp_steps. apply wp_on_world. wp_steps.
  destruct (kc_SetStatusCondition_put (default [] (st_Conditions (ss_Status ss)))
    (new_condition ty status reason message) (rs_world s)) as (c & Hc & E).
  apply HQ; [by apply extends_heap|done|]. exists c. split; [done|]. by rewrite E.
Qed.

(** The maps of an object do not matter to its status. *)
Lemma reported_wire ty status reason message ss ss' s :
  reported ty status reason message ss ss' → reported ty status reason message (wire s ss) (wire s ss').
Proof. intros (c & Hc & ->). by exists c. Qed.
Lemma reported_refs {M} ty status reason message (ss ss' : SecretSync M) :
  reported ty status reason message ss ss' → ss_refs ss' = ss_refs ss ∧ ss_ObjectMeta ss' = ss_ObjectMeta ss ∧
    ss_TypeMeta ss' = ss_TypeMeta ss ∧ ss_Spec ss' = ss_Spec ss ∧
    st_SyncHash (ss_Status ss') = st_SyncHash (ss_Status ss) ∧
    st_LastSuccessfulSyncTime (ss_Status ss') = st_LastSuccessfulSyncTime (ss_Status ss).
Proof. by intros (c & _ & ->). Qed.
Lemma reported_ok s ty status reason message ss ss' : reported ty status reason message ss ss' → ss_ok s ss → ss_ok s ss'.
Proof. intros [E _]%reported_refs. unfold ss_ok. by rewrite E. Qed.

Lemma wp_condition ss ty status reason message Q s :
  (∀ ss' s', extends s s' [] → rs_heap s' = rs_heap s → reported ty status reason message ss ss' → Q (Val ss') s') →
  wp (updateStatusConditions ss ty status reason message false) Q s.
Proof.
  intros HQ. unfold updateStatusConditions. wp_step. apply wp_SetStatusCondition. intros ss' s' ???. wp_steps. by apply HQ.
Qed.

Lemma wp_report ss ty status reason message Q s :
  ss_ok s ss →
  (∀ v ss' err s', extends s s' [StatusUpdate ss' err] → reported ty status reason message (wire s ss) ss' →
     Q (Val v) s') →
  wp (updateStatusConditions ss ty status reason message true) Q s.
Proof.
  intros Hok HQ. unfold updateStatusConditions. wp_step. apply wp_SetStatusCondition. intros ss' s1 He Hh Hr.
  cbn [negb]. wp_step. apply wp_Status_Update.
  { eapply ss_ok_extends; [done|]. by eapply reported_ok. }
  intros ss2 err s2 He2 _ _. wp_steps. eapply HQ; [by eapply extends_quiet|].
  unfold wire. rewrite Hh. by apply reported_wire.
Qed.

Lemma wp_initConditions ss Q s :
  ss_ok s ss →
  (∀ ss1 ss' err s', initialised (wire s ss) ss1 → extends s s' [StatusUpdate ss1 err] → ss_ok s' ss' →
     match err with None => stored_as ss1 (wire s' ss') | Some _ => True end → Q (Val (ss', err)) s') →
  wp (initConditions ss) Q s.
Proof.
  intros Hok HQ. unfold initConditions.
  wp_step. apply wp_SetStatusCondition. intros ss1 s1 He1 Hh1 Hr1.
  wp_step. apply wp_SetStatusCondition. intros ss2 s2 He2 Hh2 Hr2.
  assert (extends s s2 []) as He by (by eapply extends_quiet).
  apply wp_Status_Update.
  { eapply ss_ok_extends; [exact He|]. eapply reported_ok; [done|]. by eapply reported_ok. }
  intros ss3 err s3 He3 Hok3 Hst. eapply (HQ (wire s2 ss2)); [|by eapply extends_quiet|done|by destruct err].
  unfold wire. rewrite Hh2, Hh1. exists (wire s ss1). split; by apply reported_wire.
Qed.
End lift.

(** ** The stages *)

Lemma wp_map_assign_new h l m k v Q :
  Q (Val tt) (<[ l := <[ k := v ]> m ]> h) → wp (map_assign (Some l) k v) Q (<[ l := m ]> h).
Proof. unfold wp, map_assign. cbn. by rewrite alter_insert_eq. Qed.

Lemma wp_maps_Copy_new h l m src Q :
  Q (Val tt) (<[ l := default ∅ src ∪ m ]> h) → wp (maps_Copy (Some l) src) Q (<[ l := m ]> h).
Proof.
  unfold maps_Copy. destruct src as [src|]; cbn [default from_option id].
  - case_bool_decide as E.
    + rewrite E, (left_id_L ∅ (∪)). by intros ?; wp_steps.
    + unfold wp. cbn. by rewrite alter_insert_eq, range_copy_union.
  - rewrite (left_id_L ∅ (∪)). by intros ?; wp_steps.
Qed.

Lemma wp_alloc m h Q : (∀ l, h !! l = None → Q (Val l) (<[ l := m ]> h)) → wp (alloc m) Q h.
Proof. intros HQ. destruct (alloc_spec m h) as (l & E & Hl). unfold wp. rewrite E. by apply HQ. Qed.

Section stages.
Context {P W Client : Type}.
Context `{TokenEnv W, !TokenEnvLaws W, TokenGetter W, !TokenGetterLaws W}.
Context `{KubeClient W, AllClientBuilder P W Client, CSIDriverProvider W Client}.
Context `{!KubeClientLaws W, !AllClientBuilderLaws P W Client}.
Context `{Pem, Pkcs12, X509, Pbkdf2, !PemLaws}.
Context (r : SecretSyncReconciler).
Implicit Types s : rstate P W Client.

(** No attributes without audiences, otherwise one, the tokens. *)
Definition tokens_ok (tokens : option smap) : Prop :=
  tokens = None ∧ r_Audiences r = [] ∨ ∃ v, tokens = Some {[ tokensKey := v ]}.

Lemma wp_tokens ns sa Q (tw : Manager * W) :
  cache_ok (r_IsPrint r) (λ _ _, True) (m_cache tw.1) →
  (∀ res tw', match res with Ok tokens => tokens_ok tokens | Err _ => True end → Q (Val res) tw') →
  wp (SecretProviderServiceAccountTokenAttrs (r_IsPrint r) (r_Time_MarshalJSON r) ns sa (r_Audiences r)) Q tw.
Proof.
  intros Hc HQ. apply (wp_token_attrs _ _ (λ _ _, True)); [done..|].
  intros [attrs|e] tw' _ _ Hr; apply HQ; [|done]. destruct Hr as [?|(m & -> & _)]; [by left|right; by eexists].
Qed.

Definition labels_of (o : SecretObject mapref) s : SecretObject (option smap) := so_map (read_map (rs_heap s)) o.

Lemma wp_validate o Q s :
  Q (Val (label_error (labels_of o s))) s → wp (validateLabelsAnnotations o) Q s.
Proof. intros HQ. unfold validateLabelsAnnotations. by wp_steps. Qed.

Lemma wp_prepare spc ns sa Q s :
  ref_ok (rs_heap s) (spc_Parameters spc) →
  (∀ tokens s', extends s s' [GotTokens ns sa (Val (Ok tokens))] → read_map (rs_heap s) (spc_Parameters spc) = None →
     Q (Panic "assignment to entry in nil map") s') →
  (∀ err s', extends s s' [GotTokens ns sa (Val (Err err))] → Q (Val (Failed ConditionReasonControllerSyncError err)) s') →
  (∀ params tokens s', extends s s' [GotTokens ns sa (Val (Ok tokens))] →
     read_map (rs_heap s) (spc_Parameters spc) = Some params → tokens_ok tokens →
     Q (Val (Passed (json_string_map (Some (provider_params r params ns sa tokens))))) s') →
  wp (prepareCSIProviderParams r spc ns sa) Q s.
Proof.
  intros Hok HP HE HV. unfold prepareCSIProviderParams. wp_step. apply wp_observed_as, wp_on_tokens, wp_tokens; [done|].
  intros res [t w] Hres. set (s1 := add_call _ _).
  assert (extends s s1 [GotTokens ns sa (Val res)]) as He1 by (by apply extends_call, extends_same).
  destruct res as [tokens|err]; [|wp_steps; by apply HE].
  wp_step. apply wp_on_heap. unfold maps_Clone. destruct (spc_Parameters spc) as [l|].
  2: { wp_steps. apply wp_on_heap. cbn [map_assign]. wp_steps. by apply (HP tokens). }
  destruct Hok as [m Hm]. unfold load. wp_step.
  unfold wp at 1. cbn. rewrite Hm. cbn. wp_steps. apply wp_alloc. intros l' Hl'. wp_steps.
  do 4 (apply wp_on_heap; cbn [rs_heap set_state]; apply wp_map_assign_new; wp_step).
  apply wp_on_heap. cbn [rs_heap set_state]. apply wp_maps_Copy_new. wp_steps.
  cbn [rs_heap set_state]. unfold read_map at 1. cbn. rewrite lookup_insert_eq. apply HV; [|by unfold read_map; cbn|done].
  destruct He1 as [Hh Hc]. split; [|exact Hc]. transitivity (rs_heap s); [done|]. by apply insert_subseteq.
Qed.

Lemma wp_acb_Get provider Q (pw : P * W) :
  (∀ res pw', Q (Val res) pw') → wp (acb_Get provider) Q pw.
Proof. intros HQ. destruct (acb_Get_returns provider pw) as (res & pw' & E). unfold wp. rewrite E. apply HQ. Qed.

(** [MountContent] on the data the Secret needs. *)
Lemma wp_fetch_secrets spc ss Q s :
  ss_ok s ss → ref_ok (rs_heap s) (spc_Parameters spc) →
  (∀ out pre s', extends s s' pre → fetch_run r (read_spc (rs_heap s) spc) (wire s ss) out pre → Q out s') →
  wp (fetchSecretsFromProvider r spc ss) Q s.
Proof.
  intros Hss Hspc HQ. unfold fetchSecretsFromProvider.
  wp_step. apply wp_observed_as, wp_on_providers, wp_acb_Get. intros res [p w]. set (s1 := add_call _ _).
  assert (extends s s1 [GotClient (spc_Provider spc) (Val res)]) as He1 by (by apply extends_call, extends_same).
  destruct res as [client|err]; [|wp_steps; eapply HQ; [exact He1|apply fr_client]].
  wp_step. apply wp_prepare; [done|..].
  - intros tokens s' He Hn. eapply HQ; [by eapply extends_trans|]. by apply fr_no_params.
  - intros err s' He. wp_steps. eapply HQ; [by eapply extends_trans|]. apply fr_tokens.
  - intros params tokens s2 He2 Hp Ht. wp_step. apply wp_observed_as, wp_on_world.
    unfold wp at 1. set (m := MountContent client _ _ ∅ (rs_world s2)).
    destruct m as [answer w2]. cbn [fst snd]. set (s3 := add_call _ _).
    assert (extends s s3 ([GotClient (spc_Provider spc) (Val (Ok client))] ++
      [GotTokens (om_Namespace (ss_ObjectMeta ss)) (sss_ServiceAccountName (ss_Spec ss)) (Val (Ok tokens))] ++
      [asked_mount r (wire s ss) client params tokens answer])) as He.
    { eapply extends_trans; [exact He1|]. eapply extends_trans; [exact He2|]. by apply extends_call, extends_same. }
    assert (∀ out, match answer with
      | Panic p => out = Panic p
      | Val (Err err) => out = Val (Failed ConditionReasonFailedProviderError err)
      | Val (Ok (_, files)) =>
        match secret_data (wire s ss) files with
        | Some (_, Some err) => out = Val (Failed ConditionReasonRemoteSecretStoreFetchFailed err)
        | Some (data, None) => out = Val (Passed data)
        | None => False
        end
      end → Q out s3) as Hout.
    { intros out Ho. eapply HQ; [exact He|]. by apply fr_mount. }
    destruct answer as [[[ov files]|err]|pan]; wp_steps; [|by apply Hout..].
    destruct (BuildKubeSecretData_loop_total (so_Data (sss_SecretObject (ss_Spec ss)))
      (so_Type (sss_SecretObject (ss_Spec ss))) files ∅) as [[data oe] Hb].
    change (secret_data (wire s ss) files) with (BuildKubeSecretData (so_Data (sss_SecretObject (ss_Spec ss)))
      (so_Type (sss_SecretObject (ss_Spec ss))) files) in Hout.
    unfold BuildKubeSecretData in *. rewrite Hb in Hout |- *. destruct oe as [err|]; wp_steps; by apply Hout.
Qed.

(** Writing to the labels of a copied object: the original heap keeps its maps,
    and the copy's annotations, which are another map, keep their contents. *)
Lemma copied_labels h h1 o o' l m k v :
  copied h h1 (so_refs o) (so_refs o') → so_Labels o' = Some l → h1 !! l = Some m →
  let h2 := alter <[ k := v ]> l h1 in
  h ⊆ h2 ∧ read_map h2 (Some l) = Some (<[ k := v ]> m) ∧ read_map h2 (so_Annotations o') = read_map h1 (so_Annotations o').
Proof.
  intros [F _ _ N D] El Hm h2. unfold so_refs in N, D. rewrite El in N, D.
  apply Forall_cons in N as [Hl _]. simpl in Hl. split_and!.
  - apply map_subseteq_spec. intros l' m' Hl'. unfold h2.
    rewrite lookup_alter_ne by congruence. by eapply lookup_weaken.
  - unfold read_map, h2. cbn. by rewrite lookup_alter_eq, Hm.
  - unfold read_map, h2. destruct (so_Annotations o') as [la|]; [|done]. cbn in D |- *.
    apply NoDup_cons in D as [Hne _]. rewrite lookup_alter_ne; [done|]. intros ->. apply Hne. by left.
Qed.

Lemma wp_serverSidePatchSecret ss data Q s :
  ss_ok s ss →
  (∀ err s', extends s s' [patch_of (wire s ss) data err] → Q (Val err) s') →
  wp (serverSidePatchSecret ss data) Q s.
Proof.
  intros Hok HQ. unfold serverSidePatchSecret. wp_step. apply wp_on_heap.
  destruct (SecretSync_DeepCopyInto_spec (rs_heap s) ss Hok) as (c & h1 & E & R & C).
  unfold wp at 1. rewrite E. cbn [fst snd]. set (s1 := set_state h1 _ _ _ s).
  set (o := sss_SecretObject (ss_Spec c)) in *.
  assert (∀ lr s2, rs_calls s2 = rs_calls s → rs_heap s ⊆ rs_heap s2 →
    read_map (rs_heap s2) lr = Some (<[ controllerLabelKey := EmptyString ]> (default ∅ (read_map h1 (so_Labels o)))) →
    read_map (rs_heap s2) (so_Annotations o) = read_map h1 (so_Annotations o) →
    wp (Secrets_Patch (om_Namespace (ss_ObjectMeta c)) (om_Name (ss_ObjectMeta c)) secretSyncControllerFieldManager {|
      sec_TypeMeta := {| tm_Kind := "Secret"; tm_APIVersion := "v1" |};
      sec_Name := om_Name (ss_ObjectMeta c); sec_Namespace := om_Namespace (ss_ObjectMeta c);
      sec_Labels := read_map (rs_heap s2) lr; sec_Annotations := read_map (rs_heap s2) (so_Annotations o);
      sec_OwnerReferences := [{| or_APIVersion := tm_APIVersion (ss_TypeMeta c); or_Kind := tm_Kind (ss_TypeMeta c);
        or_Name := om_Name (ss_ObjectMeta c); or_UID := om_UID (ss_ObjectMeta c) |}];
      sec_Data := data; sec_Type := so_Type o |}) Q s2) as Hpatch.
  { intros lr s2 Hcalls Hheap -> ->. apply wp_Secrets_Patch. intros err s' He. apply HQ.
    eapply extends_quiet; [by apply extends_same|]. unfold patch_of, wire. rewrite <- R. exact He. }
  destruct (so_Labels o) as [l|] eqn:El; wp_steps.
  - pose proof (copied_ok _ _ _ _ C) as Hok1. unfold ss_refs, so_refs in Hok1. fold o in Hok1. rewrite El in Hok1.
    apply Forall_cons in Hok1 as [[m Hm] _].
    destruct (copied_labels _ _ _ _ l m controllerLabelKey EmptyString C El Hm) as (F2 & RL & RA).
    apply wp_on_heap. unfold wp at 1. cbn [map_assign fst snd]. wp_steps. apply (Hpatch (Some l)); try done.
    cbn [rs_heap set_state s1]. rewrite RL. unfold read_map. cbn. by rewrite Hm.
  - apply wp_on_heap. wp_step. apply wp_alloc. intros l Hl. wp_steps.
    apply wp_on_heap. cbn [rs_heap set_state s1]. apply wp_map_assign_new. wp_steps.
    assert (h1 ⊆ <[ l := <[ controllerLabelKey := EmptyString ]> ∅ ]> h1) as F2 by (by apply insert_subseteq).
    apply (Hpatch (Some l)); cbn [rs_heap set_state s1]; [done| | |].
    + transitivity h1; [apply C|done].
    + unfold read_map. cbn. by rewrite lookup_insert_eq.
    + apply read_map_frame; [done|]. pose proof (copied_ok _ _ _ _ C) as Hok1.
      unfold ss_refs, so_refs in Hok1. fold o in Hok1. by apply Forall_cons in Hok1 as [_ [? _]%Forall_cons].
Qed.

(** The object after its success conditions, in memory and on the wire. *)
Lemma wp_claim ss ct changed Q s :
  ss_ok s ss →
  (∀ ss' s', extends s s' [] → ss_ok s' ss' → claimed ct changed (wire s ss) (wire s' ss') →
     ss_ObjectMeta ss' = ss_ObjectMeta ss ∧ ss_TypeMeta ss' = ss_TypeMeta ss ∧ ss_Spec ss' = ss_Spec ss ∧
     st_SyncHash (ss_Status ss') = st_SyncHash (ss_Status ss) ∧
     st_LastSuccessfulSyncTime (ss_Status ss') = st_LastSuccessfulSyncTime (ss_Status ss) →
     Q (Val ss') s') →
  wp (if bool_decide (ct = ConditionTypeCreate) then
        ss ← updateStatusConditions ss ct ConditionTrue ConditionReasonCreateSuccessful ConditionMessageCreateSuccessful false;
        updateStatusConditions ss ConditionTypeUpdate ConditionTrue ConditionReasonSecretUpToDate ConditionMessageUpdateSuccessful false
      else if changed : bool then
        updateStatusConditions ss ct ConditionTrue ConditionReasonSecretUpToDate ConditionMessageUpdateSuccessful false
      else mret ss) Q s.
Proof.
  intros Hok HQ. unfold claimed in HQ. case_bool_decide.
  - wp_step. apply wp_condition. intros ss1 s1 He1 Hh1 Hr1. apply wp_condition. intros ss2 s2 He2 Hh2 Hr2.
    assert (extends s s2 []) as He by (by eapply extends_quiet).
    apply HQ; [done|..].
    + eapply ss_ok_extends; [exact He|]. eapply reported_ok; [done|]. by eapply reported_ok.
    + unfold wire. rewrite Hh2, Hh1. exists (read_ss (rs_heap s) ss1). split; by apply (reported_wire _ _ _ _ _ _ s).
    + destruct (reported_refs _ _ _ _ _ _ Hr1) as (_ & ? & ? & ? & ? & ?).
      destruct (reported_refs _ _ _ _ _ _ Hr2) as (_ & ? & ? & ? & ? & ?). split_and!; congruence.
  - destruct changed.
    + apply wp_condition. intros ss1 s1 He1 Hh1 Hr1. apply HQ; [done|..].
      * eapply ss_ok_extends; [exact He1|]. by eapply reported_ok.
      * unfold wire. rewrite Hh1. by apply (reported_wire _ _ _ _ _ _ s).
      * by destruct (reported_refs _ _ _ _ _ _ Hr1) as (_ & ?).
    + wp_steps. apply HQ; [apply extends_refl|done|done|done].
Qed.

Lemma failedCondition_wire s ss : failedCondition (wire s ss) = failedCondition ss.
Proof. done. Qed.

(** The patch is of the object with or without its new status: the Secret does
    not depend on it. *)
Lemma patch_of_status (ss ss' : wire_ss) data err :
  ss_ObjectMeta ss' = ss_ObjectMeta ss → ss_TypeMeta ss' = ss_TypeMeta ss → ss_Spec ss' = ss_Spec ss →
  patch_of (Client:=Client) ss' data err = patch_of ss data err.
Proof. intros E1 E2 E3. unfold patch_of, secret_of. by rewrite E1, E2, E3. Qed.

Lemma wp_sync_secret ss ns ct hash changed data pre Q s :
  ss_ok s ss →
  observed r ns (wire s ss) data hash pre →
  changed = negb (bool_decide (hash = st_SyncHash (ss_Status ss))) →
  is_Some (failedCondition ss) ∨ changed = true →
  (∀ o calls s', extends s s' calls → object_outcome r ns ct (wire s ss) o (pre ++ calls) → Q o s') →
  wp (sync_secret r ss ct hash changed data) Q s.
Proof.
  intros Hok Hobs Hch Hneed HQ. unfold sync_secret. wp_step. apply wp_claim; [done|].
  intros ss1 s1 He1 Hok1 Hclaim (EM & ET & ES & EH & EL). wp_step. apply wp_on_world. wp_step. wp_step.
  set (now := (Now (rs_world s1)).1). set (s2 := set_state _ _ _ _ s1).
  assert (extends s s2 []) as He2 by (eapply extends_quiet; [exact He1|by apply extends_same]).
  assert (ss_ok s2 (with_sync hash (Some now) ss1)) as Hok2 by done.
  assert (∀ err, patch_of (Client:=Client) (wire s2 (with_sync hash (Some now) ss1)) data err = patch_of (wire s ss) data err) as Hpatch.
  { intros err. apply patch_of_status; [done|done|]. change (ss_Spec (wire s1 ss1) = ss_Spec (wire s ss)).
    rewrite <- (wire_extends _ _ _ ss He1 Hok). unfold wire, read_ss, ss_map. cbn. by rewrite ES. }
  apply wp_serverSidePatchSecret; [done|]. intros err s3 He3. rewrite Hpatch in He3.
  assert (extends s s3 [patch_of (wire s ss) data err]) as He by (by eapply extends_quiet).
  assert (∀ ss2, ss_refs ss2 = ss_refs ss1 → ss_ok s3 ss2) as Hok3.
  { intros ss2 E. eapply ss_ok_extends; [exact He3|]. unfold ss_ok. by rewrite E. }
  assert (wire s3 ss1 = wire s1 ss1) as Hw by (by apply (wire_extends s2 _ _ ss1 He3)).
  destruct err as [err|].
  - wp_step. apply wp_report; [by apply Hok3|]. intros v ss2 e s4 He4 Hr. wp_steps.
    eapply HQ; [by eapply (extends_trans _ _ _ [_])|].
    apply (oo_patch_failed _ _ _ _ data hash pre changed (wire s1 ss1)); [done..|].
    replace (wire s1 ss1) with (wire s3 (with_sync (st_SyncHash (ss_Status ss1)) (st_LastSuccessfulSyncTime (ss_Status ss1))
      (with_sync hash (Some now) ss1))).
    + unfold patch_error. cbn. rewrite <- EM. exact Hr.
    + rewrite <- Hw. by destruct ss1 as [? ? ? []].
  - wp_step. apply wp_Status_Update; [by apply Hok3|]. intros ss2 e s4 He4 _ _. wp_steps.
    eapply HQ; [by eapply (extends_trans _ _ _ [_])|]. cbn [snd app].
    replace (wire s3 (with_sync hash (Some now) ss1)) with (with_sync hash (Some now) (wire s1 ss1)) by (by rewrite <- Hw).
    by eapply oo_patched.
Qed.

Lemma wp_Get_class ns (ss : wire_ss) Q s :
  (∀ err s', extends s s' [asked_class ns ss (Err err)] → Q (Val (Err err)) s') →
  (∀ spc s', extends s s' [asked_class ns ss (Ok (read_spc (rs_heap s') spc))] → ref_ok (rs_heap s') (spc_Parameters spc) →
     Q (Val (Ok spc)) s') →
  wp (Get_class ns (sss_SecretProviderClassName (ss_Spec ss))) Q s.
Proof.
  intros HE HV. unfold Get_class. wp_step. apply wp_on_client. set (name := sss_SecretProviderClassName _) in *.
  pose proof (kc_GetSecretProviderClass_heap ns name (rs_heap s) (rs_world s)) as HL.
  destruct (kc_GetSecretProviderClass _ _ _) as [res [h w]]. destruct HL as [Hh Hok]. wp_steps.
  destruct res as [spc|err]; [apply HV; [|done]|apply HE]; by apply extends_call, extends_same.
Qed.

Lemma wp_reconcile_object ns ss ct Q s :
  ss_ok s ss →
  (∀ o calls s', extends s s' calls → object_outcome r ns ct (wire s ss) o calls → Q o s') →
  wp (reconcile_object r ns ss ct) Q s.
Proof.
  intros Hok HQ. unfold reconcile_object. wp_step. apply wp_validate.
  change (labels_of (sss_SecretObject (ss_Spec ss)) s) with (sss_SecretObject (ss_Spec (wire s ss))).
  assert (∀ reason message err pre s1, extends s s1 pre → refusal r ns (wire s ss) reason message err pre →
    wp (_ ← updateStatusConditions ss ct ConditionFalse reason message true; mret (Some err)) Q s1) as Hrefuse.
  { intros reason message err pre s1 He Hr. wp_step. apply wp_report; [by eapply ss_ok_extends|].
    intros v ss' e s' He' Hrep. wp_steps. eapply HQ; [by eapply extends_trans|].
    rewrite (wire_extends _ _ _ ss He Hok) in Hrep. by eapply oo_refused. }
  destruct (label_error _) as [[reason err]|] eqn:Hl.
  { eapply Hrefuse; [apply extends_refl|by apply ref_label]. }
  wp_step. apply (wp_Get_class ns (wire s ss)).
  { intros err s1 He. eapply Hrefuse; [done|]. by apply ref_class. }
  intros spc s1 He1 Hspc. wp_step. set (wspc := read_spc (rs_heap s1) spc) in *.
  apply wp_fetch_secrets; [by eapply ss_ok_extends|done|]. intros out pre s2 He2.
  rewrite (wire_extends _ _ _ ss He1 Hok). fold wspc. intros Hf.
  assert (extends s s2 (asked_class ns (wire s ss) (Ok wspc) :: pre)) as He by (by eapply (extends_trans _ _ _ [_])).
  destruct out as [[data|reason err]|pan]; [|by eapply Hrefuse, ref_fetch|eapply HQ; [exact He|by apply oo_panic]].
  change (computeCurrentStateHash data spc ss) with (computeCurrentStateHash data wspc (wire s ss)).
  destruct (computeCurrentStateHash data wspc (wire s ss)) as [hash|err] eqn:Hh; [|done].
  assert (observed r ns (wire s ss) data hash (asked_class ns (wire s ss) (Ok wspc) :: pre)) as Hobs by (by exists wspc, pre).
  set (changed := negb _).
  assert (is_Some (failedCondition ss) ∨ changed = true → wp (sync_secret r ss ct hash changed data) Q s2) as Hsync.
  { intros Hneed. rewrite <- (wire_extends _ _ _ ss He Hok) in Hobs at 1.
    eapply wp_sync_secret; [by eapply ss_ok_extends|exact Hobs|done|done|].
    rewrite (wire_extends _ _ _ ss He Hok). intros o calls s3 He3. apply HQ. by eapply extends_trans. }
  destruct (failedCondition ss) as [c|] eqn:Hfc; [apply Hsync; by left|].
  destruct changed eqn:Hc; [apply Hsync; by right|]. wp_steps. eapply HQ; [done|]. eapply oo_unchanged; [|done].
  subst changed. apply negb_false_iff, bool_decide_eq_true in Hc. cbn. rewrite <- Hc. exact Hobs.
Qed.

(** Every run of [Reconcile] is one of the abstract outcomes, and leaves the
    maps that existed before as they were. *)
Lemma wp_Reconcile ns name Q s :
  (∀ o calls s', extends s s' calls → reconcile_outcome r s ns name o calls → Q o s') →
  wp (Reconcile r ns name) Q s.
Proof.
  intros HQ. unfold Reconcile. wp_step. apply wp_on_client.
  pose proof (kc_GetSecretSync_heap ns name (rs_heap s) (rs_world s)) as HL.
  assert (∀ res, (let '(o, (h', _)) := kc_GetSecretSync ns name (rs_heap s, rs_world s) in
    res = match o with Ok ss => Ok (read_ss h' ss) | Err e => Err e end) → read_answer s ns name res) as HA by done.
  destruct (kc_GetSecretSync _ _ _) as [[ss|err] [h w]]; destruct HL as [Hh Hok]; cbn in HA.
  2: { wp_steps. eapply HQ; [by apply extends_same|]. apply ro_unread. by apply HA. }
  set (s1 := set_state h _ _ w s). assert (extends s s1 []) as He1 by (by apply extends_same).
  specialize (HA _ eq_refl). fold (conditions ss). case (Nat.ltb_spec (length (conditions ss)) 2) as [Hlen|Hlen].
  - wp_step. apply wp_initConditions; [done|]. intros ss1 ss' err s2 Hinit He2 Hok2 Hst. wp_steps.
    assert (extends s s2 [StatusUpdate ss1 err]) as He by (by eapply extends_quiet).
    destruct err as [err|]; cbn [snd fst].
    + wp_steps. eapply HQ; [done|]. by eapply ro_uninitialised.
    + apply wp_reconcile_object; [done|]. intros o calls s3 He3 Ho.
      eapply HQ; [by eapply (extends_trans _ _ _ [_])|]. by eapply ro_initialised.
  - apply wp_reconcile_object; [done|]. intros o calls s3 He3 Ho.
    eapply HQ; [by eapply extends_quiet|]. by eapply ro_object.
Qed.
End stages.
