(* ===== verification/ReconcilerSpec.v ===== *)
(** * Properties of [Reconcile]

    Every run is one of the abstract outcomes of ReconcilerSteps.v; from these
    follow: what is patched, when the hash is recorded, how failures are
    reported and retried, when a SecretSync has settled; the parameters for the
    provider; and the two cases in which the status stays wrong. *)

From stdpp Require Import strings gmap list.
From S2P Require Import Prelude GoText GoFmt GoJson GoStrings GoTime ApiTypes SecretUtil CryptoFixture Token TokenFixture TokenPreempted TokenSpec Provider ProviderFixture ControllerEnv Conditions StateHash Reconciler ControllerFixture ReconcilerSteps.

Open Scope nat_scope.

(** The calls a run has added. *)
Definition new_calls {P W Client} (s s' : rstate P W Client) : list (api_call Client) :=
  drop (length (rs_calls s)) (rs_calls s').

Lemma extends_new_calls {P W Client} (s s' : rstate P W Client) calls : extends s s' calls → new_calls s s' = calls.
Proof. intros [_ E]. unfold new_calls. by rewrite E, drop_app_length. Qed.

(** ** Requests that change something and requests that ask *)

Definition writes {Client} (c : api_call Client) : bool :=
  match c with PatchSecret _ _ _ _ _ | StatusUpdate _ _ => true | _ => false end.
Definition asks {Client} (l : list (api_call Client)) : Prop := Forall (λ c, writes c = false) l.

(** A write among questions and then other requests is one of the latter. *)
Lemma asks_split {Client} (pre rest before after : list (api_call Client)) c :
  asks pre → writes c = true → pre ++ rest = before ++ c :: after → ∃ b, before = pre ++ b ∧ rest = b ++ c :: after.
Proof.
  intros Hpre Hc. revert before. induction Hpre as [|x pre Hx Hpre IH]; intros before E; [by exists before|].
  destruct before as [|y before]; injection E as -> E; [congruence|]. destruct (IH before E) as (b & -> & ->). by exists b.
Qed.
Lemma asks_elem {Client} (pre rest : list (api_call Client)) c :
  asks pre → writes c = true → c ∈ pre ++ rest → ∃ l1 l2, rest = l1 ++ c :: l2.
Proof.
  intros Hpre Hc [Hin|Hin]%elem_of_app; [|by apply list_elem_of_split].
  apply (proj1 (Forall_forall _ _) Hpre) in Hin. congruence.
Qed.

Section asked.
Context {Client : Type} `{Pem, Pkcs12, X509, Pbkdf2} (r : SecretSyncReconciler).
Lemma fetch_run_asks spc ss out (pre : list (api_call Client)) : fetch_run r spc ss out pre → asks pre.
Proof. intros []; by repeat constructor. Qed.
Lemma refusal_asks ns ss reason message err (pre : list (api_call Client)) :
  refusal r ns ss reason message err pre → asks pre.
Proof.
  intros [reason' err' _|err' _|spc reason' err' pre' _ Hf]; [by constructor|by repeat constructor|].
  constructor; [done|by eapply fetch_run_asks].
Qed.
Lemma observed_asks ns ss data hash (pre : list (api_call Client)) :
  observed r ns ss data hash pre → asks pre.
Proof. intros (spc & fetch & _ & -> & Hf & _). constructor; [done|by eapply fetch_run_asks]. Qed.

(** What was asked to observe a hash: one class, client, token and mount request,
    all answered. *)
Lemma observed_origin ns (ss : wire_ss) data hash (pre : list (api_call Client)) :
  observed r ns ss data hash pre →
  ∃ spc client params tokens ov files,
    pre = [asked_class ns ss (Ok spc); asked_client spc (Val (Ok client)); asked_tokens ss (Val (Ok tokens));
           asked_mount r ss client params tokens (Val (Ok (ov, files)))] ∧
    spc_Parameters spc = Some params ∧ secret_data ss files = Some (data, None) ∧
    computeCurrentStateHash data spc ss = Ok hash.
Proof.
  intros (spc & fetch & _ & -> & Hf & Hh).
  inversion Hf as [| | |client tokens params answer out Hp Hm Eo]; subst. exists spc, client, params, tokens.
  destruct answer as [[[ov files]|?]|?]; [|done..].
  destruct (secret_data ss files) as [[d [?|]]|] eqn:Ed; [done| |done]. injection Hm as <-. by exists ov, files.
Qed.

(** The requests of an observation determine what was observed, and how the
    fetch ended. *)
Lemma observed_fetch ns (ss : wire_ss) data hash (pre : list (api_call Client)) spc out fetch l rest :
  observed r ns ss data hash pre → fetch_run r spc ss out fetch →
  asked_class ns ss (Ok spc) :: fetch ++ l = pre ++ rest → out = Val (Passed data).
Proof.
  intros (spc0 & cl & ps & ts & ov & fs & -> & Hp0 & Hd & _)%observed_origin Hf E.
  destruct Hf as [err|client err|client tokens Hp|client tokens params answer out Hp Hm]; simplify_list_eq.
  by rewrite Hd in Hm.
Qed.
Lemma observed_det ns (ss : wire_ss) data hash data' hash' (pre pre' rest rest' : list (api_call Client)) :
  observed r ns ss data hash pre → observed r ns ss data' hash' pre' → pre' ++ rest' = pre ++ rest →
  data' = data ∧ hash' = hash ∧ rest' = rest.
Proof.
  intros (spc & cl & ps & ts & ov & fs & -> & _ & Hd & Hh)%observed_origin
    (spc' & cl' & ps' & ts' & ov' & fs' & -> & _ & Hd' & Hh')%observed_origin E.
  simplify_list_eq. rewrite Hh in Hh'. by injection Hh' as ->.
Qed.
End asked.

(** ** Conditions *)

Lemma find_put ty c cs :
  find_cond ty (put_cond c cs) = if bool_decide (ty = cond_Type c) then Some c else find_cond ty cs.
Proof.
  induction cs as [|x cs IH]; cbn [put_cond find_cond].
  - repeat case_bool_decide; congruence || done.
  - destruct (decide (cond_Type x = cond_Type c)) as [Hx|Hx].
    + rewrite (bool_decide_true (_ = cond_Type c)) by done. cbn [find_cond]. rewrite Hx.
      destruct (decide (ty = cond_Type c)) as [->|Hty]; [by rewrite !bool_decide_true|].
      by rewrite !bool_decide_false.
    + rewrite (bool_decide_false (cond_Type x = cond_Type c)) by done. cbn [find_cond]. rewrite IH.
      destruct (decide (cond_Type x = ty)) as [<-|Hty]; [rewrite (bool_decide_true (cond_Type x = cond_Type x)) by done; by rewrite bool_decide_false|].
      by rewrite (bool_decide_false (cond_Type x = ty)).
Qed.

Lemma reported_find {M} ty status reason message (ss ss' : SecretSync M) ty' :
  reported ty status reason message ss ss' →
  if bool_decide (ty' = ty) then
    ∃ c, find_cond ty' (conditions ss') = Some c ∧
         cond_Status c = status ∧ cond_Reason c = reason ∧ cond_Message c = message
  else find_cond ty' (conditions ss') = find_cond ty' (conditions ss).
Proof.
  intros (c & (E1 & E2 & E3 & E4) & ->).
  change (conditions (with_conditions (put_cond c (conditions ss)) ss)) with (put_cond c (conditions ss)).
  rewrite find_put, E1. cbn [cond_Type new_condition]. case_bool_decide; [|done]. by exists c.
Qed.

(** Two objects that differ in their conditions and version only. *)
Definition same_object (ss ss' : wire_ss) : Prop :=
  ss_TypeMeta ss' = ss_TypeMeta ss ∧ ss_Spec ss' = ss_Spec ss ∧
  om_Name (ss_ObjectMeta ss') = om_Name (ss_ObjectMeta ss) ∧
  om_Namespace (ss_ObjectMeta ss') = om_Namespace (ss_ObjectMeta ss) ∧
  om_UID (ss_ObjectMeta ss') = om_UID (ss_ObjectMeta ss) ∧
  om_Generation (ss_ObjectMeta ss') = om_Generation (ss_ObjectMeta ss) ∧
  st_SyncHash (ss_Status ss') = st_SyncHash (ss_Status ss) ∧
  st_LastSuccessfulSyncTime (ss_Status ss') = st_LastSuccessfulSyncTime (ss_Status ss).

Lemma reported_same ty status reason message (ss ss' : wire_ss) :
  reported ty status reason message ss ss' → same_object ss ss'.
Proof. by intros (c & _ & ->). Qed.
Lemma same_object_trans (ss1 ss2 ss3 : wire_ss) : same_object ss1 ss2 → same_object ss2 ss3 → same_object ss1 ss3.
Proof. unfold same_object. intros. destruct_and!. split_and!; congruence. Qed.
Lemma stored_same (ss ss' : wire_ss) : stored_as ss ss' → same_object ss ss'.
Proof. intros (? & ? & E & ? & ? & ? & ?). unfold same_object. rewrite E. done. Qed.
Lemma initialised_same (ss ss' : wire_ss) : initialised ss ss' → same_object ss ss'.
Proof. intros (ss1 & H1%reported_same & H2%reported_same). by eapply same_object_trans. Qed.
Lemma claimed_same ct changed (ss ss' : wire_ss) : claimed ct changed ss ss' → same_object ss ss'.
Proof.
  unfold claimed. case_bool_decide.
  - intros (ss1 & H1%reported_same & H2%reported_same). by eapply same_object_trans.
  - destruct changed; [apply reported_same|by intros ->].
Qed.

(** Conditions as the API server stores them: one of each type, of the two
    types of the controller. *)
Definition conditions_ok {M} (ss : SecretSync M) : Prop :=
  NoDup (map cond_Type (conditions ss)) ∧
  Forall (λ c, cond_Type c = ConditionTypeCreate ∨ cond_Type c = ConditionTypeUpdate) (conditions ss).

Lemma put_types c cs :
  map cond_Type (put_cond c cs) =
  if bool_decide (cond_Type c ∈ map cond_Type cs) then map cond_Type cs else map cond_Type cs ++ [cond_Type c].
Proof.
  induction cs as [|x cs IH]; [done|]. cbn [put_cond map].
  destruct (decide (cond_Type x = cond_Type c)) as [Hx|Hx].
  - rewrite (bool_decide_true (cond_Type x = _)), (bool_decide_true (_ ∈ _)); [cbn; by rewrite Hx|set_solver|done].
  - rewrite (bool_decide_false (cond_Type x = _)) by done. cbn [map]. rewrite IH.
    repeat case_bool_decide; set_solver.
Qed.

Lemma put_elem c cs x :
  NoDup (map cond_Type cs) → x ∈ put_cond c cs → x = c ∨ x ∈ cs ∧ cond_Type x ≠ cond_Type c.
Proof.
  induction cs as [|y cs IH]; cbn [put_cond map]; [set_solver|]. intros [Hy Hnd]%NoDup_cons.
  case_bool_decide as E; rewrite !elem_of_cons.
  - intros [->|Hx]; [by left|]. right. split; [by right|]. intros Ex. apply Hy. rewrite E, <- Ex.
    by apply (list_elem_of_fmap_2 cond_Type).
  - intros [->|Hx]; [by right; split; [left|]|]. destruct (IH Hnd Hx) as [->|[??]]; [by left|].
    right. split; [by right|done].
Qed.

Lemma reported_conditions_ok {M} ty status reason message (ss ss' : SecretSync M) :
  ty = ConditionTypeCreate ∨ ty = ConditionTypeUpdate →
  reported ty status reason message ss ss' → conditions_ok ss → conditions_ok ss'.
Proof.
  intros Hty (c & (E1 & _) & ->) [Hnd Hall]. unfold conditions_ok.
  change (conditions (with_conditions (put_cond c (conditions ss)) ss)) with (put_cond c (conditions ss)). split.
  - rewrite put_types. case_bool_decide as Hin; [done|]. apply NoDup_app. split_and!; [done| |apply NoDup_singleton].
    intros x Hx1 Hx2%list_elem_of_singleton. by subst.
  - apply Forall_forall. intros x Hx. apply put_elem in Hx as [->|[Hx _]]; [by rewrite E1|..|done].
    by apply (proj1 (Forall_forall _ _) Hall).
Qed.

(** No condition asks for a retry. *)
Lemma failedCondition_none {M} (ss : SecretSync M) :
  failedCondition ss = None ↔ ∀ c, c ∈ conditions ss → cond_Reason c ∉ FailedConditionsTriggeringRetry.
Proof.
  unfold failedCondition. change (default [] (st_Conditions (ss_Status ss))) with (conditions ss).
  destruct (filter _ (conditions ss)) as [|x l] eqn:E; cbn [head].
  - split; [|done]. intros _ c Hc Hr. assert (c ∈ filter (λ c, cond_Reason c ∈ FailedConditionsTriggeringRetry) (conditions ss)) as Hf
      by (by apply list_elem_of_filter). rewrite E in Hf. by apply not_elem_of_nil in Hf.
  - split; [done|]. intros Hall. exfalso. assert (x ∈ x :: l) as Hx by (by left). rewrite <- E in Hx.
    apply list_elem_of_filter in Hx as [Hr Hx]. by apply (Hall x).
Qed.

Lemma find_cond_elem ty cs c : find_cond ty cs = Some c → c ∈ cs ∧ cond_Type c = ty.
Proof.
  induction cs as [|x cs IH]; cbn [find_cond]; [done|]. case_bool_decide as E.
  - intros [= ->]. split; [by left|done].
  - intros [??]%IH. split; [by right|done].
Qed.

Lemma failedCondition_some {M} (ss : SecretSync M) ty c :
  find_cond ty (conditions ss) = Some c → cond_Reason c ∈ FailedConditionsTriggeringRetry → is_Some (failedCondition ss).
Proof.
  intros [Hc _]%find_cond_elem Hr. destruct (failedCondition ss) eqn:E; [done|].
  by apply (proj1 (failedCondition_none ss) E) in Hc.
Qed.

(** With one condition of each type, the failing ones are found by type. *)
Lemma failedCondition_types {M} (ss : SecretSync M) :
  conditions_ok ss →
  (∀ c, find_cond ConditionTypeCreate (conditions ss) = Some c → cond_Reason c ∉ FailedConditionsTriggeringRetry) →
  (∀ c, find_cond ConditionTypeUpdate (conditions ss) = Some c → cond_Reason c ∉ FailedConditionsTriggeringRetry) →
  failedCondition ss = None.
Proof.
  intros [Hnd Hall] HC HU. apply failedCondition_none. intros c Hc.
  assert (find_cond (cond_Type c) (conditions ss) = Some c) as Hf.
  { clear HC HU Hall. induction (conditions ss) as [|x cs IH]; [by apply not_elem_of_nil in Hc|].
    cbn [map find_cond] in *. apply NoDup_cons in Hnd as [Hx Hnd]. apply elem_of_cons in Hc as [->|Hc].
    - by rewrite bool_decide_true.
    - rewrite bool_decide_false; [by apply IH|]. intros E. apply Hx. rewrite E. by apply (list_elem_of_fmap_2 cond_Type). }
  destruct (proj1 (Forall_forall _ _) Hall c Hc) as [E|E]; rewrite E in Hf; auto.
Qed.

Lemma label_error_none o : label_error o = None → map_get (so_Annotations o) controllerAnnotationKey = None.
Proof.
  unfold label_error. destruct (match map_get (so_Labels o) _ with Some _ => _ | None => _ end); [done|].
  by destruct (map_get (so_Annotations o) _).
Qed.

(** The objects a successful or failed patch leads to. *)
Lemma initialised_ok (ss ss' : wire_ss) : initialised ss ss' → conditions_ok ss → conditions_ok ss'.
Proof.
  intros (ss1 & H1 & H2) Hok. eapply reported_conditions_ok; [by right|done|].
  eapply reported_conditions_ok; [by left|done|done].
Qed.
Lemma initialised_create (ss ss' : wire_ss) c :
  initialised ss ss' → find_cond ConditionTypeCreate (conditions ss') = Some c →
  cond_Reason c = ConditionReasonSyncStarting.
Proof.
  intros (ss1 & H1 & H2) Hf. apply (reported_find _ _ _ _ _ _ ConditionTypeCreate) in H1, H2.
  rewrite bool_decide_true in H1 by done. rewrite bool_decide_false in H2 by done.
  destruct H1 as (c' & Hc' & _ & Hr & _). congruence.
Qed.

Lemma reason_ok reason : bool_decide (reason ∈ FailedConditionsTriggeringRetry) = false →
  reason ∉ FailedConditionsTriggeringRetry.
Proof. apply bool_decide_eq_false. Qed.

(** After the success conditions of a first sync, or of a change, nothing asks
    for a retry. *)
Lemma claimed_settled ct changed (ss ss' : wire_ss) :
  ct = ConditionTypeCreate ∨ ct = ConditionTypeUpdate ∧ changed = true ∧
    (∀ c, find_cond ConditionTypeCreate (conditions ss) = Some c → cond_Reason c ∉ FailedConditionsTriggeringRetry) →
  conditions_ok ss → claimed ct changed ss ss' → failedCondition ss' = None.
Proof.
  unfold claimed. intros [->|(-> & -> & Hcr)] Hok; cbn [bool_decide].
  - rewrite bool_decide_true by done. intros (ss1 & H1 & H2).
    pose proof (reported_conditions_ok _ _ _ _ _ _ (or_introl eq_refl) H1 Hok) as Hok1.
    pose proof (reported_conditions_ok _ _ _ _ _ _ (or_intror eq_refl) H2 Hok1) as Hok2.
    pose proof (reported_find _ _ _ _ _ _ ConditionTypeCreate H1) as F1.
    pose proof (reported_find _ _ _ _ _ _ ConditionTypeCreate H2) as F2.
    pose proof (reported_find _ _ _ _ _ _ ConditionTypeUpdate H2) as F3.
    rewrite bool_decide_true in F1, F3 by done. rewrite bool_decide_false in F2 by done.
    destruct F1 as (c1 & F1 & _ & R1 & _), F3 as (c3 & F3 & _ & R3 & _).
    apply failedCondition_types; [done| |]; intros c Hc.
    + assert (c = c1) as -> by congruence. rewrite R1. by apply reason_ok.
    + assert (c = c3) as -> by congruence. rewrite R3. by apply reason_ok.
  - rewrite bool_decide_false by done. intros H1.
    pose proof (reported_conditions_ok _ _ _ _ _ _ (or_intror eq_refl) H1 Hok) as Hok1.
    pose proof (reported_find _ _ _ _ _ _ ConditionTypeCreate H1) as F1.
    pose proof (reported_find _ _ _ _ _ _ ConditionTypeUpdate H1) as F2.
    rewrite bool_decide_false in F1 by done. rewrite bool_decide_true in F2 by done.
    destruct F2 as (c2 & F2 & _ & R2 & _). apply failedCondition_types; [done| |]; intros c Hc.
    + apply Hcr. congruence.
    + assert (c = c2) as -> by congruence. rewrite R2. by apply reason_ok.
Qed.

(** Conditions are not removed. *)
Lemma put_length c cs : length cs ≤ length (put_cond c cs).
Proof. induction cs as [|x cs IH]; cbn [put_cond]; [simpl; lia|]. case_bool_decide; simpl; lia. Qed.
Lemma reported_length {M} ty status reason message (ss ss' : SecretSync M) :
  reported ty status reason message ss ss' → length (conditions ss) ≤ length (conditions ss').
Proof. intros (c & _ & ->). apply put_length. Qed.
Lemma claimed_length ct changed (ss ss' : wire_ss) :
  claimed ct changed ss ss' → length (conditions ss) ≤ length (conditions ss').
Proof.
  unfold claimed. case_bool_decide.
  - intros (ss1 & H1%reported_length & H2%reported_length). lia.
  - destruct changed; [apply reported_length|by intros ->].
Qed.
Lemma initialised_length (ss ss' : wire_ss) : initialised ss ss' → 2 ≤ length (conditions ss').
Proof.
  intros (ss1 & H1 & H2). pose proof (reported_find _ _ _ _ _ _ ConditionTypeCreate H1) as F1.
  pose proof (reported_find _ _ _ _ _ _ ConditionTypeCreate H2) as F2.
  pose proof (reported_find _ _ _ _ _ _ ConditionTypeUpdate H2) as F3.
  rewrite bool_decide_true in F1, F3 by done. rewrite bool_decide_false in F2 by done.
  destruct F1 as (c1 & F1 & _), F3 as (c3 & F3 & _). rewrite <- F2 in F1.
  destruct (conditions ss') as [|x [|y l]]; [done| |simpl; lia].
  apply find_cond_elem in F1 as [->%list_elem_of_singleton E1]. apply find_cond_elem in F3 as [->%list_elem_of_singleton E3].
  by rewrite E1 in E3.
Qed.

Section claims.
Context {P W Client : Type}.
Context `{TokenEnv W, !TokenEnvLaws W, Preempt W, !PreemptLaws W}.
Context `{KubeClient W, AllClientBuilder P W Client, CSIDriverProvider W Client}.
Context `{!KubeClientLaws W, !AllClientBuilderLaws P W Client}.
Context `{Pem, Pkcs12, X509, Pbkdf2, !PemLaws}.
Context (r : SecretSyncReconciler).
Implicit Types s : rstate P W Client.

(** From a statement on a run to one on the outcomes. *)
Ltac by_outcome := run_wp; apply wp_Reconcile; intros o calls s' He Ho; cbv beta; rewrite (extends_new_calls _ _ _ He).

(** Every reason a sync is refused for is one that asks for a retry. *)
Lemma fetch_run_retried spc ss reason err (pre : list (api_call Client)) :
  fetch_run r spc ss (Val (Failed reason err)) pre → reason ∈ FailedConditionsTriggeringRetry.
Proof.
  inversion 1 as [err' Eo|client err' Eo| |client tokens params answer out _ Hm Eo]; simplify_eq; [by_deciding..|].
  destruct answer as [[[ov files]|?]|?]; [destruct (secret_data ss files) as [[? [?|]]|]|..]; simplify_eq; done || by_deciding.
Qed.
Lemma refusal_retried ns ss reason message err (pre : list (api_call Client)) :
  refusal r ns ss reason message err pre → reason ∈ FailedConditionsTriggeringRetry.
Proof.
  intros [reason' err' Hl|err' _|spc reason' err' pre' _ Hf]; [|by_deciding|by eapply fetch_run_retried].
  { revert Hl. unfold label_error. repeat case_match; intros; simplify_eq;
       by_deciding. }
Qed.

(** What an object's run writes, after it has asked [pre]. *)
Inductive object_writes (ns ct : string) (ss : wire_ss) (pre : list (api_call Client)) :
    outcome (option error) → list (api_call Client) → Prop :=
| ow_panic p : object_writes ns ct ss pre (Panic p) []
| ow_unchanged data :
    observed r ns ss data (st_SyncHash (ss_Status ss)) pre → failedCondition ss = None →
    object_writes ns ct ss pre (Val None) []
| ow_refused reason message err ss' e :
    reason ∈ FailedConditionsTriggeringRetry → reported ct ConditionFalse reason message ss ss' →
    object_writes ns ct ss pre (Val (Some err)) [StatusUpdate ss' e]
| ow_patch_failed data hash changed ss1 ss2 err e :
    observed r ns ss data hash pre → changed = negb (bool_decide (hash = st_SyncHash (ss_Status ss))) →
    is_Some (failedCondition ss) ∨ changed = true → claimed ct changed ss ss1 →
    reported ct ConditionFalse ConditionReasonControllerPatchError (patch_error r ss err) ss1 ss2 →
    object_writes ns ct ss pre (Val (Some err)) [patch_of ss data (Some err); StatusUpdate ss2 e]
| ow_patched data hash changed ss1 now e :
    observed r ns ss data hash pre → changed = negb (bool_decide (hash = st_SyncHash (ss_Status ss))) →
    is_Some (failedCondition ss) ∨ changed = true → claimed ct changed ss ss1 →
    object_writes ns ct ss pre (Val e) [patch_of ss data None; StatusUpdate (with_sync hash (Some now) ss1) e].

Lemma object_outcome_writes ns ct ss o calls :
  object_outcome r ns ct ss o calls →
  ∃ pre rest, calls = pre ++ rest ∧ asks pre ∧ object_writes ns ct ss pre o rest.
Proof.
  intros [reason m err pre ss' e Hrf Hrep|data pre Hobs ?|data hash pre ch ss1 ss2 err e Hobs|data hash pre ch ss1 now e Hobs|
    spc p pre _ Hf].
  - exists pre, [StatusUpdate ss' e]. split_and!; [done|by eapply refusal_asks|]. by eapply ow_refused; [eapply refusal_retried|].
  - exists pre, []. rewrite app_nil_r. split_and!; [done|by eapply observed_asks|by eapply ow_unchanged].
  - eexists pre, _. split_and!; [done|by eapply observed_asks|by eapply ow_patch_failed].
  - eexists pre, _. split_and!; [done|by eapply observed_asks|by eapply ow_patched].
  - eexists (_ :: pre), []. rewrite app_nil_r. split_and!; [done| |by constructor].
    constructor; [done|by eapply fetch_run_asks].
Qed.

(** What follows an observation: nothing, when the hash is the one of the status
    and no condition has failed; else a patch with the data and a status. *)
Lemma object_outcome_observed ns ct ss o data hash (pre rest : list (api_call Client)) :
  object_outcome r ns ct ss o (pre ++ rest) → observed r ns ss data hash pre →
  hash = st_SyncHash (ss_Status ss) ∧ failedCondition ss = None ∧ o = Val None ∧ rest = [] ∨
  ∃ ss1, claimed ct (negb (bool_decide (hash = st_SyncHash (ss_Status ss)))) ss ss1 ∧
    ((∃ err ss2 e, reported ct ConditionFalse ConditionReasonControllerPatchError (patch_error r ss err) ss1 ss2 ∧
        o = Val (Some err) ∧ rest = [patch_of ss data (Some err); StatusUpdate ss2 e]) ∨
     (∃ now e, o = Val e ∧ rest = [patch_of ss data None; StatusUpdate (with_sync hash (Some now) ss1) e])).
Proof.
  intros Ho Hobs. remember (pre ++ rest) as calls eqn:E.
  destruct Ho as [reason m err pre0 ss' e Hrf _|d pre0 Hobs0 Hf|d h pre0 ch ss1 ss2 err e Hobs0 -> _ Hcl Hrep|
    d h pre0 ch ss1 now e Hobs0 -> _ Hcl|spc p pre0 _ Hf].
  - destruct Hrf as [reason err _|err _|spc reason err pre0 _ Hf].
    + apply observed_origin in Hobs as (? & ? & ? & ? & ? & ? & -> & _). done.
    + apply observed_origin in Hobs as (? & ? & ? & ? & ? & ? & -> & _). done.
    + by pose proof (observed_fetch _ _ _ _ _ _ _ _ _ _ _ Hobs Hf E).
  - rewrite <- (app_nil_r pre0) in E. destruct (observed_det _ _ _ _ _ _ _ _ _ _ _ Hobs Hobs0 E) as (-> & <- & <-). by left.
  - destruct (observed_det _ _ _ _ _ _ _ _ _ _ _ Hobs Hobs0 E) as (-> & -> & <-). right. exists ss1. split; [done|].
    left. by exists err, ss2, e.
  - destruct (observed_det _ _ _ _ _ _ _ _ _ _ _ Hobs Hobs0 E) as (-> & -> & <-). right. exists ss1. split; [done|].
    right. by exists now, e.
  - rewrite <- (app_nil_r (_ :: pre0)) in E. by pose proof (observed_fetch _ _ _ _ _ _ _ _ _ _ _ Hobs Hf E).
Qed.

(** Whether the run has initialised the conditions of the object it works on. *)
Definition starts (ss ss0 : wire_ss) (init : list (api_call Client)) : Prop :=
  init = [] ∧ ss0 = ss ∧ 2 ≤ length (conditions ss) ∨
  ∃ ss', init = [StatusUpdate ss' None] ∧ length (conditions ss) < 2 ∧ initialised ss ss' ∧ stored_as ss' ss0.

(** A run by what it writes: the conditions it starts with, perhaps; nothing
    else, or what it writes for the object. *)
Lemma outcome_object s ns name o calls :
  reconcile_outcome r s ns name o calls →
  (∃ err, o = Val (Some err) ∧ read_answer s ns name (Err err) ∧ calls = []) ∨
  (∃ ss ss' err, o = Val (Some err) ∧ read_answer s ns name (Ok ss) ∧ same_object ss ss' ∧ calls = [StatusUpdate ss' (Some err)]) ∨
  (∃ ss ss0 init pre rest, read_answer s ns name (Ok ss) ∧ same_object ss ss0 ∧ calls = init ++ pre ++ rest ∧ asks pre ∧
     starts ss ss0 init ∧ object_writes ns (conditionTypeOf ss) ss0 pre o rest).
Proof.
  intros [err Hr|ss ss' err Hr _ Hi|ss ss' ss'' o' calls' Hr ? Hi Hs Ho|ss o' calls' Hr ? Ho].
  - left. by exists err.
  - right. left. exists ss, ss', err. eauto using initialised_same.
  - right. right. apply object_outcome_writes in Ho as (pre & rest & -> & Hp & Hw).
    exists ss, ss'', [StatusUpdate ss' None], pre, rest. split_and!; [done| |done|done|by right; exists ss'|done].
    eapply same_object_trans; [by apply initialised_same|by apply stored_same].
  - right. right. apply object_outcome_writes in Ho as (pre & rest & -> & Hp & Hw).
    exists ss, ss, [], pre, rest. by split_and!; [..|left|].
Qed.

(** Where a write is in a run that gets past its beginning. *)
Lemma write_place ss ss0 init pre (rest before after : list (api_call Client)) c :
  starts ss ss0 init → asks pre → writes c = true → init ++ pre ++ rest = before ++ c :: after →
  (∃ ss', c = StatusUpdate ss' None ∧ same_object ss ss') ∨ ∃ b, before = init ++ pre ++ b ∧ rest = b ++ c :: after.
Proof.
  intros [(-> & _)|(ss' & -> & _ & Hi & _)] Hp Hc E.
  - right. simpl in *. by apply asks_split in E.
  - destruct before as [|y before]; injection E as <- E; [left; eauto using initialised_same|]. right.
    apply asks_split in E as (b & -> & ->); [|done..]. by exists b.
Qed.

(** C6: every run of [Reconcile] is one of the abstract outcomes: the requests to
    the API server and the provider, their order, contents and answers, and the
    result, on every branch; no map that existed before the run, such as those
    of the client's cache, has changed. *)
Theorem Reconcile_refines ns name s :
  let '(o, s') := Reconcile r ns name s in
  reconcile_outcome r s ns name o (new_calls s s') ∧
  rs_calls s' = rs_calls s ++ new_calls s s' ∧ rs_heap s ⊆ rs_heap s'.
Proof.
  run_wp. apply wp_Reconcile. intros o calls s' He Ho. rewrite (extends_new_calls _ _ _ He). by destruct He.
Qed.

(** The same object in its name, namespace, generation and spec. *)
Definition same_identity (ss ss' : wire_ss) : Prop :=
  om_Name (ss_ObjectMeta ss') = om_Name (ss_ObjectMeta ss) ∧
  om_Namespace (ss_ObjectMeta ss') = om_Namespace (ss_ObjectMeta ss) ∧
  om_Generation (ss_ObjectMeta ss') = om_Generation (ss_ObjectMeta ss) ∧ ss_Spec ss' = ss_Spec ss.
Lemma same_object_identity (ss ss' : wire_ss) : same_object ss ss' → same_identity ss ss'.
Proof. intros (_ & ? & ? & ? & _ & ? & _). done. Qed.
Lemma same_identity_trans (ss1 ss2 ss3 : wire_ss) : same_identity ss1 ss2 → same_identity ss2 ss3 → same_identity ss1 ss3.
Proof. unfold same_identity. intros. destruct_and!. split_and!; congruence. Qed.

(** A status written for an object is of this object; its hash is another only
    after a successful patch of data with this hash. *)
Lemma object_writes_status ns ct ss pre o rest before ss' e after :
  object_writes ns ct ss pre o rest → rest = before ++ StatusUpdate ss' e :: after →
  same_identity ss ss' ∧
  (st_SyncHash (ss_Status ss') = st_SyncHash (ss_Status ss) ∨
   ∃ data, before = [patch_of ss data None] ∧ observed r ns ss data (st_SyncHash (ss_Status ss')) pre).
Proof.
  intros [p|d _ _|reason m err ss2 e2 _ Hrep|data hash ch ss1 ss2 err e2 _ _ _ Hcl Hrep|data hash ch ss1 now e2 Hobs _ _ Hcl] E;
    destruct before as [|? [|? [|??]]]; simplify_list_eq.
  - apply reported_same in Hrep. split; [by apply same_object_identity|]. left. apply Hrep.
  - assert (same_object ss ss') as Hs by (eapply same_object_trans; [by eapply claimed_same|by eapply reported_same]).
    split; [by apply same_object_identity|]. left. apply Hs.
  - apply claimed_same, same_object_identity in Hcl. split; [done|]. right. by exists data.
Qed.

(** The same for a run. *)
Lemma outcome_statuses s ns name o before ss' e after :
  reconcile_outcome r s ns name o (before ++ StatusUpdate ss' e :: after) →
  ∃ ss, read_answer s ns name (Ok ss) ∧ same_identity ss ss' ∧
    (st_SyncHash (ss_Status ss') = st_SyncHash (ss_Status ss) ∨
     ∃ ss0 data before' pre, before = before' ++ pre ++ [patch_of ss0 data None] ∧ same_object ss ss0 ∧
       observed r ns ss0 data (st_SyncHash (ss_Status ss')) pre).
Proof.
  intros Ho.
  destruct (outcome_object _ _ _ _ _ Ho) as [(err & -> & _ & E)|[(ss & ss1 & err & -> & Hr & Hs & E)|
    (ss & ss0 & init & pre & rest & Hr & Hs & E & Hp & Hinit & Hw)]]; [by destruct before|exists ss; split; [done|]..].
  - assert (ss' = ss1) as -> by (destruct before as [|? [|??]]; by simplify_list_eq).
    split; [by apply same_object_identity|]. left. apply Hs.
  - symmetry in E.
    destruct (write_place _ _ _ _ _ _ _ (StatusUpdate ss' e) Hinit Hp eq_refl E) as [(ss1 & [= -> _] & Hi)|(b & -> & Eb)].
    { split; [by apply same_object_identity|]. left. apply Hi. }
    destruct (object_writes_status _ _ _ _ _ _ _ _ _ _ Hw Eb) as (Hid & Hh).
    split; [eapply same_identity_trans; [by apply same_object_identity|done]|].
    destruct Hh as [Eh|(data & -> & Hobs)].
    + left. rewrite Eh. apply Hs.
    + right. by exists ss0, data, init, pre.
Qed.

(** Every status a run writes is of the object that was read. *)
Lemma Reconcile_statuses ns name s obj e :
  StatusUpdate obj e ∈ new_calls s (Reconcile r ns name s).2 →
  ∃ ss, read_answer s ns name (Ok ss) ∧ same_identity ss obj.
Proof.
  assert (∃ o calls, new_calls s (Reconcile r ns name s).2 = calls ∧ reconcile_outcome r s ns name o calls) as (o & calls & -> & Ho).
  { apply (wp_Reconcile r ns name (λ _ s', ∃ o calls, new_calls s s' = calls ∧ reconcile_outcome r s ns name o calls) s).
    intros o calls s' He Ho. exists o, calls. by rewrite (extends_new_calls _ _ _ He). }
  intros (before & after & ->)%list_elem_of_split. apply outcome_statuses in Ho as (ss & ? & ? & _). by exists ss.
Qed.

(** C7: a status is written with another hash than the one that was read only
    right after a successful patch, and then the hash is that of the data that
    was patched, which is the data fetched just before by this run: what the
    status claims is in the cluster. *)
Theorem Reconcile_hash_after_patch ns name s :
  let '(o, s') := Reconcile r ns name s in
  ∀ before ss' e after, new_calls s s' = before ++ StatusUpdate ss' e :: after →
  ∃ ss, read_answer s ns name (Ok ss) ∧
    (st_SyncHash (ss_Status ss') = st_SyncHash (ss_Status ss) ∨
     ∃ ss0 data before' pre, before = before' ++ pre ++ [patch_of ss0 data None] ∧ same_object ss ss0 ∧
       observed r ns ss0 data (st_SyncHash (ss_Status ss')) pre).
Proof.
  by_outcome. intros before ss' e after Hc. rewrite Hc in Ho.
  apply outcome_statuses in Ho as (ss & ? & _ & ?). by exists ss.
Qed.

(** A patch in a run: of the object the run works on, with the data and the
    hash it has just observed. *)
Lemma outcome_patches s ns name o before ns' name' manager sec e after :
  reconcile_outcome r s ns name o (before ++ PatchSecret ns' name' manager sec e :: after) →
  ∃ ss ss0 data hash init pre, read_answer s ns name (Ok ss) ∧ same_object ss ss0 ∧ starts ss ss0 init ∧
    before = init ++ pre ∧ observed r ns ss0 data hash pre ∧
    (hash ≠ st_SyncHash (ss_Status ss) ∨ is_Some (failedCondition ss0)) ∧
    PatchSecret ns' name' manager sec e = patch_of (Client:=Client) ss0 data e.
Proof.
  intros Ho.
  destruct (outcome_object _ _ _ _ _ Ho) as [(err & -> & _ & E)|[(ss & ss1 & err & -> & Hr & Hs & E)|
    (ss & ss0 & init & pre & rest & Hr & Hs & E & Hp & Hinit & Hw)]]; [by destruct before|by destruct before as [|?[|]]|].
  symmetry in E. destruct (write_place _ _ _ _ _ _ _ (PatchSecret ns' name' manager sec e) Hinit Hp eq_refl E)
    as [(? & ? & _)|(b & -> & Eb)]; [done|].
  assert (∃ data hash, b = [] ∧ observed r ns ss0 data hash pre ∧
    (is_Some (failedCondition ss0) ∨ negb (bool_decide (hash = st_SyncHash (ss_Status ss0))) = true) ∧
    PatchSecret ns' name' manager sec e = patch_of (Client:=Client) ss0 data e) as (data & hash & -> & Hobs & Hneed & Ep).
  { destruct Hw as [p|d _ _|reason m err ss2 e2 _ Hrep|data hash ch ss1 ss2 err e2 Hobs -> Hn Hcl Hrep|
      data hash ch ss1 now e2 Hobs -> Hn Hcl]; destruct b as [|? [|? [|??]]]; simplify_list_eq; exists data, hash;
      unfold patch_of in *; by simplify_eq. }
  exists ss, ss0, data, hash, init, pre. rewrite app_nil_r. split_and!; try done.
  pose proof Hs as (_ & _ & _ & _ & _ & _ & Eh & _). rewrite negb_true_iff, bool_decide_eq_false, Eh in Hneed. naive_solver.
Qed.

(** A run on an object with its conditions is one of the outcomes for it. *)
Lemma outcome_on_object s ns name o calls ss :
  reconcile_outcome r s ns name o calls → read_answer s ns name (Ok ss) → 2 ≤ length (conditions ss) →
  object_outcome r ns (conditionTypeOf ss) ss o calls.
Proof.
  intros Ho Hread Hconds.
  destruct Ho as [err Hr|ss2 ss' err Hr Hl|ss2 ss' ss'' o' calls' Hr Hl|ss2 o' calls' Hr _ Hobj];
    pose proof (read_answer_det _ _ _ _ _ Hread Hr) as E; [done|injection E as <-..]; [lia..|done].
Qed.

(** C8: whatever is patched in a run is the Secret of the SecretSync that was
    read: its name and namespace, its labels with the controller's label added,
    its annotations without the reserved key, the SecretSync as its owner, and
    the data this run fetched just before.  It is patched only when the hash
    differs or a condition has failed; and for an object with its conditions, it
    is patched whenever that is so after the data was fetched.  The time of the
    last sync plays no part, although the comment of [SyncHash] in
    secretsync_types.go says that a rotation that is due by that time updates the
    Secret, too. *)
Theorem Reconcile_patch_correct ns name s :
  let '(o, s') := Reconcile r ns name s in
  (∀ before ns' name' manager sec e after, new_calls s s' = before ++ PatchSecret ns' name' manager sec e :: after →
   ∃ ss ss0 data hash before' pre, read_answer s ns name (Ok ss) ∧ same_object ss ss0 ∧
     ns' = om_Namespace (ss_ObjectMeta ss) ∧ name' = om_Name (ss_ObjectMeta ss) ∧
     manager = secretSyncControllerFieldManager ∧
     before = before' ++ pre ∧ observed r ns ss0 data hash pre ∧ sec = secret_of ss0 data ∧
     (hash ≠ st_SyncHash (ss_Status ss) ∨ is_Some (failedCondition ss0)) ∧
     map_get (sec_Labels sec) controllerLabelKey = Some EmptyString ∧
     map_get (sec_Annotations sec) controllerAnnotationKey = None) ∧
  (∀ ss data hash pre rest, read_answer s ns name (Ok ss) → 2 ≤ length (conditions ss) →
   new_calls s s' = pre ++ rest → observed r ns ss data hash pre →
   hash ≠ st_SyncHash (ss_Status ss) ∨ is_Some (failedCondition ss) →
   ∃ e after, rest = patch_of ss data e :: after).
Proof.
  by_outcome. split.
  - intros before ns' name' manager sec e after Hc. rewrite Hc in Ho.
    apply outcome_patches in Ho as (ss & ss0 & data & hash & init & pre & Hr & Hs & _ & -> & Hobs & Hneed & E).
    unfold patch_of in E. injection E as -> -> -> ->. pose proof Hs as (_ & _ & En & Ens & _).
    exists ss, ss0, data, hash, init, pre. split_and!; try done.
    + cbn. by rewrite lookup_insert_eq.
    + destruct Hobs as (spc & fetch & Hl & _). by apply label_error_none.
  - intros ss data hash pre rest Hread Hconds Hc Hobs Hneed. rewrite Hc in Ho.
    pose proof (outcome_on_object _ _ _ _ _ _ Ho Hread Hconds) as Hobj.
    destruct (object_outcome_observed _ _ _ _ _ _ _ _ Hobj Hobs)
      as [(? & Hn & _)|(ss1 & _ & [(err & ss2 & e & _ & _ & ->)|(now & e & _ & ->)])]; [|by eexists _, _..].
    destruct Hneed as [?|[c Hf]]; [done|congruence].
Qed.

(** C9: when [Reconcile] returns an error, the object could not be read, or its
    status could not be written, or the last call writes a status that has the
    hash and time that were read and whose condition of the run's type is false
    with a reason on the retry list: the next run syncs even if the data has not
    changed. *)
Theorem Reconcile_error_reported ns name s :
  let '(o, s') := Reconcile r ns name s in
  ∀ err, o = Val (Some err) →
  (read_answer s ns name (Err err) ∧ new_calls s s' = []) ∨
  (∃ before ss', new_calls s s' = before ++ [StatusUpdate ss' (Some err)]) ∨
  (∃ ss before ss' e c, read_answer s ns name (Ok ss) ∧ new_calls s s' = before ++ [StatusUpdate ss' e] ∧
    same_object ss ss' ∧
    find_cond (conditionTypeOf ss) (conditions ss') = Some c ∧ cond_Status c = ConditionFalse ∧
    cond_Reason c ∈ FailedConditionsTriggeringRetry ∧ is_Some (failedCondition ss')).
Proof.
  by_outcome. intros err ->.
  destruct (outcome_object _ _ _ _ _ Ho) as [(? & [= ->] & Hr & ->)|[(ss & ss1 & ? & [= ->] & Hr & Hs & ->)|
    (ss & ss0 & init & pre & rest & Hr & Hs & -> & _ & _ & Hw)]]; [by left|right; left; by exists [], ss1|].
  assert (∀ l reason m ss1 ss2 e, reason ∈ FailedConditionsTriggeringRetry → same_object ss ss1 →
    reported (conditionTypeOf ss) ConditionFalse reason m ss1 ss2 → rest = l ++ [StatusUpdate ss2 e] →
    ∃ ss before ss' e c, read_answer s ns name (Ok ss) ∧ init ++ pre ++ rest = before ++ [StatusUpdate ss' e] ∧
      same_object ss ss' ∧ find_cond (conditionTypeOf ss) (conditions ss') = Some c ∧ cond_Status c = ConditionFalse ∧
      cond_Reason c ∈ FailedConditionsTriggeringRetry ∧ is_Some (failedCondition ss')) as Hmain.
  { intros l reason m ss1 ss2 e Hin Hs1 Hrep ->. pose proof (reported_find _ _ _ _ _ _ (conditionTypeOf ss) Hrep) as Hf.
    rewrite bool_decide_true in Hf by done. destruct Hf as (c & Hf & Est & Er & _).
    exists ss, (init ++ pre ++ l), ss2, e, c. rewrite Er, <- !app_assoc. split_and!; try done.
    - eapply same_object_trans; [done|]. by eapply reported_same.
    - eapply failedCondition_some; [done|]. by rewrite Er. }
  inversion Hw as [p|d _ _|reason m err' ss2 e2 Hrf Hrep|data hash ch ss1 ss2 err' e2 Hobs Hch Hn Hcl Hrep|
    data hash ch ss1 now e2 Hobs Hch Hn Hcl]; subst.
  - right. right. by eapply (Hmain []).
  - right. right. eapply (Hmain [_]); [| |done|done].
    + by_deciding.
    + eapply same_object_trans; [done|]. by eapply claimed_same.
  - right. left. eexists (init ++ pre ++ [patch_of ss0 data None]), _. by rewrite <- !app_assoc.
Qed.

(** A run with a patch: what it writes is the patch and what follows it. *)
Lemma outcome_patch s ns name o before ns' name' manager sec err after :
  reconcile_outcome r s ns name o (before ++ PatchSecret ns' name' manager sec err :: after) →
  ∃ ss ss0 init pre, read_answer s ns name (Ok ss) ∧ same_object ss ss0 ∧ starts ss ss0 init ∧
    object_writes ns (conditionTypeOf ss) ss0 pre o (PatchSecret ns' name' manager sec err :: after).
Proof.
  intros Ho.
  destruct (outcome_object _ _ _ _ _ Ho) as [(? & -> & Hr & E)|[(ss & ss1 & ? & -> & Hr & Hs & E)|
    (ss & ss0 & init & pre & rest & Hr & Hs & E & Hp & Hinit & Hw)]]; [by destruct before|by destruct before as [|? [|??]]|].
  symmetry in E. destruct (write_place _ _ _ _ _ _ _ (PatchSecret ns' name' manager sec err) Hinit Hp eq_refl E)
    as [(? & ? & _)|(b & _ & Eb)]; [done|].
  exists ss, ss0, init, pre. split_and!; [done..|].
  assert (b = []) as ->; [|by rewrite Eb in Hw].
  by destruct Hw; destruct b as [|? [|? [|??]]]; simplify_list_eq.
Qed.

(** C10: after a run that patched and wrote its status, for the first time or
    because the hash had changed, on an object that had one condition per type, of
    the two types of the controller, and whose creation was not reported as failed
    (when it is not the first sync), the status written has no condition that asks
    for a retry, and a later run that reads the SecretSync with this status
    patches the Secret only when it observes another hash: an unchanged Secret is
    not written again, however much later that is (the comment of [SyncHash] says
    that the Secret is also updated when a rotation is due by the time of the last
    sync; that time is not looked at). *)
Theorem Reconcile_settles ns name s :
  let '(o, s') := Reconcile r ns name s in
  ∀ ss before ns' name' manager sec ss' e,
  read_answer s ns name (Ok ss) →
  new_calls s s' = before ++ [PatchSecret ns' name' manager sec None; StatusUpdate ss' e] →
  conditions_ok ss →
  (st_SyncHash (ss_Status ss) = EmptyString ∨
   st_SyncHash (ss_Status ss') ≠ st_SyncHash (ss_Status ss) ∧
   ∀ c, find_cond ConditionTypeCreate (conditions ss) = Some c → cond_Reason c ∉ FailedConditionsTriggeringRetry) →
  failedCondition ss' = None ∧
  ∀ answer s2, stored_as ss' answer → read_answer s2 ns name (Ok answer) →
    let '(_, s2') := Reconcile r ns name s2 in
    ∀ before2 ns2 name2 manager2 sec2 e2 after2,
    new_calls s2 s2' = before2 ++ PatchSecret ns2 name2 manager2 sec2 e2 :: after2 →
    ∃ data hash, observed r ns answer data hash before2 ∧ hash ≠ st_SyncHash (ss_Status ss').
Proof.
  by_outcome. intros ssr before ns' name' manager sec ss' e Hread Hc Hok Hcase. rewrite Hc in Ho.
  apply outcome_patch in Ho as (ss & ss0 & init & pre & Hr & Hs & Hinit & Hw).
  pose proof (read_answer_det _ _ _ _ _ Hread Hr) as [= ->].
  assert (conditions_ok ss0 ∧ (st_SyncHash (ss_Status ss) = EmptyString ∨ st_SyncHash (ss_Status ss') ≠ st_SyncHash (ss_Status ss) ∧
    ∀ c, find_cond ConditionTypeCreate (conditions ss0) = Some c → cond_Reason c ∉ FailedConditionsTriggeringRetry)) as [Hok0 Hcase0].
  { destruct Hinit as [(_ & -> & _)|(ss1 & _ & _ & Hi & Hst)]; [done|].
    assert (conditions ss0 = conditions ss1) as Ec by (unfold conditions; by destruct Hst as (_ & _ & -> & _)).
    split; [unfold conditions_ok; rewrite Ec; by eapply initialised_ok|]. destruct Hcase as [?|[? _]]; [by left|right].
    split; [done|]. intros c Hf. rewrite Ec in Hf. apply (initialised_create _ _ _ Hi) in Hf. rewrite Hf. by apply reason_ok. }
  assert (2 ≤ length (conditions ss0)) as Hlen.
  { destruct Hinit as [(_ & -> & ?)|(ss1 & _ & _ & Hi & Hst)]; [done|]. transitivity (length (conditions ss1)).
    - by eapply initialised_length.
    - unfold conditions. by destruct Hst as (_ & _ & -> & _). }
  inversion Hw as [| | |data hash ch ss1 ss2 err' e2 Hobs Hch Hn Hcl Hrep|data hash ch ss1 now e2 Hobs Hch Hn Hcl]; subst.
  assert (failedCondition ss1 = None ∧ 2 ≤ length (conditions ss1)) as [Hf1 Hl1].
  2: { split; [done|]. intros answer s2 Hst Hread2. run_wp. apply wp_Reconcile. intros o2 calls2 s2' He2 Ho2.
    rewrite (extends_new_calls _ _ _ He2). intros b2 ns2 name2 m2 sec2 e2 a2 E2.
    rewrite E2 in Ho2. apply outcome_patches in Ho2 as (ss2 & ss2' & d2 & h2 & init2 & pre2 & Hr2 & _ & Hi2 & -> & Hobs2 & Hneed & _).
    pose proof (read_answer_det _ _ _ _ _ Hread2 Hr2) as [= <-]. pose proof Hst as (_ & _ & Est & _).
    assert (2 ≤ length (conditions answer)) as Hla by (unfold conditions in *; by rewrite Est).
    destruct Hi2 as [(-> & -> & _)|(? & _ & ? & _)]; [|lia]. exists d2, h2. split; [done|]. rewrite <- Est.
    destruct Hneed as [?|[c Hfc]]; [done|]. unfold failedCondition in Hf1, Hfc. rewrite Est in Hfc.
    cbn in Hf1, Hfc. congruence. }
  split; [|transitivity (length (conditions ss0)); [done|by eapply claimed_length]].
  eapply claimed_settled; [|exact Hok0|exact Hcl]. unfold conditionTypeOf.
  destruct (st_SyncHash (ss_Status ss)) as [|a h] eqn:Eh; [left; done|right].
  destruct Hcase0 as [?|[Hne Hcr]]; [done|]. split_and!; [done| |done].
  apply negb_true_iff, bool_decide_eq_false. pose proof Hs as (_ & _ & _ & _ & _ & _ & -> & _). by rewrite Eh.
Qed.

(** C12: when the patch fails, its error is returned and the run goes on to write
    one status, and nothing else: with the hash and the time of the last success
    as they were read, and the condition of the run's type false for the patch;
    but when this was the first sync, the condition SecretUpdated is written as
    true and up to date although there is no Secret. *)
Theorem Reconcile_patch_failed ns name s :
  let '(o, s') := Reconcile r ns name s in
  ∀ before ns' name' manager sec err after,
  new_calls s s' = before ++ PatchSecret ns' name' manager sec (Some err) :: after →
  o = Val (Some err) ∧
  ∃ ss ss' e c, read_answer s ns name (Ok ss) ∧ after = [StatusUpdate ss' e] ∧ same_object ss ss' ∧
    find_cond (conditionTypeOf ss) (conditions ss') = Some c ∧
    cond_Status c = ConditionFalse ∧ cond_Reason c = ConditionReasonControllerPatchError ∧
    (st_SyncHash (ss_Status ss) = EmptyString → ∃ cu, find_cond ConditionTypeUpdate (conditions ss') = Some cu ∧
       cond_Status cu = ConditionTrue ∧ cond_Reason cu = ConditionReasonSecretUpToDate).
Proof.
  by_outcome. intros before ns' name' manager sec err after Hc. rewrite Hc in Ho.
  apply outcome_patch in Ho as (ss & ss0 & init & pre & Hr & Hs & _ & Hw).
  inversion Hw as [| | |data hash ch ss1 ss2 err' e2 Hobs Hch Hn Hcl Hrep|]; subst. split; [done|].
  pose proof (reported_find _ _ _ _ _ _ (conditionTypeOf ss) Hrep) as Hf. rewrite bool_decide_true in Hf by done.
  destruct Hf as (c & Hf & Est & Er & _). exists ss, ss2, e2, c. split_and!; try done.
  - eapply same_object_trans; [exact Hs|]. eapply same_object_trans; [by eapply claimed_same|by eapply reported_same].
  - intros Eh. assert (conditionTypeOf ss = ConditionTypeCreate) as Ect by (unfold conditionTypeOf; by rewrite Eh).
    rewrite Ect in Hcl, Hrep. unfold claimed in Hcl. rewrite bool_decide_true in Hcl by done. destruct Hcl as (ss3 & _ & Hup).
    pose proof (reported_find _ _ _ _ _ _ ConditionTypeUpdate Hup) as Hf1. rewrite bool_decide_true in Hf1 by done.
    pose proof (reported_find _ _ _ _ _ _ ConditionTypeUpdate Hrep) as Hf2. rewrite bool_decide_false in Hf2 by done.
    destruct Hf1 as (cu & Hf1 & ? & ? & _). exists cu. split_and!; congruence.
Qed.

(** C13: a SecretSync that was synced and reports a failure, and whose data and
    hash are found unchanged, is patched again with this data.  When the patch
    succeeds, the status written has the conditions that were read, the failed one
    included; when it fails, that is what the condition SecretUpdated says.  In
    both cases the hash written is the same and a failure stays reported, so that
    the next run patches again, for as long as the data does not change. *)
Theorem Reconcile_recovery_unreported ns name s :
  let '(o, s') := Reconcile r ns name s in
  ∀ ss data pre rest,
  read_answer s ns name (Ok ss) →
  st_SyncHash (ss_Status ss) ≠ EmptyString → 2 ≤ length (conditions ss) → is_Some (failedCondition ss) →
  new_calls s s' = pre ++ rest → observed r ns ss data (st_SyncHash (ss_Status ss)) pre →
  ∃ err ss' e, rest = [patch_of ss data err; StatusUpdate ss' e] ∧
    o = Val (match err with Some err => Some err | None => e end) ∧
    st_SyncHash (ss_Status ss') = st_SyncHash (ss_Status ss) ∧ is_Some (failedCondition ss') ∧
    match err with
    | None => conditions ss' = conditions ss
    | Some err => ∃ c, find_cond ConditionTypeUpdate (conditions ss') = Some c ∧
        cond_Status c = ConditionFalse ∧ cond_Reason c = ConditionReasonControllerPatchError
    end.
Proof.
  by_outcome. intros ss data pre rest Hread Hne Hconds Hfail Hc Hobs. rewrite Hc in Ho.
  assert (conditionTypeOf ss = ConditionTypeUpdate) as Ect.
  { unfold conditionTypeOf. rewrite bool_decide_false; [done|]. by destruct (st_SyncHash (ss_Status ss)). }
  pose proof (outcome_on_object _ _ _ _ _ _ Ho Hread Hconds) as Hobj.
  rewrite Ect in Hobj.
  destruct (object_outcome_observed _ _ _ _ _ _ _ _ Hobj Hobs) as [(_ & Hn & _)|(ss1 & Hcl & Hw)]; [by destruct Hfail; congruence|].
  rewrite bool_decide_true in Hcl by done. unfold claimed in Hcl. rewrite bool_decide_false in Hcl by done. cbn in Hcl. subst ss1.
  destruct Hw as [(err & ss' & e & Hrep & -> & ->)|(now & e & -> & ->)].
  - exists (Some err), ss', e. pose proof (reported_find _ _ _ _ _ _ ConditionTypeUpdate Hrep) as Hf.
    rewrite bool_decide_true in Hf by done. destruct Hf as (c & Hf & Est & Er & _). split_and!; [done..| | |].
    + by apply reported_same in Hrep as (_ & _ & _ & _ & _ & _ & ? & _).
    + eapply failedCondition_some; [done|]. rewrite Er. by_deciding.
    + by exists c.
  - exists None. eexists _, e. split_and!; [done..|exact Hfail|done].
Qed.

(** *** The stages *)

(** C15: [prepareCSIProviderParams] asks once for the tokens and never touches
    the parameters of the class; what it gives the provider is the JSON of the
    class's parameters with the identity of the controller and of the SecretSync
    over them: whatever the class says, the namespace, the service account and
    the pod are the true ones, and its tokens are replaced by those it has just
    got when tokens are requested; it fails only with the error of the tokens,
    and panics exactly when the tokens are there and the class has no
    parameters. *)
Theorem prepareCSIProviderParams_correct spc ns sa s :
  ref_ok (rs_heap s) (spc_Parameters spc) →
  let '(o, s') := prepareCSIProviderParams r spc ns sa s in
  rs_heap s ⊆ rs_heap s' ∧ ∃ answer, new_calls s s' = [GotTokens ns sa (Val answer)] ∧
  match answer, o with
  | Ok tokens, Val (Passed json) => ∃ params,
      read_map (rs_heap s) (spc_Parameters spc) = Some params ∧
      json = json_string_map (Some (provider_params r params ns sa tokens)) ∧
      provider_params r params ns sa tokens !! csiPodNamespace = Some ns ∧
      provider_params r params ns sa tokens !! csiPodServiceAccountName = Some sa ∧
      provider_params r params ns sa tokens !! csiPodName = Some (r_Getenv r syncControllerPodName) ∧
      provider_params r params ns sa tokens !! csiPodUID = Some (r_Getenv r syncControllerPodUID) ∧
      (r_Audiences r ≠ [] → provider_params r params ns sa tokens !! csiPodServiceAccountTokens = tokens ≫= (.!! tokensKey))
  | Ok _, Panic _ => spc_Parameters spc = None
  | Err err, Val (Failed reason err') => reason = ConditionReasonControllerSyncError ∧ err' = err
  | _, _ => False
  end.
Proof.
  intros Hok. run_wp. apply wp_prepare; [done|..].
  - intros tokens s' He Hn. rewrite (extends_new_calls _ _ _ He). split; [by destruct He|]. eexists. split; [done|].
    destruct (spc_Parameters spc) as [l|]; [|done]. destruct Hok as [m Hm]. unfold read_map in Hn. cbn in Hn. congruence.
  - intros err s' He. rewrite (extends_new_calls _ _ _ He). split; [by destruct He|]. by eexists.
  - intros params tokens s' He Hp Ht. rewrite (extends_new_calls _ _ _ He). split; [by destruct He|]. eexists. split; [done|].
    exists params.
    assert (∀ k, k ≠ tokensKey → default ∅ tokens !! k = None) as Hother.
    { intros k Hk. destruct Ht as [[-> _]|[v ->]]; [done|]. by apply lookup_singleton_ne. }
    unfold provider_params. split_and!; try done.
    1-4: rewrite lookup_union_r by (by apply Hother); repeat first [rewrite lookup_insert_eq; done|rewrite lookup_insert_ne by done].
    intros Hau. destruct Ht as [[_ ?]|[v ->]]; [done|]. cbn [default from_option id mbind option_bind].
    rewrite lookup_union_l'; [done|]. exists v. apply lookup_singleton_eq.
Qed.

(** [serverSidePatchSecret] sends one server-side apply, of the Secret of
    the object with the data, and returns its error; the labels it adds the
    controller's label to are a copy: no map that existed before has changed. *)
Theorem serverSidePatchSecret_correct ss data s :
  ss_ok s ss →
  let '(o, s') := serverSidePatchSecret (P:=P) (Client:=Client) ss data s in
  ∃ err, o = Val err ∧ new_calls s s' = [patch_of (wire s ss) data err] ∧ rs_heap s ⊆ rs_heap s'.
Proof.
  intros Hok. run_wp. apply wp_serverSidePatchSecret; [done|]. intros err s' He. exists err.
  rewrite (extends_new_calls _ _ _ He). by destruct He.
Qed.

(** [updateStatusConditions] puts the condition and leaves the conditions of
    other types, the hash and the time alone; it writes the status, once, exactly
    when told to, and an error of that is not returned. *)
Theorem updateStatusConditions_correct ss ty status reason message (write : bool) s ty' :
  ss_ok s ss →
  let '(o, s') := updateStatusConditions (P:=P) (Client:=Client) ss ty status reason message write s in
  ∃ ss' sent, o = Val ss' ∧ same_object (wire s ss) sent ∧
    (if bool_decide (ty' = ty) then
       ∃ c, find_cond ty' (conditions sent) = Some c ∧ cond_Status c = status ∧ cond_Reason c = reason ∧ cond_Message c = message
     else find_cond ty' (conditions sent) = find_cond ty' (conditions ss)) ∧
    if write then ∃ err, new_calls s s' = [StatusUpdate sent err] else new_calls s s' = [] ∧ sent = wire s' ss'.
Proof.
  intros Hok. run_wp. destruct write.
  - apply wp_report; [done|]. intros v sent err s' He Hr. exists v, sent. rewrite (extends_new_calls _ _ _ He).
    split_and!; [done|by eapply reported_same|by apply (reported_find _ _ _ _ (wire s ss))|by exists err].
  - apply wp_condition. intros ss' s' He Hh Hr. exists ss', (wire s' ss'). rewrite (extends_new_calls _ _ _ He).
    apply (reported_wire _ _ _ _ _ _ s) in Hr. unfold wire in *. rewrite Hh.
    split_and!; [done|by eapply reported_same|by apply (reported_find _ _ _ _ (read_ss (rs_heap s) ss))|done|done].
Qed.
End claims.

(** ** Witnesses: runs in the cluster of ControllerFixture.v *)

Notation kstate := (rstate (PluginClientBuilder nat nat) kworld nat).
Definition start (status : SecretSyncStatus) (patch_error : option error) : kstate :=
  controller_start (cluster status (Some params1) patch_error).
Definition run_from (status : SecretSyncStatus) (patch_error : option error) : outcome (option error) * kstate :=
  run_controller (start status patch_error).
Definition calls_from (status : SecretSyncStatus) (patch_error : option error) : list (api_call nat) :=
  new_calls (start status patch_error) (run_from status patch_error).2.

Definition status_sent (c : option (api_call nat)) : wire_ss :=
  match c with Some (StatusUpdate ss _) => ss | _ => cluster_ss status_new end.
Definition secret_sent (c : option (api_call nat)) : Secret :=
  match c with Some (PatchSecret _ _ _ sec _) => sec | _ => secret_of (cluster_ss status_new) ∅ end.

Definition call_error (c : api_call nat) : option error :=
  match c with StatusUpdate _ e => e | PatchSecret _ _ _ _ e => e | _ => None end.

(** The status after the first sync, and the same with a failure of the
    provider reported. *)
Definition status_synced : SecretSyncStatus := ss_Status (status_sent (calls_from status_new None !! 6)).
Definition provider_failed : Condition := {| cond_Type := ConditionTypeUpdate; cond_Status := ConditionFalse;
  cond_Reason := ConditionReasonFailedProviderError; cond_Message := "down"; cond_LastTransitionTime := 0 |}.
Definition status_failed : SecretSyncStatus := {|
  st_SyncHash := st_SyncHash status_synced; st_LastSuccessfulSyncTime := st_LastSuccessfulSyncTime status_synced;
  st_Conditions := Some (put_cond provider_failed (conditions (cluster_ss status_synced))) |}.
Definition api_down : error := errors_New "the server is currently unable to handle the request".

(** A first run initialises the status, asks for the class, the client, the
    tokens and the files, patches and writes the status. *)
Definition run_new_calls (patch_error : option error) : list (api_call nat) := take 5 (calls_from status_new patch_error).
Definition run_recovered_calls : list (api_call nat) := take 4 (calls_from status_failed None).

Lemma run_new : calls_from status_new None = run_new_calls None ++
  [PatchSecret "shop" "db" secretSyncControllerFieldManager (secret_sent (calls_from status_new None !! 5)) None;
   StatusUpdate (status_sent (calls_from status_new None !! 6)) None].
Proof. vm_compute. reflexivity. Qed.
Lemma run_new_status : calls_from status_new None = take 6 (calls_from status_new None) ++
  [StatusUpdate (status_sent (calls_from status_new None !! 6)) None].
Proof. vm_compute. reflexivity. Qed.
Lemma run_new_failed : calls_from status_new (Some api_down) = run_new_calls (Some api_down) ++
  [PatchSecret "shop" "db" secretSyncControllerFieldManager (secret_sent (calls_from status_new (Some api_down) !! 5)) (Some api_down);
   StatusUpdate (status_sent (calls_from status_new (Some api_down) !! 6)) None].
Proof. vm_compute. reflexivity. Qed.
(** A second run after a successful one asks the same four questions and writes
    nothing. *)
Lemma run_again : map writes (calls_from status_synced None) = [false; false; false; false].
Proof. vm_compute. reflexivity. Qed.

(** A theorem on a run, as one on its outcome and calls. *)
Lemma run_claim status pe (Q : outcome (option error) → kstate → Prop) :
  (let '(o, s') := Reconcile controller "shop" "db" (start status pe) in Q o s') → Q (run_from status pe).1 (run_from status pe).2.
Proof. unfold run_from, run_controller. by destruct (Reconcile controller "shop" "db" (start status pe)). Qed.

(** The object that is read is the one in the cluster. *)
Lemma Reconcile_refines_witness :
  reconcile_outcome controller (start status_new None) "shop" "db" (run_from status_new None).1 (calls_from status_new None) ∧
  length (calls_from status_new None) = 7 ∧ map writes (calls_from status_synced None) = [false; false; false; false].
Proof.
  split; [|split; [vm_compute; reflexivity|exact run_again]].
  exact (proj1 (run_claim _ _ _ (Reconcile_refines controller "shop" "db" (start status_new None)))).
Defined.

Lemma Reconcile_hash_after_patch_witness : ∃ ss, read_answer (start status_new None) "shop" "db" (Ok ss) ∧
  (st_SyncHash status_synced = st_SyncHash (ss_Status ss) ∨
   ∃ ss0 data before' pre, take 6 (calls_from status_new None) = before' ++ pre ++ [patch_of ss0 data None] ∧ same_object ss ss0 ∧
     observed controller "shop" ss0 data (st_SyncHash status_synced) pre).
Proof.
  pose proof (run_claim _ _ _ (Reconcile_hash_after_patch controller "shop" "db" (start status_new None))) as HC.
  cbv beta in HC. exact (HC _ _ _ [] run_new_status).
Defined.

Lemma Reconcile_error_reported_witness : ∃ ss before ss' e c, read_answer (start status_new (Some api_down)) "shop" "db" (Ok ss) ∧
  calls_from status_new (Some api_down) = before ++ [StatusUpdate ss' e] ∧
  find_cond (conditionTypeOf ss) (conditions ss') = Some c ∧ cond_Status c = ConditionFalse ∧
  is_Some (failedCondition ss').
Proof.
  pose proof (run_claim _ _ _ (Reconcile_error_reported controller "shop" "db" (start status_new (Some api_down)))) as HC.
  cbv beta in HC.
  destruct (HC api_down ltac:(vm_compute; reflexivity)) as [[_ HE]|[(before & ss' & HE)|(ss & before & ss' & e & c & H1 & H2 & _ & H3 & H4 & _ & H5)]].
  - exfalso. assert (L : length (new_calls (start status_new (Some api_down)) (run_from status_new (Some api_down)).2) = 7)
      by (vm_compute; reflexivity). rewrite HE in L. discriminate L.
  - exfalso. assert (L : call_error <$> last (new_calls (start status_new (Some api_down)) (run_from status_new (Some api_down)).2)
      = Some None) by (vm_compute; reflexivity). rewrite HE, last_snoc in L. discriminate L.
  - exists ss, before, ss', e, c. split; [exact H1|]. split; [exact H2|]. split; [exact H3|]. split; [exact H4|exact H5].
Defined.

(** What the second run reads is the status the first has written. *)
Lemma run_new_stored : stored_as (status_sent (calls_from status_new None !! 6)) (cluster_ss status_synced).
Proof.
  unfold stored_as. refine (conj _ (conj _ (conj _ (conj _ (conj _ (conj _ _)))))); vm_compute; reflexivity.
Qed.

Lemma Reconcile_settles_witness :
  failedCondition (status_sent (calls_from status_new None !! 6)) = None ∧
  (∀ before ns name manager sec e after,
     calls_from status_synced None = before ++ PatchSecret ns name manager sec e :: after →
     ∃ data hash, observed controller "shop" (cluster_ss status_synced) data hash before ∧
       hash ≠ st_SyncHash (ss_Status (status_sent (calls_from status_new None !! 6)))) ∧
  map writes (calls_from status_synced None) = [false; false; false; false].
Proof.
  pose proof (run_claim _ _ _ (Reconcile_settles controller "shop" "db" (start status_new None))) as HC.
  cbv beta in HC.
  destruct (HC (cluster_ss status_new) _ _ _ _ _ _ _ ltac:(vm_compute; reflexivity) run_new) as [H1 H2].
  - split; constructor.
  - left. reflexivity.
  - split; [exact H1|]. split; [|exact run_again].
    assert (HR : read_answer (start status_synced None) "shop" "db" (Ok (cluster_ss status_synced))) by (vm_compute; reflexivity).
    specialize (H2 (cluster_ss status_synced) (start status_synced None) run_new_stored HR).
    apply (run_claim status_synced None) in H2. exact H2.
Defined.

Lemma Reconcile_patch_failed_witness : ∃ ss' e,
  (run_from status_new (Some api_down)).1 = Val (Some api_down) ∧
  drop 6 (calls_from status_new (Some api_down)) = [StatusUpdate ss' e] ∧
  ∃ cu, find_cond ConditionTypeUpdate (conditions ss') = Some cu ∧ cond_Status cu = ConditionTrue.
Proof.
  pose proof (run_claim _ _ _ (Reconcile_patch_failed controller "shop" "db" (start status_new (Some api_down)))) as HC.
  cbv beta in HC. destruct (HC _ _ _ _ _ _ _ run_new_failed) as (H1 & ss & ss' & e & c & HR & H2 & _ & _ & _ & _ & H3).
  exists ss', e. split; [exact H1|]. split; [rewrite run_new_failed; exact H2|].
  assert (HR0 : read_answer (start status_new (Some api_down)) "shop" "db" (Ok (cluster_ss status_new))) by (vm_compute; reflexivity).
  pose proof (read_answer_det _ _ _ _ _ HR0 HR) as [= <-]. destruct (H3 eq_refl) as (cu & Hcu & Hs & _).
  exists cu. split; [exact Hcu|exact Hs].
Defined.

(** What the provider answers in that run, and the data it gives. *)
Definition recovered_tokens : option smap :=
  match run_recovered_calls !! 2 with Some (GotTokens _ _ (Val (Ok t))) => t | _ => None end.
Definition recovered_mount : gmap string string * gmap string slice :=
  match run_recovered_calls !! 3 with Some (Mounted _ _ _ (Val (Ok m))) => m | _ => (∅, ∅) end.
Definition recovered_data : gmap string slice :=
  match secret_data (cluster_ss status_failed) recovered_mount.2 with Some (d, None) => d | _ => ∅ end.
Lemma run_recovered_observed :
  observed controller "shop" (cluster_ss status_failed) recovered_data (st_SyncHash status_failed) run_recovered_calls.
Proof.
  assert (E : run_recovered_calls =
    [asked_class "shop" (cluster_ss status_failed) (Ok (cluster_spc (Some params1)));
     asked_client (cluster_spc (Some params1)) (Val (Ok 0)); asked_tokens (cluster_ss status_failed) (Val (Ok recovered_tokens));
     asked_mount controller (cluster_ss status_failed) 0 params1 recovered_tokens (Val (Ok recovered_mount))])
    by (vm_compute; reflexivity).
  exists (cluster_spc (Some params1)), (drop 1 run_recovered_calls). rewrite E. split; [vm_compute; reflexivity|].
  split; [reflexivity|]. split; [|vm_compute; reflexivity]. apply fr_mount; [reflexivity|].
  assert (D : secret_data (cluster_ss status_failed) recovered_mount.2 = Some (recovered_data, None)) by (vm_compute; reflexivity).
  destruct recovered_mount as [ov files]. cbn [snd] in D. by rewrite D.
Qed.

(** A first sync, and a retry of a failure. *)
Lemma Reconcile_patch_correct_witness :
  (∃ ss ss0 data hash before' pre,
     read_answer (start status_new None) "shop" "db" (Ok ss) ∧ same_object ss ss0 ∧
     run_new_calls None = before' ++ pre ∧ observed controller "shop" ss0 data hash pre ∧
     secret_sent (calls_from status_new None !! 5) = secret_of ss0 data) ∧
  ∃ e after, drop 4 (calls_from status_failed None) = patch_of (cluster_ss status_failed) recovered_data e :: after.
Proof.
  pose proof (run_claim _ _ _ (Reconcile_patch_correct controller "shop" "db" (start status_new None))) as HC.
  pose proof (run_claim _ _ _ (Reconcile_patch_correct controller "shop" "db" (start status_failed None))) as HF.
  cbv beta in HC, HF. split.
  - destruct (proj1 HC _ _ _ _ _ _ _ run_new) as (ss & ss0 & data & hash & before' & pre & H1 & H2 & _ & _ & _ & H3 & H4 & H5 & _).
    exists ss, ss0, data, hash, before', pre.
    split; [exact H1|]. split; [exact H2|]. split; [exact H3|]. split; [exact H4|exact H5].
  - apply (proj2 HF (cluster_ss status_failed) _ _ _ (drop 4 (calls_from status_failed None)) ltac:(vm_compute; reflexivity)
      ltac:(apply Nat.leb_le; vm_compute; reflexivity) ltac:(symmetry; apply (take_drop 4)) run_recovered_observed).
    right. vm_compute. eexists. reflexivity.
Defined.

(** The provider is back with the same data: the Secret is patched, and the
    failure is still in the status. *)
Lemma Reconcile_recovery_unreported_witness : ∃ ss' e,
  calls_from status_failed None = run_recovered_calls ++ [patch_of (cluster_ss status_failed) recovered_data None; StatusUpdate ss' e] ∧
  conditions ss' = conditions (cluster_ss status_failed) ∧ failedCondition ss' = Some provider_failed.
Proof.
  pose proof (run_claim _ _ _ (Reconcile_recovery_unreported controller "shop" "db" (start status_failed None))) as HC.
  cbv beta in HC.
  destruct (HC (cluster_ss status_failed) _ _ (drop 4 (calls_from status_failed None)) ltac:(vm_compute; reflexivity)
    ltac:(vm_compute; discriminate) ltac:(apply Nat.leb_le; vm_compute; reflexivity) ltac:(vm_compute; by eexists)
    ltac:(symmetry; apply (take_drop 4)) run_recovered_observed) as (err & ss' & e & E & _ & _ & _ & HM).
  assert (N : call_error <$> calls_from status_failed None !! 4 = Some None) by (vm_compute; reflexivity).
  assert (F : failedCondition (cluster_ss status_failed) = Some provider_failed) by (vm_compute; reflexivity).
  assert (L : calls_from status_failed None = run_recovered_calls ++ drop 4 (calls_from status_failed None)) by (symmetry; apply (take_drop 4)).
  rewrite E in L. assert (err = None) as ->.
  { rewrite L in N. assert (HL : length run_recovered_calls = 4) by (vm_compute; reflexivity).
    rewrite lookup_app_r in N by lia. rewrite HL in N. by injection N as ->. }
  exists ss', e. split; [exact L|]. split; [exact HM|]. unfold failedCondition in *. unfold conditions in HM. by rewrite HM.
Defined.

(** The parameters of a class that tries to give itself another namespace. *)
Definition heap_params : kstate :=
  {| rs_heap := {[ 1%positive := {[ csiPodNamespace := "kube-system" ]} ]}; rs_tokens := NewManager true;
     rs_providers := NewPluginClientBuilder ["/provider"] []; rs_world := cluster status_new None None; rs_calls := [] |}.
Definition class_of (params : mapref) : SecretProviderClass mapref :=
  {| spc_UID := "6f1"; spc_Generation := 3; spc_Provider := "vault"; spc_Parameters := params |}.

Definition prepare_run : outcome (stage string) * kstate :=
  prepareCSIProviderParams controller (class_of (Some 1%positive)) "shop" "app" heap_params.

Lemma prepareCSIProviderParams_correct_witness :
  ref_ok (rs_heap heap_params) (Some 1%positive) ∧
  ∃ params tokens, new_calls heap_params prepare_run.2 = [GotTokens "shop" "app" (Val (Ok tokens))] ∧
    prepare_run.1 = Val (Passed (json_string_map (Some (provider_params controller params "shop" "app" tokens)))) ∧
    provider_params controller params "shop" "app" tokens !! csiPodNamespace = Some "shop".
Proof.
  assert (Hok : ref_ok (rs_heap heap_params) (Some 1%positive)) by (eexists; reflexivity).
  split; [exact Hok|].
  pose proof (prepareCSIProviderParams_correct controller (class_of (Some 1%positive)) "shop" "app" heap_params Hok) as HC.
  assert (HV : match prepare_run.1 with Val (Passed _) => true | _ => false end = true) by (vm_compute; reflexivity).
  unfold prepare_run in *. destruct (prepareCSIProviderParams controller (class_of (Some 1%positive)) "shop" "app" heap_params) as [o s'].
  destruct HC as (_ & answer & H1 & H2). cbn [fst snd] in *. destruct o as [[json|reason err]|p]; [|discriminate HV|discriminate HV].
  destruct answer as [tokens|err]; [|destruct H2]. destruct H2 as (params & _ & H2 & H3 & _).
  exists params, tokens. split; [exact H1|]. split; [exact (f_equal (λ j, Val (Passed j)) H2)|exact H3].
Defined.

Lemma serverSidePatchSecret_correct_witness :
  let ss := shared_labels "db" in
  let s := {| rs_heap := {[ 1%positive := {[ "team" := "web" ]} ]}; rs_tokens := NewManager true;
     rs_providers := NewPluginClientBuilder ["/provider"] []; rs_world := cluster status_new None None; rs_calls := [] |} in
  let '(o, s') := serverSidePatchSecret (P:=PluginClientBuilder nat nat) (Client:=nat) ss ∅ s in
  ∃ err, o = Val err ∧ new_calls s s' = [patch_of (wire s ss) ∅ err] ∧ rs_heap s ⊆ rs_heap s'.
Proof.
  intros ss s. apply (serverSidePatchSecret_correct (P:=PluginClientBuilder nat nat) (Client:=nat) ss ∅ s).
  constructor; [eexists; reflexivity|]. repeat constructor.
Defined.

Lemma updateStatusConditions_correct_witness :
  let ss := shared_labels "db" in
  let s := {| rs_heap := {[ 1%positive := {[ "team" := "web" ]} ]}; rs_tokens := NewManager true;
     rs_providers := NewPluginClientBuilder ["/provider"] []; rs_world := cluster status_new None None; rs_calls := [] |} in
  let '(o, s') := updateStatusConditions (P:=PluginClientBuilder nat nat) (Client:=nat) ss ConditionTypeCreate ConditionFalse "r" "m" true s in
  ∃ sent err, new_calls s s' = [StatusUpdate sent err] ∧ same_object (wire s ss) sent.
Proof.
  intros ss s.
  pose proof (updateStatusConditions_correct (P:=PluginClientBuilder nat nat) (Client:=nat) ss ConditionTypeCreate ConditionFalse "r" "m" true s
    ConditionTypeCreate) as HC.
  destruct (updateStatusConditions ss ConditionTypeCreate ConditionFalse "r" "m" true s) as [o s'].
  destruct HC as (ss' & sent & _ & H1 & _ & err & H2).
  - constructor; [eexists; reflexivity|]. repeat constructor.
  - exists sent, err. split; [exact H2|exact H1].
Defined.
