(* ===== verification/Convergence.v ===== *)
(** * Reconciling again and again comes to rest

    A steady period: runs of one SecretSync that succeed, each reading the
    status the one before has left, while nothing the hash covers changes.  Only
    the first of them writes anything. *)

From stdpp Require Import strings gmap list.
From S2P Require Import Prelude GoText GoFmt GoJson GoStrings GoTime ApiTypes SecretUtil CryptoFixture Token TokenFixture TokenPreempted TokenSpec Provider ProviderFixture ControllerEnv Conditions StateHash Reconciler ControllerFixture ReconcilerSteps ReconcilerSpec.

Open Scope nat_scope.

Section convergence.
Context {P W Client : Type}.
Context `{TokenEnv W, !TokenEnvLaws W, Preempt W, !PreemptLaws W}.
Context `{KubeClient W, AllClientBuilder P W Client, CSIDriverProvider W Client}.
Context `{!KubeClientLaws W, !AllClientBuilderLaws P W Client}.
Context `{Pem, Pkcs12, X509, Pbkdf2, !PemLaws}.
Context (r : SecretSyncReconciler) (ns name hash : string).
Implicit Types s : rstate P W Client.

(** The status the API server has after the calls of a run: of the last status
    update, as it was before without one. *)
Definition last_status (calls : list (api_call Client)) : option wire_ss :=
  last (omap (λ c, match c with StatusUpdate obj None => Some obj | _ => None end) calls).
Definition status_after (ss : wire_ss) (calls : list (api_call Client)) (ss' : wire_ss) : Prop :=
  match last_status calls with None => ss' = ss | Some obj => stored_as obj ss' end.

(** Whatever a run has observed for the object it read has the hash. *)
Definition only_observes (ss : wire_ss) (calls : list (api_call Client)) : Prop :=
  ∀ before pre after ss0 data h, same_object ss ss0 → calls = before ++ pre ++ after →
    observed r ns ss0 data h pre → h = hash.

Inductive steady : wire_ss → list (list (api_call Client)) → Prop :=
| steady_end ss : steady ss []
| steady_run ss s s' ss' rest :
    read_answer s ns name (Ok ss) → Reconcile r ns name s = (Val None, s') →
    only_observes ss (new_calls s s') → status_after ss (new_calls s s') ss' →
    steady ss' rest → steady ss (new_calls s s' :: rest).

(** A status with this hash and nothing to retry. *)
Definition settled (ss : wire_ss) : Prop :=
  st_SyncHash (ss_Status ss) = hash ∧ failedCondition ss = None ∧ 2 ≤ length (conditions ss).

(** Where the period may start: never synced; synced with other data, the
    creation not reported as failed; or synced with this data and no failure
    reported. *)
Definition startable (ss : wire_ss) : Prop :=
  conditions_ok ss ∧
  (st_SyncHash (ss_Status ss) = EmptyString ∨
   (∀ c, find_cond ConditionTypeCreate (conditions ss) = Some c → cond_Reason c ∉ FailedConditionsTriggeringRetry) ∧
   (st_SyncHash (ss_Status ss) = hash → failedCondition ss = None)).

(** What a successful run has written, after it observed the hash. *)
Definition steady_writes (ct : string) (ss : wire_ss) (rest : list (api_call Client)) : Prop :=
  rest = [] ∧ failedCondition ss = None ∧ st_SyncHash (ss_Status ss) = hash ∨
  ∃ data changed ss1 now, rest = [patch_of ss data None; StatusUpdate (with_sync hash (Some now) ss1) None] ∧
    changed = negb (bool_decide (hash = st_SyncHash (ss_Status ss))) ∧
    (is_Some (failedCondition ss) ∨ changed = true) ∧ claimed ct changed ss ss1.

Lemma steady_outcome s ss calls :
  read_answer s ns name (Ok ss) → reconcile_outcome r s ns name (Val None) calls → only_observes ss calls →
  ∃ ss0 init pre rest, starts ss ss0 init ∧ same_object ss ss0 ∧ calls = init ++ pre ++ rest ∧ asks pre ∧
    steady_writes (conditionTypeOf ss) ss0 rest.
Proof.
  intros Hread Ho Hobs.
  destruct (outcome_object _ _ _ _ _ _ Ho) as [(? & ? & _)|[(? & ? & ? & ? & _)|
    (ss' & ss0 & init & pre & rest & Hr & Hs & -> & Hp & Hinit & Hw)]]; [done..|].
  pose proof (read_answer_det _ _ _ _ _ Hread Hr) as [= <-].
  exists ss0, init, pre, rest. split_and!; [done..|].
  inversion Hw as [p|d Hd Hf|reason m err' ss2 e2 Hrf Hrep|data hash' ch ss1 ss2 err' e2 Hd Hch Hn Hcl Hrep|
    data hash' ch ss1 now e2 Hd Hch Hn Hcl]; subst.
  - left. split_and!; [done..|]. by eapply Hobs.
  - right. assert (hash' = hash) as -> by (by eapply Hobs). by exists data, (negb (bool_decide (hash = st_SyncHash (ss_Status ss0)))), ss1, now.
Qed.

(** *** Where the conditions stand *)

Lemma starts_length ss ss0 (init : list (api_call Client)) : starts ss ss0 init → 2 ≤ length (conditions ss0).
Proof.
  intros [(_ & -> & ?)|(ss1 & _ & _ & Hi & Hst)]; [done|]. transitivity (length (conditions ss1)).
  - by eapply initialised_length.
  - unfold conditions. by destruct Hst as (_ & _ & -> & _).
Qed.

(** Initialising leaves nothing to retry of the creation. *)
Lemma starts_create ss ss0 (init : list (api_call Client)) :
  conditions_ok ss → starts ss ss0 init →
  conditions_ok ss0 ∧
  ((∀ c, find_cond ConditionTypeCreate (conditions ss) = Some c → cond_Reason c ∉ FailedConditionsTriggeringRetry) →
   ∀ c, find_cond ConditionTypeCreate (conditions ss0) = Some c → cond_Reason c ∉ FailedConditionsTriggeringRetry).
Proof.
  intros Hok [(_ & -> & _)|(ss1 & _ & _ & Hi & Hst)]; [done|].
  assert (conditions ss0 = conditions ss1) as Ec by (unfold conditions; by destruct Hst as (_ & _ & -> & _)).
  split; [unfold conditions_ok; rewrite Ec; by eapply initialised_ok|]. intros _ c Hf. rewrite Ec in Hf.
  apply (initialised_create _ _ _ Hi) in Hf. rewrite Hf. by apply reason_ok.
Qed.

(** The status a start leaves on the server when nothing else is written. *)
Lemma starts_status ss ss0 init pre (ss' : wire_ss) :
  starts ss ss0 init → asks pre → status_after ss (init ++ pre) ss' →
  ss_Status ss' = ss_Status ss0 .
Proof.
  assert (∀ pre : list (api_call Client), asks pre →
    omap (λ c, match c with StatusUpdate obj None => Some obj | _ => None end) pre = []) as Ho.
  { induction 1 as [|c l Hc _ IH]; [done|]. cbn. rewrite IH. by destruct c. }
  intros [(-> & -> & _)|(ss1 & -> & _ & _ & Hst)] Hp; unfold status_after, last_status.
  - cbn [app]. rewrite Ho by done. by intros ->.
  - cbn. rewrite Ho by done. cbn. intros (_ & _ & -> & _). by destruct Hst as (_ & _ & -> & _).
Qed.

(** The conditions a start puts ask for nothing. *)
Lemma initialised_settled (ss ss1 : wire_ss) : conditions_ok ss → initialised ss ss1 → failedCondition ss1 = None.
Proof.
  intros Hok Hi. apply failedCondition_types; [by eapply initialised_ok|..]; intros c Hc.
  - rewrite (initialised_create _ _ _ Hi Hc). by apply reason_ok.
  - destruct Hi as (ss2 & _ & Hup). pose proof (reported_find _ _ _ _ _ _ ConditionTypeUpdate Hup) as F.
    rewrite bool_decide_true in F by done. destruct F as (c' & F & _ & Hr & _).
    assert (c = c') as -> by congruence. rewrite Hr. by apply reason_ok.
Qed.
Lemma starts_settled ss ss0 (init : list (api_call Client)) :
  conditions_ok ss → starts ss ss0 init → failedCondition ss = None → failedCondition ss0 = None.
Proof.
  intros Hok [(_ & -> & _)|(ss1 & _ & _ & Hi & Hst)] Hf; [done|].
  pose proof (initialised_settled _ _ Hok Hi) as Hf1. unfold failedCondition in *. by destruct Hst as (_ & _ & -> & _).
Qed.

Lemma settled_status ss ss' : ss_Status ss' = ss_Status ss → settled ss → settled ss'.
Proof. unfold settled, failedCondition, conditions. by intros ->. Qed.

(** *** The runs *)

Lemma settled_run s ss calls :
  read_answer s ns name (Ok ss) → reconcile_outcome r s ns name (Val None) calls → only_observes ss calls →
  settled ss → asks calls.
Proof.
  intros Hread Ho Hobs (Eh & Ef & El).
  destruct (steady_outcome s ss calls Hread Ho Hobs) as (ss0 & init & pre & rest & Hinit & _ & -> & Hp & Hw).
  destruct Hinit as [(-> & -> & _)|(? & _ & ? & _)]; [|lia].
  destruct Hw as [(-> & _)|(data & ch & ss1 & now & _ & -> & [[c Hc]|Hch] & _)].
  - by rewrite app_nil_r.
  - congruence.
  - by rewrite bool_decide_true in Hch.
Qed.

Lemma settling_run s ss calls ss' :
  read_answer s ns name (Ok ss) → reconcile_outcome r s ns name (Val None) calls → only_observes ss calls →
  status_after ss calls ss' → startable ss → settled ss'.
Proof.
  intros Hread Ho Hobs Hst [Hok Hcase].
  destruct (steady_outcome s ss calls Hread Ho Hobs) as (ss0 & init & pre & rest & Hinit & Hs & -> & Hp & Hw).
  pose proof (starts_length _ _ _ Hinit) as Hlen.
  destruct Hw as [(-> & Ef & Eh)|(data & ch & ss1 & now & -> & Hch & Hn & Hcl)].
  { rewrite app_nil_r in Hst. apply (settled_status ss0); [by eapply starts_status|done]. }
  apply (settled_status (with_sync hash (Some now) ss1)).
  { unfold status_after, last_status in Hst. rewrite !omap_app, !last_app in Hst. cbn in Hst. apply Hst. }
  destruct (starts_create _ _ _ Hok Hinit) as [Hok0 Hcr].
  split_and!; [done| |transitivity (length (conditions ss0)); [done|by apply claimed_length in Hcl]].
  change (failedCondition (with_sync hash (Some now) ss1)) with (failedCondition ss1).
  eapply claimed_settled; [|exact Hok0|exact Hcl]. unfold conditionTypeOf.
  destruct (st_SyncHash (ss_Status ss)) as [|a h] eqn:Es; [by left|right].
  destruct Hcase as [?|[Hc Hf]]; [done|]. split_and!; [done| |by apply Hcr].
  destruct Hn as [[c Hn]|?]; [|done]. subst ch. apply negb_true_iff, bool_decide_eq_false. intros E.
  destruct Hs as (_ & _ & _ & _ & _ & _ & Eh & _).
  rewrite (starts_settled _ _ _ Hok Hinit) in Hn; [done|]. apply Hf. by rewrite E, Eh.
Qed.

Lemma run_outcome s o s' : Reconcile r ns name s = (o, s') → reconcile_outcome r s ns name o (new_calls s s').
Proof.
  intros E. assert (wp (Reconcile r ns name) (λ o s', reconcile_outcome r s ns name o (new_calls s s')) s) as Hwp.
  { apply wp_Reconcile. intros o' calls s2 He Ho. by rewrite (extends_new_calls _ _ _ He). }
  unfold wp in Hwp. by rewrite E in Hwp.
Qed.

Lemma settled_steady ss runs : settled ss → steady ss runs → Forall asks runs.
Proof.
  intros Hs Hrun. induction Hrun as [ss|ss s s' ss' rest Hread E%run_outcome Hobs Hst _ IH]; [done|].
  pose proof (settled_run _ _ _ Hread E Hobs Hs) as Ha. constructor; [done|]. apply IH.
  apply (settled_status ss); [|done].
  assert (starts ss ss ([] : list (api_call Client))) as Hstart by (by left; destruct Hs as (_ & _ & ?)).
  by apply (starts_status _ _ _ _ _ Hstart Ha).
Qed.

(** C11: reconciling comes to rest: in a period of successful runs in which the
    hash stays the same and each run reads the status the one before has left,
    only the first run may write; all that follow ask the same questions and
    write nothing.  The period must start with an object that is [startable]: one
    condition per type, of the two types of the controller, and never synced, or
    synced with other data and its creation not reported as failed, or synced
    with this data and no failure reported.  From a reported failure with
    unchanged data, on the contrary, every run patches again.  No length of time
    ends the rest: the update by the time of the last sync that the comment of
    [SyncHash] in secretsync_types.go speaks of is not in the code. *)
Theorem Reconcile_converges ss runs :
  startable ss → steady ss runs → Forall asks (tail runs).
Proof.
  intros Hss Hrun. revert Hss. destruct Hrun as [ss|ss s s' ss' rest Hread E%run_outcome Hobs Hst Hrest]; [done|]. intros Hss.
  eapply settled_steady; [|done]. by eapply settling_run.
Qed.
End convergence.

(** ** Witness: the cluster of ControllerFixture.v, synced and looked at twice *)

(** The hash of what a run has observed, computed from its requests. *)
Definition observed_hash `{Pem, Pkcs12, X509, Pbkdf2} {Client} (ss : wire_ss) (calls : list (api_call Client)) : option string :=
  match omap (λ c, match c with GotClass _ _ (Ok spc) => Some spc | _ => None end) calls,
        omap (λ c, match c with Mounted _ _ _ (Val (Ok (_, files))) => Some files | _ => None end) calls with
  | [spc], [files] =>
    match secret_data ss files with
    | Some (data, None) => match computeCurrentStateHash data spc ss with Ok h => Some h | Err _ => None end
    | _ => None
    end
  | _, _ => None
  end.

Lemma singleton_middle {A} (l1 l2 : list A) x y : l1 ++ x :: l2 = [y] → l1 = [] ∧ l2 = [] ∧ x = y.
Proof. destruct l1 as [|? [|]]; intros; by simplify_list_eq. Qed.

Lemma observed_hash_only `{Pem, Pkcs12, X509, Pbkdf2} {Client} r ns hash ss (calls : list (api_call Client)) :
  observed_hash ss calls = Some hash → only_observes r ns hash ss calls.
Proof.
  unfold observed_hash. intros E before pre after ss0 data h Hs -> Hobs.
  apply observed_origin in Hobs as (spc & client & params & tokens & ov & files & -> & _ & Hd & Hh).
  rewrite !omap_app in E. cbn in E. destruct (omap _ before ++ spc :: _) as [|x [|]] eqn:E1; [done| |done].
  apply singleton_middle in E1 as (_ & _ & ->).
  destruct (omap _ before ++ files :: _) as [|y [|]] eqn:E2; [done| |done].
  apply singleton_middle in E2 as (_ & _ & ->).
  destruct Hs as (_ & Espec & _ & _ & Euid & Egen & _).
  assert (secret_data ss0 y = secret_data ss y) as Es by (unfold secret_data; by rewrite Espec).
  rewrite Es in Hd. rewrite Hd in E. unfold computeCurrentStateHash, toHash in E, Hh.
  rewrite Espec, Euid, Egen in Hh. injection Hh as <-. by injection E as <-.
Qed.

Definition the_hash : string := st_SyncHash status_synced.
Definition three_runs : list (list (api_call nat)) :=
  [calls_from status_new None; calls_from status_synced None; calls_from status_synced None].

Lemma run_is status pe o : (run_from status pe).1 = o →
  Reconcile controller "shop" "db" (start status pe) = (o, (run_from status pe).2).
Proof. intros <-. unfold run_from, run_controller. apply surjective_pairing. Qed.

Lemma three_steady : steady controller "shop" "db" the_hash (cluster_ss status_new) three_runs.
Proof.
  assert (Hagain : ∀ rest, steady controller "shop" "db" the_hash (cluster_ss status_synced) rest →
    steady controller "shop" "db" the_hash (cluster_ss status_synced) (calls_from status_synced None :: rest)).
  { intros rest Hrest.
    refine (steady_run controller "shop" "db" the_hash _ (start status_synced None) (run_from status_synced None).2
      (cluster_ss status_synced) rest _ _ _ _ Hrest).
    - vm_compute. reflexivity.
    - apply run_is. vm_compute. reflexivity.
    - apply observed_hash_only. vm_compute. reflexivity.
    - vm_compute. reflexivity. }
  refine (steady_run controller "shop" "db" the_hash _ (start status_new None) (run_from status_new None).2
    (cluster_ss status_synced) _ _ _ _ _ (Hagain _ (Hagain _ (steady_end _ _ _ _ _)))).
  - vm_compute. reflexivity.
  - apply run_is. vm_compute. reflexivity.
  - apply observed_hash_only. vm_compute. reflexivity.
  - unfold status_after.
    assert (E : last_status (new_calls (start status_new None) (run_from status_new None).2) =
      Some (status_sent (calls_from status_new None !! 6))) by (vm_compute; reflexivity).
    rewrite E. exact run_new_stored.
Qed.

Lemma Reconcile_converges_witness : Forall asks [calls_from status_synced None; calls_from status_synced None].
Proof.
  refine (Reconcile_converges controller "shop" "db" the_hash (cluster_ss status_new) three_runs _ three_steady).
  split; [split; constructor|]. left. reflexivity.
Defined.
