(* ===== verification/System.v ===== *)
(** * The controller as a whole: processes, runs, crashes

    A running controller reconciles one SecretSync after the other, drops
    expired tokens between runs and within them, is restarted and may die in the
    middle of a run, while the provider clients, the heap of the client's cache and
    the outside world do as they like.  [running] is what can come about; the requests of all processes
    are in [rs_calls], in order.  Two promises hold throughout: the hash in a
    status is that of data that was patched before, and a Secret is only filled
    from a request made with the class and the tokens of its own namespace and
    service account. *)

From stdpp Require Import strings gmap list.
From S2P Require Import Prelude GoText GoFmt GoJson GoStrings GoTime ApiTypes SecretUtil CryptoFixture Token TokenFixture TokenPreempted TokenSpec Provider ProviderFixture ControllerEnv Conditions StateHash Reconciler ControllerFixture ReconcilerSteps ReconcilerSpec.

Open Scope nat_scope.

Section system.
Context {P W Client : Type}.
Context `{TokenEnv W, !TokenEnvLaws W, Preempt W, !PreemptLaws W}.
Context `{KubeClient W, AllClientBuilder P W Client, CSIDriverProvider W Client}.
Context `{!KubeClientLaws W, !AllClientBuilderLaws P W Client}.
Context `{Pem, Pkcs12, X509, Pbkdf2, !PemLaws}.
Context (r : SecretSyncReconciler).
Implicit Types s : rstate P W Client.

(** ** What can come about *)

(** What the API server, or a cache of it, answers for a SecretSync: an object
    of that name, never synced or with a hash this controller has written. *)
Definition from_history (calls : list (api_call Client)) (ns name : string) (ss : wire_ss) : Prop :=
  om_Namespace (ss_ObjectMeta ss) = ns ∧ om_Name (ss_ObjectMeta ss) = name ∧
  (st_SyncHash (ss_Status ss) = EmptyString ∨
   ∃ obj, StatusUpdate obj None ∈ calls ∧ om_Namespace (ss_ObjectMeta obj) = ns ∧ om_Name (ss_ObjectMeta obj) = name ∧
     st_SyncHash (ss_Status obj) = st_SyncHash (ss_Status ss)).
Definition reads_history s (ns name : string) : Prop :=
  ∀ ss, read_answer s ns name (Ok ss) → from_history (rs_calls s) ns name ss.

Inductive running : rstate P W Client → Prop :=
| run_first s client : rs_calls s = [] → rs_tokens s = NewManager client → running s
| run_reconcile ns name s : running s → reads_history s ns name → running (Reconcile r ns name s).2
| run_crash ns name s k client h p w :
    running s → reads_history s ns name →
    running {| rs_heap := h; rs_tokens := NewManager client; rs_providers := p; rs_world := w;
               rs_calls := rs_calls s ++ take k (new_calls s (Reconcile r ns name s).2) |}
| run_restart s client h p w : running s →
    running {| rs_heap := h; rs_tokens := NewManager client; rs_providers := p; rs_world := w; rs_calls := rs_calls s |}
| run_cleanup s : running s → running (on_tokens cleanup s).2
| run_outside h p w s : running s → running (set_state h (rs_tokens s) p w s).

(** The calls of a run that was cut off, or not, after those before it. *)
Lemma Reconcile_calls ns name s :
  rs_calls (Reconcile r ns name s).2 = rs_calls s ++ new_calls s (Reconcile r ns name s).2 ∧
  ∃ o, reconcile_outcome r s ns name o (new_calls s (Reconcile r ns name s).2).
Proof.
  apply (wp_Reconcile r ns name (λ o s', rs_calls s' = rs_calls s ++ new_calls s s' ∧
    ∃ o, reconcile_outcome r s ns name o (new_calls s s')) s).
  intros o calls s' He Ho. rewrite (extends_new_calls _ _ _ He). split; [apply He|by exists o].
Qed.

Lemma cleanup_calls s : rs_calls (on_tokens (P:=P) (W:=W) (Client:=Client) cleanup s).2 = rs_calls s.
Proof. unfold on_tokens. by destruct (cleanup _) as [? [??]]. Qed.

(** A property of the calls that holds at the start and is kept by adding the
    beginning of a run holds of a running controller. *)
Lemma running_calls (I : list (api_call Client) → Prop) :
  I [] →
  (∀ ns name s o calls k, I (rs_calls s) → reads_history s ns name → reconcile_outcome r s ns name o calls →
     I (rs_calls s ++ take k calls)) →
  ∀ s, running s → I (rs_calls s).
Proof.
  intros Hnil Hrun. induction 1 as [s client Hc _|ns name s _ IH Hread|ns name s k client h p w _ IH Hread|s client h p w _ IH|s _ IH|h p w s _ IH].
  - by rewrite Hc.
  - destruct (Reconcile_calls ns name s) as (-> & o & Ho).
    rewrite <- (firstn_all (new_calls s _)). by eapply Hrun.
  - destruct (Reconcile_calls ns name s) as (_ & o & Ho). by eapply Hrun.
  - done.
  - by rewrite cleanup_calls.
  - done.
Qed.

(** ** What a status says is in the cluster *)

(** Before each status that is written with a hash, data with this hash was
    fetched and patched to the Secret of the same SecretSync. *)
Definition hash_patched (calls : list (api_call Client)) : Prop :=
  ∀ before obj e after, calls = before ++ StatusUpdate obj e :: after → st_SyncHash (ss_Status obj) ≠ EmptyString →
  ∃ l1 pre ss0 data l2, before = l1 ++ pre ++ patch_of ss0 data None :: l2 ∧
    om_Namespace (ss_ObjectMeta ss0) = om_Namespace (ss_ObjectMeta obj) ∧
    om_Name (ss_ObjectMeta ss0) = om_Name (ss_ObjectMeta obj) ∧
    observed r (om_Namespace (ss_ObjectMeta obj)) ss0 data (st_SyncHash (ss_Status obj)) pre.

Lemma hash_patched_run ns name s o calls k :
  hash_patched (rs_calls s) → reads_history s ns name → reconcile_outcome r s ns name o calls →
  hash_patched (rs_calls s ++ take k calls).
Proof.
  intros IH Hread Ho before obj e after E Hne.
  apply app_split_elem in E as [(b & E & _)|(b & -> & E)]; [by eapply IH|].
  assert (calls = b ++ StatusUpdate obj e :: (after ++ drop k calls)) as Ec.
  { rewrite <- (firstn_skipn k calls) at 1. by rewrite E, <- app_assoc. }
  rewrite Ec in Ho. apply outcome_statuses in Ho as (ss & Hr & (Hn & Hns & _) & Hh).
  destruct (Hread _ Hr) as (Ens & En & Hhist).
  destruct Hh as [Eh|(ss0 & data & before' & pre & -> & Hs & Hobs)].
  - destruct Hhist as [?|(obj0 & (m1 & m2 & Em)%list_elem_of_split & Ens0 & En0 & Eh0)]; [congruence|].
    destruct (IH _ _ _ _ Em) as (l1 & pre & ss0 & data & l2 & -> & E1 & E2 & Hobs); [congruence|].
    exists l1, pre, ss0, data, (l2 ++ StatusUpdate obj0 None :: m2 ++ b). split_and!; [|congruence..|].
    + rewrite Em. by list_simplifier.
    + rewrite Eh, <- Eh0, Hns, Ens, <- Ens0. done.
  - destruct Hs as (_ & _ & ? & ? & _). exists (rs_calls s ++ before'), pre, ss0, data, [].
    split_and!; [by rewrite <- !app_assoc|congruence..|]. by rewrite Hns, Ens.
Qed.

Lemma running_hashes s : running s → hash_patched (rs_calls s).
Proof.
  apply running_calls; [|exact hash_patched_run]. intros before obj e after E. by destruct before.
Qed.
End system.

(** ** Tokens *)

Section tokens.
Context {P W Client : Type}.
Context `{TokenEnv W, !TokenEnvLaws W, Preempt W, !PreemptLaws W}.
Context `{KubeClient W, AllClientBuilder P W Client, CSIDriverProvider W Client}.
Context `{!KubeClientLaws W, !AllClientBuilderLaws P W Client}.
Context `{Pem, Pkcs12, X509, Pbkdf2, !PemLaws}.
Context (r : SecretSyncReconciler).
Implicit Types s : rstate P W Client.

(** What the API server promises of the tokens it issues. *)
Context (G : string * string * option (list string) * Z * BoundObjectReference → TokenRequest → Prop).
Hypothesis G_issues : issues G.

(** The cache serves each request with a token issued for it, and so did it for
    the requests so far. *)
Definition tokens_inv s : Prop :=
  cache_ok (r_IsPrint r) G (m_cache (rs_tokens s)) ∧
  ∀ ns sa attrs, GotTokens ns sa (Val (Ok attrs)) ∈ rs_calls s → attrs_issued (r_Time_MarshalJSON r) G ns sa (r_Audiences r) attrs.

(** A computation that keeps it. *)
Definition keeps {A} (m : GoM (rstate P W Client) A) : Prop := ∀ s, tokens_inv s → tokens_inv (m s).2.

Definition not_tokens (c : api_call Client) : bool := match c with GotTokens _ _ _ => false | _ => true end.

Lemma tokens_inv_same s s' : rs_tokens s' = rs_tokens s → rs_calls s' = rs_calls s → tokens_inv s → tokens_inv s'.
Proof. unfold tokens_inv. by intros -> ->. Qed.
Lemma tokens_inv_add s c : not_tokens c = true → tokens_inv s → tokens_inv (add_call c s).
Proof.
  intros Hc [Hok Ht]. split; [done|]. intros ns sa attrs [Hin|Hin]%elem_of_app; [by eapply Ht|].
  apply list_elem_of_singleton in Hin as <-. done.
Qed.

Lemma keeps_ret {A} (a : A) : keeps (mret a).
Proof. by intros s. Qed.
Lemma keeps_panic {A} msg : keeps (panic (A:=A) msg).
Proof. by intros s. Qed.
Lemma keeps_gets {A} (f : rstate P W Client → A) : keeps (gets f).
Proof. by intros s. Qed.
Lemma keeps_bind {A B} (m : GoM (rstate P W Client) A) (f : A → GoM (rstate P W Client) B) :
  keeps m → (∀ a, keeps (f a)) → keeps (m ≫= f).
Proof.
  intros Hm Hf s Hs. specialize (Hm s Hs). unfold mbind, GoM_bind. destruct (m s) as [[a|p] s']; [by apply Hf|done].
Qed.
Lemma keeps_on_heap {A} (m : GoM heap A) : keeps (on_heap m).
Proof. intros s. unfold on_heap. destruct (m _). by apply tokens_inv_same. Qed.
Lemma keeps_on_world {A} (m : GoM W A) : keeps (on_world m).
Proof. intros s. unfold on_world. destruct (m _). by apply tokens_inv_same. Qed.
Lemma keeps_on_providers {A} (m : GoM (P * W) A) : keeps (on_providers m).
Proof. intros s. unfold on_providers. destruct (m _) as [? [??]]. by apply tokens_inv_same. Qed.
Lemma keeps_on_client {A} (f : heap * W → A * (heap * W)) : keeps (on_client f).
Proof. intros s. unfold on_client. destruct (f _) as [? [??]]. by apply tokens_inv_same. Qed.
Lemma keeps_record c : not_tokens c = true → keeps (record_call c).
Proof. intros Hc s. by apply tokens_inv_add. Qed.
Lemma keeps_observed {A} (f : outcome A → api_call Client) m :
  (∀ o, not_tokens (f o) = true) → keeps m → keeps (observed_as f m).
Proof.
  intros Hf Hm s Hs. specialize (Hm s Hs). unfold observed_as. destruct (m s) as [o s']. by apply tokens_inv_add.
Qed.

(** Asking for the tokens. *)
Lemma keeps_tokens ns sa :
  keeps (observed_as (GotTokens ns sa) (on_tokens
    (SecretProviderServiceAccountTokenAttrs (r_IsPrint r) (r_Time_MarshalJSON r) ns sa (r_Audiences r)))).
Proof.
  intros s [Hok Ht].
  apply (wp_observed_as (GotTokens ns sa) (on_tokens _) (λ _ s', tokens_inv s') s), wp_on_tokens, (wp_token_attrs _ _ G); [done..|].
  intros res tw _ Hc Hres. split; [done|]. intros ns' sa' attrs [Hin|Hin]%elem_of_app; [by eapply Ht|].
  apply list_elem_of_singleton in Hin as [= -> -> <-]. done.
Qed.

(** By the syntax of a computation; [t] for the calls that have a lemma. *)
Ltac keep t :=
  repeat first
  [ progress intros | t
  | apply keeps_ret | apply keeps_panic | apply keeps_gets | apply keeps_tokens
  | apply keeps_on_heap | apply keeps_on_world | apply keeps_on_providers | apply keeps_on_client
  | apply keeps_record; reflexivity | apply keeps_observed; [reflexivity|]
  | apply keeps_bind | case_match ].

Lemma keeps_status ss : keeps (Status_Update ss).
Proof. unfold Status_Update. keep fail. Qed.
Lemma keeps_condition ss ty status reason message w : keeps (updateStatusConditions ss ty status reason message w).
Proof. unfold updateStatusConditions, SetStatusCondition. keep ltac:(apply keeps_status). Qed.
Lemma keeps_patch ss data : keeps (serverSidePatchSecret ss data).
Proof. unfold serverSidePatchSecret, Secrets_Patch. keep fail. Qed.
Lemma keeps_fetch spc ss : keeps (fetchSecretsFromProvider r spc ss).
Proof. unfold fetchSecretsFromProvider, prepareCSIProviderParams. keep fail. Qed.
Lemma keeps_sync ss ct hash changed data : keeps (sync_secret r ss ct hash changed data).
Proof. unfold sync_secret. keep ltac:(first [apply keeps_condition|apply keeps_patch|apply keeps_status]). Qed.
Lemma keeps_object ns ss ct : keeps (reconcile_object r ns ss ct).
Proof.
  unfold reconcile_object, validateLabelsAnnotations, Get_class.
  keep ltac:(first [apply keeps_condition|apply keeps_fetch|apply keeps_sync]).
Qed.
Lemma keeps_Reconcile ns name : keeps (Reconcile r ns name).
Proof.
  unfold Reconcile, initConditions, SetStatusCondition. keep ltac:(first [apply keeps_status|apply keeps_object]).
Qed.

Lemma new_cache_ok client : cache_ok (r_IsPrint r) G (m_cache (NewManager client)).
Proof. intros ns n tr t. cbn [NewManager m_cache]. by rewrite lookup_empty. Qed.

Lemma running_tokens s : running r s → tokens_inv s.
Proof.
  induction 1 as [s client Hc Ht|ns name s _ IH _|ns name s k client h p w _ IH _|s client h p w _ IH|s _ IH|h p w s _ IH].
  - split; [|intros ns sa attrs; rewrite Hc; by intros ?%not_elem_of_nil].
    rewrite Ht. apply new_cache_ok.
  - by apply keeps_Reconcile.
  - pose proof (keeps_Reconcile ns name s IH) as [_ Ht]. destruct (Reconcile_calls r ns name s) as [E _].
    split; [apply new_cache_ok|]. intros ns' sa attrs Hin. apply Ht. rewrite E. cbn [rs_calls] in Hin.
    rewrite elem_of_app in Hin |- *. destruct Hin as [?|Hin]; [by left|right]. by apply (subseteq_take k).
  - split; [apply new_cache_ok|]. apply IH.
  - destruct IH as [Hc Ht]. split; [|by rewrite cleanup_calls].
    apply (wp_on_tokens cleanup (λ _ s', cache_ok (r_IsPrint r) G (m_cache (rs_tokens s'))) s).
    by apply (cleanup_ok (r_IsPrint r) G (rs_tokens s, rs_world s)).
  - done.
Qed.

(** ** Where the data of a Secret comes from *)

(** Right before a patch, the same run got the class in the namespace of the
    Secret and mounted with the tokens of the service account of the object; the
    data is what the files give. *)
Definition patch_origin (calls : list (api_call Client)) : Prop :=
  ∀ before ns name manager sec e after, calls = before ++ PatchSecret ns name manager sec e :: after →
  ∃ l ss spc client params tokens ov files,
    before = l ++ [asked_class ns ss (Ok spc); asked_client spc (Val (Ok client)); asked_tokens ss (Val (Ok tokens));
                   asked_mount r ss client params tokens (Val (Ok (ov, files)))] ∧
    om_Namespace (ss_ObjectMeta ss) = ns ∧ om_Name (ss_ObjectMeta ss) = name ∧
    spc_Parameters spc = Some params ∧
    secret_data ss files = Some (sec_Data sec, None) ∧ sec = secret_of ss (sec_Data sec).

Lemma patch_origin_run ns name s o calls k :
  patch_origin (rs_calls s) → reads_history s ns name → reconcile_outcome r s ns name o calls →
  patch_origin (rs_calls s ++ take k calls).
Proof.
  intros IH Hread Ho before ns' name' manager sec e after E.
  apply app_split_elem in E as [(b & E & _)|(b & -> & E)]; [by eapply IH|].
  rewrite <- (firstn_skipn k calls), E, <- app_assoc, <- app_comm_cons in Ho.
  apply outcome_patches in Ho as (ss & ss0 & data & hash & init & pre & Hr & Hs & _ & -> & Hobs & _ & Ep).
  unfold patch_of in Ep. injection Ep as -> -> -> ->. destruct (Hread _ Hr) as (Ens & En & _).
  pose proof Hs as (_ & _ & En0 & Ens0 & _).
  apply observed_origin in Hobs as (spc & client & params & tokens & ov & files & -> & Hp & Hd & _).
  exists (rs_calls s ++ init), ss0, spc, client, params, tokens, ov, files.
  rewrite Ens0, Ens, <- app_assoc. by split_and!.
Qed.

(** *** Properties *)

(** C2: a status never claims what was not done: in any history of runs,
    restarts and crashes at any point of a run, whenever a status is written with
    a hash, the Secret of that SecretSync had been patched before with data that
    has this hash, fetched for it. *)
Theorem running_status_patched s before obj e after :
  running r s → rs_calls s = before ++ StatusUpdate obj e :: after →
  st_SyncHash (ss_Status obj) ≠ EmptyString →
  ∃ l1 pre ss0 data l2, before = l1 ++ pre ++ patch_of ss0 data None :: l2 ∧
    om_Namespace (ss_ObjectMeta ss0) = om_Namespace (ss_ObjectMeta obj) ∧
    om_Name (ss_ObjectMeta ss0) = om_Name (ss_ObjectMeta obj) ∧
    observed r (om_Namespace (ss_ObjectMeta obj)) ss0 data (st_SyncHash (ss_Status obj)) pre.
Proof. intros Hs. by apply (running_hashes r s Hs). Qed.

(** C1: tenants are kept apart, end to end: in any such history, clean-ups of the
    token cache in the middle of a run included, a Secret is only ever patched for
    the SecretSync of its name and namespace, with the data of files that the
    provider has just sent in answer to a mount request with the parameters of a
    class of that namespace and, for each audience, a token that the API server
    issued for the service account of that SecretSync in that namespace: the token
    cache never mixes them up. *)
Theorem Secret_isolation s before ns name manager sec e after :
  running r s → rs_calls s = before ++ PatchSecret ns name manager sec e :: after →
  ∃ l ss spc client params tokens ov files,
    before = l ++ [asked_class ns ss (Ok spc); asked_client spc (Val (Ok client)); asked_tokens ss (Val (Ok tokens));
                   asked_mount r ss client params tokens (Val (Ok (ov, files)))] ∧
    om_Namespace (ss_ObjectMeta ss) = ns ∧ om_Name (ss_ObjectMeta ss) = name ∧
    spc_Parameters spc = Some params ∧
    secret_data ss files = Some (sec_Data sec, None) ∧ sec = secret_of ss (sec_Data sec) ∧
    attrs_issued (r_Time_MarshalJSON r) G ns (sss_ServiceAccountName (ss_Spec ss)) (r_Audiences r) tokens.
Proof.
  intros Hs Hc.
  assert (patch_origin (rs_calls s)) as Hp.
  { apply (running_calls r patch_origin); [|exact patch_origin_run|exact Hs].
    intros b ? ? ? ? ? ? E. by destruct b. }
  destruct (Hp _ _ _ _ _ _ _ Hc) as (l & ss & spc & client & params & tokens & ov & files & -> & Ens & En & Hpar & Hd & Esec).
  exists l, ss, spc, client, params, tokens, ov, files. split_and!; try done.
  apply (running_tokens s Hs). rewrite Hc, <- Ens. unfold asked_tokens. set_solver.
Qed.
End tokens.

(** ** Witnesses: two processes in the cluster of ControllerFixture.v *)

(** The first process syncs the Secret and dies right after, before it wrote the
    status; the next starts from the same cluster. *)
Definition crashed : kstate := {|
  rs_heap := ∅; rs_tokens := NewManager true; rs_providers := NewPluginClientBuilder ["/provider"] [];
  rs_world := cluster status_new (Some params1) None;
  rs_calls := rs_calls (start status_new None) ++ take 6 (new_calls (start status_new None) (run_from status_new None).2) |}.
Definition second_run : kstate := (Reconcile controller "shop" "db" crashed).2.

Lemma start_reads (s : kstate) : kw_ss (rs_world s) = Ok (cluster_ss status_new) → rs_heap s = ∅ → reads_history s "shop" "db".
Proof.
  intros Hw Hh ss Hr.
  assert (HF : read_answer s "shop" "db" (Ok (cluster_ss status_new))).
  { unfold read_answer. cbn [kc_GetSecretSync kworld_client fst snd]. rewrite Hw, Hh. vm_compute. reflexivity. }
  pose proof (read_answer_det _ _ _ _ _ Hr HF) as [= ->]. split; [reflexivity|]. split; [reflexivity|]. left. reflexivity.
Qed.

Lemma crashed_running : running controller crashed.
Proof.
  apply (run_crash controller "shop" "db" (start status_new None) 6 true).
  - exact (run_first controller (start status_new None) true eq_refl eq_refl).
  - apply start_reads; reflexivity.
Qed.
Lemma second_running : running controller second_run.
Proof. apply run_reconcile; [exact crashed_running|]. apply start_reads; reflexivity. Qed.

Lemma second_calls : rs_calls second_run = take 12 (rs_calls second_run) ++
  [StatusUpdate (status_sent (rs_calls second_run !! 12)) None].
Proof. vm_compute. reflexivity. Qed.
Lemma second_patch : rs_calls second_run = take 11 (rs_calls second_run) ++
  [PatchSecret "shop" "db" secretSyncControllerFieldManager (secret_sent (rs_calls second_run !! 11)) None;
   StatusUpdate (status_sent (rs_calls second_run !! 12)) None].
Proof. vm_compute. reflexivity. Qed.

(** The Secret was patched by both. *)
Lemma running_status_patched_witness : length (rs_calls second_run) = 13 ∧
  ∃ l1 pre ss0 data l2, take 12 (rs_calls second_run) = l1 ++ pre ++ patch_of ss0 data None :: l2 ∧
    observed controller "shop" ss0 data (st_SyncHash (ss_Status (status_sent (rs_calls second_run !! 12)))) pre.
Proof.
  split; [vm_compute; reflexivity|].
  destruct (running_status_patched controller second_run _ _ _ _ second_running second_calls)
    as (l1 & pre & ss0 & data & l2 & H1 & _ & _ & H2).
  - intros Hc. apply (f_equal String.length) in Hc. revert Hc. vm_compute. discriminate.
  - exists l1, pre, ss0, data, l2. split; [exact H1|].
    assert (HN : om_Namespace (ss_ObjectMeta (status_sent (rs_calls second_run !! 12))) = "shop") by (vm_compute; reflexivity).
    rewrite HN in H2. exact H2.
Defined.

Lemma kworld_issues : issues (W:=kworld) fixture_text.
Proof.
  intros ns n tr w t Ht. unfold te_CreateToken, kworld_tokens, on_now in Ht.
  pose proof (fixture_answer ns n tr (kw_now w)) as HA. destruct (te_CreateToken ns n tr (kw_now w)) as [res now].
  cbn [fst] in Ht. exact (proj1 (HA t Ht)).
Qed.

Lemma Secret_isolation_witness : ∃ l ss spc client params tokens ov files,
  take 11 (rs_calls second_run) = l ++ [asked_class "shop" ss (Ok spc); asked_client spc (Val (Ok client));
    asked_tokens ss (Val (Ok tokens)); asked_mount controller ss client params tokens (Val (Ok (ov, files)))] ∧
  attrs_issued (r_Time_MarshalJSON controller) fixture_text "shop" (sss_ServiceAccountName (ss_Spec ss)) (r_Audiences controller) tokens.
Proof.
  destruct (Secret_isolation controller fixture_text kworld_issues second_run _ _ _ _ _ _ _ second_running second_patch)
    as (l & ss & spc & client & params & tokens & ov & files & H1 & _ & _ & _ & _ & _ & H2).
  exists l, ss, spc, client, params, tokens, ov, files. split; [exact H1|exact H2].
Defined.
