(* ===== verification/Polling.v ===== *)
(** * Triggers: event predicates, the polling loop, the wiring of the controller

    Which events of the API server start a reconcile, the goroutine that sends
    every SecretSync to a channel at each tick, and [SetupWithManager].  The goroutine is a state machine whose
    events are what its selects choose and what happens around it. *)

From Stdlib Require Import Ascii.
From stdpp Require Import strings gmap list.
From S2P Require Import Prelude GoText GoStrings GoTime ApiTypes SecretUtil CryptoFixture Token TokenPreempted Provider ControllerEnv StateHash Conditions Reconciler ControllerFixture ReconcilerSteps ReconcilerSpec.

Open Scope nat_scope.

(** ** Predicates *)

Definition processIfSecretChanged {M} (oldObj newObj : SecretSync M) : bool :=
  negb (bool_decide (om_Generation (ss_ObjectMeta oldObj) = om_Generation (ss_ObjectMeta newObj))).

(** The events of controller-runtime for a SecretSync. *)
Inductive event (M : Type) :=
| CreateEvent (obj : SecretSync M)
| UpdateEvent (objOld objNew : SecretSync M)
| DeleteEvent (obj : SecretSync M)
| GenericEvent (obj : SecretSync M).
Arguments CreateEvent {_} _. Arguments UpdateEvent {_} _ _.
Arguments DeleteEvent {_} _. Arguments GenericEvent {_} _.

Definition shouldReconcilePredicate {M} (e : event M) : bool :=
  match e with
  | CreateEvent _ => true
  | UpdateEvent objOld objNew => processIfSecretChanged objOld objNew
  | DeleteEvent _ => false
  | GenericEvent _ => true
  end.

(** ** The polling goroutine *)

Definition periodicChannel_cap : nat := 1024.

(** Where the goroutine is: waiting for the cache, at the outer select, sending
    the rest of a list, returned. *)
Inductive poll_pc :=
| WaitForCacheSync
| Selecting
| Sending (rest : list (SecretSync mapref))
| PollReturned (err : option error).

Record poller := {
  pl_pc : poll_pc;
  pl_channel : list (SecretSync mapref);
  pl_closed : bool;
  pl_done : bool;
  pl_heap : heap;
}.

(** What can happen next: the cache answers; the ticker fires and [List]
    answers; the item goes into the channel; the select sees that the context is
    done; outside, the event source takes an item, or the context is
    cancelled. *)
Inductive poll_event :=
| CacheSynced (ok : bool)
| Tick (res : result (list (SecretSync mapref)))
| Send
| SeeDone
| Receive
| Cancel.

Definition set_poller (pc : poll_pc) (channel : list (SecretSync mapref)) (closed : bool) (h : heap) (p : poller) : poller :=
  {| pl_pc := pc; pl_channel := channel; pl_closed := closed; pl_done := pl_done p; pl_heap := h |}.

(** Leaving runs the deferred [close]. *)
Definition poll_return (err : option error) (p : poller) : poller :=
  set_poller (PollReturned err) (pl_channel p) true (pl_heap p) p.
Definition next_items (rest : list (SecretSync mapref)) : poll_pc :=
  match rest with [] => Selecting | _ => Sending rest end.

(** [None]: the event cannot happen there. A send blocks while the channel is
    full. *)
Definition providerPollingFunc_step (e : poll_event) (p : poller) : option poller :=
  match e, pl_pc p with
  | CacheSynced ok, WaitForCacheSync =>
    if ok then Some (set_poller Selecting (pl_channel p) (pl_closed p) (pl_heap p) p)
    else Some (poll_return (Some (errors_New "timed out waiting for cache sync")) p)
  | Tick res, Selecting =>
    match res with
    | Err _ => Some p
    | Ok items => Some (set_poller (next_items items) (pl_channel p) (pl_closed p) (pl_heap p) p)
    end
  | Send, Sending (item :: rest) =>
    if length (pl_channel p) <? periodicChannel_cap then
      match SecretSync_DeepCopyInto item (pl_heap p) with
      | (Val c, h) => Some (set_poller (next_items rest) (pl_channel p ++ [c]) (pl_closed p) h p)
      | (Panic _, _) => None
      end
    else None
  | SeeDone, (Selecting | Sending _) => if pl_done p then Some (poll_return None p) else None
  | Receive, _ =>
    match pl_channel p with
    | [] => None
    | _ :: q => Some (set_poller (pl_pc p) q (pl_closed p) (pl_heap p) p)
    end
  | Cancel, pc => Some {| pl_pc := pc; pl_channel := pl_channel p; pl_closed := pl_closed p; pl_done := true; pl_heap := pl_heap p |}
  | _, _ => None
  end.

(** [providerPollingFunc] makes the channel; the goroutine starts by waiting. *)
Definition providerPollingFunc (h : heap) : poller :=
  {| pl_pc := WaitForCacheSync; pl_channel := []; pl_closed := false; pl_done := false; pl_heap := h |}.

Fixpoint poll_run (es : list poll_event) (p : poller) : option poller :=
  match es with [] => Some p | e :: es => p' ← providerPollingFunc_step e p; poll_run es p' end.

(** ** [SetupWithManager] *)

(** [mgr.Add(pollingFunc)] and [controllerBuilder.Complete(r)], the latter told
    whether the periodic channel is watched. *)
Definition SetupWithManager {W} (mgr_Add : W → option error * W) (Complete : bool → W → option error * W)
    (secretsPollingInterval : Z) : GoM W (option error) :=
  if (0 <? secretsPollingInterval)%Z then
    err ← act mgr_Add;
    match err with
    | Some err => mret (Some err)
    | None => act (Complete true)
    end
  else act (Complete false).

(** ** Properties *)

Inductive poll_reachable : poller → Prop :=
| poll_start h : poll_reachable (providerPollingFunc h)
| poll_next e p p' : poll_reachable p → providerPollingFunc_step e p = Some p' → poll_reachable p'.

Definition returned (p : poller) : bool := match pl_pc p with PollReturned _ => true | _ => false end.

Record poll_inv (p : poller) : Prop := {
  inv_cap : length (pl_channel p) ≤ periodicChannel_cap;
  inv_closed : pl_closed p = returned p;
  inv_sending : pl_pc p ≠ Sending [];
}.

Lemma next_items_open rest : match next_items rest with PollReturned _ => true | _ => false end = false ∧ next_items rest ≠ Sending [].
Proof. by destruct rest. Qed.

Lemma poll_step_inv e p p' : poll_inv p → providerPollingFunc_step e p = Some p' → poll_inv p'.
Proof.
  intros Hinv. pose proof Hinv as [Hcap Hcl Hs]. unfold providerPollingFunc_step. unfold returned in Hcl.
  destruct e as [ok|res| | | |]; destruct (pl_pc p) as [| |rest|err] eqn:Hpc; try done; intros E.
  all: try (destruct (pl_channel p) as [|c q]; [done|]; simplify_eq; split; simpl in *; [lia|done|done]).
  all: try (simplify_eq; by split).
  - destruct ok; simplify_eq; by split.
  - destruct res as [items|]; [|by injection E as <-]. simplify_eq.
    destruct (next_items_open items) as [? ?]. split; [done| |done]. unfold returned. cbn. congruence.
  - destruct rest as [|item rest]; [done|].
    destruct (Nat.ltb_spec (length (pl_channel p)) periodicChannel_cap); [|done].
    destruct (SecretSync_DeepCopyInto item (pl_heap p)) as [[c|?] h]; intros; simplify_eq.
    destruct (next_items_open rest) as [? ?]. split; [|unfold returned; cbn; congruence|done].
    cbn. rewrite length_app. cbn. lia.
  - destruct (pl_done p); simplify_eq. by split.
  - destruct (pl_done p); simplify_eq. by split.
Qed.

(** Sending the rest of a list when there is room for all of it. *)
Lemma poll_run_sends items p :
  pl_pc p = Sending items → items ≠ [] → length (pl_channel p) + length items ≤ periodicChannel_cap →
  Forall (ref_ok (pl_heap p)) (items ≫= ss_refs) →
  ∃ copies p', poll_run (replicate (length items) Send) p = Some p' ∧
    pl_pc p' = Selecting ∧ pl_channel p' = pl_channel p ++ copies ∧ pl_closed p' = pl_closed p ∧
    read_ss (pl_heap p') <$> copies = read_ss (pl_heap p) <$> items ∧
    copied (pl_heap p) (pl_heap p') (items ≫= ss_refs) (copies ≫= ss_refs).
Proof.
  revert p. induction items as [|x items IH]; intros p Hpc Hne Hlen Hok; [done|].
  rewrite bind_cons in Hok. apply Forall_app in Hok as [Hx Hi].
  destruct (SecretSync_DeepCopyInto_spec (pl_heap p) x Hx) as (c & h1 & E1 & R1 & C1).
  cbn [length replicate poll_run]. cbn [length] in Hlen. unfold providerPollingFunc_step at 1. rewrite Hpc, E1.
  destruct (Nat.ltb_spec (length (pl_channel p)) periodicChannel_cap); [|lia]. cbn [mbind option_bind].
  destruct items as [|y items].
  - eexists [c], _. split; [done|]. cbn [set_poller pl_pc pl_channel pl_closed pl_heap next_items].
    split_and!; [done..|by cbn; rewrite R1|]. exact C1.
  - set (p1 := set_poller _ _ _ _ p).
    destruct (IH p1) as (cs & p' & E2 & H1 & H2 & H3 & R2 & C2); [done|done|..].
    { cbn. rewrite length_app. cbn in *. lia. }
    { apply (Forall_impl (ref_ok (pl_heap p))); [done|]. intros r. apply ref_ok_frame, C1. }
    exists (c :: cs), p'. split_and!; [done|done| |done| |].
    + rewrite H2. cbn. by rewrite <- app_assoc.
    + rewrite !fmap_cons. f_equal.
      * rewrite <- R1. apply read_ss_frame; [apply C2|apply C1].
      * rewrite <- !fmap_cons, R2. apply list_fmap_ext. intros i z Hz. apply read_ss_frame; [apply C1|].
        apply Forall_forall. intros r Hr. rewrite Forall_forall in Hi. apply Hi.
        apply list_elem_of_bind. exists z. split; [done|]. by eapply list_elem_of_lookup_2.
    + rewrite (bind_cons _ x), (bind_cons _ c). by eapply copied_app.
Qed.

(** C25: at every moment the channel holds at most its 1024 items, it is closed
    exactly when the goroutine has returned, so nothing is ever sent on a closed
    channel; and once the context is done, the goroutine can always return at
    its next step, even when the channel is full and nobody receives. *)
Theorem polling_safe p :
  poll_reachable p →
  length (pl_channel p) ≤ 1024 ∧ pl_closed p = returned p ∧
  (∀ p', providerPollingFunc_step Send p = Some p' → pl_closed p = false) ∧
  (pl_done p = true → returned p = false →
     ∃ e p', (e = SeeDone ∨ e = CacheSynced false) ∧ providerPollingFunc_step e p = Some p' ∧
       returned p' = true ∧ pl_closed p' = true).
Proof.
  intros Hr. assert (poll_inv p) as [Hcap Hcl Hs].
  { induction Hr as [h|e p p' _ IH Hstep]; [|by eapply poll_step_inv]. split; [cbn; unfold periodicChannel_cap; lia|done|done]. }
  split_and!; [exact Hcap|done|..].
  - intros p' Hsend. rewrite Hcl. unfold returned. unfold providerPollingFunc_step in Hsend. by destruct (pl_pc p).
  - intros Hd Hn. unfold returned in Hn. destruct (pl_pc p) as [| |rest|err] eqn:Hpc; [|..|done].
    + exists (CacheSynced false). eexists. split; [by right|]. unfold providerPollingFunc_step. by rewrite Hpc.
    + exists SeeDone. eexists. split; [by left|]. unfold providerPollingFunc_step. by rewrite Hpc, Hd.
    + exists SeeDone. eexists. split; [by left|]. unfold providerPollingFunc_step. by rewrite Hpc, Hd.
Qed.

(** After a tick whose list fits into the channel, sending goes through
    without blocking and the channel has gained one copy of every SecretSync
    listed, in order, equal to it and sharing no map with it or with another
    copy; a tick whose list fails sends nothing and does not end the polling. *)
Theorem polling_round p items :
  pl_pc p = Selecting → length (pl_channel p) + length items ≤ 1024 →
  Forall (ref_ok (pl_heap p)) (items ≫= ss_refs) →
  (∃ copies p', poll_run (Tick (Ok items) :: replicate (length items) Send) p = Some p' ∧
    pl_pc p' = Selecting ∧ pl_channel p' = pl_channel p ++ copies ∧
    read_ss (pl_heap p') <$> copies = read_ss (pl_heap p) <$> items ∧
    copied (pl_heap p) (pl_heap p') (items ≫= ss_refs) (copies ≫= ss_refs)) ∧
  ∀ err, poll_run [Tick (Err err)] p = Some p.
Proof.
  intros Hpc Hlen Hok. split; [|intros err; cbn [poll_run]; unfold providerPollingFunc_step; by rewrite Hpc].
  cbn [poll_run]. unfold providerPollingFunc_step at 1. rewrite Hpc. cbn [mbind option_bind].
  destruct items as [|x items].
  - eexists [], _. split; [done|]. cbn [set_poller pl_pc pl_channel pl_closed pl_heap next_items].
    rewrite app_nil_r. split_and!; [done..|]. split; cbn; done || constructor.
  - destruct (poll_run_sends (x :: items) (set_poller (Sending (x :: items)) (pl_channel p) (pl_closed p) (pl_heap p) p))
      as (cs & p' & E & H1 & H2 & _ & H3 & H4); [done|done|done|done|].
    by exists cs, p'.
Qed.

(** C24: the controller does not wake itself: whatever status a run of
    [Reconcile] writes, the update event of the answer the server stores, against
    the object the run had read, is filtered out. *)
Theorem Reconcile_no_self_trigger {P W Client : Type}
    `{TokenEnv W, !TokenEnvLaws W, Preempt W, !PreemptLaws W}
    `{KubeClient W, AllClientBuilder P W Client, CSIDriverProvider W Client}
    `{!KubeClientLaws W, !AllClientBuilderLaws P W Client}
    `{Pem, Pkcs12, X509, Pbkdf2, !PemLaws}
    (r : SecretSyncReconciler) ns name (s : rstate P W Client) ss obj e answer :
  read_answer s ns name (Ok ss) →
  StatusUpdate obj e ∈ new_calls s (Reconcile r ns name s).2 → stored_as obj answer →
  shouldReconcilePredicate (UpdateEvent ss answer) = false.
Proof.
  intros Hread Hin (_ & _ & _ & _ & _ & _ & Hg).
  destruct (Reconcile_statuses r ns name s obj e Hin) as (ss' & Hread' & _ & _ & Hg' & _).
  pose proof (read_answer_det _ _ _ _ _ Hread Hread') as [= ->].
  cbn. unfold processIfSecretChanged. rewrite Hg, Hg'. by rewrite bool_decide_true.
Qed.

(** ** Witnesses *)

Definition poll_heap : heap := {[ 1%positive := {[ "app" := "web" ]} ]}.
Definition poll_events : list poll_event :=
  [CacheSynced true; Tick (Ok [shared_labels "a"; shared_labels "b"]); Send; Cancel].

Lemma polling_safe_witness : ∃ p, poll_run poll_events (providerPollingFunc poll_heap) = Some p ∧
  length (pl_channel p) = 1 ∧ pl_closed p = false ∧
  ∃ e p', (e = SeeDone ∨ e = CacheSynced false) ∧ providerPollingFunc_step e p = Some p' ∧
    returned p' = true ∧ pl_closed p' = true.
Proof.
  destruct (poll_run poll_events (providerPollingFunc poll_heap)) as [p|] eqn:E; [|vm_compute in E; discriminate E].
  assert (R : poll_reachable p).
  { cut (∀ es q q', poll_reachable q → poll_run es q = Some q' → poll_reachable q').
    - intros H. exact (H _ _ _ (poll_start poll_heap) E).
    - clear. induction es as [|e es IH]; cbn; intros q q' Hq Hrun; [injection Hrun as <-; exact Hq|].
      destruct (providerPollingFunc_step e q) as [q1|] eqn:Es; [|discriminate Hrun].
      exact (IH q1 q' (poll_next e q q1 Hq Es) Hrun). }
  assert (F : (p0 ← poll_run poll_events (providerPollingFunc poll_heap);
    Some (length (pl_channel p0), pl_closed p0, pl_done p0, returned p0)) = Some (1, false, true, false))
    by (vm_compute; reflexivity).
  rewrite E in F. injection F as F1 F2 F3 F4. exists p. split; [reflexivity|]. split; [exact F1|]. split; [exact F2|].
  exact (proj2 (proj2 (proj2 (polling_safe p R))) F3 F4).
Defined.

Lemma polling_round_witness :
  let p := set_poller Selecting [] false poll_heap (providerPollingFunc poll_heap) in
  ∃ copies p', poll_run (Tick (Ok [shared_labels "a"; shared_labels "b"]) :: [Send; Send]) p = Some p' ∧
    pl_channel p' = [] ++ copies ∧
    read_ss (pl_heap p') <$> copies = read_ss poll_heap <$> [shared_labels "a"; shared_labels "b"].
Proof.
  intros p. destruct (polling_round p [shared_labels "a"; shared_labels "b"]) as [(cs & p' & E & _ & H1 & H2 & _) _].
  - reflexivity.
  - apply Nat.leb_le. vm_compute. reflexivity.
  - assert (Hok : ref_ok poll_heap (Some 1%positive)) by (eexists; reflexivity). repeat constructor; exact Hok.
  - exists cs, p'. split; [exact E|]. split; [exact H1|exact H2].
Defined.

Lemma new_version_stored (ss : SecretSync (option smap)) : stored_as ss (new_version ss).
Proof. by repeat split. Qed.
Lemma Reconcile_no_self_trigger_witness :
  shouldReconcilePredicate (UpdateEvent (cluster_ss status_new) (new_version (status_sent (calls_from status_new None !! 6)))) = false.
Proof.
  refine (Reconcile_no_self_trigger controller "shop" "db" (start status_new None) (cluster_ss status_new)
    (status_sent (calls_from status_new None !! 6)) None _ _ _ _).
  - vm_compute. reflexivity.
  - refine (eq_ind_r (λ l, _ ∈ l) _ run_new_status). apply elem_of_app. right. left.
  - exact (new_version_stored _).
Defined.
