(* ===== verification/WorkQueue.v ===== *)
(** * Events, the work queue and the worker: no change is lost

    controller-runtime delivers the events of SecretSyncs, asks the predicate
    whether they count, and puts the key of the object in a work queue; what the
    polling goroutine sends goes into the queue without being asked.  A worker
    takes one key after the other, runs [Reconcile], and puts the key back, with a
    delay, when the run has failed.  [ctl_step] are the moments of such a process
    and of what happens around it; the queue and the informers are an interface
    with their documented behaviour as laws. *)

From Stdlib Require Import Ascii.
From stdpp Require Import strings gmap list.
From S2P Require Import Prelude GoText GoStrings GoTime ApiTypes SecretUtil CryptoFixture Token TokenFixture TokenPreempted Provider ProviderFixture ControllerEnv StateHash Conditions Reconciler ControllerFixture ReconcilerSteps ReconcilerSpec System Polling.

Open Scope nat_scope.

(** ** The queue *)

(** [types.NamespacedName], and [EnqueueRequestForObject]'s choice of it. *)
Notation key := (string * string)%type.
Definition key_of {M} (ss : SecretSync M) : key := (om_Namespace (ss_ObjectMeta ss), om_Name (ss_ObjectMeta ss)).
Definition event_key {M} (e : event M) : key :=
  match e with
  | CreateEvent obj | UpdateEvent _ obj | DeleteEvent obj | GenericEvent obj => key_of obj
  end.

(** controller-runtime's queue, which is client-go's rate limiting queue or its own
    priority queue.  [wq_Get] is [None] while it would block;
    [wq_Wait] lets time pass. *)
Class WorkQueue (Q : Type) := {
  wq_New : Q;
  wq_Add : key → Q → Q;
  wq_AddRateLimited : key → Q → Q;
  wq_Get : Q → option (key * Q);
  wq_Done : key → Q → Q;
  wq_Wait : Q → Q;
}.

(** A queue is a set of keys to hand out, of keys to hand out after a delay, and
    of keys handed out and not done; a key is never handed out twice at a time,
    and delays end.  client-go keeps the delayed entry of a key that is added,
    the priority queue has one entry per key, the earlier one; the laws allow
    both. *)
Class WorkQueueLaws (Q : Type) `{WorkQueue Q} := {
  wq_waiting : Q → gset key;
  wq_delayed : Q → gset key;
  wq_processing : Q → gset key;
  wq_New_spec : wq_waiting wq_New = ∅ ∧ wq_delayed wq_New = ∅ ∧ wq_processing wq_New = ∅;
  wq_Add_spec k q : wq_waiting (wq_Add k q) = {[ k ]} ∪ wq_waiting q ∧
    wq_processing (wq_Add k q) = wq_processing q ∧
    wq_delayed q ∖ {[ k ]} ⊆ wq_delayed (wq_Add k q) ∧ wq_delayed (wq_Add k q) ⊆ wq_delayed q;
  wq_AddRateLimited_spec k q : wq_waiting (wq_AddRateLimited k q) = wq_waiting q ∧
    wq_processing (wq_AddRateLimited k q) = wq_processing q ∧
    k ∈ wq_waiting q ∪ wq_delayed (wq_AddRateLimited k q) ∧
    wq_delayed q ⊆ wq_delayed (wq_AddRateLimited k q) ∧ wq_delayed (wq_AddRateLimited k q) ⊆ {[ k ]} ∪ wq_delayed q;
  wq_Get_spec k q q' : wq_Get q = Some (k, q') →
    k ∈ wq_waiting q ∧ k ∉ wq_processing q ∧ wq_waiting q' = wq_waiting q ∖ {[ k ]} ∧
    wq_delayed q' = wq_delayed q ∧ wq_processing q' = {[ k ]} ∪ wq_processing q;
  wq_Done_spec k q : wq_waiting (wq_Done k q) = wq_waiting q ∧ wq_delayed (wq_Done k q) = wq_delayed q ∧
    wq_processing (wq_Done k q) = wq_processing q ∖ {[ k ]};
  wq_Wait_spec q : ∃ due, due ⊆ wq_delayed q ∧ wq_waiting (wq_Wait q) = wq_waiting q ∪ due ∧
    wq_delayed (wq_Wait q) = wq_delayed q ∖ due ∧ wq_processing (wq_Wait q) = wq_processing q;
  wq_served q : wq_processing q = ∅ → wq_waiting q ∪ wq_delayed q ≠ ∅ →
    ∃ n, is_Some (wq_Get (Nat.iter n wq_Wait q));
}.

(** ** The process *)

(** What an informer makes of its cache when it delivers an event.  Here both are
    one moment; in client-go the cache is changed first and the handler is called
    later, so the cache can be ahead of the events that are still to be
    delivered. *)
Inductive informs : gmap key wire_ss → event (option smap) → gmap key wire_ss → Prop :=
| inf_create v obj : v !! key_of obj = None → informs v (CreateEvent obj) (<[ key_of obj := obj ]> v)
| inf_update v old new : key_of old = key_of new → v !! key_of new = Some old →
    informs v (UpdateEvent old new) (<[ key_of new := new ]> v)
| inf_delete v obj : is_Some (v !! key_of obj) → informs v (DeleteEvent obj) (delete (key_of obj) v).

(** What the worker is doing; a run that ended is about to be reported to the
    queue. *)
Inductive worker :=
| Idle
| Taken (k : key)
| Finished (k : key) (o : outcome (option error)).

(** What has happened, for the statements only: runs, with what they read and
    asked; lists of the polling goroutine; restarts. *)
Inductive entry (Client : Type) :=
| Ran (k : key) (read : result wire_ss) (o : outcome (option error)) (calls : list (api_call Client))
| Listed (keys : list key)
| Restarted.
Arguments Ran {_} _ _ _ _. Arguments Listed {_} _. Arguments Restarted {_}.

Record ctl (Q P W Client : Type) := mkCtl {
  ct_queue : Q;
  ct_worker : worker;
  ct_view : gmap key wire_ss;
  ct_state : rstate P W Client;
  ct_poller : poller;
  ct_log : list (entry Client);
}.
Arguments mkCtl {_ _ _ _} _ _ _ _ _ _. Arguments ct_queue {_ _ _ _} _. Arguments ct_worker {_ _ _ _} _.
Arguments ct_view {_ _ _ _} _. Arguments ct_state {_ _ _ _} _. Arguments ct_poller {_ _ _ _} _.
Arguments ct_log {_ _ _ _} _.

Inductive action :=
| AInformed (e : event (option smap))
| APolled (e : poll_event)
| ATake
| ARun (o : outcome (option error))
| ADone
| AWait
| AOutside
| ARestart.

(** An error is retried; a panic is recovered to an error, the default of
    controller-runtime. *)
Definition requeues (o : outcome (option error)) : bool := match o with Val None => false | _ => true end.

Section queue.
Context {Q P W Client : Type}.
Context `{WQ : WorkQueue Q}.
Context `{TokenEnv W, Preempt W, KubeClient W, AllClientBuilder P W Client, CSIDriverProvider W Client}.
Context `{Pem, Pkcs12, X509, Pbkdf2}.
Context (r : SecretSyncReconciler).
Implicit Types (c : ctl Q P W Client) (s : rstate P W Client) (v : gmap key wire_ss) (l : list (entry Client)).

(** [For(&SecretSync{})] with the event filter, and [WatchesRawSource]. *)
Definition enqueue (e : event (option smap)) (q : Q) : Q :=
  if shouldReconcilePredicate e then wq_Add (event_key e) q else q.
Definition polled (e : poll_event) (p : poller) (q : Q) : Q :=
  match e, pl_channel p with Receive, obj :: _ => wq_Add (key_of obj) q | _, _ => q end.
Definition listed (e : poll_event) : list (entry Client) :=
  match e with Tick (Ok items) => [Listed (key_of <$> items)] | _ => [] end.
Definition reported_to (k : key) (o : outcome (option error)) (q : Q) : Q :=
  wq_Done k (if requeues o then wq_AddRateLimited k q else q).

(** The client reads SecretSyncs from the informer's cache. *)
Definition reads_view v s (k : key) : Prop := ∀ ss, read_answer s k.1 k.2 (Ok ss) → v !! k = Some ss.

Inductive ctl_step : action → ctl Q P W Client → ctl Q P W Client → Prop :=
| st_informed e v' q wk v s p l : informs v e v' →
    ctl_step (AInformed e) (mkCtl q wk v s p l) (mkCtl (enqueue e q) wk v' s p l)
| st_polled e p' q wk v s p l : providerPollingFunc_step e p = Some p' →
    ctl_step (APolled e) (mkCtl q wk v s p l) (mkCtl (polled e p q) wk v s p' (l ++ listed e))
| st_take k q' q v s p l : wq_Get q = Some (k, q') →
    ctl_step ATake (mkCtl q Idle v s p l) (mkCtl q' (Taken k) v s p l)
| st_run k read o s' q v s p l :
    reads_view v s k → reads_history s k.1 k.2 → read_answer s k.1 k.2 read → Reconcile r k.1 k.2 s = (o, s') →
    ctl_step (ARun o) (mkCtl q (Taken k) v s p l) (mkCtl q (Finished k o) v s' p (l ++ [Ran k read o (new_calls s s')]))
| st_done k o q v s p l :
    ctl_step ADone (mkCtl q (Finished k o) v s p l) (mkCtl (reported_to k o q) Idle v s p l)
| st_wait q wk v s p l : ctl_step AWait (mkCtl q wk v s p l) (mkCtl (wq_Wait q) wk v s p l)
| st_cleanup q wk v s p l : ctl_step AOutside (mkCtl q wk v s p l) (mkCtl q wk v (on_tokens cleanup s).2 p l)
| st_outside h pr w q wk v s p l :
    ctl_step AOutside (mkCtl q wk v s p l) (mkCtl q wk v (set_state h (rs_tokens s) pr w s) p l)
| st_restart client h pr w hp q wk v s p l :
    ctl_step ARestart (mkCtl q wk v s p l)
      (mkCtl wq_New Idle ∅ {| rs_heap := h; rs_tokens := NewManager client; rs_providers := pr; rs_world := w; rs_calls := rs_calls s |}
        (providerPollingFunc hp) (l ++ [Restarted]))
| st_crash n k client h pr w hp q v s p l :
    reads_history s k.1 k.2 →
    ctl_step ARestart (mkCtl q (Taken k) v s p l)
      (mkCtl wq_New Idle ∅ {| rs_heap := h; rs_tokens := NewManager client; rs_providers := pr; rs_world := w;
                              rs_calls := rs_calls s ++ take n (new_calls s (Reconcile r k.1 k.2 s).2) |}
        (providerPollingFunc hp) (l ++ [Restarted])).

(** A process starts with an empty queue and an empty cache. *)
Definition first_ctl s (hp : heap) : ctl Q P W Client := mkCtl wq_New Idle ∅ s (providerPollingFunc hp) [].

Inductive ctl_steps : list action → ctl Q P W Client → ctl Q P W Client → Prop :=
| steps_nil c : ctl_steps [] c c
| steps_snoc acts a c c1 c2 : ctl_steps acts c c1 → ctl_step a c1 c2 → ctl_steps (acts ++ [a]) c c2.

Inductive ctl_reachable : ctl Q P W Client → Prop :=
| cr_first s client hp : rs_calls s = [] → rs_tokens s = NewManager client → ctl_reachable (first_ctl s hp)
| cr_step a c c' : ctl_reachable c → ctl_step a c c' → ctl_reachable c'.
End queue.

(** ** Reasoning *)

(** The cases of a step. *)
Ltac ctl_cases Hstep :=
  destruct Hstep as [e v' q wk v s p l Hi|e p' q wk v s p l Hp|k1 q' q v s p l Hg|k1 read o s' q v s p l Hview Hhist Hread E|
    k1 o q v s p l|q wk v s p l|q wk v s p l|h pr w q wk v s p l|client h pr w hp q wk v s p l|n k1 client h pr w hp q v s p l Hhist];
  cbn [ct_queue ct_worker ct_view ct_log ct_poller] in *.

Section laws.
Context {Q P W Client : Type}.
Context `{WQ : WorkQueue Q, !WorkQueueLaws Q}.
Context `{TokenEnv W, !TokenEnvLaws W, Preempt W, !PreemptLaws W}.
Context `{KubeClient W, AllClientBuilder P W Client, CSIDriverProvider W Client}.
Context `{!KubeClientLaws W, !AllClientBuilderLaws P W Client}.
Context `{Pem, Pkcs12, X509, Pbkdf2, !PemLaws}.
Context (r : SecretSyncReconciler).
Implicit Types (c : ctl Q P W Client) (s : rstate P W Client) (v : gmap key wire_ss) (l : list (entry Client)).

Definition pending (q : Q) : gset key := wq_waiting q ∪ wq_delayed q.

(** A key that will be run: in the queue, taken, or about to be put back. *)
Definition to_run (wk : worker) (k : key) : Prop :=
  wk = Taken k ∨ ∃ o, wk = Finished k o ∧ requeues o = true.
Definition in_hand c (k : key) : Prop := k ∈ pending (ct_queue c) ∨ to_run (ct_worker c) k.

Lemma pending_New : pending wq_New = ∅.
Proof. unfold pending. destruct wq_New_spec as (-> & -> & _). set_solver. Qed.
Lemma pending_Add k q : pending (wq_Add k q) = {[ k ]} ∪ pending q.
Proof.
  unfold pending. destruct (wq_Add_spec k q) as (-> & _ & Hd1 & Hd2).
  apply set_eq. intros k'. destruct (decide (k' = k)); set_solver.
Qed.
Lemma pending_AddRateLimited k q : pending (wq_AddRateLimited k q) = {[ k ]} ∪ pending q.
Proof. unfold pending. destruct (wq_AddRateLimited_spec k q) as (-> & _ & Hd1 & Hd2 & Hd3). set_solver. Qed.
Lemma pending_Done k q : pending (wq_Done k q) = pending q.
Proof. unfold pending. by destruct (wq_Done_spec k q) as (-> & -> & _). Qed.
Lemma pending_Wait q : pending (wq_Wait q) = pending q.
Proof.
  unfold pending. destruct (wq_Wait_spec q) as (due & Hd & -> & -> & _).
  apply set_eq. intros k. destruct (decide (k ∈ due)); set_solver.
Qed.
Lemma pending_enqueue e q : pending q ⊆ pending (enqueue e q).
Proof. unfold enqueue. destruct (shouldReconcilePredicate e); [|done]. rewrite pending_Add. set_solver. Qed.
Lemma pending_polled e p q : pending q ⊆ pending (polled e p q).
Proof.
  unfold polled. destruct e; try done. destruct (pl_channel p); [done|]. rewrite pending_Add. set_solver.
Qed.
Lemma pending_reported k o q :
  pending (reported_to k o q) = if requeues o then {[ k ]} ∪ pending q else pending q.
Proof. unfold reported_to. rewrite pending_Done. destruct (requeues o); [apply pending_AddRateLimited|done]. Qed.
Lemma pending_Get k q q' : wq_Get q = Some (k, q') → ∀ k', k' ∈ pending q → k' = k ∨ k' ∈ pending q'.
Proof.
  intros (_ & _ & Ew & Ed & _)%wq_Get_spec k'. unfold pending. rewrite Ew, Ed.
  destruct (decide (k' = k)); set_solver.
Qed.

(** A key in hand leaves it by a run of it that succeeds, or a restart. *)
Lemma in_hand_step a c c' k :
  ctl_step r a c c' → in_hand c k → a ≠ ARestart →
  in_hand c' k ∨ ct_worker c = Taken k ∧ a = ARun (Val None).
Proof.
  intros Hstep Hin Ha. unfold in_hand, to_run in *.
  ctl_cases Hstep; try done.
  - left. destruct Hin as [Hin|Hin]; [left|by right]. by apply pending_enqueue.
  - left. destruct Hin as [Hin|Hin]; [left|by right]. by apply pending_polled.
  - left. destruct Hin as [Hin|[?|(? & ? & _)]]; [|done..].
    destruct (pending_Get _ _ _ Hg k Hin) as [->|?]; [right; by left|by left].
  - destruct Hin as [?|[[= ->]|(? & ? & _)]]; [left; by left| |done].
    destruct (requeues o) eqn:Eo; [left; right; right; by exists o|right]. by destruct o as [[]|].
  - left. rewrite pending_reported. destruct Hin as [Hin|[?|(o' & [= -> ->] & Ho)]]; [left| done|left].
    + destruct (requeues o); set_solver.
    + rewrite Ho. set_solver.
  - left. by rewrite pending_Wait.
  - by left.
  - by left.
Qed.

(** ** What a run that succeeds has done *)

(** It fetched data for the object it read, and left a status with the hash of
    this data: the one that was there, or one written after the patch. *)
Definition synced (ns : string) (ss : wire_ss) (calls : list (api_call Client)) : Prop :=
  ∃ ss0 init pre data hash, same_object ss ss0 ∧ observed r ns ss0 data hash pre ∧
    (calls = init ++ pre ∧ st_SyncHash (ss_Status ss) = hash ∨
     ∃ ss1 now, same_object ss0 ss1 ∧
       calls = init ++ pre ++ [patch_of ss0 data None; StatusUpdate (with_sync hash (Some now) ss1) None]).

Lemma Reconcile_outcome ns name s : ∃ o calls, (Reconcile r ns name s).1 = o ∧
  new_calls s (Reconcile r ns name s).2 = calls ∧ reconcile_outcome r s ns name o calls.
Proof.
  apply (wp_Reconcile r ns name (λ o s', ∃ o' calls, o = o' ∧ new_calls s s' = calls ∧ reconcile_outcome r s ns name o' calls) s).
  intros o calls s' He Ho. exists o, calls. split_and!; [done|by apply extends_new_calls|done].
Qed.

Lemma outcome_synced s ns name ss calls :
  read_answer s ns name (Ok ss) → reconcile_outcome r s ns name (Val None) calls → synced ns ss calls.
Proof.
  intros Hread Ho. destruct (outcome_object _ _ _ _ _ _ Ho) as [(? & ? & _)|[(? & ? & ? & ? & _)|
    (ss' & ss0 & init & pre & rest & Hr & Hs & -> & Hp & Hinit & Hw)]]; [done..|].
  pose proof (read_answer_det _ _ _ _ _ Hread Hr) as [= <-].
  inversion Hw as [p|d Hd Hf|reason m err' ss2 e2 Hrf Hrep|data hash' ch ss1 ss2 err' e2 Hd Hch Hn Hcl Hrep|
    data hash' ch ss1 now e2 Hd Hch Hn Hcl]; subst.
  - exists ss0, init, pre, d, (st_SyncHash (ss_Status ss0)). split_and!; [done..|]. left.
    rewrite app_nil_r. split; [done|]. symmetry. apply Hs.
  - exists ss0, init, pre, data, hash'. split_and!; [done..|]. right. exists ss1, now. split; [by eapply claimed_same|done].
Qed.

(** An object that is not there, or cannot be read: nothing is asked. *)
Lemma outcome_unread s ns name err o calls :
  read_answer s ns name (Err err) → reconcile_outcome r s ns name o calls → o = Val (Some err) ∧ calls = [].
Proof.
  intros Hread [e Hr|? ? ? Hr|? ? ? ? ? Hr|? ? ? Hr];
    pose proof (read_answer_det _ _ _ _ _ Hread Hr) as E; by simplify_eq.
Qed.

(** ** No change is lost *)

Definition generation {M} (ss : SecretSync M) : Z := om_Generation (ss_ObjectMeta ss).

(** The last run of a key read the object in this generation and succeeded. *)
Definition last_run_synced l (k : key) (ss : wire_ss) : Prop :=
  ∃ before ss0 calls after, l = before ++ Ran k (Ok ss0) (Val None) calls :: after ∧
    generation ss0 = generation ss ∧ synced k.1 ss0 calls ∧ ∀ read o calls', Ran k read o calls' ∉ after.

Lemma last_run_snoc l k ss en :
  last_run_synced l k ss → (∀ read o calls, en ≠ Ran k read o calls) → last_run_synced (l ++ [en]) k ss.
Proof.
  intros (before & ss0 & calls & after & -> & Hg & Hs & Hno) Hen.
  exists before, ss0, calls, (after ++ [en]). split_and!; [by list_simplifier|done..|].
  intros read o calls' [Hin|Hin%list_elem_of_singleton]%elem_of_app; [by eapply Hno|by eapply Hen].
Qed.
Lemma last_run_listed l k ss e : last_run_synced l k ss → last_run_synced (l ++ listed e) k ss.
Proof.
  intros Hl. unfold listed. destruct e as [|[items|]| | | |]; rewrite ?app_nil_r; try done.
  by apply last_run_snoc.
Qed.
Lemma last_run_generation l k ss ss' :
  generation ss = generation ss' → last_run_synced l k ss → last_run_synced l k ss'.
Proof. intros E (before & ss0 & calls & after & -> & Hg & Hs). exists before, ss0, calls, after. split_and!; congruence || apply Hs. Qed.

(** An event that is filtered out leaves the generation of every object that
    is there. *)
Lemma informs_filtered v e v' k ss :
  informs v e v' → v' !! k = Some ss →
  shouldReconcilePredicate e = true ∧ event_key e = k ∨
  ∃ ss', v !! k = Some ss' ∧ generation ss' = generation ss.
Proof.
  intros [v0 obj Hn|v0 old new Hk Ho|v0 obj Hs]; cbn [shouldReconcilePredicate event_key].
  - rewrite lookup_insert. case_decide as E; [by left|intros Hv; right; by exists ss].
  - rewrite lookup_insert. case_decide as E; [|intros Hv; right; by exists ss].
    intros [= ->]. unfold processIfSecretChanged.
    destruct (decide (generation old = generation ss)) as [Eg|Eg].
    + right. exists old. by rewrite <- E.
    + left. split; [|done]. apply negb_true_iff. by rewrite bool_decide_false.
  - rewrite lookup_delete. case_decide; [done|]. intros Hv. right. by exists ss.
Qed.

Definition up_to_date c : Prop := ∀ k ss, ct_view c !! k = Some ss → in_hand c k ∨ last_run_synced (ct_log c) k ss.

Lemma up_to_date_step a c c' : up_to_date c → ctl_step r a c c' → up_to_date c'.
Proof.
  intros Hup Hstep k ss Hv.
  assert (a ≠ ARestart → in_hand c k → in_hand c' k ∨ ct_worker c = Taken k ∧ a = ARun (Val None)) as Hkeep
    by (intros; by eapply in_hand_step).
  ctl_cases Hstep;
    try (by destruct (Hup k ss Hv) as [Hin|Hl]; [destruct (Hkeep ltac:(done) Hin) as [?|[_ ?]]; [by left|done]|by right]);
    try by rewrite lookup_empty in Hv.
  - destruct (informs_filtered _ _ _ _ _ Hi Hv) as [[Hp <-]|(ss' & Hv' & Eg)].
    + left. left. cbn. unfold enqueue. rewrite Hp, pending_Add. set_solver.
    + destruct (Hup k ss' Hv') as [Hin|Hl]; [destruct (Hkeep ltac:(done) Hin) as [?|[_ ?]]; [by left|done]|].
      right. by eapply last_run_generation.
  - destruct (Hup k ss Hv) as [Hin|Hl]; [destruct (Hkeep ltac:(done) Hin) as [?|[_ ?]]; [by left|done]|].
    right. by apply last_run_listed.
  - destruct (Reconcile_outcome k1.1 k1.2 s) as (o' & calls & Eo & Ec & Ho). rewrite E in Eo, Ec. cbn in Eo, Ec. subst o' calls.
    destruct (decide (k1 = k)) as [->|Hne].
    + destruct (requeues o) eqn:Hq; [left; right; right; by exists o|]. destruct o as [[]|]; try done.
      destruct read as [ss1|err]; [|by destruct (outcome_unread _ _ _ _ _ _ Hread Ho)].
      rewrite (Hview _ Hread) in Hv. injection Hv as ->. right.
      exists l, ss, (new_calls s s'), []. split_and!; [done..|by eapply outcome_synced|]. by intros ???[]%not_elem_of_nil.
    + destruct (Hup k ss Hv) as [Hin|Hl]; [destruct (Hkeep ltac:(done) Hin) as [?|[[= ?] _]]; [by left|done]|].
      right. apply last_run_snoc; [done|]. congruence.
Qed.

Lemma ctl_up_to_date c : ctl_reachable r c → up_to_date c.
Proof.
  induction 1 as [s client hp _ _|a c c' _ IH Hs]; [|by eapply up_to_date_step].
  intros k ss. cbn [first_ctl ct_view]. by rewrite lookup_empty.
Qed.

(** Such a process is one of System.v, whose properties hold of it. *)
Lemma ctl_running c : ctl_reachable r c → running r (ct_state c).
Proof.
  induction 1 as [s client hp Hc Ht|a c c' _ IH Hs]; [by eapply run_first|].
  destruct Hs as [| | |k read o s' q v s p l _ Hh _ E| | | | | |]; cbn [ct_state] in *; try done.
  - replace s' with (Reconcile r k.1 k.2 s).2 by (by rewrite E). by apply run_reconcile.
  - by apply run_cleanup.
  - by apply run_outside.
  - by apply run_restart.
  - by apply run_crash.
Qed.

(** ** No poll is lost *)

(** What the polling goroutine has still to send, and what it has sent. *)
Definition polled_keys (p : poller) : list key :=
  key_of <$> pl_channel p ++ match pl_pc p with Sending rest => rest | _ => [] end.

Lemma DeepCopy_key item h copy h' : SecretSync_DeepCopyInto item h = (Val copy, h') → key_of copy = key_of item.
Proof.
  unfold SecretSync_DeepCopyInto, mbind, GoM_bind. destruct (SecretSyncSpec_DeepCopyInto _ h) as [[spec|?] h1]; [|done].
  by intros [= <- <-].
Qed.
Lemma polled_next p channel rest closed h :
  polled_keys (set_poller (next_items rest) channel closed h p) = key_of <$> channel ++ rest.
Proof. unfold polled_keys. by destruct rest. Qed.

Lemma poll_step_keys e p p' :
  providerPollingFunc_step e p = Some p' → returned p' = false →
  returned p = false ∧
  (∀ k, k ∈ polled_keys p → k ∈ polled_keys p' ∨ ∃ obj rest, e = Receive ∧ pl_channel p = obj :: rest ∧ key_of obj = k) ∧
  ∀ items, e = Tick (Ok items) → ∀ k, k ∈ key_of <$> items → k ∈ polled_keys p'.
Proof.
  unfold providerPollingFunc_step. intros Hstep Hn.
  destruct e as [ok|res| | | |].
  - destruct (pl_pc p) eqn:Hpc; try done. destruct ok; simplify_eq. unfold returned, polled_keys. rewrite Hpc. cbn.
    split_and!; [done| |done]. intros k. by left.
  - destruct (pl_pc p) eqn:Hpc; try done. unfold returned. rewrite Hpc. destruct res as [items|]; simplify_eq.
    + split_and!; [done|..].
      * intros k. unfold polled_keys at 1. rewrite polled_next, Hpc, app_nil_r, fmap_app. set_solver.
      * intros ? [= <-] k Hk. rewrite polled_next, fmap_app. set_solver.
    + split_and!; [done|by left|done].
  - destruct (pl_pc p) as [| |[|item rest]|] eqn:Hpc; try done. destruct (_ <? _); [|done].
    destruct (SecretSync_DeepCopyInto item (pl_heap p)) as [[cp|] h] eqn:E; simplify_eq. apply DeepCopy_key in E.
    split_and!; [unfold returned; by rewrite Hpc| |done]. intros k. rewrite polled_next. unfold polled_keys. rewrite Hpc.
    rewrite !fmap_app, !fmap_cons, E. set_solver.
  - destruct (pl_pc p) eqn:Hpc; try done; destruct (pl_done p); simplify_eq.
  - destruct (pl_channel p) as [|obj q] eqn:Hch; [by destruct (pl_pc p)|].
    assert (p' = set_poller (pl_pc p) q (pl_closed p) (pl_heap p) p) as -> by (by destruct (pl_pc p); simplify_eq).
    split_and!; [done| |done]. intros k. unfold polled_keys. cbn [set_poller pl_channel pl_pc]. rewrite Hch.
    cbn [app]. rewrite fmap_cons, elem_of_cons. intros [->|?]; [right; by exists obj, q|by left].
  - destruct (pl_pc p) eqn:Hpc; simplify_eq; unfold returned, polled_keys; cbn; rewrite Hpc; (split_and!; [done|by left|done]).
Qed.

Definition served l (k : key) : Prop := ∃ read o calls, Ran k read o calls ∈ l.
Definition polls_kept c : Prop := ∀ before keys after k,
  ct_log c = before ++ Listed keys :: after → Restarted ∉ after → returned (ct_poller c) = false → k ∈ keys →
  in_hand c k ∨ k ∈ polled_keys (ct_poller c) ∨ served after k.

Lemma served_app l l' k : served l k → served (l ++ l') k.
Proof. intros (read & o & calls & Hin). exists read, o, calls. set_solver. Qed.

(** The log of a step ends in what the step adds. *)
Lemma log_split l l' before keys after :
  l ++ l' = before ++ Listed (Client:=Client) keys :: after →
  (∃ a, l = before ++ Listed keys :: a ∧ after = a ++ l') ∨ Listed keys ∈ l'.
Proof. intros [(a & -> & ->)|(b & -> & ->)]%app_split_elem; [left; by exists a|right; set_solver]. Qed.

Lemma polls_kept_step a c c' : polls_kept c → ctl_step r a c c' → polls_kept c'.
Proof.
  intros Hinv Hstep before keys after k El Hr Hn Hk.
  assert (a ≠ ARestart → in_hand c k → in_hand c' k ∨ ct_worker c = Taken k ∧ a = ARun (Val None)) as Hkeep
    by (intros; by eapply in_hand_step).
  ctl_cases Hstep;
    try (by destruct (Hinv _ _ _ _ El Hr Hn Hk) as [Hin|?]; [destruct (Hkeep ltac:(done) Hin) as [?|[_ ?]]; [by left|done]|by right]).
  - destruct (poll_step_keys _ _ _ Hp Hn) as (Hn' & Hkeys & Hlist).
    destruct (log_split _ _ _ _ _ El) as [(a' & E1 & ->)|Hin].
    + destruct (Hinv _ _ _ _ E1 ltac:(set_solver) Hn' Hk) as [Hin|[Hin|Hs]].
      * destruct (Hkeep ltac:(done) Hin) as [?|[_ ?]]; [by left|done].
      * destruct (Hkeys k Hin) as [?|(obj & rest & -> & Ech & <-)]; [right; by left|].
        left. left. cbn. unfold polled. rewrite Ech, pending_Add. set_solver.
      * right. right. by apply served_app.
    + right. left. destruct e as [|[items|]| | | |]; cbn in Hin; try by apply not_elem_of_nil in Hin.
      apply list_elem_of_singleton in Hin as [= ->]. by apply (Hlist items).
  - destruct (log_split _ _ _ _ _ El) as [(a' & E1 & ->)|Hin]; [|by apply list_elem_of_singleton in Hin].
    destruct (Hinv _ _ _ _ E1 ltac:(set_solver) Hn Hk) as [Hin|[Hin|Hs]]; [|right; by left|right; right; by apply served_app].
    destruct (Hkeep ltac:(done) Hin) as [?|[[= ->] _]]; [by left|]. right. right. exists read, o, (new_calls s s'). set_solver.
  - destruct (log_split _ _ _ _ _ El) as [(a' & E1 & ->)|Hin]; [set_solver|by apply list_elem_of_singleton in Hin].
  - destruct (log_split _ _ _ _ _ El) as [(a' & E1 & ->)|Hin]; [set_solver|by apply list_elem_of_singleton in Hin].
Qed.

Lemma ctl_polls_kept c : ctl_reachable r c → polls_kept c.
Proof.
  induction 1 as [s client hp _ _|a c c' _ IH Hs]; [|by eapply polls_kept_step].
  intros before keys after k El. by destruct before.
Qed.

(** A run after an entry of the log: then the last run is after it, too. *)
Lemma last_run_after l1 en l2 k ss :
  last_run_synced (l1 ++ en :: l2) k ss → served l2 k → last_run_synced l2 k ss.
Proof.
  intros (before & ss0 & calls & after & E & Hg & Hs & Hno) (read & o & calls' & Hin).
  apply app_split_elem in E as [(l & -> & ->)|(l & -> & E)]; [by destruct (Hno read o calls'); set_solver|].
  destruct l as [|x l]; injection E as -> ->; [by destruct (Hno read o calls')|]. by exists l, ss0, calls, after.
Qed.

(** ** The queue empties *)

(** Nothing new comes in, and runs succeed. *)
Definition calm (a : action) : bool :=
  match a with
  | AInformed e => negb (shouldReconcilePredicate e)
  | APolled Receive => false
  | ARun o => negb (requeues o)
  | ARestart => false
  | _ => true
  end.
Definition takes (acts : list action) : nat := length (omap (λ a, match a with ATake => Some tt | _ => None end) acts).
Definition load c : nat := size (wq_waiting (ct_queue c)) + size (wq_delayed (ct_queue c)).
Definition succeeded (wk : worker) : Prop := match wk with Finished _ o => requeues o = false | _ => True end.

Lemma calm_step a c c' :
  calm a = true → ctl_step r a c c' → succeeded (ct_worker c) →
  succeeded (ct_worker c') ∧ takes [a] + load c' ≤ load c.
Proof.
  intros Ha Hstep Hok. unfold load.
  ctl_cases Hstep; cbn [calm] in *; try done.
  - unfold enqueue. by destruct (shouldReconcilePredicate e).
  - split; [done|]. by destruct e.
  - apply wq_Get_spec in Hg as (Hin & _ & -> & -> & _). split; [done|]. cbn.
    assert (size (wq_waiting q) = S (size (wq_waiting q ∖ {[k1]}))) as ->; [|lia].
    rewrite (union_difference_singleton_L k1 (wq_waiting q)) at 1 by done.
    rewrite size_union by set_solver. rewrite size_singleton. lia.
  - split; [by apply negb_true_iff|done].
  - unfold reported_to. cbn in Hok. rewrite Hok. by destruct (wq_Done_spec k1 q) as (-> & -> & _).
  - split; [done|]. destruct (wq_Wait_spec q) as (due & Hd & -> & -> & _). cbn.
    rewrite size_union_alt. pose proof (subseteq_size (due ∖ wq_waiting q) due ltac:(set_solver)).
    rewrite (size_difference _ due) by done. pose proof (subseteq_size due _ Hd). lia.
Qed.

Lemma takes_snoc acts a : takes (acts ++ [a]) = takes acts + takes [a].
Proof. unfold takes. by rewrite omap_app, length_app. Qed.

Lemma calm_steps acts c c' :
  ctl_steps r acts c c' → Forall (λ a, calm a = true) acts → succeeded (ct_worker c) →
  succeeded (ct_worker c') ∧ takes acts + load c' ≤ load c.
Proof.
  induction 1 as [c|acts a c c1 c2 _ IH Hs]; [done|]. intros [Hacts [Ha _]%Forall_cons]%Forall_app Hok.
  destruct (IH Hacts Hok) as [Hok1 Hl].
  destruct (calm_step _ _ _ Ha Hs Hok1) as [? ?]. rewrite takes_snoc. split; [done|lia].
Qed.

(** What has been handed out is what the worker has. *)
Definition handed_out (wk : worker) : gset key := match wk with Idle => ∅ | Taken k | Finished k _ => {[ k ]} end.

Lemma ctl_processing c : ctl_reachable r c → wq_processing (ct_queue c) = handed_out (ct_worker c).
Proof.
  induction 1 as [s client hp _ _|a c c' _ IH Hstep]; [by destruct wq_New_spec as (_ & _ & ?)|].
  ctl_cases Hstep; cbn [handed_out] in *; try done; try by destruct wq_New_spec as (_ & _ & ?).
  - unfold enqueue. destruct (shouldReconcilePredicate e); [|done]. by destruct (wq_Add_spec (event_key e) q) as (_ & -> & _).
  - unfold polled. destruct e; try done. destruct (pl_channel p) as [|obj ?]; [done|].
    by destruct (wq_Add_spec (key_of obj) q) as (_ & -> & _).
  - apply wq_Get_spec in Hg as (_ & _ & _ & _ & ->). rewrite IH. set_solver.
  - unfold reported_to. destruct (requeues o);
      [destruct (wq_Done_spec k1 (wq_AddRateLimited k1 q)) as (_ & _ & ->);
       destruct (wq_AddRateLimited_spec k1 q) as (_ & -> & _)|destruct (wq_Done_spec k1 q) as (_ & _ & ->)]; rewrite IH; set_solver.
  - by destruct (wq_Wait_spec q) as (_ & _ & _ & _ & ->).
Qed.

Lemma wait_steps n c : ∃ c', ctl_steps r (replicate n AWait) c c' ∧
  c' = mkCtl (Nat.iter n wq_Wait (ct_queue c)) (ct_worker c) (ct_view c) (ct_state c) (ct_poller c) (ct_log c).
Proof.
  induction n as [|n (c' & Hs & ->)]; [exists c; split; [constructor|by destruct c]|].
  eexists. split; [|done]. rewrite replicate_S_end. by eapply steps_snoc, st_wait.
Qed.

Lemma reachable_steps acts c c' : ctl_reachable r c → ctl_steps r acts c c' → ctl_reachable r c'.
Proof. intros Hc Hs. revert Hc. induction Hs; eauto using cr_step. Qed.

(** ** Runs in the log *)

Lemma step_log a c c' : ctl_step r a c c' →
  ∃ l, ct_log c' = ct_log c ++ l ∧
    ((∀ o, a ≠ ARun o) ∧ (∀ k, ¬ served l k) ∨
     ∃ k read o calls s, a = ARun o ∧ ct_worker c = Taken k ∧ l = [Ran k read o calls] ∧
       read_answer s k.1 k.2 read ∧ reconcile_outcome r s k.1 k.2 o calls).
Proof.
  intros Hs. destruct Hs as [|e p' q wk v s p l _|k q' q v s p l _|k read o s' q v s p l _ _ Hr E| | | | | |]; cbn [ct_log];
    try (by exists []; rewrite app_nil_r; split; [|left; split; [done|intros ? (? & ? & ? & []%not_elem_of_nil)]]);
    try (by exists [Restarted]; split; [|left; split; [done|intros ? (? & ? & ? & [=]%list_elem_of_singleton)]]).
  - exists (listed e). split; [done|]. left. split; [done|]. intros k (read & o & calls & Hin). unfold listed in Hin.
    destruct e as [|[items|]| | | |]; (by apply not_elem_of_nil in Hin) || by apply list_elem_of_singleton in Hin.
  - destruct (Reconcile_outcome k.1 k.2 s) as (o' & calls & Eo & Ec & Ho). rewrite E in Eo, Ec. cbn in Eo, Ec. subst.
    eexists. split; [done|]. right. by exists k, read, o', (new_calls s s'), s.
Qed.
Lemma steps_log acts c c' : ctl_steps r acts c c' → ∃ l, ct_log c' = ct_log c ++ l.
Proof.
  induction 1 as [c|acts a c c1 c2 _ [l IH] Hs]; [exists []; by rewrite app_nil_r|].
  destruct (step_log _ _ _ Hs) as (l' & -> & _). exists (l ++ l'). by rewrite IH, app_assoc.
Qed.

(** *** Properties *)

(** C3: no change is lost: at every moment of a process, each SecretSync in
    the informer's cache has its key in the queue or with the worker, or the last
    run of it read this generation of the object, fetched its data and left a
    status with the hash of that data, written after the Secret was patched with
    it when it was new. *)
Theorem no_change_lost c k ss :
  ctl_reachable r c → ct_view c !! k = Some ss →
  k ∈ pending (ct_queue c) ∨ to_run (ct_worker c) k ∨ last_run_synced (ct_log c) k ss.
Proof. intros Hc Hv. destruct (ctl_up_to_date c Hc k ss Hv) as [[?|?]|?]; eauto. Qed.

(** C4: no poll is lost: when a tick has listed a SecretSync and the process
    is still polling, then as soon as its key is neither to be sent, nor in the
    channel, nor in the queue or with the worker, a run that started after the
    tick has synced the object there is: changes of the provider's data and of
    the class, of which no event tells, are taken up too. *)
Theorem no_poll_lost c before keys after k ss :
  ctl_reachable r c → ct_log c = before ++ Listed keys :: after → Restarted ∉ after →
  returned (ct_poller c) = false → k ∈ keys → k ∉ polled_keys (ct_poller c) →
  k ∉ pending (ct_queue c) → ¬ to_run (ct_worker c) k → ct_view c !! k = Some ss →
  last_run_synced after k ss.
Proof.
  intros Hc El Hr Hn Hk Hp Hq Hw Hv.
  destruct (ctl_polls_kept c Hc _ _ _ _ El Hr Hn Hk) as [[?|?]|[?|Hs]]; [done..|].
  destruct (ctl_up_to_date c Hc k ss Hv) as [[?|?]|Hl]; [done..|]. rewrite El in Hl. by eapply last_run_after.
Qed.

(** C5: the queue empties: as long as nothing new comes in and runs succeed,
    there are at most as many runs as keys were in the queue; while there are
    any, an idle worker gets one once the delays have passed; and when there are
    none, every SecretSync in the cache is synced in its present generation. *)
Theorem queue_drains c acts c' :
  ctl_reachable r c → ct_worker c = Idle → ctl_steps r acts c c' → Forall (λ a, calm a = true) acts →
  takes acts + load c' ≤ load c ∧
  (ct_worker c' = Idle →
    (load c' ≠ 0 → ∃ n c1, ctl_steps r (replicate n AWait ++ [ATake]) c' c1) ∧
    (load c' = 0 → ∀ k ss, ct_view c' !! k = Some ss → last_run_synced (ct_log c') k ss)).
Proof.
  intros Hc Hidle Hs Hcalm. assert (succeeded (ct_worker c)) as Hok by (by rewrite Hidle).
  destruct (calm_steps _ _ _ Hs Hcalm Hok) as [_ Hl]. split; [done|]. intros Hidle'.
  pose proof (reachable_steps _ _ _ Hc Hs) as Hc'. split; intros Hload.
  - pose proof (ctl_processing c' Hc') as Hproc. rewrite Hidle' in Hproc.
    destruct (wq_served (ct_queue c') Hproc) as (n & [k q] & Hg).
    { intros [E1 E2]%empty_union_L. apply Hload. unfold load. by rewrite E1, E2. }
    destruct (wait_steps n c') as (c1 & Hw & ->). rewrite Hidle' in Hw.
    exists n. eexists. eapply steps_snoc; [exact Hw|]. by apply st_take.
  - intros k ss Hv. destruct (ctl_up_to_date c' Hc' k ss Hv) as [[Hp|Hw]|?]; [..|done].
    + unfold load in Hload. unfold pending in Hp.
      assert (size (wq_waiting (ct_queue c')) = 0) as E1%size_empty_inv by lia.
      assert (size (wq_delayed (ct_queue c')) = 0) as E2%size_empty_inv by lia. set_solver.
    + rewrite Hidle' in Hw. by destruct Hw as [?|(? & ? & _)].
Qed.

(** C14: a SecretSync that is deleted while its key is in the queue is never
    dropped: deleting it is no reason to run, and until the process ends every
    run finds no object, asks for nothing, and returns the error that puts the key
    back. *)
Theorem deleted_retried acts c c' l k :
  ctl_steps r acts c c' → ARestart ∉ acts → in_hand c k → ct_log c' = ct_log c ++ l →
  (∀ read o calls, Ran k read o calls ∈ l → ∃ err, read = Err err) →
  in_hand c' k ∧ ∀ read o calls, Ran k read o calls ∈ l → calls = [] ∧ ∃ err, o = Val (Some err).
Proof.
  intros Hs Ha Hin. revert l. induction Hs as [c|acts a c c1 c2 Hs IH Hstep]; intros l El Hread.
  { rewrite <- (app_nil_r (ct_log c)) in El at 1. apply (inj (app _)) in El as <-. split; [done|]. by intros ???[]%not_elem_of_nil. }
  apply not_elem_of_app in Ha as [Ha Ha1].
  destruct (steps_log _ _ _ Hs) as [l1 El1]. destruct (step_log _ _ _ Hstep) as (l2 & El2 & Hl2).
  assert (l = l1 ++ l2) as -> by (apply (inj (app (ct_log c))); by rewrite app_assoc, <- El1, <- El2).
  destruct (IH Ha Hin l1 El1) as [Hin1 Hl1]; [intros read o calls Hr; apply (Hread read o calls); set_solver|].
  assert (∀ read o calls, Ran k read o calls ∈ l2 → calls = [] ∧ ∃ err, o = Val (Some err)) as Hran.
  { intros read o calls Hr. destruct (Hread read o calls) as [err ->]; [set_solver|].
    destruct Hl2 as [[_ Hno]|(k' & read' & o' & calls' & s & _ & _ & -> & Hra & Ho)]; [destruct (Hno k); by do 3 eexists|].
    apply list_elem_of_singleton in Hr as [= <- <- <- <-]. destruct (outcome_unread _ _ _ _ _ _ Hra Ho) as [-> ->]. eauto. }
  split; [|intros read o calls [?|?]%elem_of_app; eauto].
  destruct (in_hand_step _ _ _ k Hstep Hin1) as [?|[Hw ->]]; [set_solver|done|].
  destruct Hl2 as [[Hno _]|(k' & read' & o' & calls' & s & [= <-] & Hw' & -> & _ & _)]; [by destruct (Hno (Val None))|].
  rewrite Hw in Hw'. injection Hw' as <-. by destruct (Hran read' (Val None) calls') as (_ & ? & ?); [set_solver|].
Qed.
End laws.

(** ** Witnesses: a first-in first-out queue and the cluster of ControllerFixture.v *)

Record fifo := { ff_items : list key; ff_delayed : list key; ff_processing : gset key }.

(** Those of a list that are not there yet go to the end. *)
Definition ff_push (new : list key) (items : list key) : list key := items ++ filter (λ k, k ∉ items) new.

#[export] Instance fifo_queue : WorkQueue fifo := {
  wq_New := {| ff_items := []; ff_delayed := []; ff_processing := ∅ |};
  wq_Add := λ k q, {| ff_items := ff_push [k] (ff_items q); ff_delayed := ff_delayed q; ff_processing := ff_processing q |};
  wq_AddRateLimited := λ k q, {| ff_items := ff_items q; ff_delayed := k :: ff_delayed q; ff_processing := ff_processing q |};
  wq_Get := λ q,
    '(_, k) ← list_find (λ k, k ∉ ff_processing q) (ff_items q);
    Some (k, {| ff_items := filter (λ k', k' ≠ k) (ff_items q); ff_delayed := ff_delayed q;
                ff_processing := {[ k ]} ∪ ff_processing q |});
  wq_Done := λ k q, {| ff_items := ff_items q; ff_delayed := ff_delayed q; ff_processing := ff_processing q ∖ {[ k ]} |};
  wq_Wait := λ q, {| ff_items := ff_push (ff_delayed q) (ff_items q); ff_delayed := []; ff_processing := ff_processing q |};
}.

Lemma ff_push_set new items : (list_to_set (ff_push new items) : gset key) = list_to_set items ∪ list_to_set new.
Proof.
  apply set_eq. intros k. unfold ff_push. rewrite elem_of_union, !elem_of_list_to_set, elem_of_app, list_elem_of_filter.
  destruct (decide (k ∈ items)); naive_solver.
Qed.

#[export] Instance fifo_laws : WorkQueueLaws fifo.
Proof.
  refine {| wq_waiting := λ q, list_to_set (ff_items q); wq_delayed := λ q, list_to_set (ff_delayed q);
            wq_processing := ff_processing |}.
  - done.
  - intros k q. split_and!; [|done|cbn; set_solver|done]. cbn [wq_Add fifo_queue ff_items]. rewrite ff_push_set. set_solver.
  - intros k q. cbn. split_and!; [done|done|set_solver..].
  - intros k q q'. cbn. destruct (list_find _ (ff_items q)) as [[i k']|] eqn:E; [|done]. intros [= -> <-].
    apply list_find_Some in E as (E%list_elem_of_lookup_2 & Hn & _). split_and!; try done; [set_solver|].
    cbn. apply set_eq. intros k'. rewrite elem_of_difference, !elem_of_list_to_set, list_elem_of_filter. set_solver.
  - done.
  - intros q. exists (list_to_set (ff_delayed q)). split_and!; [done| |cbn; set_solver|done].
    cbn [wq_Wait fifo_queue ff_items]. by rewrite ff_push_set.
  - intros q Hp Hne. exists 1. cbn. rewrite Hp.
    destruct (list_find _ _) as [[i k]|] eqn:E; [by eexists|]. apply list_find_None in E. exfalso. apply Hne.
    rewrite <- ff_push_set. destruct (ff_push _ _) as [|k l]; [done|]. apply Forall_cons in E as [Hk _]. set_solver.
Defined.

Notation kctl := (ctl fifo (PluginClientBuilder nat nat) kworld nat).

(** The SecretSync is created, listed by a tick and sent, and synced once. *)
Definition created : event (option smap) := CreateEvent (cluster_ss status_new).
Definition listed_item : SecretSync mapref := (load_ss (cluster_ss status_new) ∅).1.
Definition listed_heap : heap := (load_ss (cluster_ss status_new) ∅).2.
Definition poller_after (es : list poll_event) : poller :=
  default (providerPollingFunc listed_heap) (poll_run es (providerPollingFunc listed_heap)).
Definition poll_history : list poll_event := [CacheSynced true; Tick (Ok [listed_item]); Send; Receive].

Definition the_key : key := ("shop", "db").
Definition the_view : gmap key wire_ss := {[ the_key := cluster_ss status_new ]}.
Definition queue_filled : fifo := {| ff_items := [the_key]; ff_delayed := []; ff_processing := ∅ |}.
Definition queue_taken : fifo := {| ff_items := []; ff_delayed := []; ff_processing := {[ the_key ]} |}.
Definition filled (n : nat) (l : list (entry nat)) : kctl :=
  mkCtl queue_filled Idle the_view (start status_new None) (poller_after (take n poll_history)) l.
Definition ctl_filled : kctl := filled 4 [Listed [the_key]].
Definition the_run : entry nat :=
  Ran the_key (Ok (cluster_ss status_new)) (Val None) (calls_from status_new None).
Definition ctl_synced : kctl :=
  mkCtl (reported_to the_key (Val None) queue_taken) Idle the_view (run_from status_new None).2
    (poller_after poll_history) [Listed [the_key]; the_run].

Lemma filled_reachable : ctl_reachable controller ctl_filled.
Proof.
  assert (HC : ctl_reachable controller (filled 0 [])).
  { refine (cr_step controller (AInformed created) (first_ctl (start status_new None) listed_heap) _
      (cr_first controller (start status_new None) true listed_heap eq_refl eq_refl) _).
    assert (E : filled 0 [] = mkCtl (enqueue created wq_New) Idle (<[ key_of (cluster_ss status_new) := cluster_ss status_new ]> ∅)
      (start status_new None) (providerPollingFunc listed_heap) []) by (vm_compute; reflexivity).
    rewrite E. apply st_informed, inf_create. reflexivity. }
  assert (HP : ∀ n e l, poll_history !! n = Some e →
    providerPollingFunc_step e (poller_after (take n poll_history)) = Some (poller_after (take (S n) poll_history)) →
    polled e (poller_after (take n poll_history)) queue_filled = queue_filled →
    ctl_reachable controller (filled n l) → ctl_reachable controller (filled (S n) (l ++ listed e))).
  { intros n e l _ Es Eq Hr. refine (cr_step controller (APolled e) (filled n l) _ Hr _).
    unfold filled. rewrite <- Eq at 2. apply st_polled. exact Es. }
  change (ctl_reachable controller (filled 4 (((([] ++ listed (CacheSynced true)) ++ listed (Tick (Ok [listed_item]))) ++ listed Send) ++ listed Receive))).
  do 4 (eapply HP; [reflexivity|vm_compute; reflexivity|vm_compute; reflexivity|]). exact HC.
Qed.

Lemma synced_steps : ctl_steps controller [ATake; ARun (Val None); ADone] ctl_filled ctl_synced.
Proof.
  refine (steps_snoc controller [ATake; ARun (Val None)] ADone _ _ _ (steps_snoc controller [ATake] (ARun (Val None)) _ _ _
    (steps_snoc controller [] ATake _ _ _ (steps_nil controller _) _) _) _).
  - apply (st_take controller the_key queue_taken). vm_compute. reflexivity.
  - assert (HV : ∀ ss, read_answer (start status_new None) "shop" "db" (Ok ss) → ss = cluster_ss status_new).
    { intros ss Hr. assert (HF : read_answer (start status_new None) "shop" "db" (Ok (cluster_ss status_new))) by (vm_compute; reflexivity).
      pose proof (read_answer_det _ _ _ _ _ Hr HF) as [= ->]. reflexivity. }
    apply (st_run controller the_key (Ok (cluster_ss status_new)) (Val None) (run_from status_new None).2).
    + intros ss Hr. rewrite (HV ss Hr). reflexivity.
    + apply start_reads; reflexivity.
    + vm_compute. reflexivity.
    + unfold run_from, run_controller. cbn [the_key fst snd]. 
      assert (E : (Reconcile controller "shop" "db" (start status_new None)).1 = Val None) by (vm_compute; reflexivity).
      rewrite <- E. apply surjective_pairing.
  - apply st_done.
Qed.
Lemma synced_reachable : ctl_reachable controller ctl_synced.
Proof. apply (reachable_steps controller _ _ _ filled_reachable synced_steps). Qed.

Lemma synced_idle : ∀ k, k ∉ pending (ct_queue ctl_synced) ∧ ¬ to_run (ct_worker ctl_synced) k.
Proof.
  intros k. assert (E : pending (ct_queue ctl_synced) = ∅) by (vm_compute; reflexivity). rewrite E. split; [set_solver|].
  intros [Hw|(o & Hw & _)]; discriminate Hw.
Qed.

Lemma no_change_lost_witness : last_run_synced controller (ct_log ctl_synced) the_key (cluster_ss status_new).
Proof.
  destruct (no_change_lost controller ctl_synced the_key (cluster_ss status_new) synced_reachable) as [H|[H|H]].
  - reflexivity.
  - destruct (proj1 (synced_idle the_key) H).
  - destruct (proj2 (synced_idle the_key) H).
  - exact H.
Defined.

Lemma no_poll_lost_witness : last_run_synced controller [the_run] the_key (cluster_ss status_new).
Proof.
  refine (no_poll_lost controller ctl_synced [] [the_key] [the_run] the_key (cluster_ss status_new) synced_reachable
    eq_refl _ _ _ _ (proj1 (synced_idle the_key)) (proj2 (synced_idle the_key)) _).
  - intros H. apply list_elem_of_singleton in H. discriminate H.
  - vm_compute. reflexivity.
  - left.
  - assert (E : polled_keys (ct_poller ctl_synced) = []) by (vm_compute; reflexivity). rewrite E. apply not_elem_of_nil.
  - reflexivity.
Defined.

(** One key, one run. *)
Lemma queue_drains_witness : load ctl_filled = 1 ∧ 1 + load ctl_synced ≤ load ctl_filled ∧
  last_run_synced controller (ct_log ctl_synced) the_key (cluster_ss status_new).
Proof.
  destruct (queue_drains controller ctl_filled _ ctl_synced filled_reachable eq_refl synced_steps) as [H1 H2].
  - repeat constructor.
  - split; [vm_compute; reflexivity|]. split; [exact H1|]. apply (proj2 (H2 eq_refl)); [vm_compute; reflexivity|reflexivity].
Defined.

(** The object is deleted while its key is in the queue. *)
Definition gone_error : error := errors_New "SecretSync not found".
Definition gone_world : kworld := {|
  kw_now := 1000 * Second; kw_ss := Err gone_error; kw_spc := Ok (cluster_spc None); kw_patch_error := None;
  kw_update_error := None; kw_mount := Ok None; kw_sockets := provider_start.2 |}.
Definition gone_start : rstate (PluginClientBuilder nat nat) kworld nat := controller_start gone_world.
Definition still_there : kctl :=
  mkCtl queue_filled Idle the_view gone_start (providerPollingFunc ∅) [].
Definition gone_run : entry nat := Ran the_key (Err gone_error) (Val (Some gone_error)) [].
Definition gone_again : kctl :=
  mkCtl (reported_to the_key (Val (Some gone_error)) queue_taken) Idle ∅ gone_start (providerPollingFunc ∅) [gone_run].

Lemma gone_steps :
  ctl_steps controller [AInformed (DeleteEvent (cluster_ss status_new)); ATake; ARun (Val (Some gone_error)); ADone]
    still_there gone_again.
Proof.
  pose (at_ := λ q wk v l, mkCtl q wk v gone_start (providerPollingFunc ∅) l : kctl).
  refine (steps_snoc controller [AInformed (DeleteEvent (cluster_ss status_new)); ATake; ARun (Val (Some gone_error))] ADone
      _ (at_ queue_taken (Finished the_key (Val (Some gone_error))) ∅ [gone_run]) _
    (steps_snoc controller [AInformed (DeleteEvent (cluster_ss status_new)); ATake] (ARun (Val (Some gone_error)))
      _ (at_ queue_taken (Taken the_key) ∅ []) _
    (steps_snoc controller [AInformed (DeleteEvent (cluster_ss status_new))] ATake _ (at_ queue_filled Idle ∅ []) _
    (steps_snoc controller [] (AInformed (DeleteEvent (cluster_ss status_new))) _ _ _ (steps_nil controller still_there) _) _) _) _).
  - assert (E : (∅ : gmap key wire_ss) = delete (key_of (cluster_ss status_new)) the_view) by (vm_compute; reflexivity).
    unfold at_. rewrite E. apply (st_informed controller (DeleteEvent (cluster_ss status_new))), inf_delete. eexists. reflexivity.
  - apply (st_take controller the_key queue_taken). vm_compute. reflexivity.
  - assert (HR : read_answer gone_start "shop" "db" (Err gone_error)) by (vm_compute; reflexivity).
    apply (st_run controller the_key (Err gone_error) (Val (Some gone_error)) gone_start).
    + intros ss Hr. pose proof (read_answer_det _ _ _ _ _ Hr HR) as [=].
    + intros ss Hr. pose proof (read_answer_det _ _ _ _ _ Hr HR) as [=].
    + exact HR.
    + vm_compute. reflexivity.
  - exact (st_done controller the_key (Val (Some gone_error)) queue_taken ∅ gone_start (providerPollingFunc ∅) [gone_run]).
Qed.

Lemma deleted_retried_witness : in_hand gone_again the_key.
Proof.
  refine (proj1 (deleted_retried controller _ still_there gone_again [gone_run] the_key gone_steps _ _ eq_refl _)).
  - intros H. apply list_elem_of_In in H. cbn in H. decompose [or] H; try discriminate; assumption.
  - left. apply elem_of_union. left. vm_compute. reflexivity.
  - intros read o calls H. apply list_elem_of_singleton in H. injection H as -> _ _. eexists. reflexivity.
Defined.
