(* ===== verification/Version.v ===== *)
(** * pkg/version: what the binary says of itself

    The build variables, the user agent for the API server, and the line of
    JSON that [-version] prints. *)

From Stdlib Require Import Ascii.
From stdpp Require Import strings gmap list.
From S2P Require Import Prelude GoText GoFmt GoJson.

(** The variables set at build time, and the platform. *)
Record BuildInfo := {
  Vcs : string;
  BuildTime : string;
  BuildVersion : string;
  GOOS : string;
  GOARCH : string;
}.
Definition default_BuildVersion : string := "local-dev".

Definition GetUserAgent (b : BuildInfo) (controllerName : string) : string :=
  "secrets-store-sync-controller/" +:+ controllerName +:+ "/" +:+ BuildVersion b +:+
  " (" +:+ GOOS b +:+ "/" +:+ GOARCH b +:+ ") " +:+ Vcs b +:+ "/" +:+ BuildTime b.

(** [json.Marshal] of the anonymous struct: the fields in their order; strings
    always marshal. *)
Definition printVersion_json (b : BuildInfo) : string :=
  "{" +:+ json_string "BuildVersion" +:+ ":" +:+ json_string (BuildVersion b) +:+ "," +:+
          json_string "GitCommit" +:+ ":" +:+ json_string (Vcs b) +:+ "," +:+
          json_string "BuildDate" +:+ ":" +:+ json_string (BuildTime b) +:+ "}".
Definition newline : string := String "010"%char EmptyString.
(** What [PrintVersion] writes to the standard output. *)
Definition PrintVersion (b : BuildInfo) : string := printVersion_json b +:+ newline.

(** The example of version_test.go. *)
Definition test_build : BuildInfo :=
  {| Vcs := "hash"; BuildTime := "Now"; BuildVersion := "version"; GOOS := "linux"; GOARCH := "amd64" |}.
Definition quoted (s : string) : string := String dquote (s +:+ String dquote EmptyString).
Lemma PrintVersion_example : PrintVersion test_build =
  "{" +:+ quoted "BuildVersion" +:+ ":" +:+ quoted "version" +:+ "," +:+ quoted "GitCommit" +:+ ":" +:+ quoted "hash" +:+
  "," +:+ quoted "BuildDate" +:+ ":" +:+ quoted "Now" +:+ "}" +:+ newline.
Proof. vm_compute. reflexivity. Qed.

(** What is printed says which build it is. *)
Lemma PrintVersion_inj b b' :
  Forall (λ s, ValidString s = true) [BuildVersion b; Vcs b; BuildTime b; BuildVersion b'; Vcs b'; BuildTime b'] →
  PrintVersion b = PrintVersion b' → BuildVersion b = BuildVersion b' ∧ Vcs b = Vcs b' ∧ BuildTime b = BuildTime b'.
Proof.
  intros HV. repeat match goal with HV : Forall _ (_ :: _) |- _ => apply Forall_cons in HV as [? HV] end.
  unfold PrintVersion, printVersion_json. rewrite !sapp_assoc. intros E. apply (inj _) in E. do 2 apply (inj _) in E.
  apply json_string_code in E as [-> E]; [|done..]. do 3 apply (inj _) in E.
  apply json_string_code in E as [-> E]; [|done..]. do 3 apply (inj _) in E.
  by apply json_string_code in E as [-> _].
Qed.
