(* ===== verification/Metrics.v ===== *)
(** * pkg/metrics: choosing the metrics backend

    [InitMetricsExporter] compares the flag, in lower case, with the one backend
    there is, and sets up the Prometheus exporter with the buckets of the
    histograms.  OpenTelemetry and the Prometheus client are an interface, and so
    are Unicode's tables of letters beyond ASCII.  Nothing in the repository calls
    it. *)

From Stdlib Require Import Ascii ZifyBool QArith_base.
From stdpp Require Import strings list.
From S2P Require Import Prelude GoText GoFmt.

Open Scope nat_scope.

(** ** [strings.ToLower] *)

Definition ascii_of_byte (n : N) : ascii := ascii_of_N n.

(** [utf8.EncodeRune]; what is no code point becomes [RuneError]. *)
Definition rune_error : string :=
  String (ascii_of_byte 0xEF) (String (ascii_of_byte 0xBF) (String (ascii_of_byte 0xBD) EmptyString)).
Definition encode_rune (v : N) : string :=
  let cont := λ x, ascii_of_byte (0x80 + x mod 64)%N in
  if (v <? 0x80)%N then String (ascii_of_byte v) EmptyString
  else if (v <? 0x800)%N then String (ascii_of_byte (0xC0 + v / 64)%N) (String (cont v) EmptyString)
  else if in_range 0xD800 0xDFFF v || (0x10FFFF <? v)%N then rune_error
  else if (v <? 0x10000)%N then
    String (ascii_of_byte (0xE0 + v / 4096)%N) (String (cont (v / 64)%N) (String (cont v) EmptyString))
  else String (ascii_of_byte (0xF0 + v / 262144)%N)
    (String (cont (v / 4096)%N) (String (cont (v / 64)%N) (String (cont v) EmptyString))).

(** [unicode.ToLower] of the code points beyond ASCII. *)
Class UnicodeCase := { unicode_ToLower : N → N }.
(** Two letters beyond ASCII have a lower case in ASCII: I with a dot above, and
    the Kelvin sign. *)
Class UnicodeCaseLaws `{UnicodeCase} := {
  unicode_ToLower_ascii c : (0x80 ≤ c)%N → (unicode_ToLower c < 0x80)%N →
    c = 0x130%N ∧ unicode_ToLower c = 0x69%N ∨ c = 0x212A%N ∧ unicode_ToLower c = 0x6B%N;
}.

Definition ascii_lower (a : ascii) : ascii :=
  if in_range 65 90 (byte_of a) then ascii_of_byte (byte_of a + 32) else a.

Section lower.
Context `{UnicodeCase}.

Definition lower_rune (r : rune) : string :=
  match r with
  | R1 a => String (ascii_lower a) EmptyString
  | _ => encode_rune (unicode_ToLower (rune_value r))
  end.
Definition ToLower (s : string) : string := concat_enc lower_rune (runes s).
End lower.

(** ** The exporter *)

(** [View] for histograms with [ExponentialBucketsRange(start, end, count)]. *)
Record histogram_view := { hv_start : Q; hv_end : Q; hv_count : nat }.

(** [Registry_asserted] tells whether controller-runtime's registry is of the
    type it is asserted to be. *)
Class Telemetry (W : Type) := {
  Registry_asserted : bool;
  prometheus_New : W → option error * W;
  otel_SetMeterProvider : histogram_view → W → W;
}.

Definition metricsBackend_default : string := "Prometheus".
Definition prometheusExporter : string := "prometheus".

Section metrics.
Context {W : Type} `{UnicodeCase, Telemetry W}.

Definition initPrometheusExporter : GoM W (option error) :=
  if negb Registry_asserted then panic "interface conversion" else
  err ← act prometheus_New;
  match err with
  | Some err => mret (Some err)
  | None =>
    _ ← modify (otel_SetMeterProvider {| hv_start := (1 # 10)%Q; hv_end := (2 # 1)%Q; hv_count := 11 |});
    mret None
  end.

Definition InitMetricsExporter (metricsBackend : string) : GoM W (option error) :=
  let mb := ToLower metricsBackend in
  if bool_decide (mb = prometheusExporter) then initPrometheusExporter
  else mret (Some (errors_New ("unsupported metrics backend " +:+ metricsBackend))).
End metrics.

(** ** The comparison with the backend's name *)

(** A byte that only comes from an ASCII letter: not beyond ASCII, and neither
    [i] nor [k]. *)
Definition plain (a : ascii) : bool := (byte_of a <? 0x80)%N && negb (byte_of a =? 0x69)%N && negb (byte_of a =? 0x6B)%N.

(** Equal but for the case of ASCII letters. *)
Fixpoint equal_fold (s t : string) : bool :=
  match s, t with
  | EmptyString, EmptyString => true
  | String a s, String b t => bool_decide (ascii_lower a = b) && equal_fold s t
  | _, _ => false
  end.

Lemma byte_of_ascii n : (n < 256)%N → byte_of (ascii_of_byte n) = n.
Proof. apply N_ascii_embedding. Qed.

Lemma not_plain n s : (0x80 ≤ n < 256)%N → all_chars plain (String (ascii_of_byte n) s) = false.
Proof. intros Hn. cbn [all_chars]. unfold plain. rewrite byte_of_ascii by lia. lia. Qed.

(** What is encoded beyond ASCII starts with a byte beyond ASCII. *)
Lemma encode_wide v : (0x80 ≤ v)%N → all_chars plain (encode_rune v) = false.
Proof.
  intros Hv. unfold encode_rune, in_range.
  assert (∀ a b c, 0 < b → v < b * c → a ≤ a + v / b < a + c)%N as Hdiv.
  { intros a b c Hb Hlt. split; [apply N.le_add_r|]. apply N.add_lt_mono_l. apply N.Div0.div_lt_upper_bound. lia. }
  destruct (N.ltb_spec v 0x80); [lia|]. destruct (N.ltb_spec v 0x800).
  { apply not_plain. pose proof (Hdiv 0xC0%N 64%N 32%N ltac:(lia) ltac:(lia)). lia. }
  destruct (_ || _) eqn:E; [done|]. destruct (N.ltb_spec v 0x10000); apply not_plain.
  - pose proof (Hdiv 0xE0%N 4096%N 16%N ltac:(lia) ltac:(lia)). lia.
  - pose proof (Hdiv 0xF0%N 262144%N 5%N ltac:(lia) ltac:(lia)). lia.
Qed.

Section fold.
Context `{UnicodeCase, !UnicodeCaseLaws}.

Lemma lower_rune_plain r : rune_wf r = true → all_chars plain (lower_rune r) = true → ∃ a, r = R1 a ∧ lead1 a = true.
Proof.
  intros Hr Hp.
  assert (∀ v, (0x80 ≤ v)%N → all_chars plain (encode_rune (unicode_ToLower v)) = false) as Hwide.
  { intros v Hv. destruct (decide (unicode_ToLower v < 0x80)%N) as [Hlt|Hge]; [|apply encode_wide; lia].
    by destruct (unicode_ToLower_ascii v Hv Hlt) as [[_ ->]|[_ ->]]. }
  destruct r as [a|a b|a b c|a b c d|a]; [by exists a|..]; exfalso; cbn [lower_rune] in Hp.
  1: pose proof (rune_value_range (R2 a b) Hr) as Hv. 2: pose proof (rune_value_range (R3 a b c) Hr) as Hv.
  3: pose proof (rune_value_range (R4 a b c d) Hr) as Hv.
  1-3: cbv beta iota in Hv; rewrite Hwide in Hp; [done|lia].
  by rewrite Hwide in Hp.
Qed.

Lemma lower_runes_plain l :
  Forall (λ r, rune_wf r = true) l → all_chars plain (concat_enc lower_rune l) = true → ∃ s, l = R1 <$> s ∧ Forall (λ a, lead1 a = true) s.
Proof.
  induction 1 as [|r l Hr _ IH]; [by exists []|]. cbn [concat_enc foldr]. rewrite all_chars_app. intros [Hp Hl]%andb_true_iff.
  destruct (lower_rune_plain r Hr Hp) as (a & -> & Ha). destruct (IH Hl) as (s & -> & Hs). exists (a :: s). by split; [|constructor].
Qed.

Lemma equal_fold_runes s t : concat_enc lower_rune (R1 <$> s) = t ↔ equal_fold (String.string_of_list_ascii s) t = true.
Proof.
  revert t. induction s as [|a s IH]; intros t; [by destruct t|].
  assert (concat_enc lower_rune (R1 <$> a :: s) = String (ascii_lower a) (concat_enc lower_rune (R1 <$> s))) as -> by done.
  destruct t as [|b t]; [done|]. cbn [String.string_of_list_ascii equal_fold].
  rewrite andb_true_iff, bool_decide_eq_true, <- IH. split; [by intros [= -> ->]|by intros [-> ->]].
Qed.

(** For a name of plain letters, [ToLower] compares bytes up to the case of ASCII
    letters. *)
Lemma ToLower_plain s t : all_chars plain t = true → (ToLower s = t ↔ equal_fold s t = true).
Proof.
  intros Ht. unfold ToLower. split.
  - intros <-. destruct (lower_runes_plain (runes s) (runes_wf s) Ht) as (l & E & _).
    pose proof (runes_bytes s) as Eb. rewrite E in Eb |- *.
    assert (concat_enc rune_bytes (R1 <$> l) = String.string_of_list_ascii l) as El.
    { clear. induction l as [|a l IH]; [done|]. cbn. by rewrite <- IH. }
    rewrite El in Eb. subst s. by apply equal_fold_runes.
  - intros E. assert (all_chars lead1 s = true) as Ha.
    { revert t Ht E. induction s as [|a s IH]; intros [|b t]; cbn; try done.
      intros [Hb Ht]%andb_true_iff [<-%bool_decide_eq_true E]%andb_true_iff. apply andb_true_iff. split; [|by eapply IH].
      revert Hb. apply implb_true_iff. revert a. apply all_bytes_forallb. vm_compute. reflexivity. }
    rewrite runes_ascii by done. apply equal_fold_runes. by rewrite String.string_of_list_ascii_of_string.
Qed.
End fold.

(** *** Properties *)

(** C37: the backend is chosen by its name up to the case of ASCII letters and
    nothing else, although the name is lowered with all of Unicode: such a name
    sets up the Prometheus exporter, with the histogram buckets from 0.1 to 2, or
    reports why that failed and sets nothing; any other name is refused with an
    error that repeats it, and nothing is touched. *)
Theorem InitMetricsExporter_correct {W : Type} `{UnicodeCase, !UnicodeCaseLaws, Telemetry W} backend (w : W) :
  Registry_asserted (W:=W) = true →
  if equal_fold backend "prometheus" then
    ∃ err w', prometheus_New w = (err, w') ∧
      InitMetricsExporter backend w =
        (Val err, match err with
                  | None => otel_SetMeterProvider {| hv_start := (1 # 10)%Q; hv_end := (2 # 1)%Q; hv_count := 11 |} w'
                  | Some _ => w'
                  end)
  else InitMetricsExporter backend w = (Val (Some (errors_New ("unsupported metrics backend " +:+ backend))), w).
Proof.
  intros Hreg. pose proof (ToLower_plain backend prometheusExporter eq_refl) as Hl. unfold InitMetricsExporter.
  unfold prometheusExporter in *. destruct (equal_fold backend "prometheus").
  - rewrite bool_decide_true by by apply Hl. unfold initPrometheusExporter. rewrite Hreg. cbn [negb].
    unfold mbind, GoM_bind, act. destruct (prometheus_New w) as [[err|] w'] eqn:E; by eexists _, w'.
  - rewrite bool_decide_false; [done|]. intros E%Hl. done.
Qed.

(** The default of the flag, and a name with the Kelvin sign. *)
#[local] Instance fixture_telemetry : Telemetry (list histogram_view) := {|
  Registry_asserted := true; prometheus_New := λ w, (None, w); otel_SetMeterProvider := cons |}.
#[local] Instance fixture_case : UnicodeCase := {| unicode_ToLower := λ c, if (c =? 0x212A)%N then 0x6B%N else c |}.
#[local] Instance fixture_case_laws : UnicodeCaseLaws.
Proof.
  split. intros c Hc. cbn. destruct (N.eqb_spec c 0x212A) as [->|_]; [by right|lia].
Qed.

Lemma InitMetricsExporter_correct_witness : ∃ views : list histogram_view,
  InitMetricsExporter metricsBackend_default [] = (Val None, views) ∧ length views = 1.
Proof.
  assert (HR : Registry_asserted (W:=list histogram_view) = true) by reflexivity.
  destruct (InitMetricsExporter_correct metricsBackend_default ([] : list histogram_view) HR) as (err & w & Hw & E).
  injection Hw as <- <-. eexists. split; [exact E|]. reflexivity.
Defined.
