(* ===== verification/Scheme.v ===== *)
(** * api/v1alpha1/groupversion_info.go and [init] of cmd/main.go

    A process registers its API types before [main] runs: the built-in types,
    those of this repository and those of the CSI driver.  [runtime.Scheme],
    [SchemeBuilder] and [utilruntime.Must] are an interface; a table of kinds is an
    instance. *)

From stdpp Require Import strings gmap list.
From S2P Require Import Prelude.

Record GroupVersion := { gv_Group : string; gv_Version : string }.
#[export] Instance GroupVersion_eq_dec : EqDecision GroupVersion. Proof. solve_decision. Defined.

(** The Go types of the package that are registered. *)
Inductive api_type := T_SecretSync | T_SecretSyncList.
(** The name of the type, which is the kind. *)
Definition type_Name (t : api_type) : string :=
  match t with T_SecretSync => "SecretSync" | T_SecretSyncList => "SecretSyncList" end.

(** [Registered] is what a scheme makes of a kind; the two foreign packages
    register their own types. *)
Class SchemeLib (S : Type) := {
  NewScheme : S;
  AddKnownTypes : GroupVersion → list api_type → GoM S unit;
  metav1_AddToGroupVersion : GroupVersion → GoM S unit;
  SchemeBuilder_AddToScheme : list (GoM S (option error)) → GoM S (option error);
  utilruntime_Must : option error → GoM S unit;
  clientgoscheme_AddToScheme : GoM S (option error);
  secretsstorecsiv1_AddToScheme : GoM S (option error);
  Registered : S → GroupVersion → string → option api_type;
}.

Definition v1alpha1_GroupVersion : GroupVersion := {| gv_Group := "secret-sync.x-k8s.io"; gv_Version := "v1alpha1" |}.

Section scheme.
Context {S : Type} `{SchemeLib S}.

Definition addKnownTypes : GoM S (option error) :=
  _ ← AddKnownTypes v1alpha1_GroupVersion [T_SecretSync; T_SecretSyncList];
  _ ← metav1_AddToGroupVersion v1alpha1_GroupVersion;
  mret None.

(** [SchemeBuilder = runtime.NewSchemeBuilder(addKnownTypes)]. *)
Definition SchemeBuilder : list (GoM S (option error)) := [addKnownTypes].
Definition AddToScheme : GoM S (option error) := SchemeBuilder_AddToScheme SchemeBuilder.

(** [init] of package main. *)
Definition main_init : GoM S unit :=
  err ← clientgoscheme_AddToScheme; _ ← utilruntime_Must err;
  err ← AddToScheme; _ ← utilruntime_Must err;
  err ← secretsstorecsiv1_AddToScheme; utilruntime_Must err.
End scheme.

(** ** What is registered *)

(** Documented behaviour: types are registered under their names, or the call
    panics; a builder runs its functions in order and stops at the first error;
    [Must] panics on an error; the other packages have types of their own. *)
Class SchemeLibLaws (S : Type) `{SchemeLib S} := {
  NewScheme_empty gv kind : Registered NewScheme gv kind = None;
  AddKnownTypes_spec gv ts s s' : AddKnownTypes gv ts s = (Val tt, s') →
    (∀ t, t ∈ ts → Registered s' gv (type_Name t) = Some t) ∧
    ∀ gv' kind, (gv' ≠ gv ∨ kind ∉ type_Name <$> ts) → Registered s' gv' kind = Registered s gv' kind;
  AddToGroupVersion_spec gv s gv' kind : Registered (metav1_AddToGroupVersion gv s).2 gv' kind = Registered s gv' kind;
  SchemeBuilder_nil s : SchemeBuilder_AddToScheme [] s = (Val None, s);
  SchemeBuilder_cons f fs s : SchemeBuilder_AddToScheme (f :: fs) s =
    (err ← f; match err with Some err => mret (Some err) | None => SchemeBuilder_AddToScheme fs end) s;
  Must_spec err s : utilruntime_Must err s = match err with None => (Val tt, s) | Some e => (Panic (Error e), s) end;
  clientgoscheme_spec s gv kind : Registered (clientgoscheme_AddToScheme s).2 gv kind = Registered s gv kind;
  secretsstorecsiv1_spec s gv kind : Registered (secretsstorecsiv1_AddToScheme s).2 gv kind = Registered s gv kind;
}.

Section laws.
Context {S : Type} `{SchemeLib S, !SchemeLibLaws S}.

(** The scheme knows the two kinds of this group and version, and nothing else of
    the package. *)
Definition has_api (s : S) : Prop := ∀ gv kind,
  Registered s gv kind =
  if bool_decide (gv = v1alpha1_GroupVersion) then
    if bool_decide (kind = "SecretSync") then Some T_SecretSync
    else if bool_decide (kind = "SecretSyncList") then Some T_SecretSyncList else None
  else None.
Definition has_none (s : S) : Prop := ∀ gv kind, Registered s gv kind = None.

Lemma wp_Must err (Q : outcome unit → S → Prop) s :
  (err = None → Q (Val tt) s) → (∀ e, err = Some e → Q (Panic (Error e)) s) → wp (utilruntime_Must err) Q s.
Proof. unfold wp. rewrite Must_spec. destruct err; eauto. Qed.

Lemma wp_AddToScheme (Q : outcome (option error) → S → Prop) s :
  has_none s → (∀ s', has_api s' → Q (Val None) s') → (∀ p s', Q (Panic p) s') → wp AddToScheme Q s.
Proof.
  intros Hs HQ Hp. unfold AddToScheme, SchemeBuilder, wp. rewrite SchemeBuilder_cons. unfold addKnownTypes, mbind, GoM_bind.
  destruct (AddKnownTypes _ _ s) as [[[]|p] s1] eqn:E; [|apply Hp].
  destruct (metav1_AddToGroupVersion _ s1) as [[[]|p] s2] eqn:E2; [|apply Hp].
  cbn. rewrite SchemeBuilder_nil. apply HQ. apply AddKnownTypes_spec in E as [Hin Hout]. intros gv kind. cbn [snd].
  assert (Registered s2 gv kind = Registered s1 gv kind) as ->.
  { change s2 with (Val tt, s2).2. rewrite <- E2. apply AddToGroupVersion_spec. }
  case_bool_decide as Eg; [subst gv|rewrite Hout by (by left); apply Hs].
  case_bool_decide as Ek; [subst kind; by apply (Hin T_SecretSync); left|].
  case_bool_decide as El; [subst kind; apply (Hin T_SecretSyncList); right; left|].
  rewrite Hout; [apply Hs|right; cbn; set_solver].
Qed.

(** A process that gets past [init] knows the API; it does not, and panics, when
    a package cannot be registered. *)
Lemma main_init_registers :
  wp main_init (λ o s, o = Val tt → has_api s) (NewScheme (S:=S)).
Proof.
  unfold main_init. wp_step. unfold wp at 1.
  assert (has_none (clientgoscheme_AddToScheme (NewScheme (S:=S))).2) as H1.
  { intros gv kind. rewrite clientgoscheme_spec. apply NewScheme_empty. }
  destruct (clientgoscheme_AddToScheme NewScheme) as [[err|p] s1]; [|done]. cbn in *.
  wp_step. apply wp_Must; [intros _|done]. wp_step. apply wp_AddToScheme; [done| |done]. intros s2 H2. cbn.
  wp_step. apply wp_Must; [intros _|done]. wp_step. unfold wp at 1.
  assert (has_api (secretsstorecsiv1_AddToScheme s2).2) as H3.
  { intros gv kind. rewrite secretsstorecsiv1_spec. apply H2. }
  destruct (secretsstorecsiv1_AddToScheme s2) as [[err3|p] s3]; [|done]. cbn in *.
  by apply wp_Must.
Qed.
End laws.

(** ** A scheme: a table of the kinds *)

Definition table : Type := GroupVersion → string → option api_type.
Definition add_types (gv : GroupVersion) (ts : list api_type) (s : table) : table := λ gv' kind,
  if bool_decide (gv' = gv) then
    match list_find (λ t, type_Name t = kind) ts with Some (_, t) => Some t | None => s gv' kind end
  else s gv' kind.
Fixpoint run_builder (fs : list (GoM table (option error))) : GoM table (option error) :=
  match fs with
  | [] => mret None
  | f :: fs => err ← f; match err with Some err => mret (Some err) | None => run_builder fs end
  end.

#[export] Instance table_scheme : SchemeLib table := {
  NewScheme := λ _ _, None;
  AddKnownTypes := λ gv ts, modify (add_types gv ts);
  metav1_AddToGroupVersion := λ _, mret tt;
  SchemeBuilder_AddToScheme := run_builder;
  utilruntime_Must := λ err, match err with None => mret tt | Some e => panic (Error e) end;
  clientgoscheme_AddToScheme := mret None;
  secretsstorecsiv1_AddToScheme := mret None;
  Registered := λ s, s;
}.

#[export] Instance table_scheme_laws : SchemeLibLaws table.
Proof.
  split; try done; [|by intros [e|]].
  intros gv ts s s' [= <-]. unfold Registered, table_scheme, add_types. split.
  - intros t Ht. rewrite bool_decide_true by done.
    destruct (list_find_elem_of (λ t', type_Name t' = type_Name t) ts t Ht eq_refl) as [[i t'] E]. rewrite E.
    apply list_find_Some in E as (_ & En & _). destruct t', t; done.
  - intros gv' kind Hout. case_bool_decide as Eg; [|done]. destruct Hout as [?|Hk]; [done|].
    destruct (list_find _ ts) as [[i t]|] eqn:E; [|done]. apply list_find_Some in E as (Ht & <- & _).
    destruct Hk. apply list_elem_of_fmap. exists t. split; [done|]. by eapply list_elem_of_lookup_2.
Qed.

(** [init] gets through. *)
Example main_init_table : (main_init (NewScheme (S:=table))).1 = Val tt ∧
  has_api (main_init (NewScheme (S:=table))).2.
Proof. split; [done|]. by apply (main_init_registers (S:=table)). Qed.
