(* ===== verification/Main.v ===== *)
(** * cmd/main.go: from the flags to the running controller

    [main] reads the flags; [runMain] asks the API server's libraries for one thing
    after the other, stops at the first that fails, and closes the connections of
    the provider clients however it ends once there can be any.  controller-runtime
    and client-go are an interface; its requests are recorded with their answers. *)

From Stdlib Require Import Ascii.
From stdpp Require Import strings gmap list.
From S2P Require Import Prelude GoText GoFmt GoStrings GoTime GoParse GoFlag Token Provider ProviderFixture ProviderSpec Polling Version.

Open Scope nat_scope.

(** ** The flags *)

Record Flags := {
  metricsAddr : string;
  enableLeaderElection : bool;
  leaderElectionNamespace : string;
  probeAddr : string;
  tokenRequestAudiences : string;
  providerVolumePath : string;
  rotationPollInterval : Z;
  maxCallRecvMsgSize : Z;
  versionInfo : bool;
}.
Definition default_flags : Flags := {|
  metricsAddr := ":8085"; enableLeaderElection := false; leaderElectionNamespace := EmptyString;
  probeAddr := ":8081"; tokenRequestAudiences := EmptyString; providerVolumePath := "/provider";
  rotationPollInterval := 12 * Hour; maxCallRecvMsgSize := 1024 * 1024 * 4; versionInfo := false |}.

Definition comma : ascii := ","%char.
Definition main_audiences (flag : string) : list string :=
  let audiences := Split flag comma in
  if bool_decide (String.length flag = 0) then [] else audiences.

(** The flags of the program, each with the variable it sets. *)
Definition own_flags : list (string * Flag Flags) :=
  [("metrics-bind-address", StringVar (λ v '(Build_Flags _ b c d e f g h i), Build_Flags v b c d e f g h i));
   ("leader-elect", BoolVar (λ v '(Build_Flags a _ c d e f g h i), Build_Flags a v c d e f g h i));
   ("leader-election-namespace", StringVar (λ v '(Build_Flags a b _ d e f g h i), Build_Flags a b v d e f g h i));
   ("health-probe-bind-address", StringVar (λ v '(Build_Flags a b c _ e f g h i), Build_Flags a b c v e f g h i));
   ("token-request-audience", StringVar (λ v '(Build_Flags a b c d _ f g h i), Build_Flags a b c d v f g h i));
   ("provider-volume", StringVar (λ v '(Build_Flags a b c d e _ g h i), Build_Flags a b c d e v g h i));
   ("rotation-poll-interval", DurationVar (λ v '(Build_Flags a b c d e f _ h i), Build_Flags a b c d e f v h i));
   ("max-call-recv-msg-size", IntVar (λ v '(Build_Flags a b c d e f g _ i), Build_Flags a b c d e f g v i));
   ("version", BoolVar (λ v '(Build_Flags a b c d e f g h _), Build_Flags a b c d e f g h v))].

Fixpoint flag_lookup (name : string) (l : list (string * Flag Flags)) : option (Flag Flags) :=
  match l with [] => None | (n, f) :: l => if bool_decide (name = n) then Some f else flag_lookup name l end.

(** The libraries define flags too (zap's in [BindFlags], controller-runtime's
    kubeconfig): whether a flag is boolean, and whether it takes a value. *)
Definition OtherFlags : Type := string → option (bool * (string → option error)).
Definition other_flag (f : bool * (string → option error)) : Flag Flags :=
  {| IsBoolFlag := f.1; Flag_Set := λ v fl, match f.2 v with None => Ok fl | Some err => Err err end |}.

Section flags.
Context (IsPrint_table : N → bool) (other : OtherFlags).

Definition CommandLine (name : string) : option (Flag Flags) :=
  match flag_lookup name own_flags with Some f => Some f | None => other_flag <$> other name end.
Definition flag_Parse (args : list string) : parsed Flags := Parse IsPrint_table CommandLine args default_flags.

(** *** Writing flags *)

Definition bool_text (b : bool) : string := if b then "true" else "false".
Definition with_equals (name value : string) : setting :=
  {| se_name := name; se_value := value; se_dashes := true; se_form := WithEquals |}.

(** All the flags. *)
Definition flag_settings (fl : Flags) : list setting :=
  [with_equals "metrics-bind-address" (metricsAddr fl);
   with_equals "leader-elect" (bool_text (enableLeaderElection fl));
   with_equals "leader-election-namespace" (leaderElectionNamespace fl);
   with_equals "health-probe-bind-address" (probeAddr fl);
   with_equals "token-request-audience" (tokenRequestAudiences fl);
   with_equals "provider-volume" (providerVolumePath fl);
   with_equals "rotation-poll-interval" (FormatInt (rotationPollInterval fl) +:+ "ns");
   with_equals "max-call-recv-msg-size" (FormatInt (maxCallRecvMsgSize fl));
   with_equals "version" (bool_text (versionInfo fl))].

(** The container of the Helm chart, for a port, audiences and an interval of its
    values. *)
Definition chart_settings (port interval : string) (audiences : list string) : list setting :=
  [with_equals "provider-volume" "/provider";
   with_equals "token-request-audience" (Join audiences ", ");
   with_equals "health-probe-bind-address" ":8081";
   with_equals "metrics-bind-address" (":" +:+ port);
   {| se_name := "leader-elect"; se_value := "true"; se_dashes := true; se_form := Bare |};
   with_equals "rotation-poll-interval" interval].
Definition chart_flags (port : string) (interval : Z) (audiences : list string) : Flags := {|
  metricsAddr := ":" +:+ port; enableLeaderElection := true; leaderElectionNamespace := EmptyString;
  probeAddr := ":8081"; tokenRequestAudiences := Join audiences ", "; providerVolumePath := "/provider";
  rotationPollInterval := interval; maxCallRecvMsgSize := 1024 * 1024 * 4; versionInfo := false |}.

Lemma ParseBool_text b : ParseBool (bool_text b) = Some b.
Proof. by destruct b. Qed.

(** One more setting of a flag of the program. *)
Ltac own_setting :=
  eapply settings_cons; [reflexivity|reflexivity|first [exact I|by split]| |];
  [cbn [Flag_Set StringVar BoolVar IntVar DurationVar se_value with_equals];
   rewrite ?ParseBool_text, ?ParseInt_FormatInt, ?(ParseDuration_unit _ "ns" 1) by (done || by rewrite Z.mul_1_r);
   reflexivity|].

Lemma flag_settings_set fl fl0 :
  in_int64 (rotationPollInterval fl) → in_int64 (maxCallRecvMsgSize fl) → settings CommandLine (flag_settings fl) fl0 fl.
Proof.
  intros Hr Hm. destruct fl as [a b c d e f g h i], fl0 as [a' b' c' d' e' f' g' h' i'].
  unfold flag_settings. cbn [metricsAddr enableLeaderElection leaderElectionNamespace probeAddr tokenRequestAudiences
    providerVolumePath rotationPollInterval maxCallRecvMsgSize versionInfo] in *.
  repeat own_setting. rewrite Z.mul_1_r. apply settings_nil.
Qed.

Lemma chart_settings_set port interval d audiences :
  ParseDuration interval = Some d →
  settings CommandLine (chart_settings port interval audiences) default_flags (chart_flags port d audiences).
Proof.
  intros Hd. unfold chart_settings, default_flags. do 5 own_setting.
  eapply settings_cons; [reflexivity..|exact I|cbn; by rewrite Hd|]. apply settings_nil.
Qed.
End flags.

(** The parts of the flag. *)
Lemma main_audiences_parts flag :
  Join (main_audiences flag) "," = flag ∧ (main_audiences flag = [] ↔ flag = EmptyString) ∧
  Forall (λ aud, no_char comma aud = true) (main_audiences flag).
Proof.
  unfold main_audiences. destruct flag as [|a flag]; [by split_and!|].
  rewrite bool_decide_false by done. split_and!; [apply Split_Join| |apply Split_no_sep].
  split; [|done]. intros E. by destruct (Split_cons (String a flag) comma) as (? & ? & ?); congruence.
Qed.

(** The Helm chart joins the audiences with a comma and a space, and the flag is
    only split at the commas: every audience but the first gets a space. *)
Lemma main_audiences_chart a b l :
  Forall (λ aud, no_char comma aud = true) (a :: b :: l) →
  main_audiences (Join (a :: b :: l) ", ") = a :: map (String " ") (b :: l).
Proof.
  assert (∀ l a, Forall (λ aud, no_char comma aud = true) (a :: l) →
    Split (Join (a :: l) ", ") comma = a :: map (String " ") l) as HS.
  { clear. induction l as [|b l IH]; intros a [Ha Hl]%Forall_cons; [by apply Split_plain|].
    change (Join (a :: b :: l) ", ") with (a +:+ String comma (String " " (Join (b :: l) ", "))).
    rewrite Split_first by done. f_equal. cbn [Split]. rewrite bool_decide_false by done. by rewrite IH. }
  intros Hall. unfold main_audiences. rewrite bool_decide_false; [by apply HS|].
  rewrite Join_cons. cbn [concat_enc foldr]. destruct a; [done|]. done.
Qed.

Lemma main_audiences_single a :
  Forall (λ aud, no_char comma aud = true) [a] →
  main_audiences (Join [a] ", ") = match a with EmptyString => [] | _ => [a] end.
Proof.
  intros [Ha _]%Forall_cons. destruct a as [|c a]; [done|]. unfold main_audiences.
  change (Join [String c a] ", ") with (String c a). rewrite bool_decide_false by done. by apply Split_plain.
Qed.

(** C38: the flags say what they are given: whatever flags the libraries define,
    any values of the program's flags (64-bit numbers and durations), written as
    text, are read back; any list of settings, in any of the forms, is made in
    order, up to [--], the rest being left alone; a flag that nothing defines is
    refused wherever it comes; and with the arguments of the Helm chart the
    audiences are its audiences, all but the first with a space in front. *)
Theorem flags_parsed IsPrint_table other (tail : list string) :
  (∀ fl, in_int64 (rotationPollInterval fl) → in_int64 (maxCallRecvMsgSize fl) →
     flag_Parse IsPrint_table other ((flag_settings fl ≫= written) ++ "--" :: tail) = Parsed fl tail) ∧
  (∀ l fl, settings (CommandLine other) l default_flags fl →
     flag_Parse IsPrint_table other ((l ≫= written) ++ "--" :: tail) = Parsed fl tail) ∧
  (∀ l fl name, settings (CommandLine other) l default_flags fl → name_ok name = true →
     name ∉ ["help"; "h"] → CommandLine other name = None →
     flag_Parse IsPrint_table other ((l ≫= written) ++ ("--" +:+ name) :: tail) =
       ParseError (errors_New ("flag provided but not defined: -" +:+ name))) ∧
  (∀ port interval d audiences, ParseDuration interval = Some d →
     Forall (λ aud, no_char comma aud = true) audiences →
     flag_Parse IsPrint_table other (chart_settings port interval audiences ≫= written) = Parsed (chart_flags port d audiences) [] ∧
     main_audiences (tokenRequestAudiences (chart_flags port d audiences)) =
       match audiences with
       | [] | [EmptyString] => []
       | aud :: rest => aud :: map (String " ") rest
       end).
Proof.
  assert (∀ l fl tail, settings (CommandLine other) l default_flags fl →
    flag_Parse IsPrint_table other ((l ≫= written) ++ tail) = Parse IsPrint_table (CommandLine other) tail fl) as Hl.
  { intros l fl tail' Hs. unfold flag_Parse. by apply Parse_settings. }
  split_and!.
  - intros fl Hr Hm. rewrite (Hl _ fl); [done|]. by apply flag_settings_set.
  - intros l fl Hs. by rewrite (Hl _ fl).
  - intros l fl name Hs Hn Hh Hu. rewrite (Hl _ fl) by done. by apply (Parse_undefined IsPrint_table (CommandLine other) true).
  - intros port interval d audiences Hd Haud. split.
    + rewrite <- (app_nil_r (_ ≫= written)). rewrite (Hl _ (chart_flags port d audiences)); [done|]. by apply chart_settings_set.
    + cbn [tokenRequestAudiences chart_flags]. destruct audiences as [|a [|b l]]; [done| |].
      * rewrite main_audiences_single by done. by destruct a.
      * rewrite main_audiences_chart by done. by destruct a.
Qed.

Lemma flags_parsed_witness :
  flag_Parse (λ _, false) (λ _, None)
    (chart_settings "9090" "0s" ["vault"; "aws"] ≫= written) = Parsed (chart_flags "9090" 0 ["vault"; "aws"]) [] ∧
  flag_Parse (λ _, false) (λ _, None) ((flag_settings (chart_flags "9090" (-1) []) ≫= written) ++ ["--"; "-x"]) =
    Parsed (chart_flags "9090" (-1) []) ["-x"].
Proof.
  destruct (flags_parsed (λ _, false) (λ _, None) ["-x"]) as (Hall & _ & _ & Hchart). split.
  - refine (proj1 (Hchart "9090" "0s" 0%Z ["vault"; "aws"] _ _)); [vm_compute; reflexivity|repeat constructor].
  - apply Hall; unfold in_int64, chart_flags; cbn [rotationPollInterval maxCallRecvMsgSize]; lia.
Defined.

(** ** What the process asks of the libraries *)

Record ManagerOptions := {
  mo_UserAgent : string;
  mo_MetricsBindAddress : string;
  mo_HealthProbeBindAddress : string;
  mo_LeaderElection : bool;
  mo_LeaderElectionID : string;
  mo_LeaderElectionNamespace : string;
}.

(** [mgr.Start] runs the controller, which uses the token cache and the
    provider clients; the functions named [OrDie] end the process, which is a
    [Panic] here. *)
Class CtrlRuntime (W Conn Client : Type) := {
  ctrl_GetConfigOrDie : GoM W unit;
  ctrl_NewManager : ManagerOptions → W → option error * W;
  kubernetes_NewForConfigOrDie : GoM W unit;
  mgr_Add : W → option error * W;
  builder_Complete : bool → W → option error * W;
  mgr_AddHealthzCheck : string → W → option error * W;
  mgr_AddReadyzCheck : string → W → option error * W;
  mgr_Start : list string → GoM (Manager * PluginClientBuilder Conn Client * W) (option error);
}.

Inductive request :=
| GetConfig
| MakeManager (opts : ManagerOptions)
| MakeClient
| AddPolling
| CompleteController (polling : bool)
| AddHealthz (name : string)
| AddReadyz (name : string)
| Start (audiences : list string).

(** [ms_builder] is [None] until the builder is made. *)
Record mstate (W Conn Client : Type) := {
  ms_tokens : Manager;
  ms_builder : option (PluginClientBuilder Conn Client);
  ms_world : W;
  ms_requests : list (request * outcome (option error));
  ms_stdout : string;
}.
Arguments ms_tokens {_ _ _} _. Arguments ms_builder {_ _ _} _. Arguments ms_world {_ _ _} _.
Arguments ms_requests {_ _ _} _. Arguments ms_stdout {_ _ _} _.

(** [defer d()] before [m]: [d] runs when [m] has returned, or panicked. *)
Definition go_defer {S A} (d : GoM S unit) (m : GoM S A) : GoM S A := λ s,
  let '(o, s1) := m s in
  match d s1 with
  | (Val _, s2) => (o, s2)
  | (Panic p, s2) => (Panic p, s2)
  end.

Section main.
Context {W Conn Client : Type} `{Grpc W Conn Client, CtrlRuntime W Conn Client}.
Context (build : BuildInfo) (IsPrint_table : N → bool) (other : OtherFlags).
Local Notation state := (mstate W Conn Client).
Local Notation MM := (GoM state).

Definition set_mstate (t : Manager) (b : option (PluginClientBuilder Conn Client)) (w : W)
    (log : list (request * outcome (option error))) (s : state) : state :=
  {| ms_tokens := t; ms_builder := b; ms_world := w; ms_requests := ms_requests s ++ log; ms_stdout := ms_stdout s |}.

(** A request that answers with an error or none. *)
Definition request_err (q : request) (f : W → option error * W) (s : state) : option error * state :=
  let '(e, w) := f (ms_world s) in (e, set_mstate (ms_tokens s) (ms_builder s) w [(q, Val e)] s).
(** A request that may end the process. *)
Definition request_die (q : request) (m : GoM W unit) : MM unit := λ s,
  let '(o, w) := m (ms_world s) in
  (o, set_mstate (ms_tokens s) (ms_builder s) w
        [(q, match o with Val _ => Val None | Panic p => Panic p end)] s).

(** [mgr.Start], on the token cache and the builder. *)
Definition request_start (audiences : list string) : MM (option error) := λ s,
  match ms_builder s with
  | None => (Panic "invalid memory address or nil pointer dereference", s)
  | Some b =>
    let '(o, (t, b, w)) := mgr_Start audiences (ms_tokens s, b, ms_world s) in
    (o, set_mstate t (Some b) w [(Start audiences, o)] s)
  end.

(** [providerClients.Cleanup()]. *)
Definition providerClients_Cleanup : MM unit := λ s,
  match ms_builder s with
  | None => (Panic "invalid memory address or nil pointer dereference", s)
  | Some b =>
    let '(o, (b, w)) := Cleanup (b, ms_world s) in (o, set_mstate (ms_tokens s) (Some b) w [] s)
  end.

Definition manager_options (fl : Flags) : ManagerOptions := {|
  mo_UserAgent := GetUserAgent build "secrets-store-sync-controller";
  mo_MetricsBindAddress := metricsAddr fl;
  mo_HealthProbeBindAddress := probeAddr fl;
  mo_LeaderElection := enableLeaderElection fl;
  mo_LeaderElectionID := "29f1d54e.secret-sync.x-k8s.io";
  mo_LeaderElectionNamespace := leaderElectionNamespace fl |}.

(** The builder of the provider clients. *)
Definition new_builder (fl : Flags) : PluginClientBuilder Conn Client :=
  NewPluginClientBuilder [providerVolumePath fl] [MaxCallRecvMsgSize (maxCallRecvMsgSize fl)].

(** From the controller to the end of [runMain]. *)
Definition run_controller_main (fl : Flags) : MM (option error) :=
  let audiences := main_audiences (tokenRequestAudiences fl) in
  err ← SetupWithManager (request_err AddPolling mgr_Add)
          (λ polling, request_err (CompleteController polling) (builder_Complete polling)) (rotationPollInterval fl);
  match err with
  | Some err => mret (Some err)
  | None =>
    err ← act (request_err (AddHealthz "healthz") (mgr_AddHealthzCheck "healthz"));
    match err with
    | Some err => mret (Some err)
    | None =>
      err ← act (request_err (AddReadyz "readyz") (mgr_AddReadyzCheck "readyz"));
      match err with
      | Some err => mret (Some err)
      | None =>
        err ← request_start audiences;
        match err with Some err => mret (Some err) | None => mret None end
      end
    end
  end.

Definition runMain (fl : Flags) : MM (option error) :=
  if versionInfo fl then
    _ ← modify (λ s, {| ms_tokens := ms_tokens s; ms_builder := ms_builder s; ms_world := ms_world s;
                        ms_requests := ms_requests s; ms_stdout := ms_stdout s +:+ PrintVersion build |});
    mret None
  else
    _ ← request_die GetConfig ctrl_GetConfigOrDie;
    err ← act (request_err (MakeManager (manager_options fl)) (ctrl_NewManager (manager_options fl)));
    match err with
    | Some err => mret (Some err)
    | None =>
      _ ← request_die GetConfig ctrl_GetConfigOrDie;
      _ ← request_die MakeClient kubernetes_NewForConfigOrDie;
      _ ← modify (λ s, set_mstate (NewManager true) (Some (new_builder fl)) (ms_world s) [] s);
      go_defer providerClients_Cleanup (run_controller_main fl)
    end.

(** [main], with the arguments of the process, and its exit code.  [flag.Parse]
    is the first thing [runMain] does; it ends the process itself when it is asked
    for help or does not understand. *)
Definition main (args : list string) : GoM state N :=
  match flag_Parse IsPrint_table other args with
  | ErrHelp => mret 0%N
  | ParseError _ => mret 2%N
  | Parsed fl _ =>
    err ← runMain fl;
    match err with
    | Some _ => mret 1%N
    | None => mret 0%N
    end
  end.

(** ** What the process does, as a list *)

(** The requests of a run that goes well, in order. *)
Definition before_builder (fl : Flags) : list request := [GetConfig; MakeManager (manager_options fl); GetConfig; MakeClient].
Definition after_builder (fl : Flags) : list request :=
  (if (0 <? rotationPollInterval fl)%Z then [AddPolling; CompleteController true] else [CompleteController false]) ++
  [AddHealthz "healthz"; AddReadyz "readyz"; Start (main_audiences (tokenRequestAudiences fl))].

(** The requests in their order, each only after those before it have
    succeeded; the first that fails gives the result. *)
Fixpoint started (plan : list request) (log : list (request * outcome (option error))) (o : outcome (option error)) : Prop :=
  match plan with
  | [] => log = [] ∧ o = Val None
  | q :: plan => ∃ a rest, log = (q, a) :: rest ∧
      match a with
      | Val None => started plan rest o
      | _ => rest = [] ∧ o = a
      end
  end.

Lemma wp_request_err q f Q (s : state) :
  (∀ e w, Q (Val e) (set_mstate (ms_tokens s) (ms_builder s) w [(q, Val e)] s)) → wp (act (request_err q f)) Q s.
Proof. intros HQ. apply wp_act. unfold request_err. destruct (f (ms_world s)). apply HQ. Qed.
Lemma wp_request_die q m Q (s : state) :
  (∀ w, Q (Val tt) (set_mstate (ms_tokens s) (ms_builder s) w [(q, Val None)] s)) →
  (∀ p w, Q (Panic p) (set_mstate (ms_tokens s) (ms_builder s) w [(q, Panic p)] s)) →
  wp (request_die q m) Q s.
Proof. intros HV HP. unfold wp, request_die. destruct (m (ms_world s)) as [[[]|p] w]; [apply HV|apply HP]. Qed.
Lemma wp_go_defer {A} d (m : MM A) Q (s : state) :
  wp m (λ o s1, wp d (λ o' s2, match o' with Val _ => Q o s2 | Panic p => Q (Panic p) s2 end) s1) s → wp (go_defer d m) Q s.
Proof. unfold wp, go_defer. destruct (m s) as [o s1]. cbn [fst snd]. by destruct (d s1) as [[|] s2]. Qed.

(** The state after a part of the run: what it added to the record. *)
Definition added (s s' : state) (log : list (request * outcome (option error))) : Prop :=
  ms_requests s' = ms_requests s ++ log ∧ ms_stdout s' = ms_stdout s.
Lemma added_trans (s s1 s2 : state) l1 l2 : added s s1 l1 → added s1 s2 l2 → added s s2 (l1 ++ l2).
Proof. intros [E1 O1] [E2 O2]. split; [by rewrite E2, E1, app_assoc|congruence]. Qed.
Lemma added_set t b w log (s : state) : added s (set_mstate t b w log s) log.
Proof. done. Qed.

(** One more request that was answered well, or the one that ends it. *)
Lemma started_next q plan log o : started plan log o → started (q :: plan) ((q, Val None) :: log) o.
Proof. intros Hs. by exists (Val None), log. Qed.
Lemma started_stop q plan (a : outcome (option error)) : a ≠ Val None → started (q :: plan) [(q, a)] a.
Proof. intros Ha. exists a, []. split; [done|]. by destruct a as [[]|]. Qed.

(** What is left of the builder: nothing, and the connections [Start] has left
    are closed. *)
Definition cleaned_up (fl : Flags) (log : list (request * outcome (option error))) (o : outcome (option error)) (s' : state) : Prop :=
  (∀ b, ms_builder s' = Some b → pcb_clients b = ∅ ∧ pcb_conns b = ∅) ∧
  ∀ audiences a, (Start audiences, a) ∈ log → ∃ w0 t b w,
    mgr_Start audiences (NewManager true, new_builder fl, w0) = (o, (t, b, w)) ∧
    ms_world s' = foldl (λ w kc, (Conn_Close kc.2 w).2) w (map_to_list (pcb_conns b)).

(** The state while the controller is set up. *)
Definition set_up (fl : Flags) (s : state) : Prop :=
  ms_tokens s = NewManager true ∧ ms_builder s = Some (new_builder fl).

Lemma wp_Cleanup Q (s : state) b :
  ms_builder s = Some b →
  (∀ s', added s s' [] → ms_builder s' = Some (set_clients ∅ ∅ b) →
     ms_world s' = foldl (λ w kc, (Conn_Close kc.2 w).2) (ms_world s) (map_to_list (pcb_conns b)) → Q (Val tt) s') →
  wp providerClients_Cleanup Q s.
Proof.
  intros Hb HQ. unfold wp, providerClients_Cleanup. rewrite Hb, Cleanup_eq. apply HQ; [|done..].
  split; [|done]. cbn. by rewrite app_nil_r.
Qed.

Definition no_start (q : request) : bool := match q with Start _ => false | _ => true end.

(** A part of the run that follows a plan and ends as [E] says. *)
Definition follows (E : list (request * outcome (option error)) → outcome (option error) → state → Prop)
    (plan : list request) (s : state) (o : outcome (option error)) (s' : state) : Prop :=
  ∃ log, added s s' log ∧ started plan log o ∧ E log o s'.
(** Requests other than [Start] do not matter to the end. *)
Definition skips (E : list (request * outcome (option error)) → outcome (option error) → state → Prop) : Prop :=
  ∀ q a log o s', no_start q = true → E log o s' → E ((q, a) :: log) o s'.

Lemma follows_stop E q plan s (a : outcome (option error)) s' :
  added s s' [(q, a)] → a ≠ Val None → E [(q, a)] a s' → follows E (q :: plan) s a s'.
Proof. intros ???. exists [(q, a)]. split_and!; [done|by apply started_stop|done]. Qed.
Lemma follows_next E q plan s s1 o s' :
  skips E → no_start q = true → added s s1 [(q, Val None)] → follows E plan s1 o s' → follows E (q :: plan) s o s'.
Proof.
  intros HE Hq Ha (log & Hadd & Hst & Hend). exists ((q, Val None) :: log).
  split_and!; [by eapply (added_trans _ _ _ [_])|by apply started_next|by apply HE].
Qed.
Lemma wp_next E q plan s s1 m :
  skips E → no_start q = true → added s s1 [(q, Val None)] →
  wp m (follows E plan s1) s1 → wp m (follows E (q :: plan) s) s1.
Proof. intros HE Hq Ha Hm. eapply wp_mono; [exact Hm|]. intros o s'. by apply follows_next. Qed.

Lemma start_elem audiences q (a a' : outcome (option error)) log :
  no_start q = true → (Start audiences, a) ∈ (q, a') :: log → (Start audiences, a) ∈ log.
Proof. intros Hq [[= <- _]|?]%elem_of_cons; done. Qed.

(** Up to [Start], nothing is registered with the builder. *)
Definition ran (fl : Flags) (log : list (request * outcome (option error))) (o : outcome (option error)) (s' : state) : Prop :=
  set_up fl s' ∧ (∀ audiences a, (Start audiences, a) ∉ log) ∨
  ∃ audiences w0 t b, mgr_Start audiences (NewManager true, new_builder fl, w0) = (o, (t, b, ms_world s')) ∧
    ms_builder s' = Some b ∧ ∀ audiences' a, (Start audiences', a) ∈ log → audiences' = audiences.

Lemma ran_skips fl : skips (ran fl).
Proof.
  intros q a log o s' Hq [[Hset Hno]|(auds & w0 & t & b & E & Hb & Hl)]; [left|right].
  - split; [done|]. intros audiences a' ?%start_elem; [|done]. by apply (Hno audiences a').
  - exists auds, w0, t, b. split_and!; [done..|]. intros audiences' a' ?%start_elem; [|done]. by eapply Hl.
Qed.
Lemma ran_stop fl q s e s' :
  set_up fl s' → no_start q = true → added s s' [(q, Val (Some e))] → ran fl [(q, Val (Some e))] (Val (Some e)) s'.
Proof.
  intros Hs Hq _. left. split; [done|]. by intros audiences a ?%start_elem%not_elem_of_nil.
Qed.
Lemma cleaned_up_skips fl : skips (cleaned_up fl).
Proof. intros q a log o s' Hq [Hb Hl]. split; [done|]. intros audiences a' ?%start_elem; [|done]. by eapply Hl. Qed.
Lemma cleaned_up_stop fl q a o (s' : state) : no_start q = true → ms_builder s' = None → cleaned_up fl [(q, a)] o s'.
Proof. intros Hq E. split; [by rewrite E|]. by intros audiences a' ?%start_elem%not_elem_of_nil. Qed.

Lemma wp_ask fl q f Q (s : state) :
  set_up fl s → (∀ e s', set_up fl s' → added s s' [(q, Val e)] → Q (Val e) s') → wp (act (request_err q f)) Q s.
Proof. intros Hs HQ. apply wp_request_err. intros e w. by apply HQ. Qed.

Ltac stop := wp_steps; eapply follows_stop; [done|done|by eapply ran_stop].
Ltac next := eapply wp_next; [by apply ran_skips|done|done|].

Lemma wp_start fl (s : state) audiences :
  set_up fl s →
  wp (err ← request_start audiences; match err with Some err => mret (Some err) | None => mret None end)
    (follows (ran fl) [Start audiences] s) s.
Proof.
  intros [Ht Hb]. wp_step. unfold wp, request_start. rewrite Hb, Ht.
  destruct (mgr_Start _ _) as [o [[t b] w]] eqn:E. cbn [fst snd].
  assert (follows (ran fl) [Start audiences] s o (set_mstate t (Some b) w [(Start audiences, o)] s)) as HF.
  { exists [(Start audiences, o)]. split_and!; [done| |].
    - destruct o as [[e|]|p]; [by apply started_stop|by apply started_next|by apply started_stop].
    - right. exists audiences, (ms_world s), t, b. split_and!; [done..|]. by intros audiences' a [= -> _]%list_elem_of_singleton. }
  by destruct o as [[e|]|p].
Qed.

Lemma wp_run_controller_main fl (s : state) :
  set_up fl s → wp (run_controller_main fl) (follows (ran fl) (after_builder fl) s) s.
Proof.
  assert (∀ s, set_up fl s → wp
    (err ← act (request_err (AddHealthz "healthz") (mgr_AddHealthzCheck "healthz"));
     match err with
     | Some err => mret (Some err)
     | None =>
       err ← act (request_err (AddReadyz "readyz") (mgr_AddReadyzCheck "readyz"));
       match err with
       | Some err => mret (Some err)
       | None =>
         err ← request_start (main_audiences (tokenRequestAudiences fl));
         match err with Some err => mret (Some err) | None => mret None end
       end
     end) (follows (ran fl) [AddHealthz "healthz"; AddReadyz "readyz"; Start (main_audiences (tokenRequestAudiences fl))] s) s) as Htail.
  { intros s1 Hs. wp_step. apply (wp_ask fl); [done|]. intros [e|] s2 Hs2 Ha2; [stop|].
    next. wp_step. apply (wp_ask fl); [done|]. intros [e|] s3 Hs3 Ha3; [stop|].
    next. by apply wp_start. }
  intros Hs. unfold run_controller_main, SetupWithManager, after_builder. wp_step.
  destruct (0 <? rotationPollInterval fl)%Z.
  - wp_step. apply (wp_ask fl); [done|]. intros [e|] s2 Hs2 Ha2; [stop|].
    apply (wp_ask fl); [done|]. intros [e|] s3 Hs3 Ha3.
    + wp_steps. eapply follows_next; [by apply ran_skips|done|done|]. eapply follows_stop; [done|done|by eapply ran_stop].
    + eapply wp_mono; [by apply (Htail s3)|]. intros o s' Hf.
      do 2 (eapply follows_next; [by apply ran_skips|done|done|]). done.
  - apply (wp_ask fl); [done|]. intros [e|] s2 Hs2 Ha2; [stop|]. next. by apply Htail.
Qed.

(** With the deferred clean-up. *)
Lemma wp_deferred fl (s : state) :
  set_up fl s →
  wp (go_defer providerClients_Cleanup (run_controller_main fl)) (follows (cleaned_up fl) (after_builder fl) s) s.
Proof.
  intros Hs. apply wp_go_defer. eapply wp_mono; [by apply wp_run_controller_main|].
  intros o s1 (log & Ha & Hst & Hend).
  assert (∃ b, ms_builder s1 = Some b) as [b Hb] by (destruct Hend as [[[_ E] _]|(? & ? & ? & ? & _ & E & _)]; eauto).
  apply (wp_Cleanup _ _ b Hb). intros s2 Ha2 Hb2 Hw2. exists log.
  split_and!; [by rewrite <- (app_nil_r log); eapply added_trans|done|]. split.
  { rewrite Hb2. by intros ? [= <-]. }
  intros audiences a Hin. destruct Hend as [[_ Hno]|(auds & w0 & t & b' & E & Hb' & Hl)].
  { by apply Hno in Hin. }
  apply Hl in Hin as ->. assert (b' = b) as -> by congruence. by exists w0, t, b, (ms_world s1).
Qed.

Lemma wp_runMain fl (s : state) :
  ms_builder s = None → versionInfo fl = false →
  wp (runMain fl) (follows (cleaned_up fl) (before_builder fl ++ after_builder fl) s) s.
Proof.
  intros Hb Hv. unfold runMain, before_builder. rewrite Hv. cbn [app].
  pose proof (cleaned_up_skips fl) as HE.
  wp_step. apply wp_request_die; [|intros p w; by apply follows_stop; [..|apply cleaned_up_stop]].
  intros w1. eapply wp_next; [done..|]. wp_step. apply wp_request_err.
  intros [e|] w2; [wp_steps; by apply follows_stop; [..|apply cleaned_up_stop]|].
  eapply wp_next; [done..|]. wp_step. apply wp_request_die; [|intros p w; by apply follows_stop; [..|apply cleaned_up_stop]].
  intros w3. eapply wp_next; [done..|]. wp_step. apply wp_request_die; [|intros p w; by apply follows_stop; [..|apply cleaned_up_stop]].
  intros w4. eapply wp_next; [done..|]. wp_steps. eapply wp_mono; [by apply wp_deferred|].
  intros o s' (log & [E1 E2] & Hst & Hc). exists log. split_and!; [|done..]. split; [|done]. rewrite E1. cbn. by rewrite app_nil_r.
Qed.

(** C39: [main] ends at once with code 2 when the arguments are not understood and
    with 0 when they ask for help; with [-version] it prints the version and asks
    for nothing; otherwise it makes the requests of the plan in order, with the
    audiences and addresses of the flags, each only after those before it have
    succeeded, and the exit code is 1 exactly when one has failed; and however the
    run ends, panics included, no provider client is left and each connection that
    [Start] left registered has been closed (a connection that a race of two calls
    of [Get] has dropped is not registered, and stays open).  The audiences are the parts of the flag
    between its commas, none for the empty flag. *)
Theorem main_correct args (s : state) :
  ms_builder s = None →
  let '(o, s') := main args s in
  match flag_Parse IsPrint_table other args with
  | ErrHelp => o = Val 0%N ∧ s' = s
  | ParseError _ => o = Val 2%N ∧ s' = s
  | Parsed fl _ =>
    (if versionInfo fl then o = Val 0%N ∧ ms_requests s' = ms_requests s ∧ ms_stdout s' = ms_stdout s +:+ PrintVersion build
     else ∃ log result, ms_requests s' = ms_requests s ++ log ∧ ms_stdout s' = ms_stdout s ∧
       started (before_builder fl ++ after_builder fl) log result ∧
       o = match result with Val None => Val 0%N | Val (Some _) => Val 1%N | Panic p => Panic p end ∧
       cleaned_up fl log result s') ∧
    Join (main_audiences (tokenRequestAudiences fl)) "," = tokenRequestAudiences fl ∧
    (main_audiences (tokenRequestAudiences fl) = [] ↔ tokenRequestAudiences fl = EmptyString) ∧
    Forall (λ aud, no_char comma aud = true) (main_audiences (tokenRequestAudiences fl))
  end.
Proof.
  intros Hb. run_wp. unfold main. destruct (flag_Parse IsPrint_table other args) as [fl rest| |e]; [|by wp_steps..]. wp_step.
  destruct (versionInfo fl) eqn:Hv.
  - unfold runMain. rewrite Hv. wp_steps. by split; [|apply main_audiences_parts].
  - eapply wp_mono; [by apply wp_runMain|]. intros o s' (log & [E1 E2] & Hst & Hc).
    assert (∀ o', o' = match o with Val None => Val 0%N | Val (Some _) => Val 1%N | Panic p => Panic p end →
      (∃ log result, ms_requests s' = ms_requests s ++ log ∧ ms_stdout s' = ms_stdout s ∧
        started (before_builder fl ++ after_builder fl) log result ∧
        o' = match result with Val None => Val 0%N | Val (Some _) => Val 1%N | Panic p => Panic p end ∧
        cleaned_up fl log result s')) as Hmain by (intros o' ->; by exists log, o).
    destruct o as [[e|]|p]; wp_steps; (split; [by apply Hmain|apply main_audiences_parts]).
Qed.
End main.

(** ** Witness: a manager whose controller connects to one provider *)

#[export] Instance fixture_runtime : CtrlRuntime pworld nat nat := {
  ctrl_GetConfigOrDie := mret tt;
  ctrl_NewManager := λ _ w, (None, w);
  kubernetes_NewForConfigOrDie := mret tt;
  mgr_Add := λ w, (None, w);
  builder_Complete := λ _ w, (None, w);
  mgr_AddHealthzCheck := λ _ w, (None, w);
  mgr_AddReadyzCheck := λ _ w, (None, w);
  mgr_Start := λ audiences s,
    let '(t, b, w) := s in
    let '(_, (b, w)) := Provider.Get quote_table "vault" (b, w) in
    (Val (Some (errors_New "leader election lost")), (t, b, w));
}.

(** The command line of the chart with two audiences, and leader election in a
    namespace. *)
Definition two_audiences : list string :=
  (chart_settings "8085" "12h" ["vault"; "aws"] ≫= written) ++ ["-leader-election-namespace"; "sync"].
Definition process : mstate pworld nat nat := {|
  ms_tokens := NewManager false; ms_builder := None; ms_world := provider_start.2; ms_requests := []; ms_stdout := EmptyString |}.

Definition no_flags : OtherFlags := λ _, None.

(** The manager runs, fails, and the connection is closed. *)
Lemma main_correct_witness :
  let '(o, s') := main test_build quote_table no_flags two_audiences process in
  o = Val 1%N ∧ pw_closed (ms_world s') = [0] ∧
  ∃ fl log result, flag_Parse quote_table no_flags two_audiences = Parsed fl [] ∧
    main_audiences (tokenRequestAudiences fl) = ["vault"; " aws"] ∧ ms_requests s' = log ∧
    started (before_builder test_build fl ++ after_builder fl) log result ∧
    cleaned_up fl log result s' ∧ length log = 9.
Proof.
  pose proof (main_correct test_build quote_table no_flags two_audiences process eq_refl) as HM.
  assert (HV : (main test_build quote_table no_flags two_audiences process).1 = Val 1%N) by (vm_compute; reflexivity).
  assert (HW : pw_closed (ms_world (main test_build quote_table no_flags two_audiences process).2) = [0]) by (vm_compute; reflexivity).
  assert (HL : length (ms_requests (main test_build quote_table no_flags two_audiences process).2) = 9) by (vm_compute; reflexivity).
  assert (HF : ∃ fl, flag_Parse quote_table no_flags two_audiences = Parsed fl [] ∧ versionInfo fl = false ∧
    main_audiences (tokenRequestAudiences fl) = ["vault"; " aws"]) by (eexists; split_and!; vm_compute; reflexivity).
  destruct HF as (fl & HF & Hv & Ha). rewrite HF, Hv in HM.
  destruct (main test_build quote_table no_flags two_audiences process) as [o s'].
  split; [exact HV|]. split; [exact HW|].
  destruct HM as [(log & result & H1 & _ & H2 & _ & H3) _].
  exists fl, log, result. split; [exact HF|]. split; [exact Ha|]. split; [exact H1|]. split; [exact H2|]. split; [exact H3|].
  cbn [ms_requests process app] in H1. cbn [snd] in HL. rewrite H1 in HL. exact HL.
Defined.
